(** * temporal-parser: lexer, offset fuser, parser and serializer

    A shallow embedding of the TypeScript sources of the temporal parser
    (lexer.ts, combineTimezoneOffsets.ts, parser.ts, parseOffset.ts,
    helpers/toInt.ts, stringify.ts) together with the properties the
    specification states about them.

    Conventions of the embedding.
    - A JavaScript string is a [string]; one [ascii] stands for one code
      unit, so the model covers the code units below 256.
    - Token offsets and the parser cursor are [nat].
    - The numbers stored in the AST are integral Numbers, carried as [Z]:
      the integers [toInt] lets through and the sums of a duration, which
      are sums of doubles ([JSNumber.add]).  Decimal printing of these
      integers is exact in JavaScript for magnitudes up to 2^53 (the safe
      integers), which is the range the statements that print work in.
    - Exceptions are values of type [Error]; a function that may throw
      returns a [Result]. *)

From Stdlib Require Import ZArith QArith Ascii String List Bool Lia DecimalString
  DecimalPos.
From stdpp Require Import base option list strings gmap.

Local Open Scope string_scope.
Local Open Scope list_scope.

(** ** Errors and results *)

Inductive LexErrorKind :=
| UnexpectedCharacter (ch : ascii)
| UnexpectedCharacterInBrackets (ch : ascii)
| UnterminatedBracket.

Inductive ParseErrorKind :=
| ExpectedButGot (expected got : string)
| ExpectedValue
| UnterminatedBracketGroup
| DurationMustStartWithP
| InvalidDurationUnitDate (unit : string)
| InvalidDurationUnitTime (unit : string)
| InvalidInteger (label s : string)
| OffsetEmpty
| OffsetBadSign (got : ascii)
| OffsetNoDigits
| OffsetBadColonFormat (raw : string)
| OffsetBadFormat (raw : string)
| OffsetHoursRange (hours : Z)
| OffsetMinutesRange (minutes : Z).

Inductive Error :=
| LexError (kind : LexErrorKind) (position : nat)
| ParseError (kind : ParseErrorKind) (position : nat)
| TypeError
| OutOfFuel.

Inductive Result (A : Type) :=
| Ok (a : A)
| Err (e : Error).
Arguments Ok {A} a.
Arguments Err {A} e.

Definition bind {A B} (r : Result A) (k : A -> Result B) : Result B :=
  match r with
  | Ok a => k a
  | Err e => Err e
  end.

Notation "'let*' x ':=' r 'in' k" := (bind r (fun x => k))
  (at level 10, x pattern, r at level 100, k at level 200).

Definition is_ok {A} (r : Result A) : bool :=
  match r with Ok _ => true | Err _ => false end.

(** ** The JavaScript string operations the sources use *)

Module JS.

(** The code units matched by the regular expression [\s] (and trimmed by
    [String.prototype.trim]) among those below 256. *)
Definition isWhitespace (c : ascii) : bool :=
  let n := nat_of_ascii c in
  (((9 <=? n) && (n <=? 13)) || (n =? 32) || (n =? 160))%nat.

Fixpoint trimStart (s : string) : string :=
  match s with
  | String c s' => if isWhitespace c then trimStart s' else s
  | EmptyString => EmptyString
  end.

(** [trimEnd]: a trailing run of white space is dropped. *)
Fixpoint trimEnd (s : string) : string :=
  match s with
  | String c s' =>
      match trimEnd s' with
      | EmptyString => if isWhitespace c then EmptyString else String c EmptyString
      | t => String c t
      end
  | EmptyString => EmptyString
  end.

Definition trim (s : string) : string := trimEnd (trimStart s).

(** [s.slice(n)] for [n >= 0]. *)
Fixpoint slice_from (n : nat) (s : string) : string :=
  match n, s with
  | S n', String _ s' => slice_from n' s'
  | _, _ => s
  end.

(** [s.slice(0, n)]. *)
Fixpoint slice_to (n : nat) (s : string) : string :=
  match n, s with
  | S n', String c s' => String c (slice_to n' s')
  | _, _ => EmptyString
  end.

(** [s.slice(a, b)] for [0 <= a <= b]. *)
Definition slice (a b : nat) (s : string) : string :=
  slice_to (b - a) (slice_from a s).

(** [s.indexOf(c)], with [None] for -1. *)
Fixpoint indexOf (c : ascii) (s : string) : option nat :=
  match s with
  | EmptyString => None
  | String d s' =>
      if Ascii.eqb d c then Some 0
      else match indexOf c s' with
           | Some i => Some (S i)
           | None => None
           end
  end.

Definition includes (c : ascii) (s : string) : bool :=
  match indexOf c s with Some _ => true | None => false end.

Definition startsWith (p s : string) : bool := String.prefix p s.

(** [s.split(c)] for a one-character separator: never empty. *)
Fixpoint split (c : ascii) (s : string) : list string :=
  match s with
  | EmptyString => [EmptyString]
  | String d s' =>
      if Ascii.eqb d c then EmptyString :: split c s'
      else match split c s' with
           | p :: ps => String d p :: ps
           | [] => [String d EmptyString]
           end
  end.

(** [parts.join(sep)]. *)
Fixpoint join (sep : string) (parts : list string) : string :=
  match parts with
  | [] => EmptyString
  | [p] => p
  | p :: ps => p +:+ sep +:+ join sep ps
  end.

Fixpoint repeat_char (c : ascii) (n : nat) : string :=
  match n with
  | 0 => EmptyString
  | S n' => String c (repeat_char c n')
  end.

(** [s.padStart(n, c)] for a one-character filler. *)
Definition padStart (n : nat) (c : ascii) (s : string) : string :=
  repeat_char c (n - String.length s) +:+ s.

End JS.

(** ** Character classes (helpers/isAlpha.ts, isDigit.ts, isBracketWordChar.ts) *)

Definition char_between (lo hi c : ascii) : bool :=
  ((nat_of_ascii lo <=? nat_of_ascii c) && (nat_of_ascii c <=? nat_of_ascii hi))%nat.

Definition isAlpha (c : ascii) : bool :=
  char_between "A" "Z" c || char_between "a" "z" c.

Definition isDigit (c : ascii) : bool := char_between "0" "9" c.

Definition isBracketWordChar (c : ascii) : bool :=
  isAlpha c || isDigit c || Ascii.eqb c "-" || Ascii.eqb c "/"
  || Ascii.eqb c "+" || Ascii.eqb c ".".

(** ** Tokens (lexer-types.ts) *)

Module TokType.
Inductive t :=
| Number | Ident
| Dash | Colon | Dot | Plus | Slash | Comma | Equals | Underscore | Exclamation
| T | Z
| LBracket | RBracket
| BracketText
| EOF.

Definition eqb (a b : t) : bool :=
  match a, b with
  | Number, Number | Ident, Ident | Dash, Dash | Colon, Colon | Dot, Dot
  | Plus, Plus | Slash, Slash | Comma, Comma | Equals, Equals
  | Underscore, Underscore | Exclamation, Exclamation | T, T | Z, Z
  | LBracket, LBracket | RBracket, RBracket | BracketText, BracketText
  | EOF, EOF => true
  | _, _ => false
  end.

(** The string value of the enum member, as it appears in messages. *)
Definition name (a : t) : string :=
  match a with
  | Number => "Number" | Ident => "Ident" | Dash => "Dash" | Colon => "Colon"
  | Dot => "Dot" | Plus => "Plus" | Slash => "Slash" | Comma => "Comma"
  | Equals => "Equals" | Underscore => "Underscore"
  | Exclamation => "Exclamation" | T => "T" | Z => "Z"
  | LBracket => "LBracket" | RBracket => "RBracket"
  | BracketText => "BracketText" | EOF => "EOF"
  end.
End TokType.

Module CombinedTokType.
Inductive t := TZOffset.
Definition name (a : t) : string := "TZOffset".
End CombinedTokType.

Record Token := mkToken {
  type : TokType.t;
  value : string;
  start : nat;
  end_ : nat
}.

Record CombinedToken := mkCombinedToken {
  ctype : CombinedTokType.t;
  cvalue : string;
  tokens : list Token;
  cstart : nat;
  cend : nat
}.

Inductive AnyToken :=
| Raw (t : Token)
| Combined (c : CombinedToken).

(** The [type] field of an [AnyToken]: a [TokType] or a [CombinedTokType]. *)
Inductive AnyTokType :=
| TT (t : TokType.t)
| CT (c : CombinedTokType.t).

Definition any_type (t : AnyToken) : AnyTokType :=
  match t with
  | Raw r => TT (type r)
  | Combined c => CT (ctype c)
  end.

Definition any_value (t : AnyToken) : string :=
  match t with
  | Raw r => value r
  | Combined c => cvalue c
  end.

Definition any_start (t : AnyToken) : nat :=
  match t with
  | Raw r => start r
  | Combined c => cstart c
  end.

Definition any_end (t : AnyToken) : nat :=
  match t with
  | Raw r => end_ r
  | Combined c => cend c
  end.

Definition AnyTokType_eqb (a b : AnyTokType) : bool :=
  match a, b with
  | TT x, TT y => TokType.eqb x y
  | CT _, CT _ => true
  | _, _ => false
  end.

Definition AnyTokType_name (a : AnyTokType) : string :=
  match a with
  | TT x => TokType.name x
  | CT c => CombinedTokType.name c
  end.

(** ** The lexer (lexer.ts)

    The scanning position is the pair of the index [i] and the unread
    suffix [rest] of the source, [rest = src.slice(i)]; [tokens] is the
    array the source pushes to. *)

Module Lexer.

(** The longest prefix whose characters satisfy [p], and what follows. *)
Fixpoint span (p : ascii -> bool) (s : string) : string * string :=
  match s with
  | String c s' =>
      if p c then let '(a, b) := span p s' in (String c a, b)
      else (EmptyString, s)
  | EmptyString => (EmptyString, EmptyString)
  end.

(** [emit(type, start, end)] with the value sliced from the source. *)
Definition emit (ty : TokType.t) (start_ : nat) (text : string) : Token :=
  mkToken ty text start_ (start_ + String.length text).

(** [lexNumber]: entered on a digit [ch] at index [i]. *)
Definition lexNumber (i : nat) (ch : ascii) (rest : string)
  : Token * nat * string :=
  let '(ds, rest') := span isDigit rest in
  let tok := emit TokType.Number i (String ch ds) in
  (tok, end_ tok, rest').

(** [lexIdent]: entered on a letter [ch] at index [i]. *)
Definition lexIdent (i : nat) (ch : ascii) (rest : string)
  : Token * nat * string :=
  if Ascii.eqb ch "T" then (mkToken TokType.T "T" i (i + 1), i + 1, rest)
  else if Ascii.eqb ch "Z" then (mkToken TokType.Z "Z" i (i + 1), i + 1, rest)
  else
    let '(ls, rest') :=
      span (fun c => isAlpha c && negb (Ascii.eqb c "T") && negb (Ascii.eqb c "Z")) rest in
    let tok := emit TokType.Ident i (String ch ls) in
    (tok, end_ tok, rest').

(** The single-character tokens of bracket mode. *)
Definition bracketPunct (ch : ascii) : option TokType.t :=
  if Ascii.eqb ch "=" then Some TokType.Equals
  else if Ascii.eqb ch "_" then Some TokType.Underscore
  else if Ascii.eqb ch ":" then Some TokType.Colon
  else if Ascii.eqb ch "-" then Some TokType.Dash
  else if Ascii.eqb ch "+" then Some TokType.Plus
  else if Ascii.eqb ch "/" then Some TokType.Slash
  else if Ascii.eqb ch "." then Some TokType.Dot
  else if Ascii.eqb ch "," then Some TokType.Comma
  else if Ascii.eqb ch "!" then Some TokType.Exclamation
  else None.

(** The regular expression [^[A-Za-z]+$]. *)
Fixpoint allAlpha (s : string) : bool :=
  match s with
  | String c s' => isAlpha c && allAlpha s'
  | EmptyString => true
  end.

Definition isLetterWord (s : string) : bool :=
  match s with
  | EmptyString => false
  | _ => allAlpha s
  end.

(** [lexBracketContent]: positioned after the opening bracket; returns at
    the closing bracket without consuming it. *)
Fixpoint lexBracketContent (fuel i : nat) (rest : string) (tokens : list Token)
  : Result (list Token * nat * string) :=
  match fuel with
  | 0 => Err OutOfFuel
  | S fuel' =>
      match rest with
      | EmptyString => Err (LexError UnterminatedBracket i)
      | String ch rest' =>
          if Ascii.eqb ch "]" then Ok (tokens, i, rest)
          else if JS.isWhitespace ch then lexBracketContent fuel' (i + 1) rest' tokens
          else
            match bracketPunct ch with
            | Some ty =>
                lexBracketContent fuel' (i + 1) rest'
                  (tokens ++ [emit ty i (String ch EmptyString)])
            | None =>
                if isBracketWordChar ch then
                  let '(w, rest'') := span isBracketWordChar rest' in
                  let text := String ch w in
                  let ty := if isLetterWord text then TokType.Ident
                            else TokType.BracketText in
                  let tok := emit ty i text in
                  lexBracketContent fuel' (end_ tok) rest'' (tokens ++ [tok])
                else Err (LexError (UnexpectedCharacterInBrackets ch) i)
            end
      end
  end.

(** The punctuation of default mode (the [switch] at the end of the loop). *)
Definition punct (ch : ascii) : option TokType.t :=
  if Ascii.eqb ch "-" then Some TokType.Dash
  else if Ascii.eqb ch ":" then Some TokType.Colon
  else if Ascii.eqb ch "." then Some TokType.Dot
  else if Ascii.eqb ch "+" then Some TokType.Plus
  else if Ascii.eqb ch "/" then Some TokType.Slash
  else if Ascii.eqb ch "," then Some TokType.Comma
  else if Ascii.eqb ch "=" then Some TokType.Equals
  else if Ascii.eqb ch "_" then Some TokType.Underscore
  else None.

(** The main [while (i < src.length)] loop. *)
Fixpoint lex_loop (fuel i : nat) (rest : string) (tokens : list Token)
  : Result (list Token) :=
  match fuel with
  | 0 => Err OutOfFuel
  | S fuel' =>
      match rest with
      | EmptyString => Ok (tokens ++ [mkToken TokType.EOF EmptyString i i])
      | String ch rest' =>
          if JS.isWhitespace ch then lex_loop fuel' (i + 1) rest' tokens
          else if Ascii.eqb ch "[" then
            let* (tokens', i', rest'') :=
              lexBracketContent (S (String.length rest')) (i + 1) rest'
                (tokens ++ [emit TokType.LBracket i (String ch EmptyString)]) in
            match rest'' with
            | String c rest''' =>
                if Ascii.eqb c "]" then
                  lex_loop fuel' (i' + 1) rest'''
                    (tokens' ++ [emit TokType.RBracket i' (String c EmptyString)])
                else Err (LexError UnterminatedBracket i')
            | EmptyString => Err (LexError UnterminatedBracket i')
            end
          else if isDigit ch then
            let '(tok, i', rest'') := lexNumber i ch rest' in
            lex_loop fuel' i' rest'' (tokens ++ [tok])
          else if isAlpha ch then
            let '(tok, i', rest'') := lexIdent i ch rest' in
            lex_loop fuel' i' rest'' (tokens ++ [tok])
          else
            match punct ch with
            | Some ty =>
                lex_loop fuel' (i + 1) rest'
                  (tokens ++ [emit ty i (String ch EmptyString)])
            | None => Err (LexError (UnexpectedCharacter ch) i)
            end
      end
  end.

End Lexer.

Definition lexTemporal (src : string) : Result (list Token) :=
  Lexer.lex_loop (S (String.length src)) 0 src [].


(** ** The offset fuser (combineTimezoneOffsets.ts) *)

Module Fuser.

(** [tok?.type === ty], giving the token when the test holds.  Only a raw
    token can carry a [TokType]. *)
Definition rawOfType (ty : TokType.t) (tok : option AnyToken) : option Token :=
  match tok with
  | Some (Raw r) => if TokType.eqb (type r) ty then Some r else None
  | _ => None
  end.

Definition typeIs (ty : TokType.t) (tok : option AnyToken) : bool :=
  match rawOfType ty tok with Some _ => true | None => false end.

(** [out[out.length - k]]. *)
Definition fromEnd (out : list AnyToken) (k : nat) : option AnyToken :=
  out !! (length out - k).

(** The closure [couldBeTzOffset], reading the tokens emitted so far. *)
Definition couldBeTzOffset (out : list AnyToken) : bool :=
  if (length out <? 1)%nat then false
  else
    let prev := fromEnd out 1 in
    match prev with
    | None => false
    | Some _ =>
        if typeIs TokType.Z prev then false
        else if typeIs TokType.RBracket prev then false
        else if typeIs TokType.Number prev then
          if (length out <? 2)%nat then false
          else
            let prevPrev := fromEnd out 2 in
            if typeIs TokType.Colon prevPrev then true
            else if typeIs TokType.Dot prevPrev then true
            else false
        else false
    end.

(** [t.type === TokType.Plus || t.type === TokType.Dash]. *)
Definition signOf (t : AnyToken) : option Token :=
  match rawOfType TokType.Plus (Some t) with
  | Some r => Some r
  | None => rawOfType TokType.Dash (Some t)
  end.

(** The two shapes tried on a sign token [t]; [peek k] is [tokens[i + k]].
    The result is the combined token and the number of tokens it covers. *)
Definition fuse (t : Token) (peek : nat -> option AnyToken)
  : option (CombinedToken * nat) :=
  match rawOfType TokType.Number (peek 1),
        rawOfType TokType.Colon (peek 2),
        rawOfType TokType.Number (peek 3) with
  | Some n1, Some c, Some n2 =>
      Some (mkCombinedToken CombinedTokType.TZOffset
              (value t +:+ value n1 +:+ ":" +:+ value n2)
              [t; n1; c; n2] (start t) (end_ n2), 4)
  | _, _, _ =>
      match rawOfType TokType.Number (peek 1) with
      | Some num =>
          if (String.length (value num) =? 2)%nat
             || (String.length (value num) =? 4)%nat then
            Some (mkCombinedToken CombinedTokType.TZOffset
                    (value t +:+ value num)
                    [t; num] (start t) (end_ num), 2)
          else None
      | None => None
      end
  end.

(** One decision of the loop at index [i]: fuse, or push the token. *)
Definition step (tokens : list AnyToken) (i : nat) (out : list AnyToken) (t : AnyToken)
  : option (CombinedToken * nat) :=
  match signOf t with
  | Some s =>
      if couldBeTzOffset out then fuse s (fun k => tokens !! (i + k)) else None
  | None => None
  end.

(** The [while (i < tokens.length)] loop; every round advances [i], so
    [length tokens] rounds suffice. *)
Fixpoint loop (fuel : nat) (tokens : list AnyToken) (i : nat) (out : list AnyToken)
  : list AnyToken :=
  match fuel with
  | 0 => out
  | S fuel' =>
      match tokens !! i with
      | None => out
      | Some t =>
          match step tokens i out t with
          | Some (tz, k) => loop fuel' tokens (i + k) (out ++ [Combined tz])
          | None => loop fuel' tokens (i + 1) (out ++ [t])
          end
      end
  end.

End Fuser.

Definition combineTimezoneOffsets (tokens : list AnyToken) : list AnyToken :=
  Fuser.loop (length tokens) tokens 0 [].

(** ** Numbers: [Number(s)], [Number.isFinite], [Number.isInteger], [toString] *)

Module JSNumber.

(** A Number value: the exact rational a finite double denotes (the two
    zeros are not told apart), an infinity, or NaN. *)
Inductive number :=
| NaN
| Infinity (negative : bool)
| Finite (q : Q).

Local Open Scope Z_scope.

(** Rounding of the quotient [n / d] ([0 <= n], [0 < d]) to the nearest
    integer, ties to even. *)
Definition roundHalfEven (n d : Z) : Z :=
  let q := n / d in
  let r := n mod d in
  if 2 * r <? d then q
  else if d <? 2 * r then q + 1
  else if Z.even q then q else q + 1.

(** The double nearest to the rational [n / d] with [0 < n], [0 < d]:
    a 53-bit significand [m] and a binary exponent [p >= -1074], as the
    pair [(m, p)] denoting [m * 2^p]. *)
Definition nearestDouble (n d : Z) : Z * Z :=
  let e0 := Z.log2 n - Z.log2 d in
  (* e = floor (log2 (n / d)) *)
  let ge :=
    if 0 <=? e0 then d * 2 ^ e0 <=? n else d <=? n * 2 ^ (- e0) in
  let e := if ge then e0 else e0 - 1 in
  let p := Z.max (e - 52) (-1074) in
  let m :=
    if 0 <=? p then roundHalfEven n (d * 2 ^ p)
    else roundHalfEven (n * 2 ^ (- p)) d in
  (m, p).

(** Rounding of a mathematical value to a Number (round to nearest, ties
    to even, overflow to infinity). *)
Definition roundToNumber (q : Q) : number :=
  let n := Z.abs (Qnum q) in
  let d := Zpos (Qden q) in
  let negative := Qnum q <? 0 in
  if n =? 0 then Finite (0 # 1)
  else
    let '(m, p) := nearestDouble n d in
    if 0 <=? p then
      let v := m * 2 ^ p in
      if 2 ^ 1024 <=? v then Infinity negative
      else Finite ((if negative then - v else v) # 1)
    else
      Finite (Qred (Qmake (if negative then - m else m) (Z.to_pos (2 ^ (- p))))).

Definition isFinite (x : number) : bool :=
  match x with Finite _ => true | _ => false end.

Definition isInteger (x : number) : bool :=
  match x with
  | Finite q => Qnum q mod Zpos (Qden q) =? 0
  | _ => false
  end.

(** The integer a finite integral Number denotes. *)
Definition toZ (x : number) : Z :=
  match x with
  | Finite q => Qnum q / Zpos (Qden q)
  | _ => 0
  end.

(** *** [Number(s)] on a string: the StringToNumber grammar *)

Definition digitValue (c : ascii) : option Z :=
  let n := Z.of_nat (nat_of_ascii c) in
  if (48 <=? n) && (n <=? 57) then Some (n - 48)
  else if (97 <=? n) && (n <=? 102) then Some (n - 87)
  else if (65 <=? n) && (n <=? 70) then Some (n - 55)
  else None.

(** The value of a digit string in the given radix, when all its
    characters are digits of that radix. *)
Fixpoint digitsValue (radix : Z) (acc : Z) (s : string) : option Z :=
  match s with
  | EmptyString => Some acc
  | String c s' =>
      match digitValue c with
      | Some v => if v <? radix then digitsValue radix (acc * radix + v) s' else None
      | None => None
      end
  end.

Definition nonEmpty (s : string) : bool :=
  match s with EmptyString => false | _ => true end.

(** [0x], [0o], [0b] literals (either letter case), unsigned. *)
Definition nonDecimalRadix (s : string) : option (Z * string) :=
  match s with
  | String "0" (String c body) =>
      if Ascii.eqb c "x" || Ascii.eqb c "X" then Some (16, body)
      else if Ascii.eqb c "o" || Ascii.eqb c "O" then Some (8, body)
      else if Ascii.eqb c "b" || Ascii.eqb c "B" then Some (2, body)
      else None
  | _ => None
  end.

(** An optional sign: [true] for a minus. *)
Definition takeSign (s : string) : bool * string :=
  match s with
  | String c s' =>
      if Ascii.eqb c "-" then (true, s')
      else if Ascii.eqb c "+" then (false, s')
      else (false, s)
  | EmptyString => (false, s)
  end.

(** The exponent part: [e] or [E], an optional sign, digits. *)
Definition exponentPart (s : string) : option Z :=
  match s with
  | EmptyString => Some 0
  | String c s' =>
      if Ascii.eqb c "e" || Ascii.eqb c "E" then
        let '(neg, ds) := takeSign s' in
        if nonEmpty ds then
          match digitsValue 10 0 ds with
          | Some v => Some (if neg then - v else v)
          | None => None
          end
        else None
      else None
  end.

(** The mathematical value of an unsigned decimal literal. *)
Definition unsignedDecimal (s : string) : option Q :=
  let '(ip, r1) := Lexer.span isDigit s in
  let '(fp, r2) :=
    match r1 with
    | String c r => if Ascii.eqb c "." then Lexer.span isDigit r else (EmptyString, r1)
    | EmptyString => (EmptyString, r1)
    end in
  if nonEmpty ip || nonEmpty fp then
    match digitsValue 10 0 (ip +:+ fp), exponentPart r2 with
    | Some m, Some e =>
        let e' := e - Z.of_nat (String.length fp) in
        Some (if 0 <=? e' then (m * 10 ^ e') # 1
              else Qmake m (Z.to_pos (10 ^ (- e'))))
    | _, _ => None
    end
  else None.

Definition ofString (s : string) : number :=
  let t := JS.trim s in
  match t with
  | EmptyString => Finite (0 # 1)
  | _ =>
      match nonDecimalRadix t with
      | Some (radix, body) =>
          if nonEmpty body then
            match digitsValue radix 0 body with
            | Some v => roundToNumber (v # 1)
            | None => NaN
            end
          else NaN
      | None =>
          let '(neg, u) := takeSign t in
          if String.eqb u "Infinity" then Infinity neg
          else
            match unsignedDecimal u with
            | Some q => roundToNumber (if neg then Qopp q else q)
            | None => NaN
            end
      end
  end.

(** *** Sums of integral Numbers

    The parser adds Numbers that hold integers, and the syntax tree keeps
    them as integers.  A sum beyond the largest double is an infinity in
    JavaScript: the integers [2^1024] and [- 2^1024], which no double
    holds, stand for [Infinity] and [-Infinity]. *)
Definition infinity (negative : bool) : Z :=
  if negative then - 2 ^ 1024 else 2 ^ 1024.

Definition isInfinity (a : Z) : bool := 2 ^ 1024 <=? Z.abs a.

(** The integer an integral Number is kept as. *)
Definition ofNumber (x : number) : Z :=
  match x with
  | Infinity negative => infinity negative
  | _ => toZ x
  end.

(** [a + b]: the exact sum rounded to a Number (to the nearest double,
    ties to even); an infinity and a finite Number give the infinity. *)
Definition add (a b : Z) : Z :=
  if isInfinity a then a
  else if isInfinity b then b
  else ofNumber (roundToNumber ((a + b) # 1)).

(** [n.toString()] for an integer: its decimal expansion, with a minus
    sign for a negative one. *)
Definition toString (n : Z) : string :=
  DecimalString.NilZero.string_of_int (Z.to_int n).

End JSNumber.

(** ** helpers/toInt.ts *)

Definition toInt (s label : string) (position : nat) : Result Z :=
  let n := JSNumber.ofString s in
  if negb (JSNumber.isFinite n) || negb (JSNumber.isInteger n) then
    Err (ParseError (InvalidInteger label s) position)
  else Ok (JSNumber.toZ n).

(** ** The AST (parser-types.ts)

    A value is a date-time or a duration, the two kinds the parser builds
    and the serializer prints. *)

Inductive Sign := SignPlus | SignMinus.

Definition Sign_text (s : Sign) : string :=
  match s with SignPlus => "+" | SignMinus => "-" end.

Inductive OffsetAst :=
| UtcOffset
| NumericOffset (sign : Sign) (hours minutes : Z) (raw : string).

Record DateAst := mkDate {
  year : Z;
  month : option Z;
  day : option Z
}.

Record TimeAst := mkTime {
  hour : Z;
  minute : Z;
  second : option Z;
  fraction : option string
}.

Record TimeZoneAst := mkTimeZone {
  tz_id : string;
  tz_critical : bool
}.

(** A value of the [pairs] record: a string, or [true] for a flag. *)
Inductive PairValue :=
| PairTrue
| PairText (s : string).

Record AnnotationAst := mkAnnotation {
  ann_raw : string;
  ann_critical : bool;
  ann_pairs : gmap string PairValue
}.

Record DateTimeAst := mkDateTime {
  date : DateAst;
  time : option TimeAst;
  offset : option OffsetAst;
  timeZone : option TimeZoneAst;
  annotations : list AnnotationAst
}.

Record DurationAst := mkDuration {
  years : option Z;
  months : option Z;
  weeks : option Z;
  days : option Z;
  hours : option Z;
  minutes : option Z;
  seconds : option Z;
  secondsFraction : option string;
  dur_raw : string;
  dur_annotations : list AnnotationAst
}.

Inductive ValueAst :=
| DateTime (d : DateTimeAst)
| Duration (d : DurationAst).

Inductive TemporalAst :=
| Range (start_ end_ : option ValueAst)
| Value (v : ValueAst).

(** ** The offset parser (parseOffset.ts) *)

Definition MAX_OFFSET_HOURS : Z := 14.
Definition MAX_MINUTES : Z := 59.

Definition parseOffset (offsetString : string) (position : nat) : Result OffsetAst :=
  match offsetString with
  | EmptyString => Err (ParseError OffsetEmpty position)
  | String sign rest =>
      let raw := offsetString in
      let* validSign :=
        (if Ascii.eqb sign "+" then Ok SignPlus
         else if Ascii.eqb sign "-" then Ok SignMinus
         else Err (ParseError (OffsetBadSign sign) position)) in
      if (String.length rest =? 0)%nat then Err (ParseError OffsetNoDigits position)
      else
        let* (hours, minutes) :=
          (if JS.includes ":" rest then
             match JS.split ":" rest with
             | [h; m] =>
                 let* hours := toInt h "offset hours" position in
                 let* minutes := toInt m "offset minutes" position in
                 Ok (hours, minutes)
             | _ => Err (ParseError (OffsetBadColonFormat raw) position)
             end
           else if (String.length rest =? 4)%nat then
             let* hours := toInt (JS.slice 0 2 rest) "offset hours" position in
             let* minutes := toInt (JS.slice 2 4 rest) "offset minutes" position in
             Ok (hours, minutes)
           else if (String.length rest =? 2)%nat then
             let* hours := toInt rest "offset hours" position in
             Ok (hours, 0%Z)
           else Err (ParseError (OffsetBadFormat raw) position)) in
        if ((hours <? 0) || (MAX_OFFSET_HOURS <? hours))%Z then
          Err (ParseError (OffsetHoursRange hours) position)
        else if ((minutes <? 0) || (MAX_MINUTES <? minutes))%Z then
          Err (ParseError (OffsetMinutesRange minutes) position)
        else Ok (NumericOffset validSign hours minutes raw)
  end.

(** ** The recursive-descent parser (parser.ts)

    [M A] is a computation of the [Parser] class: it reads the token array
    [toks], threads the cursor [this.i] and may throw.  The [while] loops
    take a bound on their rounds; [S (length toks)] rounds are enough for
    an array that ends with the end-of-input token, and [OutOfFuel] then
    stands for a loop that does not stop (which needs an array without
    that token). *)

Module Parser.

Definition M (A : Type) : Type := nat -> Result (A * nat).

Definition ret {A} (a : A) : M A := fun i => Ok (a, i).

Definition bindM {A B} (m : M A) (k : A -> M B) : M B :=
  fun i => match m i with
           | Ok (a, i') => k a i'
           | Err e => Err e
           end.

Notation "'let+' x ':=' m 'in' k" := (bindM m (fun x => k))
  (at level 10, x pattern, m at level 100, k at level 200).

(** [throw new ParseError(kind, this.i)]. *)
Definition throwAt {A} (kind : ParseErrorKind) : M A :=
  fun i => Err (ParseError kind i).

Definition diverge {A} : M A := fun _ => Err OutOfFuel.

Definition position : M nat := fun i => Ok (i, i).

(** [this.i++]. *)
Definition advance : M unit := fun i => Ok (tt, S i).

(** A call of a function that may throw. *)
Definition lift {A} (r : Result A) : M A :=
  fun i => match r with Ok a => Ok (a, i) | Err e => Err e end.

(** A record with the three results of [parseBracketGroup] the callers
    read next to [pairs]. *)
Record BracketGroup := mkBracketGroup {
  raw : string;
  critical : bool;
  pairs : gmap string PairValue;
  isLikelyTzId : bool
}.

(** The accumulator [dur] of [parseDuration]. *)
Record Dur := mkDur {
  d_years : option Z;
  d_months : option Z;
  d_weeks : option Z;
  d_days : option Z;
  d_hours : option Z;
  d_minutes : option Z;
  d_seconds : option Z;
  d_secondsFraction : option string
}.

Definition emptyDur : Dur := mkDur None None None None None None None None.

(** [(x ?? 0) + n], a sum of Numbers. *)
Definition accumulate (x : option Z) (n : Z) : option Z :=
  Some (JSNumber.add (default 0%Z x) n).

(** The unit dispatch of [parseDuration]. *)
Definition addUnit (inTime : bool) (unit : string) (n : Z)
    (fraction : option string) (dur : Dur) : M Dur :=
  let '(mkDur y mo w d h mi s sf) := dur in
  if negb inTime then
    if String.eqb unit "Y" then ret (mkDur (accumulate y n) mo w d h mi s sf)
    else if String.eqb unit "M" then ret (mkDur y (accumulate mo n) w d h mi s sf)
    else if String.eqb unit "W" then ret (mkDur y mo (accumulate w n) d h mi s sf)
    else if String.eqb unit "D" then ret (mkDur y mo w (accumulate d n) h mi s sf)
    else throwAt (InvalidDurationUnitDate unit)
  else
    if String.eqb unit "H" then ret (mkDur y mo w d (accumulate h n) mi s sf)
    else if String.eqb unit "M" then ret (mkDur y mo w d h (accumulate mi n) s sf)
    else if String.eqb unit "S" then
      ret (mkDur y mo w d h mi (accumulate s n)
             (match fraction with
              | Some f => if (0 <? String.length f)%nat then Some f else sf
              | None => sf
              end))
    else throwAt (InvalidDurationUnitTime unit).

(** [pairs[k] = v]: a plain object ignores an assignment of a primitive
    to its [__proto__] accessor. *)
Definition setPair (k : string) (v : PairValue) (pairs : gmap string PairValue)
  : gmap string PairValue :=
  if String.eqb k "__proto__" then pairs else <[k := v]> pairs.

(** [v || true]. *)
Definition textOrTrue (v : string) : PairValue :=
  match v with EmptyString => PairTrue | _ => PairText v end.

(** The body of the loop over the segments of a bracket group. *)
Definition addSegment (pairs : gmap string PairValue) (seg : string)
  : gmap string PairValue :=
  match JS.indexOf "=" seg with
  | None => setPair seg PairTrue pairs
  | Some eq =>
      let k := JS.trim (JS.slice 0 eq seg) in
      let v := JS.trim (JS.slice_from (eq + 1) seg) in
      if JSNumber.nonEmpty k then setPair k (textOrTrue v) pairs else pairs
  end.

(** The heuristic at the end of [parseBracketGroup]. *)
Definition likelyTzId (contentToParse : string) : bool :=
  match JS.indexOf "=" contentToParse with
  | None => JS.includes "/" contentToParse || JS.startsWith "Etc/" contentToParse
  | Some _ => false
  end.

Section WithTokens.

Variable toks : list AnyToken.

Definition peek (k : nat) : M AnyToken :=
  fun i => match toks !! Nat.min (i + k) (length toks - 1) with
           | Some t => Ok (t, i)
           | None => Err TypeError
           end.

Definition at_ (ty : AnyTokType) : M bool :=
  let+ t := peek 0 in
  ret (AnyTokType_eqb (any_type t) ty).

Definition eat (ty : AnyTokType) : M AnyToken :=
  let+ t := peek 0 in
  if negb (AnyTokType_eqb (any_type t) ty) then
    throwAt (ExpectedButGot (AnyTokType_name ty) (AnyTokType_name (any_type t)))
  else
    let+ _ := advance in
    ret t.

Definition tryEat (ty : AnyTokType) : M (option AnyToken) :=
  let+ b := at_ ty in
  if b then
    let+ t := eat ty in
    ret (Some t)
  else ret None.

Definition eof : M bool := at_ (TT TokType.EOF).

Definition parseDate : M DateAst :=
  let+ yTok := eat (TT TokType.Number) in
  let+ i := position in
  let+ year := lift (toInt (any_value yTok) "year" i) in
  let+ dash := tryEat (TT TokType.Dash) in
  match dash with
  | None => ret (mkDate year None None)
  | Some _ =>
      let+ mTok := eat (TT TokType.Number) in
      let+ i := position in
      let+ month := lift (toInt (any_value mTok) "month" i) in
      let+ dash := tryEat (TT TokType.Dash) in
      match dash with
      | None => ret (mkDate year (Some month) None)
      | Some _ =>
          let+ dTok := eat (TT TokType.Number) in
          let+ i := position in
          let+ day := lift (toInt (any_value dTok) "day" i) in
          ret (mkDate year (Some month) (Some day))
      end
  end.

Definition parseTime : M TimeAst :=
  let+ hTok := eat (TT TokType.Number) in
  let+ i := position in
  let+ hour := lift (toInt (any_value hTok) "hour" i) in
  let+ _ := eat (TT TokType.Colon) in
  let+ minTok := eat (TT TokType.Number) in
  let+ i := position in
  let+ minute := lift (toInt (any_value minTok) "minute" i) in
  let+ colon := tryEat (TT TokType.Colon) in
  match colon with
  | Some _ =>
      let+ sTok := eat (TT TokType.Number) in
      let+ i := position in
      let+ second := lift (toInt (any_value sTok) "second" i) in
      let+ dot := tryEat (TT TokType.Dot) in
      match dot with
      | Some _ =>
          let+ fracTok := eat (TT TokType.Number) in
          ret (mkTime hour minute (Some second) (Some (any_value fracTok)))
      | None => ret (mkTime hour minute (Some second) None)
      end
  | None => ret (mkTime hour minute None None)
  end.

Definition parseOffsetIfPresent : M (option OffsetAst) :=
  let+ z := tryEat (TT TokType.Z) in
  match z with
  | Some _ => ret (Some UtcOffset)
  | None =>
      let+ tz := at_ (CT CombinedTokType.TZOffset) in
      if tz then
        let+ t := eat (CT CombinedTokType.TZOffset) in
        let+ i := position in
        let+ o := lift (parseOffset (any_value t) i) in
        ret (Some o)
      else ret None
  end.

(** The loop of [parseBracketGroup] that gathers the token texts up to
    the closing bracket. *)
Fixpoint gatherParts (fuel : nat) (parts : list string) : M (list string) :=
  match fuel with
  | 0 => diverge
  | S fuel' =>
      let+ closing := at_ (TT TokType.RBracket) in
      if closing then ret parts
      else
        let+ e := eof in
        if e then throwAt UnterminatedBracketGroup
        else
          let+ t := peek 0 in
          let+ _ := advance in
          gatherParts fuel' (parts ++ [any_value t])
  end.

Definition parseBracketGroup (fuel : nat) : M BracketGroup :=
  let+ _ := eat (TT TokType.LBracket) in
  let+ bang := tryEat (TT TokType.Exclamation) in
  let critical := match bang with Some _ => true | None => false end in
  let+ parts := gatherParts fuel (if critical then ["!"] else []) in
  let+ _ := eat (TT TokType.RBracket) in
  let raw := JS.join "" parts in
  let contentToParse := if critical then JS.slice_from 1 raw else raw in
  let segments :=
    List.filter JSNumber.nonEmpty (map JS.trim (JS.split "," contentToParse)) in
  let pairs := fold_left addSegment segments ∅ in
  ret (mkBracketGroup raw critical pairs (likelyTzId contentToParse)).

(** The bracket loop of [parseDateTime]. *)
Fixpoint dateTimeBrackets (fuel : nat) (timeZone : option TimeZoneAst)
    (annotations : list AnnotationAst)
  : M (option TimeZoneAst * list AnnotationAst) :=
  match fuel with
  | 0 => diverge
  | S fuel' =>
      let+ more := at_ (TT TokType.LBracket) in
      if more then
        let+ g := parseBracketGroup (S (length toks)) in
        match timeZone with
        | None =>
            if isLikelyTzId g then
              let id := if critical g then JS.slice_from 1 (raw g) else raw g in
              dateTimeBrackets fuel' (Some (mkTimeZone id (critical g))) annotations
            else
              dateTimeBrackets fuel' timeZone
                (annotations ++ [mkAnnotation (raw g) (critical g) (pairs g)])
        | Some _ =>
            dateTimeBrackets fuel' timeZone
              (annotations ++ [mkAnnotation (raw g) (critical g) (pairs g)])
        end
      else ret (timeZone, annotations)
  end.

Definition parseDateTime : M DateTimeAst :=
  let+ date := parseDate in
  let+ t := tryEat (TT TokType.T) in
  let+ time :=
    (match t with
     | Some _ => let+ tm := parseTime in ret (Some tm)
     | None => ret None
     end) in
  let+ offset := parseOffsetIfPresent in
  let+ (timeZone, annotations) := dateTimeBrackets (S (length toks)) None [] in
  ret (mkDateTime date time offset timeZone annotations).

(** The designator loop of [parseDuration]. *)
Fixpoint durationLoop (fuel : nat) (rawParts : list string) (inTime : bool) (dur : Dur)
  : M (list string * Dur) :=
  match fuel with
  | 0 => diverge
  | S fuel' =>
      let+ e := eof in
      let+ continue :=
        (if e then ret false
         else
           let+ s := at_ (TT TokType.Slash) in
           if s then ret false
           else
             let+ b := at_ (TT TokType.LBracket) in
             ret (negb b)) in
      if continue then
        let+ t := tryEat (TT TokType.T) in
        match t with
        | Some _ => durationLoop fuel' (rawParts ++ ["T"]) true dur
        | None =>
            let+ numTok := tryEat (TT TokType.Number) in
            match numTok with
            | None => ret (rawParts, dur)
            | Some numTok =>
                let rawParts := rawParts ++ [any_value numTok] in
                let+ dot := tryEat (TT TokType.Dot) in
                let+ (rawParts, fraction) :=
                  (match dot with
                   | Some _ =>
                       let+ fracTok := eat (TT TokType.Number) in
                       ret (rawParts ++ ["."; any_value fracTok],
                            Some (any_value fracTok))
                   | None => ret (rawParts, None)
                   end) in
                let+ unitTok := eat (TT TokType.Ident) in
                let unit := any_value unitTok in
                let rawParts := rawParts ++ [unit] in
                let+ i := position in
                let+ n := lift (toInt (any_value numTok) "duration number" i) in
                let+ dur := addUnit inTime unit n fraction dur in
                durationLoop fuel' rawParts inTime dur
            end
        end
      else ret (rawParts, dur)
  end.

(** The annotation loop that ends [parseDuration]. *)
Fixpoint durationBrackets (fuel : nat) (annotations : list AnnotationAst)
  : M (list AnnotationAst) :=
  match fuel with
  | 0 => diverge
  | S fuel' =>
      let+ more := at_ (TT TokType.LBracket) in
      if more then
        let+ g := parseBracketGroup (S (length toks)) in
        durationBrackets fuel'
          (annotations ++ [mkAnnotation (raw g) (critical g) (pairs g)])
      else ret annotations
  end.

Definition parseDuration : M DurationAst :=
  let+ pTok := eat (TT TokType.Ident) in
  if negb (String.eqb (any_value pTok) "P") then throwAt DurationMustStartWithP
  else
    let+ (rawParts, dur) := durationLoop (S (length toks)) ["P"] false emptyDur in
    let+ annotations := durationBrackets (S (length toks)) [] in
    ret (mkDuration (d_years dur) (d_months dur) (d_weeks dur) (d_days dur)
           (d_hours dur) (d_minutes dur) (d_seconds dur) (d_secondsFraction dur)
           (JS.join "" rawParts) annotations).

Definition parseValueOrNull : M (option ValueAst) :=
  let+ e := at_ (TT TokType.EOF) in
  let+ empty :=
    (if e then ret true
     else
       let+ s := at_ (TT TokType.Slash) in
       if s then ret true else at_ (TT TokType.RBracket)) in
  if empty then ret None
  else
    let+ ident := at_ (TT TokType.Ident) in
    let+ t := peek 0 in
    if ident && String.eqb (any_value t) "P" then
      let+ d := parseDuration in
      ret (Some (Duration d))
    else
      let+ d := parseDateTime in
      ret (Some (DateTime d)).

Definition parseTemporal : M TemporalAst :=
  let+ slash := tryEat (TT TokType.Slash) in
  match slash with
  | Some _ =>
      let+ end_ := parseValueOrNull in
      let+ _ := eat (TT TokType.EOF) in
      ret (Range None end_)
  | None =>
      let+ first := parseValueOrNull in
      match first with
      | None => throwAt ExpectedValue
      | Some first =>
          let+ slash := tryEat (TT TokType.Slash) in
          match slash with
          | Some _ =>
              let+ second := parseValueOrNull in
              let+ _ := eat (TT TokType.EOF) in
              ret (Range (Some first) second)
          | None =>
              let+ _ := eat (TT TokType.EOF) in
              ret (Value first)
          end
      end
  end.

End WithTokens.

(** [new Parser(toks).parseTemporal()]. *)
Definition run (toks : list AnyToken) : Result TemporalAst :=
  match parseTemporal toks 0 with
  | Ok (ast, _) => Ok ast
  | Err e => Err e
  end.

End Parser.

(** The public entry point. *)
Definition parseTemporal (src : string) : Result TemporalAst :=
  let* raw := lexTemporal src in
  let toks := combineTimezoneOffsets (map Raw raw) in
  Parser.run toks.

(** ** The serializer (stringify.ts) *)

Definition stringifyDate (date : DateAst) : string :=
  let parts := [JS.padStart 4 "0" (JSNumber.toString (year date))] in
  let parts :=
    match month date with
    | Some m =>
        let parts := parts ++ [JS.padStart 2 "0" (JSNumber.toString m)] in
        match day date with
        | Some d => parts ++ [JS.padStart 2 "0" (JSNumber.toString d)]
        | None => parts
        end
    | None => parts
    end in
  JS.join "-" parts.

Definition stringifyTime (time : TimeAst) : string :=
  let parts := [JS.padStart 2 "0" (JSNumber.toString (hour time));
                JS.padStart 2 "0" (JSNumber.toString (minute time))] in
  let parts :=
    match second time with
    | Some s =>
        let secondStr := JS.padStart 2 "0" (JSNumber.toString s) in
        let secondStr :=
          match fraction time with
          | Some f => secondStr +:+ "." +:+ f
          | None => secondStr
          end in
        parts ++ [secondStr]
    | None => parts
    end in
  JS.join ":" parts.

Definition stringifyOffset (offset : OffsetAst) : string :=
  match offset with
  | UtcOffset => "Z"
  | NumericOffset sign hours minutes _ =>
      let hours := JS.padStart 2 "0" (JSNumber.toString hours) in
      let minutes := JS.padStart 2 "0" (JSNumber.toString minutes) in
      Sign_text sign +:+ hours +:+ ":" +:+ minutes
  end.

Definition stringifyTimeZone (timeZone : TimeZoneAst) : string :=
  let id := if tz_critical timeZone then "!" +:+ tz_id timeZone else tz_id timeZone in
  "[" +:+ id +:+ "]".

Definition stringifyAnnotation (annotation : AnnotationAst) : string :=
  "[" +:+ ann_raw annotation +:+ "]".

Definition stringifyDateTime (dateTime : DateTimeAst) : string :=
  let result := stringifyDate (date dateTime) in
  let result :=
    match time dateTime with
    | Some t => result +:+ "T" +:+ stringifyTime t
    | None => result
    end in
  let result :=
    match offset dateTime with
    | Some o => result +:+ stringifyOffset o
    | None => result
    end in
  let result :=
    match timeZone dateTime with
    | Some tz => result +:+ stringifyTimeZone tz
    | None => result
    end in
  fold_left (fun result annotation => result +:+ stringifyAnnotation annotation)
    (annotations dateTime) result.

(** [x != null]. *)
Definition isDefined {A} (x : option A) : bool :=
  match x with Some _ => true | None => false end.

(** [result += `${n}` + unit] when the component is defined. *)
Definition appendComponent (result : string) (n : option Z) (unit : string) : string :=
  match n with
  | Some n => result +:+ JSNumber.toString n +:+ unit
  | None => result
  end.

Definition stringifyDuration (duration : DurationAst) : string :=
  let result := "P" in
  let result := appendComponent result (years duration) "Y" in
  let result := appendComponent result (months duration) "M" in
  let result := appendComponent result (weeks duration) "W" in
  let result := appendComponent result (days duration) "D" in
  let hasTimePart :=
    isDefined (hours duration) || isDefined (minutes duration)
    || isDefined (seconds duration) in
  let result :=
    if hasTimePart then
      let result := result +:+ "T" in
      let result := appendComponent result (hours duration) "H" in
      let result := appendComponent result (minutes duration) "M" in
      match seconds duration with
      | Some s =>
          let result := result +:+ JSNumber.toString s in
          let result :=
            match secondsFraction duration with
            | Some f => if (0 <? String.length f)%nat then result +:+ "." +:+ f else result
            | None => result
            end in
          result +:+ "S"
      | None => result
      end
    else result in
  fold_left (fun result annotation => result +:+ stringifyAnnotation annotation)
    (dur_annotations duration) result.

Definition stringifyValue (v : ValueAst) : string :=
  match v with
  | Duration d => stringifyDuration d
  | DateTime d => stringifyDateTime d
  end.

Definition stringifyRange (start_ end_ : option ValueAst) : string :=
  let start_ := match start_ with Some v => stringifyValue v | None => "" end in
  let end_ := match end_ with Some v => stringifyValue v | None => "" end in
  start_ +:+ "/" +:+ end_.

Definition stringifyTemporal (ast : TemporalAst) : string :=
  match ast with
  | Range s e => stringifyRange s e
  | Value (Duration d) => stringifyDuration d
  | Value (DateTime d) => stringifyDateTime d
  end.

(** ** The time-of-day parser (parseTimeString.ts) *)

(** [String.prototype.toUpperCase] on the letters [a] to [z].  The function
    is applied to the values of identifier tokens, which hold the letters
    [A-Z] and [a-z] only. *)
Definition upperChar (c : ascii) : ascii :=
  if char_between "a" "z" c then ascii_of_nat (nat_of_ascii c - 32) else c.

Fixpoint toUpperCase (s : string) : string :=
  match s with
  | EmptyString => EmptyString
  | String c s' => String (upperChar c) (toUpperCase s')
  end.

Module TimeString.

(** The messages of the [ParseError]s that [parseTimeString] builds. *)
Inductive ErrorKind :=
| EmptyTimeString
| InvalidTimeFormat (trimmed : string)
| MinutesNotTwoDigits (trimmed : string)
| InvalidSecond (second : Z)
| InvalidMinute (minute : Z)
| UnexpectedWord (value : string)
| UnexpectedPeriodWord (value : string)
| InvalidHour12 (hour : Z)
| InvalidHour24 (hour : Z).

(** What [parseTimeString] throws: a [ParseError] of its own with the token
    index, or what [lexTemporal] and [toInt] throw. *)
Inductive Failure :=
| TimeError (kind : ErrorKind) (position : nat)
| Thrown (e : Error).

Inductive Outcome (A : Type) :=
| Done (a : A)
| Failed (f : Failure).
Arguments Done {A} a.
Arguments Failed {A} f.

(** A computation of the function body: it threads the token index [i]. *)
Definition M (A : Type) : Type := nat -> Outcome (A * nat).

Definition ret {A} (a : A) : M A := fun i => Done (a, i).

Definition bindM {A B} (m : M A) (k : A -> M B) : M B :=
  fun i => match m i with
           | Done (a, i') => k a i'
           | Failed f => Failed f
           end.

Notation "'let!' x ':=' m 'in' k" := (bindM m (fun x => k))
  (at level 10, x pattern, m at level 100, k at level 200).

(** [throw new ParseError(kind, i)]. *)
Definition throwAt {A} (kind : ErrorKind) : M A :=
  fun i => Failed (TimeError kind i).

Definition position : M nat := fun i => Done (i, i).

(** [i++]. *)
Definition advance : M unit := fun i => Done (tt, S i).

(** A call of [toInt]. *)
Definition lift {A} (r : Result A) : M A :=
  fun i => match r with Ok a => Done (a, i) | Err e => Failed (Thrown e) end.

Section WithTokens.

Variable trimmed : string.
Variable tokens : list Token.

Definition peek (k : nat) : M Token :=
  fun i => match tokens !! Nat.min (i + k) (length tokens - 1) with
           | Some t => Done (t, i)
           | None => Failed (Thrown TypeError)
           end.

Definition at_ (ty : TokType.t) : M bool :=
  let! t := peek 0 in
  ret (TokType.eqb (type t) ty).

Definition eat (ty : TokType.t) : M Token :=
  let! t := peek 0 in
  if negb (TokType.eqb (type t) ty) then throwAt (InvalidTimeFormat trimmed)
  else
    let! _ := advance in
    ret t.

Definition tryEat (ty : TokType.t) : M (option Token) :=
  let! b := at_ ty in
  if b then
    let! t := eat ty in
    ret (Some t)
  else ret None.

(** [if (tryEat(TokType.Dot) || tryEat(TokType.Comma)) { ... }]: the
    optional fraction behind either separator. *)
Definition parseFraction : M (option string) :=
  let! dot := tryEat TokType.Dot in
  let! separator :=
    (match dot with
     | Some _ => ret true
     | None =>
         let! comma := tryEat TokType.Comma in
         ret (match comma with Some _ => true | None => false end)
     end) in
  if separator then
    let! fracTok := eat TokType.Number in
    ret (Some (value fracTok))
  else ret None.

(** The digits of the time: hour, minute, and the optional second and
    fraction. *)
Definition parseClock : M (Z * Z * option Z * option string) :=
  let! hourTok := eat TokType.Number in
  let numLen := String.length (value hourTok) in
  let! colon := at_ TokType.Colon in
  if negb colon && ((numLen =? 4)%nat || (numLen =? 6)%nat) then
    (* ISO 8601 basic format *)
    let timeStr := value hourTok in
    let! i := position in
    let! hour := lift (toInt (JS.slice 0 2 timeStr) "hour" i) in
    let! minute := lift (toInt (JS.slice 2 4 timeStr) "minute" i) in
    let! second :=
      (if (numLen =? 6)%nat then
         let! second := lift (toInt (JS.slice 4 6 timeStr) "second" i) in
         if ((second <? 0) || (59 <? second))%Z then throwAt (InvalidSecond second)
         else ret (Some second)
       else ret None) in
    if ((minute <? 0) || (59 <? minute))%Z then throwAt (InvalidMinute minute)
    else
      let! fraction := parseFraction in
      ret (hour, minute, second, fraction)
  else
    (* extended format, or a bare hour *)
    let! i := position in
    let! hour := lift (toInt (value hourTok) "hour" i) in
    let! colon := tryEat TokType.Colon in
    match colon with
    | Some _ =>
        let! minuteTok := eat TokType.Number in
        let! i := position in
        let! minute := lift (toInt (value minuteTok) "minute" i) in
        if negb (String.length (value minuteTok) =? 2)%nat then
          throwAt (MinutesNotTwoDigits trimmed)
        else if ((minute <? 0) || (59 <? minute))%Z then throwAt (InvalidMinute minute)
        else
          let! colon := tryEat TokType.Colon in
          match colon with
          | Some _ =>
              let! secondTok := eat TokType.Number in
              let! i := position in
              let! second := lift (toInt (value secondTok) "second" i) in
              if ((second <? 0) || (59 <? second))%Z then throwAt (InvalidSecond second)
              else
                let! fraction := parseFraction in
                ret (hour, minute, Some second, fraction)
          | None => ret (hour, minute, None, None)
          end
    | None => ret (hour, 0%Z, None, None)
    end.

(** The optional AM/PM marker: [ampmStr], the letter [A] or [P]. *)
Definition parsePeriod : M (option string) :=
  let! ident := at_ TokType.Ident in
  if ident then
    let! identTok := eat TokType.Ident in
    let ident := toUpperCase (value identTok) in
    let! ampmStr :=
      (if String.eqb ident "A" || String.eqb ident "P" || String.eqb ident "AM"
          || String.eqb ident "PM"
       then ret (Some (JS.slice 0 1 ident))
       else throwAt (UnexpectedWord (value identTok))) in
    let! _ := tryEat TokType.Dot in
    let! more := at_ TokType.Ident in
    let! _ :=
      (if more then
         let! mTok := tryEat TokType.Ident in
         let! _ :=
           (match mTok with
            | Some mTok =>
                if negb (String.eqb (toUpperCase (value mTok)) "M") then
                  throwAt (UnexpectedPeriodWord (value mTok))
                else ret tt
            | None => ret tt
            end) in
         let! _ := tryEat TokType.Dot in
         ret tt
       else ret tt) in
    ret ampmStr
  else ret None.

(** The conversion and the validation of the hour that end the function. *)
Definition convertHour (ampmStr : option string) (hour : Z) : M Z :=
  match ampmStr with
  | Some ampm =>
      let isPM := String.eqb ampm "P" in
      if ((hour <? 1) || (12 <? hour))%Z then throwAt (InvalidHour12 hour)
      else if isPM then ret (if negb (hour =? 12)%Z then (hour + 12)%Z else hour)
      else ret (if (hour =? 12)%Z then 0%Z else hour)
  | None =>
      if ((hour <? 0) || (23 <? hour))%Z then throwAt (InvalidHour24 hour)
      else ret hour
  end.

Definition parseTokens : M TimeAst :=
  let! (hour, minute, second, fraction) := parseClock in
  let! ampmStr := parsePeriod in
  let! _ := eat TokType.EOF in
  let! hour := convertHour ampmStr hour in
  ret (mkTime hour minute second fraction).

End WithTokens.

End TimeString.

Definition parseTimeString (input : string) : TimeString.Outcome TimeAst :=
  let trimmed := JS.trim input in
  if negb (JSNumber.nonEmpty trimmed) then
    TimeString.Failed (TimeString.TimeError TimeString.EmptyTimeString 0)
  else
    match lexTemporal trimmed with
    | Err e => TimeString.Failed (TimeString.Thrown e)
    | Ok tokens =>
        match TimeString.parseTokens trimmed tokens 0 with
        | TimeString.Done (t, _) => TimeString.Done t
        | TimeString.Failed f => TimeString.Failed f
        end
    end.

(** * Properties *)

(** ** The offset fuser *)

Section FuserFacts.

Import Fuser.

Lemma rawOfType_type ty tok r :
  rawOfType ty tok = Some r -> tok = Some (Raw r) /\ type r = ty.
Proof.
  destruct tok as [[r'|c]|]; simpl; try discriminate.
  destruct (TokType.eqb (type r') ty) eqn:E; try discriminate.
  intros [= <-]. split; [reflexivity|].
  destruct (type r'), ty; simpl in E; congruence.
Qed.

Lemma fuse_ext s (p q : nat -> option AnyToken) :
  p 1 = q 1 -> p 2 = q 2 -> p 3 = q 3 -> fuse s p = fuse s q.
Proof. intros H1 H2 H3. unfold fuse. rewrite H1, H2, H3. reflexivity. Qed.

(** The number of tokens a fusion covers is 2 or 4. *)
Lemma fuse_width s p tz k : fuse s p = Some (tz, k) -> k = 2 \/ k = 4.
Proof.
  unfold fuse. intros H.
  repeat match type of H with
         | context [match ?x with _ => _ end] => destruct x
         end; inversion H; auto.
Qed.

Lemma step_width tokens i out t tz k :
  step tokens i out t = Some (tz, k) -> k = 2 \/ k = 4.
Proof.
  unfold step. destruct (signOf t); [|discriminate].
  destruct (couldBeTzOffset out); [|discriminate]. apply fuse_width.
Qed.

(** The loop reads the array from index [i] on only. *)
Lemma step_drop tokens i out t :
  step tokens i out t = step (drop i tokens) 0 out t.
Proof.
  unfold step. destruct (signOf t); [|reflexivity].
  destruct (couldBeTzOffset out); [|reflexivity].
  apply fuse_ext; rewrite lookup_drop; reflexivity.
Qed.

Lemma loop_drop fuel : forall tokens i out,
  loop fuel tokens i out = loop fuel (drop i tokens) 0 out.
Proof.
  induction fuel as [|fuel IH]; intros tokens i out; [reflexivity|].
  simpl. rewrite lookup_drop, Nat.add_0_r.
  destruct (tokens !! i) as [t|] eqn:Ht; [|reflexivity].
  rewrite <- step_drop.
  destruct (step tokens i out t) as [[tz k]|].
  - rewrite IH. rewrite (IH (drop i tokens) k). rewrite drop_drop. reflexivity.
  - rewrite IH. rewrite (IH (drop i tokens) 1). rewrite drop_drop. reflexivity.
Qed.

(** One round of the loop, on the unread part of the array. *)
Lemma loop_cons fuel t rest out :
  loop (S fuel) (t :: rest) 0 out =
  match step (t :: rest) 0 out t with
  | Some (tz, k) => loop fuel (drop k (t :: rest)) 0 (out ++ [Combined tz])
  | None => loop fuel rest 0 (out ++ [t])
  end.
Proof.
  simpl. destruct (step (t :: rest) 0 out t) as [[tz k]|].
  - rewrite loop_drop. reflexivity.
  - rewrite loop_drop. reflexivity.
Qed.

(** [length tokens] rounds are enough: more fuel changes nothing. *)
Lemma loop_fuel : forall n rest out fuel,
  length rest <= n -> n <= fuel ->
  loop fuel rest 0 out = loop n rest 0 out.
Proof.
  induction n as [|n IH]; intros rest out fuel Hlen Hfuel.
  - destruct rest; [|simpl in Hlen; lia]. destruct fuel; reflexivity.
  - destruct fuel as [|fuel]; [lia|].
    destruct rest as [|t rest]; [reflexivity|].
    rewrite !loop_cons.
    destruct (step (t :: rest) 0 out t) as [[tz k]|] eqn:Hs.
    + apply IH; [|lia]. rewrite length_drop. simpl in *.
      apply step_width in Hs. lia.
    + apply IH; simpl in *; lia.
Qed.

(** What has been emitted stays: the result extends [out]. *)
Lemma loop_extends : forall fuel rest out,
  exists tail, loop fuel rest 0 out = out ++ tail.
Proof.
  induction fuel as [|fuel IH]; intros rest out.
  - exists []. simpl. rewrite app_nil_r. reflexivity.
  - destruct rest as [|t rest].
    + exists []. simpl. rewrite app_nil_r. reflexivity.
    + rewrite loop_cons.
      destruct (step (t :: rest) 0 out t) as [[tz k]|].
      * destruct (IH (drop k (t :: rest)) (out ++ [Combined tz])) as [tl Htl].
        exists (Combined tz :: tl). rewrite Htl, <- app_assoc. reflexivity.
      * destruct (IH rest (out ++ [t])) as [tl Htl].
        exists (t :: tl). rewrite Htl, <- app_assoc. reflexivity.
Qed.

Lemma fromEnd_snoc_1 out a : fromEnd (out ++ [a]) 1 = Some a.
Proof.
  unfold fromEnd. rewrite length_app. simpl.
  replace (length out + 1 - 1) with (length out) by lia.
  apply list_lookup_middle. reflexivity.
Qed.

Lemma fromEnd_snoc_2 out b a : fromEnd ((out ++ [b]) ++ [a]) 2 = Some b.
Proof.
  unfold fromEnd. rewrite !length_app. simpl.
  replace (length out + 1 + 1 - 2) with (length out) by lia.
  rewrite <- app_assoc. apply list_lookup_middle. reflexivity.
Qed.

(** After a token that is not a number no offset can start. *)
Lemma couldBeTzOffset_after_other out a :
  typeIs TokType.Number (Some a) = false -> couldBeTzOffset (out ++ [a]) = false.
Proof.
  intros H. unfold couldBeTzOffset. rewrite fromEnd_snoc_1, H.
  repeat match goal with |- context [if ?b then _ else _] => destruct b end;
    reflexivity.
Qed.

(** After a number, the token before it decides. *)
Lemma couldBeTzOffset_after_two out b a :
  typeIs TokType.Colon (Some b) = false -> typeIs TokType.Dot (Some b) = false ->
  couldBeTzOffset ((out ++ [b]) ++ [a]) = false.
Proof.
  intros Hc Hd. unfold couldBeTzOffset.
  rewrite fromEnd_snoc_1, fromEnd_snoc_2, Hc, Hd.
  repeat match goal with |- context [if ?b then _ else _] => destruct b end;
    reflexivity.
Qed.

Lemma signOf_Some t s : signOf t = Some s ->
  t = Raw s /\ (type s = TokType.Plus \/ type s = TokType.Dash).
Proof.
  unfold signOf.
  destruct (rawOfType TokType.Plus (Some t)) as [r|] eqn:E.
  - intros [= <-]. apply rawOfType_type in E as [[= ->] E]. auto.
  - intros E2. apply rawOfType_type in E2 as [[= ->] E2]. auto.
Qed.

Lemma typeIs_other ty ty' r :
  type r = ty' -> ty <> ty' -> typeIs ty (Some (Raw r)) = false.
Proof.
  intros <- Hne. unfold typeIs, rawOfType.
  destruct (TokType.eqb (type r) ty) eqn:E; [|reflexivity].
  exfalso. apply Hne. destruct (type r), ty; simpl in E; congruence.
Qed.

Lemma step_None_no_context tokens i out t :
  couldBeTzOffset out = false -> step tokens i out t = None.
Proof. intros H. unfold step. rewrite H. destruct (signOf t); reflexivity. Qed.

(** A token processed in a context that admits no offset is pushed as it
    is. *)
Lemma loop_push fuel x rest out :
  couldBeTzOffset out = false ->
  loop (S fuel) (x :: rest) 0 out = loop fuel rest 0 (out ++ [x]).
Proof. intros H. rewrite loop_cons, step_None_no_context; auto. Qed.

(** [fuse] reads its second and third token of look-ahead only behind a
    number, and a number and a colon. *)
Lemma fuse_agree s (p q : nat -> option AnyToken) :
  p 1 = q 1 ->
  (forall n1, rawOfType TokType.Number (p 1) = Some n1 -> p 2 = q 2) ->
  (forall n1 c, rawOfType TokType.Number (p 1) = Some n1 ->
                rawOfType TokType.Colon (p 2) = Some c -> p 3 = q 3) ->
  fuse s p = fuse s q.
Proof.
  intros H1 H2 H3. unfold fuse. rewrite <- H1.
  destruct (rawOfType TokType.Number (p 1)) as [n1|] eqn:E1; [|reflexivity].
  rewrite <- (H2 n1 eq_refl).
  destruct (rawOfType TokType.Colon (p 2)) as [c|] eqn:E2; [|reflexivity].
  rewrite <- (H3 n1 c eq_refl eq_refl). reflexivity.
Qed.

(** The loop over an empty rest emits nothing. *)
Lemma loop_nil_tail fuel out tail :
  loop fuel [] 0 out = out ++ tail -> tail = [].
Proof.
  intros H. assert (E : loop fuel [] 0 out = out) by (destruct fuel; reflexivity).
  rewrite E in H. rewrite <- (app_nil_r out) in H at 1.
  apply app_inv_head in H. auto.
Qed.

(** A token read in a context that admits no offset heads the tail. *)
Lemma loop_push_tail fuel x rest out tail :
  couldBeTzOffset out = false ->
  loop (S fuel) (x :: rest) 0 out = out ++ tail ->
  exists tail', tail = x :: tail' /\ loop fuel rest 0 (out ++ [x]) = (out ++ [x]) ++ tail'.
Proof.
  intros Hc H. rewrite loop_push in H by exact Hc.
  destruct (loop_extends fuel rest (out ++ [x])) as [tl Htl].
  exists tl. split; [|exact Htl].
  rewrite Htl, <- app_assoc in H. apply app_inv_head in H. auto.
Qed.

(** The tail the loop produces behind a sign it left alone shows the same
    three tokens of look-ahead to a second pass, as far as [fuse] reads
    them. *)
Lemma lookahead_preserved fuel s rest out tail :
  length rest <= fuel ->
  (type s = TokType.Plus \/ type s = TokType.Dash) ->
  loop fuel rest 0 (out ++ [Raw s]) = (out ++ [Raw s]) ++ tail ->
  fuse s (fun k => (Raw s :: tail) !! (0 + k)) =
  fuse s (fun k => (Raw s :: rest) !! (0 + k)).
Proof.
  intros Hlen Hs Hloop.
  assert (Hsn : typeIs TokType.Number (Some (Raw s)) = false)
    by (destruct Hs; eapply typeIs_other; eauto; congruence).
  assert (Hsc : typeIs TokType.Colon (Some (Raw s)) = false)
    by (destruct Hs; eapply typeIs_other; eauto; congruence).
  assert (Hsd : typeIs TokType.Dot (Some (Raw s)) = false)
    by (destruct Hs; eapply typeIs_other; eauto; congruence).
  change (fuse s (fun k => (Raw s :: tail) !! k) = fuse s (fun k => (Raw s :: rest) !! k)).
  destruct rest as [|x1 r1].
  { apply loop_nil_tail in Hloop. subst tail. reflexivity. }
  destruct fuel as [|fuel]; [simpl in Hlen; lia|].
  apply loop_push_tail in Hloop as (t1 & -> & Ht1);
    [|apply couldBeTzOffset_after_other; exact Hsn].
  apply fuse_agree; [reflexivity| |].
  - (* the second token, behind a number *)
    intros n1 _.
    destruct r1 as [|x2 r2].
    { apply loop_nil_tail in Ht1. subst t1. reflexivity. }
    destruct fuel as [|fuel]; [simpl in Hlen; lia|].
    apply loop_push_tail in Ht1 as (t2 & -> & _);
      [|apply couldBeTzOffset_after_two; assumption].
    reflexivity.
  - (* the third token, behind a number and a colon *)
    intros n1 c _ Ec. cbn [lookup list_lookup] in Ec |- *.
    destruct r1 as [|x2 r2].
    { apply loop_nil_tail in Ht1. subst t1. reflexivity. }
    destruct fuel as [|fuel]; [simpl in Hlen; lia|].
    apply loop_push_tail in Ht1 as (t2 & -> & Ht2);
      [|apply couldBeTzOffset_after_two; assumption].
    cbn [lookup list_lookup] in Ec |- *.
    apply rawOfType_type in Ec as [[= ->] Ec].
    destruct r2 as [|x3 r3].
    { apply loop_nil_tail in Ht2. subst t2. reflexivity. }
    destruct fuel as [|fuel]; [simpl in Hlen; lia|].
    apply loop_push_tail in Ht2 as (t3 & -> & _).
    + reflexivity.
    + apply couldBeTzOffset_after_other. eapply typeIs_other; eauto; congruence.
Qed.

(** A second pass over what a first pass produced behind [out], started
    from the same [out], changes nothing. *)
Lemma loop_stable : forall n rest out tail,
  length rest <= n ->
  loop n rest 0 out = out ++ tail ->
  loop (length tail) tail 0 out = out ++ tail.
Proof.
  induction n as [|n IH]; intros rest out tail Hlen Hloop.
  - simpl in Hloop. rewrite <- (app_nil_r out) in Hloop at 1.
    apply app_inv_head in Hloop. subst tail. simpl. rewrite app_nil_r. reflexivity.
  - destruct rest as [|t rest].
    { simpl in Hloop. rewrite <- (app_nil_r out) in Hloop at 1.
      apply app_inv_head in Hloop. subst tail. simpl. rewrite app_nil_r. reflexivity. }
    rewrite loop_cons in Hloop.
    destruct (step (t :: rest) 0 out t) as [[tz k]|] eqn:Hstep.
    + destruct (loop_extends n (drop k (t :: rest)) (out ++ [Combined tz])) as [tl Htl].
      rewrite Htl, <- app_assoc in Hloop. apply app_inv_head in Hloop. subst tail.
      change ([Combined tz] ++ tl) with (Combined tz :: tl).
      change (length (Combined tz :: tl)) with (S (length tl)). rewrite loop_cons.
      assert (Hn : step (Combined tz :: tl) 0 out (Combined tz) = None) by reflexivity.
      rewrite Hn. rewrite (IH (drop k (t :: rest)) (out ++ [Combined tz]) tl).
      * rewrite <- app_assoc. reflexivity.
      * rewrite length_drop. apply step_width in Hstep. simpl in *. lia.
      * exact Htl.
    + destruct (loop_extends n rest (out ++ [t])) as [tl Htl].
      rewrite Htl, <- app_assoc in Hloop. apply app_inv_head in Hloop. subst tail.
      change ([t] ++ tl) with (t :: tl).
      change (length (t :: tl)) with (S (length tl)). rewrite loop_cons.
      assert (Hn : step (t :: tl) 0 out t = None).
      { unfold step in *.
        destruct (signOf t) as [s|] eqn:Hsign; [|reflexivity].
        destruct (couldBeTzOffset out) eqn:Hc; [|reflexivity].
        apply signOf_Some in Hsign as [-> Hs].
        rewrite <- Hstep.
        apply (lookahead_preserved n s rest out tl); auto. simpl in Hlen. lia. }
      rewrite Hn. rewrite (IH rest (out ++ [t]) tl).
      * rewrite <- app_assoc. reflexivity.
      * simpl in Hlen. lia.
      * exact Htl.
Qed.

End FuserFacts.

(** C4.  The offset fuser is idempotent on every token sequence, of raw
    tokens and of already fused ones alike: fusing the result of a fusion
    gives that result again. *)
Theorem combineTimezoneOffsets_idempotent (toks : list AnyToken) :
  combineTimezoneOffsets (combineTimezoneOffsets toks) = combineTimezoneOffsets toks.
Proof.
  unfold combineTimezoneOffsets.
  destruct (loop_extends (length toks) toks []) as [tail Htail].
  simpl in Htail. rewrite Htail.
  exact (loop_stable (length toks) toks [] tail (Nat.le_refl _) Htail).
Qed.

(** ** Shared facts about results and numbers *)

Lemma bind_Ok {A B} (r : Result A) (k : A -> Result B) b :
  bind r k = Ok b -> exists a, r = Ok a /\ k a = Ok b.
Proof. destruct r as [a|e]; simpl; [eauto|discriminate]. Qed.

(** The two-character rendering [HH] of a number below 100. *)
Definition digitChar (d : Z) : ascii := ascii_of_nat (48 + Z.to_nat d).

Definition twoDigits (n : Z) : string :=
  String (digitChar (n / 10)) (String (digitChar (n mod 10)) EmptyString).

(** A property of the integers [0 <= n <= bound] checked by running through
    them. *)
Definition upTo (bound : nat) (P : Z -> bool) : bool :=
  forallb (fun k => P (Z.of_nat k)) (seq 0 (S bound)).

Lemma upTo_spec bound P n :
  upTo bound P = true -> (0 <= n <= Z.of_nat bound)%Z -> P n = true.
Proof.
  intros H Hn. unfold upTo in H. rewrite forallb_forall in H.
  specialize (H (Z.to_nat n)). rewrite Z2Nat.id in H by lia.
  apply H. apply in_seq. lia.
Qed.

Lemma padStart_twoDigits n :
  (0 <= n <= 99)%Z -> JS.padStart 2 "0" (JSNumber.toString n) = twoDigits n.
Proof.
  intros Hn.
  apply String.eqb_eq.
  apply (upTo_spec 99 (fun n => String.eqb (JS.padStart 2 "0" (JSNumber.toString n))
                                  (twoDigits n))); [|exact Hn].
  vm_compute. reflexivity.
Qed.

(** ** Fractional seconds *)

(** C1.  A fraction introduced by a comma is not parsed: [parseTime] only
    looks for a dot behind the seconds, so the comma is left for the caller,
    which expects the end of the input.  The inputs are those of the
    specification and of the test suite; the same inputs with a dot parse,
    with the fraction digits kept as written. *)
Theorem comma_fraction_not_parsed :
  parseTemporal "2025-01-12T10:30:45,123"
    = Err (ParseError (ExpectedButGot "EOF" "Comma") 11)
  /\ parseTemporal "2025-01-07T10:30:45,123"
    = Err (ParseError (ExpectedButGot "EOF" "Comma") 11)
  /\ parseTemporal "2025-01-12T10:30:45.123"
    = Ok (Value (DateTime
            (mkDateTime (mkDate 2025 (Some 1%Z) (Some 12%Z))
               (Some (mkTime 10 30 (Some 45%Z) (Some "123"))) None None []))).
Proof. repeat split; vm_compute; reflexivity. Qed.

(** ** Offsets *)

Lemma parseOffset_Ok s p o :
  parseOffset s p = Ok o ->
  exists sign hours minutes,
    o = NumericOffset sign hours minutes s
    /\ (0 <= hours <= 14)%Z /\ (0 <= minutes <= 59)%Z.
Proof.
  unfold parseOffset. destruct s as [|c rest]; [discriminate|].
  intros H. apply bind_Ok in H as (sign & _ & H).
  destruct (String.length rest =? 0)%nat; [discriminate|].
  apply bind_Ok in H as ([hours minutes] & _ & H).
  unfold MAX_OFFSET_HOURS, MAX_MINUTES in H.
  destruct (hours <? 0)%Z eqn:E1; [discriminate|].
  destruct (14 <? hours)%Z eqn:E2; [discriminate|].
  destruct (minutes <? 0)%Z eqn:E3; [discriminate|].
  destruct (59 <? minutes)%Z eqn:E4; [discriminate|].
  simpl in H. injection H as <-. exists sign, hours, minutes.
  repeat split; lia.
Qed.

(** The kind of offset [parseOffsetIfPresent] returns is the kind of token
    under the cursor. *)
Lemma parseOffsetIfPresent_kind toks i o i' :
  Parser.parseOffsetIfPresent toks i = Ok (Some o, i') ->
  exists t, Parser.peek toks 0 i = Ok (t, i) /\
    match o with
    | UtcOffset => any_type t = TT TokType.Z
    | NumericOffset _ _ _ _ => any_type t = CT CombinedTokType.TZOffset
    end.
Proof.
  unfold Parser.parseOffsetIfPresent, Parser.tryEat, Parser.at_, Parser.eat,
    Parser.bindM, Parser.ret, Parser.advance, Parser.position, Parser.lift,
    Parser.throwAt.
  destruct (Parser.peek toks 0 i) as [[t j]|e] eqn:Hp; [|discriminate].
  assert (j = i) as ->.
  { unfold Parser.peek in Hp. destruct (toks !! _); congruence. }
  destruct (AnyTokType_eqb (any_type t) (TT TokType.Z)) eqn:Ez.
  - rewrite Hp, Ez. simpl. intros [= <- <-]. exists t. split; [reflexivity|].
    destruct t as [r|c]; simpl in *; [|discriminate].
    destruct (type r); simpl in Ez; congruence.
  - rewrite Hp.
    destruct (AnyTokType_eqb (any_type t) (CT CombinedTokType.TZOffset)) eqn:Ec.
    + rewrite Hp, Ec. simpl.
      destruct (parseOffset (any_value t) (S i)) as [o'|e] eqn:Ho; [|discriminate].
      intros [= <- <-]. exists t. split; [reflexivity|].
      apply parseOffset_Ok in Ho as (sg & h & m & -> & _).
      destruct t as [r|[[] ? ? ? ?]]; simpl in *; [discriminate|reflexivity].
    + discriminate.
Qed.

(** C3.  [-00:00] stays a numeric offset through parsing and serializing,
    and no operation turns a numeric offset into the UTC marker or back:
    the offset parser only builds numeric offsets, the main parser builds
    the UTC marker from a [Z] token only and a numeric offset from a fused
    offset token only, a numeric offset is never printed as [Z], and a
    printed zero offset of either sign parses back to a numeric offset of
    that sign. *)
Theorem zero_offset_is_not_utc :
  parseTemporal "2025-01-12T10:00:00-00:00"
    = Ok (Value (DateTime
            (mkDateTime (mkDate 2025 (Some 1%Z) (Some 12%Z))
               (Some (mkTime 10 0 (Some 0%Z) None))
               (Some (NumericOffset SignMinus 0 0 "-00:00")) None [])))
  /\ stringifyTemporal
       (Value (DateTime
            (mkDateTime (mkDate 2025 (Some 1%Z) (Some 12%Z))
               (Some (mkTime 10 0 (Some 0%Z) None))
               (Some (NumericOffset SignMinus 0 0 "-00:00")) None [])))
     = "2025-01-12T10:00:00-00:00"
  /\ (forall s p, parseOffset s p <> Ok UtcOffset)
  /\ (forall toks i o i',
        Parser.parseOffsetIfPresent toks i = Ok (Some o, i') ->
        exists t, Parser.peek toks 0 i = Ok (t, i) /\
          match o with
          | UtcOffset => any_type t = TT TokType.Z
          | NumericOffset _ _ _ _ => any_type t = CT CombinedTokType.TZOffset
          end)
  /\ stringifyOffset UtcOffset = "Z"
  /\ (forall sign hours minutes raw,
        stringifyOffset (NumericOffset sign hours minutes raw) <> "Z")
  /\ (forall sign raw p,
        parseOffset (stringifyOffset (NumericOffset sign 0 0 raw)) p
        = Ok (NumericOffset sign 0 0 (Sign_text sign +:+ "00:00"))).
Proof.
  split; [vm_compute; reflexivity|].
  split; [vm_compute; reflexivity|].
  split.
  { intros s p H. apply parseOffset_Ok in H as (sg & h & m & H & _). discriminate. }
  split; [exact parseOffsetIfPresent_kind|].
  split; [reflexivity|].
  split.
  { intros [] h m raw; simpl; discriminate. }
  intros [] raw p; vm_compute; reflexivity.
Qed.

(** C5.  [stringifyOffset] prints a numeric offset from its sign, hours and
    minutes alone, as the sign, two digits, a colon and two digits, whatever
    text the node stores as [raw]; so the compact and the short form come
    out in the canonical shape. *)
Theorem stringifyOffset_canonical sign hours minutes raw :
  (0 <= hours <= 14)%Z -> (0 <= minutes <= 59)%Z ->
  stringifyOffset (NumericOffset sign hours minutes raw)
    = Sign_text sign +:+ twoDigits hours +:+ ":" +:+ twoDigits minutes
  /\ (forall raw',
        stringifyOffset (NumericOffset sign hours minutes raw')
        = stringifyOffset (NumericOffset sign hours minutes raw))
  /\ (let* ast := parseTemporal "2025-01-12T10:00:00+0530" in
      Ok (stringifyTemporal ast)) = Ok "2025-01-12T10:00:00+05:30"
  /\ (let* o := parseOffset "+09" 0 in Ok (stringifyOffset o)) = Ok "+09:00"
  /\ (let* ast := parseTemporal "2025-01-12T10:00:00+09" in
      Ok (stringifyTemporal ast)) = Ok "2025-01-12T10:00:00+09:00".
Proof.
  intros Hh Hm. split.
  - unfold stringifyOffset.
    rewrite !padStart_twoDigits by lia. reflexivity.
  - split; [reflexivity|].
    repeat split; vm_compute; reflexivity.
Qed.

Lemma stringifyOffset_canonical_witness :
  stringifyOffset (NumericOffset SignPlus 5 30 "+0530") = "+05:30".
Proof.
  exact (proj1 (stringifyOffset_canonical SignPlus 5 30 "+0530"
                  ltac:(lia) ltac:(lia))).
Defined.

(** The text [±HH:MM] of a sign, hours and minutes. *)
Definition offsetText (sign : Sign) (hours minutes : Z) : string :=
  Sign_text sign +:+ twoDigits hours +:+ ":" +:+ twoDigits minutes.

Definition Sign_eqb (a b : Sign) : bool :=
  match a, b with
  | SignPlus, SignPlus | SignMinus, SignMinus => true
  | _, _ => false
  end.

(** The three outcomes of [parseOffset] on a text [±HH:MM], as a check
    that can be run. *)
Definition offsetOutcome (sign : Sign) (hours minutes : Z) : bool :=
  match parseOffset (offsetText sign hours minutes) 0 with
  | Ok (NumericOffset s h m raw) =>
      (hours <=? 14)%Z && (minutes <=? 59)%Z
      && Sign_eqb s sign && (h =? hours)%Z && (m =? minutes)%Z
      && String.eqb raw (offsetText sign hours minutes)
  | Ok UtcOffset => false
  | Err (ParseError (OffsetHoursRange h) 0) => (14 <? hours)%Z && (h =? hours)%Z
  | Err (ParseError (OffsetMinutesRange m) 0) =>
      (hours <=? 14)%Z && (59 <? minutes)%Z && (m =? minutes)%Z
  | Err _ => false
  end.

Lemma offsetOutcome_all sign hours minutes :
  (0 <= hours <= 99)%Z -> (0 <= minutes <= 99)%Z ->
  offsetOutcome sign hours minutes = true.
Proof.
  intros Hh Hm.
  assert (H : upTo 99 (fun h => upTo 99 (fun m =>
                offsetOutcome SignPlus h m && offsetOutcome SignMinus h m)) = true)
    by (vm_compute; reflexivity).
  apply (upTo_spec 99 _ hours) in H; [|exact Hh].
  apply (upTo_spec 99 _ minutes) in H; [|exact Hm].
  apply andb_true_iff in H as [H1 H2]. destruct sign; assumption.
Qed.

(** The position only labels the error. *)
Lemma parseOffset_position s p q :
  parseOffset s q =
  match parseOffset s p with
  | Ok o => Ok o
  | Err (ParseError k _) => Err (ParseError k q)
  | Err e => Err e
  end.
Proof.
  unfold parseOffset, toInt. destruct s as [|c rest]; [reflexivity|].
  repeat match goal with
         | |- context [if ?b then _ else _] => destruct b; simpl; try reflexivity
         | |- context [match ?x with _ => _ end] => destruct x; simpl; try reflexivity
         end.
Qed.



(** ** Integer conversion *)

(** What [toInt] does with the value the host numeric parser produces. *)
Lemma toInt_spec s label p :
  toInt s label p =
  match JSNumber.ofString s with
  | JSNumber.Finite q =>
      if (Qnum q mod Zpos (Qden q) =? 0)%Z then Ok (Qnum q / Zpos (Qden q))%Z
      else Err (ParseError (InvalidInteger label s) p)
  | _ => Err (ParseError (InvalidInteger label s) p)
  end.
Proof.
  unfold toInt. destruct (JSNumber.ofString s) as [| |q]; simpl; try reflexivity.
  destruct (Qnum q mod Zpos (Qden q) =? 0)%Z; reflexivity.
Qed.

(** The claim of C9 fails on decimal texts whose value is integral: [toInt]
    accepts the text [1.0], which is written with a decimal point. *)
Lemma toInt_accepts_integral_decimal_text :
  ~ (forall s label p, JS.includes "." s = true -> is_ok (toInt s label p) = false).
Proof.
  intros H. specialize (H "1.0" "year" 0 eq_refl). vm_compute in H. discriminate.
Qed.

(** C9, amended.  [toInt] returns the integer the host numeric parser
    produces when that value is a finite integer, and raises the
    invalid-integer error in every other case; so it rejects [NaN], the
    infinities and the decimal texts whose value is not integral, and it
    accepts signs, exponents, radix prefixes and also decimal texts whose
    value is integral. *)
Theorem toInt_finite_integers_only :
  (forall s label p n,
     toInt s label p = Ok n <->
     exists q, JSNumber.ofString s = JSNumber.Finite q
               /\ (Qnum q mod Zpos (Qden q) = 0)%Z /\ n = (Qnum q / Zpos (Qden q))%Z)
  /\ (forall s label p,
        is_ok (toInt s label p) = false ->
        toInt s label p = Err (ParseError (InvalidInteger label s) p))
  /\ Forall (fun s => toInt s "year" 0 = Err (ParseError (InvalidInteger "year" s) 0))
       ["1.5"; "3.14"; "0.1"; "NaN"; "Infinity"; "-Infinity"; "abc"; "12a"]
  /\ Forall2 (fun s n => toInt s "year" 0 = Ok n)
       ["2025"; "007"; "-5"; "+5"; "1e5"; "1E10"; "0x10"; "0o10"; "0b10"; "1.0"; "5."; ""]
       [2025; 7; -5; 5; 100000; 10000000000; 16; 8; 2; 1; 5; 0]%Z.
Proof.
  split; [|split; [|split]].
  - intros s label p n. rewrite toInt_spec.
    destruct (JSNumber.ofString s) as [| |q].
    + split; [discriminate|]. intros (q & H & _). discriminate.
    + split; [discriminate|]. intros (q & H & _). discriminate.
    + destruct (Qnum q mod Zpos (Qden q) =? 0)%Z eqn:E.
      * apply Z.eqb_eq in E. split.
        -- intros [= <-]. exists q. auto.
        -- intros (q' & [= <-] & _ & ->). reflexivity.
      * apply Z.eqb_neq in E. split; [discriminate|].
        intros (q' & [= <-] & E' & _). contradiction.
  - intros s label p. rewrite toInt_spec.
    destruct (JSNumber.ofString s) as [| |q]; try reflexivity.
    destruct (Qnum q mod Zpos (Qden q) =? 0)%Z; [discriminate|reflexivity].
  - repeat constructor; vm_compute; reflexivity.
  - repeat constructor; vm_compute; reflexivity.
Qed.

Lemma toInt_finite_integers_only_witness :
  toInt "0x10" "year" 0 = Ok 16%Z.
Proof.
  apply (proj1 toInt_finite_integers_only "0x10" "year" 0 16%Z).
  exists (16 # 1). vm_compute. repeat split; reflexivity.
Defined.

(** ** The parser's cursor *)

Section CursorFacts.

Import Parser.

Variable toks : list AnyToken.

Lemma peek_here i t : toks !! i = Some t -> peek toks 0 i = Ok (t, i).
Proof.
  intros H. unfold peek.
  assert (i < length toks) by (eapply lookup_lt_Some; eauto).
  replace (Nat.min (i + 0) (length toks - 1)) with i by lia.
  rewrite H. reflexivity.
Qed.

Lemma at_here i t ty :
  toks !! i = Some t -> at_ toks ty i = Ok (AnyTokType_eqb (any_type t) ty, i).
Proof. intros H. unfold at_, bindM. rewrite (peek_here i t H). reflexivity. Qed.

Lemma AnyTokType_eqb_eq a b : AnyTokType_eqb a b = true <-> a = b.
Proof.
  destruct a as [x|[]], b as [y|[]]; simpl; split; try congruence; try reflexivity.
  - destruct x, y; simpl; congruence.
  - intros [= ->]. destruct y; reflexivity.
Qed.

Lemma AnyTokType_eqb_refl a : AnyTokType_eqb a a = true.
Proof. apply AnyTokType_eqb_eq. reflexivity. Qed.

Lemma AnyTokType_eqb_neq a b : a <> b -> AnyTokType_eqb a b = false.
Proof.
  intros H. destruct (AnyTokType_eqb a b) eqn:E; [|reflexivity].
  apply AnyTokType_eqb_eq in E. contradiction.
Qed.

Lemma eat_here i t ty :
  toks !! i = Some t -> any_type t = ty -> eat toks ty i = Ok (t, S i).
Proof.
  intros H <-. unfold eat, bindM. rewrite (peek_here i t H).
  rewrite AnyTokType_eqb_refl. reflexivity.
Qed.

Lemma tryEat_here i t ty :
  toks !! i = Some t -> any_type t = ty -> tryEat toks ty i = Ok (Some t, S i).
Proof.
  intros H <-. unfold tryEat, bindM. rewrite (at_here i t _ H).
  rewrite AnyTokType_eqb_refl.
  rewrite (eat_here i t _ H eq_refl). reflexivity.
Qed.

Lemma tryEat_other i t ty :
  toks !! i = Some t -> any_type t <> ty -> tryEat toks ty i = Ok (None, i).
Proof.
  intros H Hty. unfold tryEat, bindM. rewrite (at_here i t ty H).
  rewrite AnyTokType_eqb_neq by exact Hty. reflexivity.
Qed.

Lemma at_other i t ty :
  toks !! i = Some t -> any_type t <> ty -> at_ toks ty i = Ok (false, i).
Proof.
  intros H Hty. rewrite (at_here i t ty H), AnyTokType_eqb_neq by exact Hty.
  reflexivity.
Qed.

Lemma at_same i t ty :
  toks !! i = Some t -> any_type t = ty -> at_ toks ty i = Ok (true, i).
Proof.
  intros H <-. rewrite (at_here i t _ H), AnyTokType_eqb_refl. reflexivity.
Qed.

Lemma bindM_Ok {A B} (m : M A) (k : A -> M B) i a j :
  m i = Ok (a, j) -> bindM m k i = k a j.
Proof. intros H. unfold bindM. rewrite H. reflexivity. Qed.

(** One round of the designator loop on a number followed by a unit: the
    number is converted and handed to [addUnit], and the loop goes on behind
    the unit. *)
Lemma durationLoop_pair fuel rawParts inTime dur i numTok unitTok n :
  toks !! i = Some (Raw numTok) -> type numTok = TokType.Number ->
  toks !! S i = Some (Raw unitTok) -> type unitTok = TokType.Ident ->
  toInt (value numTok) "duration number" (S (S i)) = Ok n ->
  durationLoop toks (S fuel) rawParts inTime dur i =
  match addUnit inTime (value unitTok) n None dur (S (S i)) with
  | Ok (dur', _) =>
      durationLoop toks fuel (rawParts ++ [value numTok; value unitTok])
        inTime dur' (S (S i))
  | Err e => Err e
  end.
Proof.
  intros Hn Tn Hu Tu Hint.
  assert (An : any_type (Raw numTok) = TT TokType.Number) by (simpl; congruence).
  assert (Au : any_type (Raw unitTok) = TT TokType.Ident) by (simpl; congruence).
  cbn [durationLoop]. unfold eof.
  rewrite (bindM_Ok _ _ i false i)
    by (apply (at_other i _ _ Hn); rewrite An; discriminate).
  cbv beta iota.
  erewrite (bindM_Ok _ _ i true i).
  2:{ rewrite (bindM_Ok _ _ i false i)
        by (apply (at_other i _ _ Hn); rewrite An; discriminate).
      cbv beta iota.
      rewrite (bindM_Ok _ _ i false i)
        by (apply (at_other i _ _ Hn); rewrite An; discriminate).
      reflexivity. }
  cbv beta iota.
  rewrite (bindM_Ok _ _ i None i)
    by (apply (tryEat_other i _ _ Hn); rewrite An; discriminate).
  cbv beta iota.
  rewrite (bindM_Ok _ _ i (Some (Raw numTok)) (S i))
    by (apply (tryEat_here i _ _ Hn An)).
  cbv beta iota.
  rewrite (bindM_Ok _ _ (S i) None (S i))
    by (apply (tryEat_other (S i) _ _ Hu); rewrite Au; discriminate).
  cbv beta iota.
  erewrite (bindM_Ok _ _ (S i)) by reflexivity.
  cbv beta iota.
  rewrite (bindM_Ok _ _ (S i) (Raw unitTok) (S (S i)))
    by (apply (eat_here (S i) _ _ Hu Au)).
  erewrite (bindM_Ok _ _ (S (S i))) by reflexivity.
  erewrite (bindM_Ok _ _ (S (S i)) n)
    by (unfold lift; cbn [any_value]; rewrite Hint; reflexivity).
  unfold bindM. cbn [any_value].
  destruct (addUnit inTime (value unitTok) n None dur (S (S i)))
    as [[dur' j]|e] eqn:Ha; [|reflexivity].
  assert (j = S (S i)) as ->.
  { unfold addUnit in Ha. destruct dur.
    repeat match type of Ha with
           | context [if ?b then _ else _] => destruct b
           end; unfold ret, throwAt in Ha; congruence. }
  rewrite <- app_assoc. reflexivity.
Qed.

End CursorFacts.

(** ** Durations *)

(** The seven accumulators, with the part of the duration and the
    designator letter that select each. *)
Inductive DurationField :=
| Years | Months | Weeks | Days | Hours | Minutes | Seconds.

Definition inTimePart (f : DurationField) : bool :=
  match f with
  | Years | Months | Weeks | Days => false
  | Hours | Minutes | Seconds => true
  end.

Definition designator (f : DurationField) : string :=
  match f with
  | Years => "Y" | Months => "M" | Weeks => "W" | Days => "D"
  | Hours => "H" | Minutes => "M" | Seconds => "S"
  end.

Definition fieldOf (f : DurationField) (dur : Parser.Dur) : option Z :=
  match f with
  | Years => Parser.d_years dur
  | Months => Parser.d_months dur
  | Weeks => Parser.d_weeks dur
  | Days => Parser.d_days dur
  | Hours => Parser.d_hours dur
  | Minutes => Parser.d_minutes dur
  | Seconds => Parser.d_seconds dur
  end.

(** ** Bracket groups of a date-time *)

(** The text of a bracket group without its critical mark. *)
Definition groupContent (g : Parser.BracketGroup) : string :=
  if Parser.critical g then JS.slice_from 1 (Parser.raw g) else Parser.raw g.

Definition timeZoneOf (g : Parser.BracketGroup) : TimeZoneAst :=
  mkTimeZone (groupContent g) (Parser.critical g).

Definition annotationOf (g : Parser.BracketGroup) : AnnotationAst :=
  mkAnnotation (Parser.raw g) (Parser.critical g) (Parser.pairs g).

(** The classification of the specification: the first group that looks
    like a time zone is the time zone, all the others are annotations, in
    their order. *)
Definition classify (gs : list Parser.BracketGroup)
  : option TimeZoneAst * list AnnotationAst :=
  match list_find (fun g => Is_true (Parser.isLikelyTzId g)) gs with
  | Some (k, g) => (Some (timeZoneOf g), map annotationOf (delete k gs))
  | None => (None, map annotationOf gs)
  end.

(** The bracket groups under the cursor, read one after the other. *)
Fixpoint parseGroups (toks : list AnyToken) (fuel : nat)
  : Parser.M (list Parser.BracketGroup) :=
  match fuel with
  | 0 => Parser.diverge
  | S fuel' =>
      Parser.bindM (Parser.at_ toks (TT TokType.LBracket)) (fun more =>
        if more then
          Parser.bindM (Parser.parseBracketGroup toks (S (length toks))) (fun g =>
            Parser.bindM (parseGroups toks fuel') (fun gs => Parser.ret (g :: gs)))
        else Parser.ret [])
  end.

Lemma classify_cons g gs :
  classify (g :: gs) =
  if Parser.isLikelyTzId g then (Some (timeZoneOf g), map annotationOf gs)
  else (fst (classify gs), annotationOf g :: snd (classify gs)).
Proof.
  unfold classify. simpl.
  destruct (Parser.isLikelyTzId g); simpl; [reflexivity|].
  destruct (list_find _ gs) as [[k g']|]; reflexivity.
Qed.

(** The loop of [parseDateTime], started with a time zone and annotations
    already found, against the groups read in one go. *)
Lemma dateTimeBrackets_groups toks fuel : forall timeZone annotations i,
  Parser.dateTimeBrackets toks fuel timeZone annotations i =
  match parseGroups toks fuel i with
  | Ok (gs, i') =>
      Ok (match timeZone with
          | Some _ => (timeZone, annotations ++ map annotationOf gs)
          | None => (fst (classify gs), annotations ++ snd (classify gs))
          end, i')
  | Err e => Err e
  end.
Proof.
  induction fuel as [|fuel IH]; intros tz anns i; [reflexivity|].
  cbn [Parser.dateTimeBrackets parseGroups]. unfold Parser.bindM at 1 3.
  destruct (Parser.at_ toks (TT TokType.LBracket) i) as [[[] j]|e]; [| |reflexivity].
  - unfold Parser.bindM at 1 2.
    destruct (Parser.parseBracketGroup toks (S (length toks)) j) as [[g j']|e];
      [|reflexivity].
    unfold Parser.bindM at 1.
    destruct tz as [tz|].
    + rewrite IH. destruct (parseGroups toks fuel j') as [[gs j'']|e]; [|reflexivity].
      unfold Parser.ret. simpl. rewrite <- app_assoc. reflexivity.
    + destruct (Parser.isLikelyTzId g) eqn:Etz.
      * rewrite IH. destruct (parseGroups toks fuel j') as [[gs j'']|e]; [|reflexivity].
        unfold Parser.ret. rewrite classify_cons, Etz. reflexivity.
      * rewrite IH. destruct (parseGroups toks fuel j') as [[gs j'']|e]; [|reflexivity].
        unfold Parser.ret. rewrite classify_cons, Etz. simpl.
        rewrite <- app_assoc. reflexivity.
  - unfold Parser.ret. destruct tz; simpl; rewrite app_nil_r; reflexivity.
Qed.

(** What [parseBracketGroup] reports as time-zone-like. *)
Lemma parseBracketGroup_tz toks fuel i g i' :
  Parser.parseBracketGroup toks fuel i = Ok (g, i') ->
  Parser.isLikelyTzId g =
    (negb (JS.includes "=" (groupContent g))
     && (JS.includes "/" (groupContent g) || JS.startsWith "Etc/" (groupContent g))).
Proof.
  unfold Parser.parseBracketGroup, Parser.bindM.
  destruct (Parser.eat toks (TT TokType.LBracket) i) as [[t1 j1]|]; [|discriminate].
  destruct (Parser.tryEat toks (TT TokType.Exclamation) j1) as [[bang j2]|];
    [|discriminate].
  destruct (Parser.gatherParts toks fuel _ j2) as [[parts j3]|]; [|discriminate].
  destruct (Parser.eat toks (TT TokType.RBracket) j3) as [[t2 j4]|]; [|discriminate].
  unfold Parser.ret. intros [= <- <-]. unfold groupContent. simpl.
  unfold Parser.likelyTzId, JS.includes.
  destruct bang; simpl; destruct (JS.indexOf "=" _); reflexivity.
Qed.

(** * Canonical text *)
(** ** Decimal numerals *)

(** Every character of the string satisfies [p]. *)
Fixpoint strAll (p : ascii -> bool) (s : string) : bool :=
  match s with
  | EmptyString => true
  | String c s' => p c && strAll p s'
  end.

(** A non-empty run of decimal digits. *)
Definition isNumeral (s : string) : bool := JSNumber.nonEmpty s && strAll isDigit s.

(** The first character of the string, if any, fails [p]. *)
Definition stopsAt (p : ascii -> bool) (s : string) : bool :=
  match s with
  | EmptyString => true
  | String c _ => negb (p c)
  end.

Lemma append_cons c s t : String c s +:+ t = String c (s +:+ t).
Proof. reflexivity. Qed.

Lemma append_nil_l s : "" +:+ s = s.
Proof. reflexivity. Qed.

Lemma strAll_app p s t : strAll p (s +:+ t) = strAll p s && strAll p t.
Proof.
  induction s as [|c s IH]; [reflexivity|].
  rewrite append_cons. simpl. rewrite IH, andb_assoc. reflexivity.
Qed.

Lemma span_app p s rest :
  strAll p s = true -> stopsAt p rest = true -> Lexer.span p (s +:+ rest) = (s, rest).
Proof.
  intros Hs Hr. induction s as [|c s IH]; rewrite ?append_cons, ?append_nil_l; simpl.
  - destruct rest as [|c r]; simpl in *; [reflexivity|].
    destruct (p c); [discriminate|reflexivity].
  - simpl in Hs. apply andb_true_iff in Hs as [Hc Hs].
    rewrite Hc, (IH Hs). reflexivity.
Qed.

Lemma append_nil_r s : s +:+ "" = s.
Proof. induction s as [|c s IH]; rewrite ?append_cons; [reflexivity|congruence]. Qed.

Lemma append_assoc s t u : (s +:+ t) +:+ u = s +:+ t +:+ u.
Proof. induction s as [|c s IH]; rewrite ?append_cons; [reflexivity|congruence]. Qed.

Lemma length_append s t : String.length (s +:+ t) = String.length s + String.length t.
Proof.
  induction s as [|c s IH]; rewrite ?append_cons; [reflexivity|].
  simpl. congruence.
Qed.

Lemma span_all p s : strAll p s = true -> Lexer.span p s = (s, "").
Proof.
  intros H. rewrite <- (append_nil_r s) at 1. apply span_app; auto.
Qed.

Section Numerals.

Import JSNumber.

Local Open Scope Z_scope.

(** Replaces the code of a character literal by its value. *)
Ltac eval_char_codes :=
  repeat match goal with
         | |- context [Z.of_nat (nat_of_ascii ?c)] =>
             let v := eval vm_compute in (Z.of_nat (nat_of_ascii c)) in
             change (Z.of_nat (nat_of_ascii c)) with v
         end.

Lemma digitsValue_uint_acc d : forall acc : positive,
  digitsValue 10 (Zpos acc) (NilEmpty.string_of_uint d)
  = Some (Zpos (Pos.of_uint_acc d acc)).
Proof.
  induction d; intros acc; simpl; try reflexivity;
    eval_char_codes;
    match goal with
    | |- digitsValue 10 ?a _ = Some (Zpos (Pos.of_uint_acc _ ?b)) =>
        replace a with (Zpos b) by lia; apply IHd
    end.
Qed.

Lemma digitsValue_uint d :
  digitsValue 10 0 (NilEmpty.string_of_uint d) = Some (Z.of_N (Pos.of_uint d)).
Proof.
  induction d; simpl; try reflexivity; try exact IHd;
    eval_char_codes; apply (digitsValue_uint_acc d).
Qed.

Lemma strAll_uint d : strAll isDigit (NilEmpty.string_of_uint d) = true.
Proof. induction d; simpl; auto. Qed.

(** The decimal expansion of a natural number is a numeral whose value
    is the number. *)
Lemma toString_numeral n :
  0 <= n ->
  isNumeral (toString n) = true /\ digitsValue 10 0 (toString n) = Some n.
Proof.
  intros Hn. unfold toString, isNumeral. destruct n as [|p|p]; [split; reflexivity| |lia].
  simpl Z.to_int. unfold NilZero.string_of_int, NilZero.string_of_uint.
  pose proof (DecimalPos.Unsigned.of_to p) as Hp.
  destruct (Pos.to_uint p) as [|u|u|u|u|u|u|u|u|u|u]; try discriminate;
    (split; [apply (strAll_uint u) | rewrite digitsValue_uint, Hp; reflexivity]).
Qed.

Lemma digitsValue_zeros k s :
  digitsValue 10 0 (JS.repeat_char "0" k +:+ s) = digitsValue 10 0 s.
Proof.
  induction k as [|k IH]; [reflexivity|].
  cbn [JS.repeat_char]. rewrite append_cons. exact IH.
Qed.

Lemma strAll_zeros k : strAll isDigit (JS.repeat_char "0" k) = true.
Proof. induction k; simpl; auto. Qed.

(** A numeral padded with zeros is a numeral with the same value. *)
Lemma padStart_numeral k s :
  isNumeral s = true ->
  isNumeral (JS.padStart k "0" s) = true
  /\ digitsValue 10 0 (JS.padStart k "0" s) = digitsValue 10 0 s.
Proof.
  unfold isNumeral, JS.padStart. intros H. apply andb_true_iff in H as [Hne Hs].
  split.
  - rewrite strAll_app, strAll_zeros, Hs.
    destruct (JS.repeat_char "0" (k - String.length s));
      rewrite ?append_nil_l, ?append_cons; simpl; [|reflexivity].
    rewrite Hne. reflexivity.
  - apply digitsValue_zeros.
Qed.

End Numerals.

Section NumeralConversion.

Import JSNumber.

Local Open Scope Z_scope.

Lemma digit_not_whitespace c : isDigit c = true -> JS.isWhitespace c = false.
Proof.
  destruct c as [[] [] [] [] [] [] [] []]; vm_compute; intros; congruence.
Qed.

(** A digit is none of the characters that are not digits. *)
Lemma digit_neq c c' : isDigit c = true -> isDigit c' = false -> Ascii.eqb c c' = false.
Proof.
  intros Hc Hc'. destruct (Ascii.eqb c c') eqn:E; [|reflexivity].
  apply Ascii.eqb_eq in E. congruence.
Qed.

Lemma trimEnd_numeral s : strAll isDigit s = true -> JS.trimEnd s = s.
Proof.
  induction s as [|c s IH]; [reflexivity|]. simpl.
  intros H. apply andb_true_iff in H as [Hc Hs]. rewrite (IH Hs).
  destruct s; [|reflexivity]. rewrite (digit_not_whitespace c Hc). reflexivity.
Qed.

Lemma trim_numeral s : strAll isDigit s = true -> JS.trim s = s.
Proof.
  intros H. unfold JS.trim.
  assert (E : JS.trimStart s = s).
  { destruct s as [|c s]; [reflexivity|]. simpl in *.
    apply andb_true_iff in H as [Hc _]. rewrite (digit_not_whitespace c Hc).
    reflexivity. }
  rewrite E. apply trimEnd_numeral. exact H.
Qed.

Lemma nonDecimalRadix_numeral s : strAll isDigit s = true -> nonDecimalRadix s = None.
Proof.
  destruct s as [|c0 [|c1 body]]; simpl; intros H.
  - reflexivity.
  - destruct c0 as [[] [] [] [] [] [] [] []]; reflexivity.
  - apply andb_true_iff in H as [_ H]. apply andb_true_iff in H as [H1 _].
    rewrite !(digit_neq c1) by (assumption || reflexivity).
    destruct c0 as [[] [] [] [] [] [] [] []]; reflexivity.
Qed.

Lemma unsignedDecimal_numeral s n :
  isNumeral s = true -> digitsValue 10 0 s = Some n ->
  unsignedDecimal s = Some ((n * 10 ^ 0) # 1)%Q.
Proof.
  unfold isNumeral. intros H Hn. apply andb_true_iff in H as [Hne Hs].
  unfold unsignedDecimal. rewrite (span_all _ _ Hs). rewrite Hne.
  rewrite append_nil_r, Hn. reflexivity.
Qed.

Lemma ofString_numeral s n :
  isNumeral s = true -> digitsValue 10 0 s = Some n ->
  ofString s = roundToNumber ((n * 10 ^ 0) # 1)%Q.
Proof.
  intros H Hn. pose proof H as H'. unfold isNumeral in H'.
  apply andb_true_iff in H' as [Hne Hs].
  unfold ofString. rewrite (trim_numeral s Hs), (nonDecimalRadix_numeral s Hs).
  destruct s as [|c s']; [discriminate|].
  simpl in Hs. apply andb_true_iff in Hs as [Hc Hs'].
  unfold takeSign. rewrite !(digit_neq c) by (assumption || reflexivity).
  assert (E : String.eqb (String c s') "Infinity" = false).
  { simpl. rewrite (digit_neq c) by (assumption || reflexivity). reflexivity. }
  rewrite E, (unsignedDecimal_numeral _ n H Hn). reflexivity.
Qed.

(** A natural number below 2^53 is its own rounding. *)
Lemma roundToNumber_safe n :
  0 <= n < 2 ^ 53 ->
  exists q, roundToNumber (n # 1)%Q = Finite q
            /\ Qnum q mod Zpos (Qden q) = 0 /\ Qnum q / Zpos (Qden q) = n.
Proof.
  intros Hn. unfold roundToNumber. simpl Qnum. simpl Qden.
  rewrite Z.abs_eq by lia.
  destruct (n =? 0) eqn:E0.
  { apply Z.eqb_eq in E0. subst n. exists (0 # 1)%Q. repeat split; reflexivity. }
  apply Z.eqb_neq in E0.
  assert (Hlog : 0 <= Z.log2 n < 53).
  { split; [apply Z.log2_nonneg|]. apply Z.log2_lt_pow2; lia. }
  pose proof (Z.log2_spec n ltac:(lia)) as [Hlo Hhi].
  unfold nearestDouble. change (Z.log2 1) with 0. rewrite Z.sub_0_r.
  assert (E1 : (0 <=? Z.log2 n) = true) by (apply Z.leb_le; lia).
  rewrite E1.
  assert (E2 : (1 * 2 ^ Z.log2 n <=? n) = true) by (apply Z.leb_le; lia).
  rewrite E2.
  rewrite Z.max_l by lia.
  assert (Hneg : (n <? 0) = false) by (apply Z.ltb_ge; lia). rewrite Hneg.
  destruct (0 <=? Z.log2 n - 52) eqn:E3.
  - apply Z.leb_le in E3. assert (Z.log2 n = 52) as E52 by lia.
    rewrite E52 in *. change (52 - 52) with 0. change (1 * 2 ^ 0) with 1.
    unfold roundHalfEven. rewrite Z.div_1_r, Z.mod_1_r.
    change (2 * 0 <? 1) with true. cbv iota. rewrite Z.mul_1_r.
    assert (E4 : (2 ^ 1024 <=? n) = false).
    { apply Z.leb_gt. eapply Z.lt_trans; [apply Hn|]. reflexivity. }
    rewrite E4. exists (n # 1)%Q. repeat split.
    + simpl. apply Z.mod_1_r.
    + simpl. apply Z.div_1_r.
  - apply Z.leb_gt in E3.
    set (k := - (Z.log2 n - 52)). assert (Hk : 0 < k) by (unfold k; lia).
    unfold roundHalfEven. rewrite Z.div_1_r, Z.mod_1_r.
    change (2 * 0 <? 1) with true. cbv iota.
    set (r := Qred (n * 2 ^ k # Z.to_pos (2 ^ k))).
    exists r. split; [reflexivity|].
    assert (Hpow : 0 < 2 ^ k) by (apply Z.pow_pos_nonneg; lia).
    pose proof (Qred_correct (n * 2 ^ k # Z.to_pos (2 ^ k))) as Hr.
    fold r in Hr. unfold Qeq in Hr. simpl in Hr. rewrite Z2Pos.id in Hr by lia.
    assert (Hq : Qnum r = n * Zpos (Qden r)) by nia.
    rewrite Hq. split.
    + apply Z.mod_mul. lia.
    + apply Z.div_mul. lia.
Qed.

(** [toInt] reads a numeral below 2^53 as its value. *)
Lemma toInt_numeral s n label p :
  isNumeral s = true -> digitsValue 10 0 s = Some n -> n < 2 ^ 53 ->
  toInt s label p = Ok n.
Proof.
  intros H Hn Hlt.
  assert (Hge : 0 <= n).
  { clear -Hn.
    assert (G : forall t a, 0 <= a -> forall m, digitsValue 10 a t = Some m -> 0 <= m).
    { induction t as [|c t IH]; simpl; intros a Ha m Hm; [congruence|].
      destruct (digitValue c) as [v|] eqn:Ev; [|discriminate].
      destruct (v <? 10); [|discriminate].
      apply (IH (a * 10 + v)); [|exact Hm].
      unfold digitValue in Ev.
      repeat match type of Ev with
             | context [if ?b then _ else _] => destruct b eqn:?
             end; try discriminate; injection Ev as <-; lia. }
    apply (G s 0); [lia|exact Hn]. }
  rewrite toInt_spec, (ofString_numeral s n H Hn).
  rewrite Z.pow_0_r, Z.mul_1_r.
  destruct (roundToNumber_safe n ltac:(lia)) as (q & -> & Hmod & Hdiv).
  rewrite Hmod, Hdiv. reflexivity.
Qed.

(** The printed form of a natural number below 2^53, padded or not, is
    read back as the number. *)
Lemma toInt_padStart_toString k n label p :
  0 <= n < 2 ^ 53 ->
  toInt (JS.padStart k "0" (toString n)) label p = Ok n.
Proof.
  intros Hn. destruct (toString_numeral n ltac:(lia)) as [H1 H2].
  destruct (padStart_numeral k _ H1) as [H3 H4].
  apply toInt_numeral; [exact H3| rewrite H4; exact H2 | lia].
Qed.

End NumeralConversion.

(** ** The lexer on canonical text *)

(** A token without its offsets. *)
Definition tk (ty : TokType.t) (v : string) : Token := mkToken ty v 0 0.

Definition normT (t : Token) : Token := tk (type t) (value t).

(** [toks ++ l] inside a result. *)
Definition prepend {A B C} (toks : list A) (r : Result (list A * B * C))
  : Result (list A * B * C) :=
  match r with
  | Ok (l, b, c) => Ok (toks ++ l, b, c)
  | Err e => Err e
  end.

Definition prependL {A} (toks : list A) (r : Result (list A)) : Result (list A) :=
  match r with
  | Ok l => Ok (toks ++ l)
  | Err e => Err e
  end.

Lemma prepend_prepend {A B C} (a b : list A) (r : Result (list A * B * C)) :
  prepend a (prepend b r) = prepend (a ++ b) r.
Proof. destruct r as [[[l x] y]|e]; simpl; [rewrite app_assoc|]; reflexivity. Qed.

Lemma prependL_prependL {A} (a b : list A) (r : Result (list A)) :
  prependL a (prependL b r) = prependL (a ++ b) r.
Proof. destruct r as [l|e]; simpl; [rewrite app_assoc|]; reflexivity. Qed.

Lemma prepend_nil {A B C} (r : Result (list A * B * C)) : prepend [] r = r.
Proof. destruct r as [[[l x] y]|e]; reflexivity. Qed.

Lemma prependL_nil {A} (r : Result (list A)) : prependL [] r = r.
Proof. destruct r as [l|e]; reflexivity. Qed.

Lemma span_length p s a b :
  Lexer.span p s = (a, b) -> String.length s = String.length a + String.length b.
Proof.
  revert a b. induction s as [|c s IH]; simpl; intros a b H.
  - injection H as <- <-. reflexivity.
  - destruct (p c).
    + destruct (Lexer.span p s) as [a' b'] eqn:E. injection H as <- <-.
      simpl. rewrite (IH a' b' eq_refl). reflexivity.
    + injection H as <- <-. reflexivity.
Qed.

Section LexerFuel.

Import Lexer.

Lemma lexBracketContent_unfold fuel i ch rest1 toks :
  lexBracketContent (S fuel) i (String ch rest1) toks =
  if Ascii.eqb ch "]" then Ok (toks, i, String ch rest1)
  else if JS.isWhitespace ch then lexBracketContent fuel (i + 1) rest1 toks
  else
    match bracketPunct ch with
    | Some ty =>
        lexBracketContent fuel (i + 1) rest1 (toks ++ [emit ty i (String ch EmptyString)])
    | None =>
        if isBracketWordChar ch then
          let '(w, rest2) := span isBracketWordChar rest1 in
          let text := String ch w in
          let ty := if isLetterWord text then TokType.Ident else TokType.BracketText in
          let tok := emit ty i text in
          lexBracketContent fuel (end_ tok) rest2 (toks ++ [tok])
        else Err (LexError (UnexpectedCharacterInBrackets ch) i)
    end.
Proof. reflexivity. Qed.

Lemma lex_loop_unfold fuel i ch rest1 toks :
  lex_loop (S fuel) i (String ch rest1) toks =
  if JS.isWhitespace ch then lex_loop fuel (i + 1) rest1 toks
  else if Ascii.eqb ch "[" then
    let* (toks1, i1, rest2) :=
      lexBracketContent (S (String.length rest1)) (i + 1) rest1
        (toks ++ [emit TokType.LBracket i (String ch EmptyString)]) in
    match rest2 with
    | String c rest3 =>
        if Ascii.eqb c "]" then
          lex_loop fuel (i1 + 1) rest3
            (toks1 ++ [emit TokType.RBracket i1 (String c EmptyString)])
        else Err (LexError UnterminatedBracket i1)
    | EmptyString => Err (LexError UnterminatedBracket i1)
    end
  else if isDigit ch then
    let '(tok, i1, rest2) := lexNumber i ch rest1 in
    lex_loop fuel i1 rest2 (toks ++ [tok])
  else if isAlpha ch then
    let '(tok, i1, rest2) := lexIdent i ch rest1 in
    lex_loop fuel i1 rest2 (toks ++ [tok])
  else
    match punct ch with
    | Some ty => lex_loop fuel (i + 1) rest1 (toks ++ [emit ty i (String ch EmptyString)])
    | None => Err (LexError (UnexpectedCharacter ch) i)
    end.
Proof. reflexivity. Qed.

(** The bracket scanner does not depend on the fuel, once there is enough,
    nor on the tokens already emitted. *)
Lemma lexBracketContent_enough : forall n rest, String.length rest <= n ->
  forall fuel i toks, String.length rest < fuel ->
  lexBracketContent fuel i rest toks
  = prepend toks (lexBracketContent (S (String.length rest)) i rest []).
Proof.
  induction n as [|n IH]; intros rest Hn fuel i toks Hfuel.
  - destruct rest; [|simpl in Hn; lia].
    destruct fuel; [lia|]. reflexivity.
  - destruct fuel as [|fuel]; [lia|].
    destruct rest as [|ch rest1]; [reflexivity|].
    rewrite !lexBracketContent_unfold. simpl in Hn, Hfuel.
    set (F := String.length (String ch rest1)).
    assert (HF : F = S (String.length rest1)) by reflexivity.
    destruct (Ascii.eqb ch "]"); [simpl; rewrite app_nil_r; reflexivity|].
    destruct (JS.isWhitespace ch).
    { rewrite (IH rest1 ltac:(lia) fuel) by lia.
      rewrite (IH rest1 ltac:(lia) F) by lia.
      rewrite prepend_nil. reflexivity. }
    destruct (bracketPunct ch) as [ty|].
    { rewrite (IH rest1 ltac:(lia) fuel) by lia.
      rewrite (IH rest1 ltac:(lia) F _ ([] ++ _)) by lia.
      rewrite prepend_prepend. reflexivity. }
    destruct (isBracketWordChar ch); [|reflexivity].
    destruct (span isBracketWordChar rest1) as [w rest2] eqn:Esp.
    pose proof (span_length _ _ _ _ Esp) as Hlen.
    rewrite (IH rest2 ltac:(lia) fuel) by lia.
    rewrite (IH rest2 ltac:(lia) F _ ([] ++ _)) by lia.
    rewrite prepend_prepend. reflexivity.
Qed.

Lemma lexIdent_length i ch rest tok i1 rest1 :
  lexIdent i ch rest = (tok, i1, rest1) -> String.length rest1 <= String.length rest.
Proof.
  unfold lexIdent.
  destruct (Ascii.eqb ch "T"); [intros [= _ _ <-]; lia|].
  destruct (Ascii.eqb ch "Z"); [intros [= _ _ <-]; lia|].
  destruct (span _ rest) as [ls r] eqn:E. intros [= _ _ <-].
  apply span_length in E. lia.
Qed.

Lemma lexNumber_length i ch rest tok i1 rest1 :
  lexNumber i ch rest = (tok, i1, rest1) -> String.length rest1 <= String.length rest.
Proof.
  unfold lexNumber. destruct (span _ rest) as [ls r] eqn:E. intros [= _ _ <-].
  apply span_length in E. lia.
Qed.

Lemma lexBracketContent_length : forall fuel i rest toks toks1 i1 rest1,
  lexBracketContent fuel i rest toks = Ok (toks1, i1, rest1) ->
  String.length rest1 <= String.length rest.
Proof.
  induction fuel as [|fuel IH]; intros i rest toks toks1 i1 rest1 H; [discriminate|].
  destruct rest as [|ch r]; [discriminate|]. rewrite lexBracketContent_unfold in H.
  destruct (Ascii.eqb ch "]"); [injection H as _ _ <-; lia|].
  destruct (JS.isWhitespace ch); [apply IH in H; simpl; lia|].
  destruct (bracketPunct ch); [apply IH in H; simpl; lia|].
  destruct (isBracketWordChar ch); [|discriminate].
  destruct (span isBracketWordChar r) as [w r2] eqn:Esp.
  apply IH in H. apply span_length in Esp. simpl. lia.
Qed.

(** The same for the main loop. *)
Lemma lex_loop_enough : forall n rest, String.length rest <= n ->
  forall fuel i toks, String.length rest < fuel ->
  lex_loop fuel i rest toks
  = prependL toks (lex_loop (S (String.length rest)) i rest []).
Proof.
  induction n as [|n IH]; intros rest Hn fuel i toks Hfuel.
  - destruct rest; [|simpl in Hn; lia].
    destruct fuel; [lia|]. reflexivity.
  - destruct fuel as [|fuel]; [lia|].
    destruct rest as [|ch rest1]; [reflexivity|].
    rewrite !lex_loop_unfold. simpl in Hn, Hfuel.
    set (F := String.length (String ch rest1)).
    assert (HF : F = S (String.length rest1)) by reflexivity.
    destruct (JS.isWhitespace ch).
    { rewrite (IH rest1 ltac:(lia) fuel) by lia.
      rewrite (IH rest1 ltac:(lia) F) by lia.
      rewrite prependL_nil. reflexivity. }
    destruct (Ascii.eqb ch "[").
    { rewrite (lexBracketContent_enough _ rest1 (Nat.le_refl _) _ _ (toks ++ _)) by lia.
      rewrite (lexBracketContent_enough _ rest1 (Nat.le_refl _) _ _ ([] ++ _)) by lia.
      destruct (lexBracketContent (S (String.length rest1)) (i + 1) rest1 [])
        as [[[l j] r]|e] eqn:Eb; [|reflexivity].
      apply lexBracketContent_length in Eb.
      cbn [prepend bind].
      destruct r as [|c r1]; [reflexivity|].
      destruct (Ascii.eqb c "]"); [|reflexivity]. simpl in Eb.
      rewrite (IH r1 ltac:(lia) fuel) by lia.
      rewrite (IH r1 ltac:(lia) F) by lia.
      rewrite prependL_prependL. rewrite <- !app_assoc. reflexivity. }
    destruct (isDigit ch).
    { destruct (lexNumber i ch rest1) as [[tok j] r] eqn:El.
      apply lexNumber_length in El.
      rewrite (IH r ltac:(lia) fuel) by lia.
      rewrite (IH r ltac:(lia) F _ ([] ++ _)) by lia.
      rewrite prependL_prependL. reflexivity. }
    destruct (isAlpha ch).
    { destruct (lexIdent i ch rest1) as [[tok j] r] eqn:El.
      apply lexIdent_length in El.
      rewrite (IH r ltac:(lia) fuel) by lia.
      rewrite (IH r ltac:(lia) F _ ([] ++ _)) by lia.
      rewrite prependL_prependL. reflexivity. }
    destruct (punct ch); [|reflexivity].
    rewrite (IH rest1 ltac:(lia) fuel) by lia.
    rewrite (IH rest1 ltac:(lia) F _ ([] ++ _)) by lia.
    rewrite prependL_prependL. reflexivity.
Qed.

End LexerFuel.

(** [Lexes rest l]: from any index, the main loop of the lexer reads
    [rest] to the end as the tokens [l], up to their offsets. *)
Definition Lexes (rest : string) (l : list Token) : Prop :=
  forall i, exists l1,
    Lexer.lex_loop (S (String.length rest)) i rest [] = Ok l1 /\ map normT l1 = l.

Lemma Lexes_end : Lexes "" [tk TokType.EOF ""].
Proof. intros i. eexists. split; reflexivity. Qed.

(** One round of the main loop that emits [tok] and goes on at [rest]. *)
Lemma Lexes_step s rest l tok :
  (forall i fuel toks, String.length rest < fuel ->
     exists j tok1, normT tok1 = tok /\
       Lexer.lex_loop (S fuel) i s toks = Lexer.lex_loop fuel j rest (toks ++ [tok1])) ->
  String.length rest < String.length s ->
  Lexes rest l -> Lexes s (tok :: l).
Proof.
  intros Hstep Hlen Hl i.
  destruct (Hstep i (String.length s) [] Hlen) as (j & tok1 & Hn & ->).
  rewrite (lex_loop_enough _ rest (Nat.le_refl _)) by lia.
  destruct (Hl j) as (l1 & -> & Hl1).
  eexists. split; [reflexivity|]. simpl. rewrite Hn, Hl1. reflexivity.
Qed.

(** *** Default mode, token by token *)

Lemma Lexes_numeral ds rest l :
  isNumeral ds = true -> stopsAt isDigit rest = true ->
  Lexes rest l -> Lexes (ds +:+ rest) (tk TokType.Number ds :: l).
Proof.
  unfold isNumeral. intros H Hstop Hl. apply andb_true_iff in H as [Hne Hds].
  destruct ds as [|c ds1]; [discriminate|]. simpl in Hds.
  apply andb_true_iff in Hds as [Hc Hds1]. rewrite append_cons.
  apply (Lexes_step _ rest); [|simpl; rewrite length_append; lia|exact Hl].
  intros i fuel toks Hfuel.
  rewrite lex_loop_unfold, (digit_not_whitespace c Hc).
  rewrite (digit_neq c "[" Hc eq_refl), Hc.
  unfold Lexer.lexNumber. rewrite (span_app _ _ _ Hds1 Hstop).
  eexists _, _. split; [|reflexivity]. reflexivity.
Qed.

(** The characters lexed as one punctuation token in default mode. *)
Definition isPunct (c : ascii) (ty : TokType.t) : bool :=
  negb (JS.isWhitespace c) && negb (Ascii.eqb c "[") && negb (isDigit c)
  && negb (isAlpha c)
  && match Lexer.punct c with Some ty1 => TokType.eqb ty1 ty | None => false end.

Lemma TokType_eqb_eq a b : TokType.eqb a b = true -> a = b.
Proof. destruct a, b; simpl; congruence. Qed.

Lemma Lexes_punct c ty rest l :
  isPunct c ty = true ->
  Lexes rest l -> Lexes (String c rest) (tk ty (String c "") :: l).
Proof.
  unfold isPunct. intros H Hl.
  repeat (apply andb_true_iff in H as [H ?]).
  apply negb_true_iff in H, H1, H2, H3.
  destruct (Lexer.punct c) as [ty1|] eqn:Ep; [|discriminate].
  apply TokType_eqb_eq in H0. subst ty1.
  apply (Lexes_step _ rest); [|simpl; lia|exact Hl].
  intros i fuel toks Hfuel.
  rewrite lex_loop_unfold, H, H3, H2, H1, Ep.
  eexists _, _. split; [|reflexivity]. reflexivity.
Qed.

Lemma Lexes_T rest l :
  Lexes rest l -> Lexes (String "T" rest) (tk TokType.T "T" :: l).
Proof.
  intros Hl. apply (Lexes_step _ rest); [|simpl; lia|exact Hl].
  intros i fuel toks Hfuel. rewrite lex_loop_unfold.
  eexists _, _. split; [|reflexivity]. reflexivity.
Qed.

Lemma Lexes_Z rest l :
  Lexes rest l -> Lexes (String "Z" rest) (tk TokType.Z "Z" :: l).
Proof.
  intros Hl. apply (Lexes_step _ rest); [|simpl; lia|exact Hl].
  intros i fuel toks Hfuel. rewrite lex_loop_unfold.
  eexists _, _. split; [|reflexivity]. reflexivity.
Qed.

(** The letters an identifier goes on with. *)
Definition isIdentTail (c : ascii) : bool :=
  isAlpha c && negb (Ascii.eqb c "T") && negb (Ascii.eqb c "Z").

(** A one-letter identifier. *)
Lemma Lexes_letter c rest l :
  isIdentTail c = true -> stopsAt isIdentTail rest = true ->
  Lexes rest l -> Lexes (String c rest) (tk TokType.Ident (String c "") :: l).
Proof.
  unfold isIdentTail at 1. intros H Hstop Hl.
  repeat (apply andb_true_iff in H as [H ?]).
  apply negb_true_iff in H0, H1.
  assert (Hw : JS.isWhitespace c = false /\ Ascii.eqb c "[" = false /\ isDigit c = false).
  { clear -H. destruct c as [[] [] [] [] [] [] [] []]; vm_compute in H |- *;
      repeat split; congruence. }
  destruct Hw as (Hw & Hb & Hd).
  apply (Lexes_step _ rest); [|simpl; lia|exact Hl].
  intros i fuel toks Hfuel.
  rewrite lex_loop_unfold, Hw, Hb, Hd, H.
  unfold Lexer.lexIdent. rewrite H1, H0.
  change (fun c0 : ascii => isAlpha c0 && negb (Ascii.eqb c0 "T") && negb (Ascii.eqb c0 "Z"))
    with isIdentTail.
  rewrite (span_app isIdentTail "" rest eq_refl Hstop : Lexer.span _ rest = _).
  eexists _, _. split; [|reflexivity]. reflexivity.
Qed.

(** *** Bracket mode *)

(** The characters of bracket mode. *)
Definition isBracketChar (c : ascii) : bool :=
  match Lexer.bracketPunct c with
  | Some _ => true
  | None => isBracketWordChar c
  end.

(** The tokens of a bracket content without white space, with [fuel] at
    least its length. *)
Fixpoint bracketTokens (fuel : nat) (content : string) : list Token :=
  match fuel, content with
  | S fuel1, String c content1 =>
      match Lexer.bracketPunct c with
      | Some ty => tk ty (String c "") :: bracketTokens fuel1 content1
      | None =>
          let '(w, content2) := Lexer.span isBracketWordChar content1 in
          tk (if Lexer.isLetterWord (String c w) then TokType.Ident
              else TokType.BracketText) (String c w)
          :: bracketTokens fuel1 content2
      end
  | _, _ => []
  end.

Lemma span_app_stop p s t a b :
  Lexer.span p s = (a, b) -> stopsAt p t = true ->
  Lexer.span p (s +:+ t) = (a, b +:+ t).
Proof.
  revert a b. induction s as [|c s IH]; intros a b H Hstop.
  - simpl in H. injection H as <- <-. rewrite append_nil_l.
    destruct t as [|c t]; [reflexivity|]. simpl in *.
    destruct (p c); [discriminate|reflexivity].
  - rewrite append_cons. simpl in *. destruct (p c).
    + destruct (Lexer.span p s) as [a1 b1] eqn:E. injection H as <- <-.
      rewrite (IH a1 b1 eq_refl Hstop). reflexivity.
    + injection H as <- <-. rewrite append_cons. reflexivity.
Qed.

Lemma span_strAll (q p : ascii -> bool) s a b :
  Lexer.span p s = (a, b) -> strAll q s = true -> strAll q b = true.
Proof.
  revert a b. induction s as [|c s IH]; simpl; intros a b H Hq.
  - injection H as <- <-. reflexivity.
  - apply andb_true_iff in Hq as [Hc Hs]. destruct (p c).
    + destruct (Lexer.span p s) as [a1 b1] eqn:E. injection H as <- <-.
      apply (IH a1 b1 eq_refl Hs).
    + injection H as <- <-. simpl. rewrite Hc, Hs. reflexivity.
Qed.

Lemma bracketChar_plain c :
  isBracketChar c = true -> Ascii.eqb c "]" = false /\ JS.isWhitespace c = false.
Proof.
  destruct c as [[] [] [] [] [] [] [] []]; vm_compute; intros; split; congruence.
Qed.

(** The bracket scanner reads a content of bracket characters up to the
    closing bracket as [bracketTokens]. *)
Lemma lexBracketContent_content : forall n content,
  String.length content <= n -> strAll isBracketChar content = true ->
  forall fuel i rest toks,
    String.length (content +:+ "]" +:+ rest) < fuel ->
    exists l1,
      Lexer.lexBracketContent fuel i (content +:+ "]" +:+ rest) toks
      = Ok (toks ++ l1, i + String.length content, "]" +:+ rest)
      /\ map normT l1 = bracketTokens n content.
Proof.
  induction n as [|n IH]; intros content Hn Hsafe fuel i rest toks Hfuel.
  - destruct content; [|simpl in Hn; lia].
    destruct fuel; [lia|]. exists []. rewrite append_nil_l.
    change ("]" +:+ rest) with (String "]" rest).
    rewrite lexBracketContent_unfold. simpl.
    rewrite app_nil_r, Nat.add_0_r. split; reflexivity.
  - destruct fuel as [|fuel]; [lia|].
    destruct content as [|c content1].
    { exists []. rewrite append_nil_l.
      change ("]" +:+ rest) with (String "]" rest).
      rewrite lexBracketContent_unfold. simpl.
      rewrite app_nil_r, Nat.add_0_r. split; reflexivity. }
    simpl in Hsafe. apply andb_true_iff in Hsafe as [Hc Hsafe].
    destruct (bracketChar_plain c Hc) as [Hcb Hcw].
    rewrite append_cons in Hfuel |- *. simpl in Hfuel, Hn.
    rewrite lexBracketContent_unfold, Hcb, Hcw.
    cbn [bracketTokens]. unfold isBracketChar in Hc.
    destruct (Lexer.bracketPunct c) as [ty|].
    + destruct (IH content1 ltac:(lia) Hsafe fuel (i + 1) rest
                  (toks ++ [Lexer.emit ty i (String c "")]) ltac:(lia))
        as (l1 & -> & Hl1).
      exists (Lexer.emit ty i (String c "") :: l1). rewrite <- app_assoc. split.
      * replace (i + String.length (String c content1))
          with (i + 1 + String.length content1) by (simpl; lia).
        reflexivity.
      * simpl. rewrite Hl1. reflexivity.
    + rewrite Hc.
      destruct (Lexer.span isBracketWordChar content1) as [w content2] eqn:Esp.
      rewrite (span_app_stop _ _ ("]" +:+ rest) _ _ Esp eq_refl).
      pose proof (span_length _ _ _ _ Esp) as Hlen.
      pose proof (span_strAll isBracketChar _ _ _ _ Esp Hsafe) as Hsafe2.
      assert (Hf2 : String.length (content2 +:+ "]" +:+ rest) < fuel).
      { rewrite !length_append in *. lia. }
      cbv zeta.
      destruct (IH content2 ltac:(lia) Hsafe2 fuel
                  (end_ (Lexer.emit
                           (if Lexer.isLetterWord (String c w) then TokType.Ident
                            else TokType.BracketText) i (String c w)))
                  rest
                  (toks ++ [Lexer.emit
                              (if Lexer.isLetterWord (String c w) then TokType.Ident
                               else TokType.BracketText) i (String c w)])
                  Hf2)
        as (l1 & -> & Hl1).
      exists (Lexer.emit
                (if Lexer.isLetterWord (String c w) then TokType.Ident
                 else TokType.BracketText) i (String c w) :: l1).
      rewrite <- app_assoc. split.
      * replace (i + String.length (String c content1))
          with (end_ (Lexer.emit
                        (if Lexer.isLetterWord (String c w) then TokType.Ident
                         else TokType.BracketText) i (String c w))
                + String.length content2) by (simpl in *; lia).
        reflexivity.
      * simpl. rewrite Hl1. reflexivity.
Qed.

(** A bracket group in default mode. *)
Lemma Lexes_bracket content rest l :
  strAll isBracketChar content = true ->
  Lexes rest l ->
  Lexes ("[" +:+ content +:+ "]" +:+ rest)
    (tk TokType.LBracket "[" :: bracketTokens (String.length content) content
       ++ tk TokType.RBracket "]" :: l).
Proof.
  intros Hsafe Hl i.
  change ("[" +:+ content +:+ "]" +:+ rest) with (String "[" (content +:+ "]" +:+ rest)).
  set (s := content +:+ "]" +:+ rest).
  change (String.length (String "[" s)) with (S (String.length s)).
  rewrite lex_loop_unfold. change (JS.isWhitespace "[") with false.
  change (Ascii.eqb "[" "[") with true. cbv iota.
  destruct (lexBracketContent_content _ content (Nat.le_refl _) Hsafe
              (S (String.length s)) (i + 1) rest
              ([] ++ [Lexer.emit TokType.LBracket i "["]) ltac:(unfold s; lia))
    as (l1 & E & Hl1).
  fold s in E. rewrite E. cbn [bind].
  change ("]" +:+ rest) with (String "]" rest). cbv iota.
  change (Ascii.eqb "]" "]") with true. cbv iota.
  assert (Hlen : String.length rest < String.length s).
  { unfold s. rewrite !length_append. simpl. lia. }
  rewrite (lex_loop_enough _ rest (Nat.le_refl _)) by lia.
  destruct (Hl (i + 1 + String.length content + 1)) as (l2 & -> & Hl2).
  eexists. split; [reflexivity|].
  rewrite <- Hl1, <- Hl2. simpl. rewrite !map_app. simpl. rewrite <- app_assoc.
  reflexivity.
Qed.

(** ** Token offsets are not read *)

(** An [AnyToken] without its offsets. *)
Definition normC (c : CombinedToken) : CombinedToken :=
  mkCombinedToken (ctype c) (cvalue c) (map normT (tokens c)) 0 0.

Definition normA (t : AnyToken) : AnyToken :=
  match t with
  | Raw r => Raw (normT r)
  | Combined c => Combined (normC c)
  end.

Lemma any_type_normA t : any_type (normA t) = any_type t.
Proof. destruct t; reflexivity. Qed.

Lemma any_value_normA t : any_value (normA t) = any_value t.
Proof. destruct t; reflexivity. Qed.

Section FuserNorm.

Import Fuser.

Lemma rawOfType_normA ty x :
  rawOfType ty (normA <$> x) = normT <$> rawOfType ty x.
Proof.
  destruct x as [[r|c]|]; simpl; try reflexivity.
  destruct (TokType.eqb (type r) ty); reflexivity.
Qed.

Lemma typeIs_normA ty x : typeIs ty (normA <$> x) = typeIs ty x.
Proof. unfold typeIs. rewrite rawOfType_normA. destruct (rawOfType ty x); reflexivity. Qed.

Lemma fromEnd_normA out k : fromEnd (map normA out) k = normA <$> fromEnd out k.
Proof. unfold fromEnd. rewrite length_map. apply list_lookup_fmap. Qed.

Lemma couldBeTzOffset_normA out : couldBeTzOffset (map normA out) = couldBeTzOffset out.
Proof.
  unfold couldBeTzOffset. rewrite length_map, !fromEnd_normA, !typeIs_normA.
  destruct (fromEnd out 1); reflexivity.
Qed.

Lemma signOf_normA t : signOf (normA t) = normT <$> signOf t.
Proof.
  unfold signOf. change (Some (normA t)) with (normA <$> Some t).
  rewrite (rawOfType_normA TokType.Plus (Some t)), (rawOfType_normA TokType.Dash (Some t)).
  destruct (rawOfType TokType.Plus (Some t)); reflexivity.
Qed.

Definition normStep (x : CombinedToken * nat) : CombinedToken * nat :=
  (normC (fst x), snd x).

Lemma fuse_normA s peek :
  fuse (normT s) (fun k => normA <$> peek k) = normStep <$> fuse s peek.
Proof.
  unfold fuse. rewrite !rawOfType_normA.
  destruct (rawOfType TokType.Number (peek 1)) as [n1|]; simpl; [|reflexivity].
  destruct (rawOfType TokType.Colon (peek 2)) as [c|]; simpl.
  - destruct (rawOfType TokType.Number (peek 3)) as [n2|]; simpl; [reflexivity|].
    destruct (_ || _); reflexivity.
  - destruct (_ || _); reflexivity.
Qed.

Lemma step_normA tokens i out t :
  step (map normA tokens) i (map normA out) (normA t)
  = normStep <$> step tokens i out t.
Proof.
  unfold step. rewrite signOf_normA, couldBeTzOffset_normA.
  destruct (signOf t) as [s|]; simpl; [|reflexivity].
  destruct (couldBeTzOffset out); [|reflexivity].
  rewrite <- fuse_normA. apply fuse_ext; apply list_lookup_fmap.
Qed.

Lemma loop_normA fuel : forall tokens i out,
  loop fuel (map normA tokens) i (map normA out) = map normA (loop fuel tokens i out).
Proof.
  induction fuel as [|fuel IH]; intros tokens i out; [reflexivity|].
  simpl. rewrite list_lookup_fmap.
  destruct (tokens !! i) as [t|]; simpl; [|reflexivity].
  rewrite step_normA.
  destruct (step tokens i out t) as [[tz k]|]; simpl.
  - rewrite <- IH, map_app. reflexivity.
  - rewrite <- IH, map_app. reflexivity.
Qed.

End FuserNorm.

(** The fuser commutes with the removal of the offsets. *)
Lemma combineTimezoneOffsets_normA toks :
  combineTimezoneOffsets (map normA toks) = map normA (combineTimezoneOffsets toks).
Proof.
  unfold combineTimezoneOffsets. rewrite length_map.
  apply (loop_normA (length toks) toks 0 []).
Qed.

Section ParserNorm.

Import Parser.

Variable toks : list AnyToken.

(** The result of a token-valued computation, without the offsets. *)
Definition normR (r : Result (AnyToken * nat)) : Result (AnyToken * nat) :=
  match r with
  | Ok (t, i) => Ok (normA t, i)
  | Err e => Err e
  end.

Definition normRo (r : Result (option AnyToken * nat)) : Result (option AnyToken * nat) :=
  match r with
  | Ok (t, i) => Ok (normA <$> t, i)
  | Err e => Err e
  end.

Lemma peek_normA k i : peek (map normA toks) k i = normR (peek toks k i).
Proof.
  unfold peek. rewrite length_map, list_lookup_fmap.
  destruct (toks !! _); reflexivity.
Qed.

Lemma bindM_normR {B} (m m' : M AnyToken) (k k' : AnyToken -> M B) i :
  m' i = normR (m i) -> (forall t j, k' (normA t) j = k t j) ->
  bindM m' k' i = bindM m k i.
Proof.
  intros Hm Hk. unfold bindM. rewrite Hm.
  destruct (m i) as [[t j]|e]; simpl; auto.
Qed.

Lemma bindM_normRo {B} (m m' : M (option AnyToken)) (k k' : option AnyToken -> M B) i :
  m' i = normRo (m i) -> (forall t j, k' (normA <$> t) j = k t j) ->
  bindM m' k' i = bindM m k i.
Proof.
  intros Hm Hk. unfold bindM. rewrite Hm.
  destruct (m i) as [[t j]|e]; simpl; auto.
Qed.

Lemma bindM_same {A B} (m m' : M A) (k k' : A -> M B) i :
  m' i = m i -> (forall a j, k' a j = k a j) ->
  bindM m' k' i = bindM m k i.
Proof.
  intros Hm Hk. unfold bindM. rewrite Hm.
  destruct (m i) as [[t j]|e]; simpl; auto.
Qed.

Lemma at_normA ty i : at_ (map normA toks) ty i = at_ toks ty i.
Proof.
  unfold at_. apply bindM_normR; [apply peek_normA|].
  intros t j. rewrite any_type_normA. reflexivity.
Qed.

Lemma eat_normA ty i : eat (map normA toks) ty i = normR (eat toks ty i).
Proof.
  unfold eat, bindM. rewrite peek_normA.
  destruct (peek toks 0 i) as [[t j]|e]; simpl; [|reflexivity].
  rewrite any_type_normA.
  destruct (negb _); reflexivity.
Qed.

Lemma tryEat_normA ty i : tryEat (map normA toks) ty i = normRo (tryEat toks ty i).
Proof.
  unfold tryEat, bindM. rewrite at_normA.
  destruct (at_ toks ty i) as [[[] j]|e]; simpl; try reflexivity.
  rewrite eat_normA. destruct (eat toks ty j) as [[t j']|e]; reflexivity.
Qed.

(** Steps through two computations that differ by the token array only. *)
Ltac norm_step :=
  first
    [ reflexivity
    | apply bindM_normR; [first [apply eat_normA | apply peek_normA]|];
      intros ? ?; rewrite ?any_value_normA, ?any_type_normA
    | apply bindM_normRo; [apply tryEat_normA|]; intros [?|] ?; simpl
    | apply bindM_same; [first [apply at_normA | reflexivity | assumption]|];
      intros ? ?
    | match goal with
      | |- context [match ?x with _ => _ end] => destruct x
      end ].

Lemma parseDate_normA i : parseDate (map normA toks) i = parseDate toks i.
Proof. unfold parseDate. repeat norm_step. Qed.

Lemma parseTime_normA i : parseTime (map normA toks) i = parseTime toks i.
Proof. unfold parseTime. repeat norm_step. Qed.

Lemma parseOffsetIfPresent_normA i :
  parseOffsetIfPresent (map normA toks) i = parseOffsetIfPresent toks i.
Proof. unfold parseOffsetIfPresent. repeat norm_step. Qed.

Lemma gatherParts_normA fuel : forall parts i,
  gatherParts (map normA toks) fuel parts i = gatherParts toks fuel parts i.
Proof.
  induction fuel as [|fuel IH]; intros parts i; [reflexivity|].
  cbn [gatherParts]. unfold eof. repeat norm_step. apply IH.
Qed.

Lemma parseBracketGroup_normA fuel i :
  parseBracketGroup (map normA toks) fuel i = parseBracketGroup toks fuel i.
Proof.
  unfold parseBracketGroup.
  norm_step. norm_step.
  - apply bindM_same; [apply gatherParts_normA|]. intros ? ?. repeat norm_step.
  - apply bindM_same; [apply gatherParts_normA|]. intros ? ?. repeat norm_step.
Qed.

Lemma dateTimeBrackets_normA fuel : forall timeZone annotations i,
  dateTimeBrackets (map normA toks) fuel timeZone annotations i
  = dateTimeBrackets toks fuel timeZone annotations i.
Proof.
  induction fuel as [|fuel IH]; intros tz anns i; [reflexivity|].
  cbn [dateTimeBrackets]. rewrite length_map.
  apply bindM_same; [apply at_normA|]. intros [] j; [|reflexivity].
  apply bindM_same; [apply parseBracketGroup_normA|]. intros g j'.
  destruct tz; [apply IH|]. destruct (isLikelyTzId g); apply IH.
Qed.

Lemma parseDateTime_normA i : parseDateTime (map normA toks) i = parseDateTime toks i.
Proof.
  unfold parseDateTime. rewrite length_map.
  apply bindM_same; [apply parseDate_normA|]. intros d j.
  apply bindM_normRo; [apply tryEat_normA|]. intros t j'.
  apply bindM_same.
  { destruct t; simpl; [|reflexivity].
    apply bindM_same; [apply parseTime_normA|]. reflexivity. }
  intros tm j2. apply bindM_same; [apply parseOffsetIfPresent_normA|]. intros o j3.
  apply bindM_same; [apply dateTimeBrackets_normA|]. reflexivity.
Qed.

Lemma durationLoop_normA fuel : forall rawParts inTime dur i,
  durationLoop (map normA toks) fuel rawParts inTime dur i
  = durationLoop toks fuel rawParts inTime dur i.
Proof.
  induction fuel as [|fuel IH]; intros rawParts inTime dur i; [reflexivity|].
  cbn [durationLoop]. unfold eof.
  apply bindM_same; [apply at_normA|]. intros e j.
  apply bindM_same.
  { destruct e; [reflexivity|].
    apply bindM_same; [apply at_normA|]. intros [] j2; [reflexivity|].
    apply bindM_same; [apply at_normA|]. reflexivity. }
  intros [] j2; [|reflexivity].
  apply bindM_normRo; [apply tryEat_normA|]. intros [t|] j3; simpl; [apply IH|].
  apply bindM_normRo; [apply tryEat_normA|]. intros [numTok|] j4; simpl; [|reflexivity].
  rewrite any_value_normA.
  apply bindM_normRo; [apply tryEat_normA|]. intros dot j5.
  apply bindM_same.
  { destruct dot; simpl; [|reflexivity].
    apply bindM_normR; [apply eat_normA|]. intros f j6.
    rewrite any_value_normA. reflexivity. }
  intros [rp fr] j6.
  apply bindM_normR; [apply eat_normA|]. intros u j7. rewrite any_value_normA.
  apply bindM_same; [reflexivity|]. intros p j8.
  apply bindM_same; [reflexivity|]. intros n j9.
  apply bindM_same; [reflexivity|]. intros d j10. apply IH.
Qed.

Lemma durationBrackets_normA fuel : forall annotations i,
  durationBrackets (map normA toks) fuel annotations i
  = durationBrackets toks fuel annotations i.
Proof.
  induction fuel as [|fuel IH]; intros anns i; [reflexivity|].
  cbn [durationBrackets]. rewrite length_map.
  apply bindM_same; [apply at_normA|]. intros [] j; [|reflexivity].
  apply bindM_same; [apply parseBracketGroup_normA|]. intros g j'. apply IH.
Qed.

Lemma parseDuration_normA i : parseDuration (map normA toks) i = parseDuration toks i.
Proof.
  unfold parseDuration. rewrite length_map.
  apply bindM_normR; [apply eat_normA|]. intros t j. rewrite any_value_normA.
  destruct (negb _); [reflexivity|].
  apply bindM_same; [apply durationLoop_normA|]. intros [rp d] j2.
  apply bindM_same; [apply durationBrackets_normA|]. reflexivity.
Qed.

Lemma parseValueOrNull_normA i :
  parseValueOrNull (map normA toks) i = parseValueOrNull toks i.
Proof.
  unfold parseValueOrNull.
  apply bindM_same; [apply at_normA|]. intros e j.
  apply bindM_same.
  { destruct e; [reflexivity|].
    apply bindM_same; [apply at_normA|]. intros [] j2; [reflexivity|].
    apply at_normA. }
  intros [] j2; [reflexivity|].
  apply bindM_same; [apply at_normA|]. intros ident j3.
  apply bindM_normR; [apply peek_normA|]. intros t j4. rewrite any_value_normA.
  destruct (ident && _).
  - apply bindM_same; [apply parseDuration_normA|]. reflexivity.
  - apply bindM_same; [apply parseDateTime_normA|]. reflexivity.
Qed.

Lemma parseTemporal_normA i :
  Parser.parseTemporal (map normA toks) i = Parser.parseTemporal toks i.
Proof.
  unfold Parser.parseTemporal.
  apply bindM_normRo; [apply tryEat_normA|]. intros [t|] j; simpl.
  - apply bindM_same; [apply parseValueOrNull_normA|]. intros v j2.
    apply bindM_normR; [apply eat_normA|]. reflexivity.
  - apply bindM_same; [apply parseValueOrNull_normA|]. intros [v|] j2; [|reflexivity].
    apply bindM_normRo; [apply tryEat_normA|]. intros [t|] j3; simpl.
    + apply bindM_same; [apply parseValueOrNull_normA|]. intros v2 j4.
      apply bindM_normR; [apply eat_normA|]. reflexivity.
    + apply bindM_normR; [apply eat_normA|]. reflexivity.
Qed.

End ParserNorm.

(** The parser does not read the offsets of the tokens. *)
Lemma run_normA toks : Parser.run (map normA toks) = Parser.run toks.
Proof. unfold Parser.run. rewrite parseTemporal_normA. reflexivity. Qed.

(** The pipeline behind a lexer result known up to offsets. *)
Lemma parseTemporal_Lexes s l :
  Lexes s l -> parseTemporal s = Parser.run (combineTimezoneOffsets (map Raw l)).
Proof.
  intros H. destruct (H 0) as (l1 & Hl1 & <-).
  unfold parseTemporal, lexTemporal. rewrite Hl1. cbn [bind].
  rewrite <- run_normA, <- combineTimezoneOffsets_normA, !map_map.
  reflexivity.
Qed.

(** ** The fuser on canonical tokens *)

(** The fuser on the tokens still to read, with enough fuel. *)
Definition fused (rest out : list AnyToken) : list AnyToken :=
  Fuser.loop (length rest) rest 0 out.

Lemma fused_nil out : fused [] out = out.
Proof. reflexivity. Qed.

Lemma fused_cons t rest out :
  fused (t :: rest) out =
  match Fuser.step (t :: rest) 0 out t with
  | Some (tz, k) => fused (drop k (t :: rest)) (out ++ [Combined tz])
  | None => fused rest (out ++ [t])
  end.
Proof.
  unfold fused. change (length (t :: rest)) with (S (length rest)).
  rewrite loop_cons.
  destruct (Fuser.step (t :: rest) 0 out t) as [[tz k]|] eqn:E; [|reflexivity].
  apply loop_fuel; [reflexivity|].
  rewrite length_drop. apply step_width in E. simpl. lia.
Qed.

(** A token that is no sign is pushed. *)
Lemma fused_other t rest out :
  Fuser.signOf t = None -> fused (t :: rest) out = fused rest (out ++ [t]).
Proof. intros H. rewrite fused_cons. unfold Fuser.step. rewrite H. reflexivity. Qed.

(** So is any token where no offset can start. *)
Lemma fused_quiet t rest out :
  Fuser.couldBeTzOffset out = false -> fused (t :: rest) out = fused rest (out ++ [t]).
Proof. intros H. rewrite fused_cons, step_None_no_context by exact H. reflexivity. Qed.

(** [Quiet out]: whatever token comes next, no offset starts behind it. *)
Definition Quiet (out : list AnyToken) : Prop :=
  forall t, Fuser.couldBeTzOffset (out ++ [t]) = false.

Lemma Quiet_nil : Quiet [].
Proof.
  intros t. unfold Fuser.couldBeTzOffset. simpl.
  change (Fuser.fromEnd [t] 1) with (Some t).
  repeat match goal with |- context [if ?b then _ else _] => destruct b end;
    reflexivity.
Qed.

Lemma Quiet_snoc out b :
  Fuser.typeIs TokType.Colon (Some b) = false ->
  Fuser.typeIs TokType.Dot (Some b) = false -> Quiet (out ++ [b]).
Proof. intros Hc Hd t. apply couldBeTzOffset_after_two; assumption. Qed.

(** Behind a colon or a dot and a number an offset can start. *)
Lemma couldBeTzOffset_time out b n :
  type b = TokType.Colon \/ type b = TokType.Dot -> type n = TokType.Number ->
  Fuser.couldBeTzOffset ((out ++ [Raw b]) ++ [Raw n]) = true.
Proof.
  intros Hb Hn. unfold Fuser.couldBeTzOffset.
  rewrite fromEnd_snoc_1, fromEnd_snoc_2, !length_app. simpl.
  unfold Fuser.typeIs, Fuser.rawOfType. rewrite Hn. simpl.
  replace (length out + 1 + 1 <? 1)%nat with false by (symmetry; apply Nat.ltb_ge; lia).
  replace (length out + 1 + 1 <? 2)%nat with false by (symmetry; apply Nat.ltb_ge; lia).
  destruct Hb as [-> | ->]; reflexivity.
Qed.

(** The canonical shape [sign HH : MM] is fused where an offset can
    start. *)
Lemma fused_offset s n1 c n2 rest out :
  Fuser.couldBeTzOffset out = true ->
  type s = TokType.Plus \/ type s = TokType.Dash ->
  type n1 = TokType.Number -> type c = TokType.Colon -> type n2 = TokType.Number ->
  fused (Raw s :: Raw n1 :: Raw c :: Raw n2 :: rest) out
  = fused rest (out ++ [Combined
       (mkCombinedToken CombinedTokType.TZOffset
          (value s +:+ value n1 +:+ ":" +:+ value n2) [s; n1; c; n2]
          (start s) (end_ n2))]).
Proof.
  intros Hc Hs H1 H2 H3. rewrite fused_cons.
  assert (E : Fuser.signOf (Raw s) = Some s).
  { unfold Fuser.signOf, Fuser.rawOfType. destruct Hs as [-> | ->]; reflexivity. }
  unfold Fuser.step. rewrite E, Hc. unfold Fuser.fuse. simpl.
  unfold Fuser.rawOfType. rewrite H1, H2, H3. reflexivity.
Qed.

(** Tokens of bracket mode: no number among them, so nothing is fused. *)
Lemma fused_no_numbers seg : forall rest out b,
  Forall (fun t => type t <> TokType.Number) seg ->
  Fuser.typeIs TokType.Number (Some b) = false ->
  fused (map Raw seg ++ rest) (out ++ [b]) = fused rest ((out ++ [b]) ++ map Raw seg).
Proof.
  induction seg as [|t seg IH]; intros rest out b Hseg Hb.
  - simpl. rewrite app_nil_r. reflexivity.
  - inversion Hseg as [|? ? Ht Hseg1]; subst. simpl.
    rewrite fused_quiet by (apply couldBeTzOffset_after_other; exact Hb).
    rewrite (IH rest (out ++ [b]) (Raw t) Hseg1).
    + rewrite <- !app_assoc. reflexivity.
    + eapply typeIs_other; [reflexivity|]. congruence.
Qed.

(** ** Canonical text and its tokens *)

(** The text of a token sequence. *)
Fixpoint flat (l : list Token) : string :=
  match l with
  | [] => ""
  | t :: l1 => value t +:+ flat l1
  end.

Lemma flat_app l1 l2 : flat (l1 ++ l2) = flat l1 +:+ flat l2.
Proof.
  induction l1 as [|t l1 IH]; [reflexivity|].
  simpl. rewrite IH, append_assoc. reflexivity.
Qed.

(** The integers that are printed and read back exactly. *)
Definition safe (n : Z) : Prop := (0 <= n < 2 ^ 53)%Z.

Definition safeOpt (x : option Z) : Prop := forall n, x = Some n -> safe n.

Definition pad (k : nat) (n : Z) : string := JS.padStart k "0" (JSNumber.toString n).

Lemma pad_numeral k n : safe n -> isNumeral (pad k n) = true.
Proof.
  intros [H _]. apply padStart_numeral. apply toString_numeral. exact H.
Qed.

Lemma toString_is_numeral n : safe n -> isNumeral (JSNumber.toString n) = true.
Proof. intros [H _]. apply toString_numeral. exact H. Qed.

Lemma toInt_pad k n label p : safe n -> toInt (pad k n) label p = Ok n.
Proof. intros H. apply toInt_padStart_toString. exact H. Qed.

Lemma toInt_toString n label p : safe n -> toInt (JSNumber.toString n) label p = Ok n.
Proof. intros H. apply (toInt_padStart_toString 0 n label p H). Qed.

(** Within the safe range the sum of two Numbers is the sum of the
    integers. *)
Lemma add_safe a b :
  (0 <= a)%Z -> (0 <= b)%Z -> safe (a + b) -> JSNumber.add a b = (a + b)%Z.
Proof.
  intros Ha Hb [_ Hab]. unfold JSNumber.add, JSNumber.isInfinity.
  assert (H53 : (2 ^ 53 < 2 ^ 1024)%Z) by reflexivity.
  replace (2 ^ 1024 <=? Z.abs a)%Z with false by (symmetry; apply Z.leb_gt; lia).
  replace (2 ^ 1024 <=? Z.abs b)%Z with false by (symmetry; apply Z.leb_gt; lia).
  destruct (roundToNumber_safe (a + b) ltac:(lia)) as (q & -> & _ & Hq).
  exact Hq.
Qed.

Lemma accumulate_fresh n : safe n -> Parser.accumulate None n = Some n.
Proof.
  intros Hn. unfold Parser.accumulate. cbn [default].
  rewrite add_safe; [reflexivity|lia|apply Hn|exact Hn].
Qed.

Lemma accumulate_sum v n :
  safe v -> safe n -> safe (v + n) -> Parser.accumulate (Some v) n = Some (v + n)%Z.
Proof.
  intros Hv Hn Hs. unfold Parser.accumulate. cbn [default].
  rewrite add_safe; [reflexivity|apply Hv|apply Hn|exact Hs].
Qed.

(** A numeral starts with a digit. *)
Lemma numeral_head v rest :
  isNumeral v = true -> exists c s, v +:+ rest = String c s /\ isDigit c = true.
Proof.
  unfold isNumeral. destruct v as [|c v]; [discriminate|]. simpl.
  intros H. apply andb_true_iff in H as [H _].
  exists c, (v +:+ rest). split; [reflexivity|exact H].
Qed.

Lemma numeral_stops_ident v rest :
  isNumeral v = true -> stopsAt isIdentTail (v +:+ rest) = true.
Proof.
  intros H. destruct (numeral_head v rest H) as (c & s & -> & Hc). simpl.
  clear -Hc. destruct c as [[] [] [] [] [] [] [] []]; vm_compute in Hc |- *; congruence.
Qed.

(** *** Dates, times and offsets *)

Definition dateRaw (d : DateAst) : list Token :=
  tk TokType.Number (pad 4 (year d)) ::
  match month d with
  | Some m =>
      tk TokType.Dash "-" :: tk TokType.Number (pad 2 m) ::
      match day d with
      | Some dd => [tk TokType.Dash "-"; tk TokType.Number (pad 2 dd)]
      | None => []
      end
  | None => []
  end.

Definition timeRaw (t : TimeAst) : list Token :=
  tk TokType.Number (pad 2 (hour t)) :: tk TokType.Colon ":" ::
  tk TokType.Number (pad 2 (minute t)) ::
  match second t with
  | Some s =>
      tk TokType.Colon ":" :: tk TokType.Number (pad 2 s) ::
      match fraction t with
      | Some f => [tk TokType.Dot "."; tk TokType.Number f]
      | None => []
      end
  | None => []
  end.

Definition signRaw (s : Sign) : Token :=
  match s with
  | SignPlus => tk TokType.Plus "+"
  | SignMinus => tk TokType.Dash "-"
  end.

Definition offsetRaw (o : OffsetAst) : list Token :=
  match o with
  | UtcOffset => [tk TokType.Z "Z"]
  | NumericOffset s h m _ =>
      [signRaw s; tk TokType.Number (pad 2 h); tk TokType.Colon ":";
       tk TokType.Number (pad 2 m)]
  end.

Definition CanonicalDate (d : DateAst) : Prop :=
  safe (year d) /\ safeOpt (month d) /\ safeOpt (day d).

Definition CanonicalTime (t : TimeAst) : Prop :=
  safe (hour t) /\ safe (minute t) /\ safeOpt (second t)
  /\ forall f, fraction t = Some f -> isNumeral f = true.

Definition CanonicalOffset (o : OffsetAst) : Prop :=
  match o with
  | UtcOffset => True
  | NumericOffset _ h m _ => (0 <= h <= 14)%Z /\ (0 <= m <= 59)%Z
  end.

Lemma stringifyDate_flat d : stringifyDate d = flat (dateRaw d).
Proof.
  unfold stringifyDate, dateRaw, pad.
  destruct (month d) as [m|]; [destruct (day d) as [dd|]|]; simpl;
    rewrite ?append_nil_r; reflexivity.
Qed.

Lemma stringifyTime_flat t : stringifyTime t = flat (timeRaw t).
Proof.
  unfold stringifyTime, timeRaw, pad.
  destruct (second t) as [s|]; [destruct (fraction t) as [f|]|]; simpl;
    rewrite ?append_nil_r, ?append_assoc; reflexivity.
Qed.

Lemma stringifyOffset_flat o : stringifyOffset o = flat (offsetRaw o).
Proof.
  destruct o as [|[] h m raw]; simpl; unfold pad; rewrite ?append_nil_r; reflexivity.
Qed.

(** Peels the first token off the text to lex. *)
Ltac lex_numeral :=
  cbn [flat app value tk]; rewrite ?append_assoc;
  apply Lexes_numeral; [solve [auto using pad_numeral, toString_is_numeral] | try reflexivity |].

Ltac lex_punct c ty :=
  cbn [flat app value tk]; rewrite ?append_assoc;
  apply (Lexes_punct c ty); [reflexivity|].

Lemma Lexes_date d rest l :
  CanonicalDate d -> stopsAt isDigit rest = true ->
  Lexes rest l -> Lexes (flat (dateRaw d) +:+ rest) (dateRaw d ++ l).
Proof.
  intros (Hy & Hm & Hd) Hstop Hl. unfold dateRaw.
  destruct (month d) as [m|]; [destruct (day d) as [dd|]|].
  - specialize (Hm m eq_refl). specialize (Hd dd eq_refl).
    lex_numeral. lex_punct "-"%char TokType.Dash.
    lex_numeral. lex_punct "-"%char TokType.Dash.
    lex_numeral; [rewrite append_nil_l; exact Hstop|].
    rewrite append_nil_l. exact Hl.
  - specialize (Hm m eq_refl).
    lex_numeral. lex_punct "-"%char TokType.Dash.
    lex_numeral; [rewrite append_nil_l; exact Hstop|].
    rewrite append_nil_l. exact Hl.
  - lex_numeral; [rewrite append_nil_l; exact Hstop|].
    rewrite append_nil_l. exact Hl.
Qed.

Lemma Lexes_time t rest l :
  CanonicalTime t -> stopsAt isDigit rest = true ->
  Lexes rest l -> Lexes (flat (timeRaw t) +:+ rest) (timeRaw t ++ l).
Proof.
  intros (Hh & Hm & Hs & Hf) Hstop Hl. unfold timeRaw.
  destruct (second t) as [s|]; [destruct (fraction t) as [f|]|].
  - specialize (Hs s eq_refl). specialize (Hf f eq_refl).
    lex_numeral. lex_punct ":"%char TokType.Colon.
    lex_numeral. lex_punct ":"%char TokType.Colon.
    lex_numeral. lex_punct "."%char TokType.Dot.
    lex_numeral; [rewrite append_nil_l; exact Hstop|].
    rewrite append_nil_l. exact Hl.
  - specialize (Hs s eq_refl).
    lex_numeral. lex_punct ":"%char TokType.Colon.
    lex_numeral. lex_punct ":"%char TokType.Colon.
    lex_numeral; [rewrite append_nil_l; exact Hstop|].
    rewrite append_nil_l. exact Hl.
  - lex_numeral. lex_punct ":"%char TokType.Colon.
    lex_numeral; [rewrite append_nil_l; exact Hstop|].
    rewrite append_nil_l. exact Hl.
Qed.

Lemma safe_offset_hours h : (0 <= h <= 14)%Z -> safe h.
Proof. unfold safe. intros H. split; [lia|]. eapply Z.le_lt_trans; [apply H|reflexivity]. Qed.

Lemma safe_offset_minutes m : (0 <= m <= 59)%Z -> safe m.
Proof. unfold safe. intros H. split; [lia|]. eapply Z.le_lt_trans; [apply H|reflexivity]. Qed.

Lemma Lexes_offset o rest l :
  CanonicalOffset o -> stopsAt isDigit rest = true ->
  Lexes rest l -> Lexes (flat (offsetRaw o) +:+ rest) (offsetRaw o ++ l).
Proof.
  intros Ho Hstop Hl. destruct o as [|sg h m raw].
  - apply (Lexes_Z rest l Hl).
  - destruct Ho as [Hh Hm].
    apply safe_offset_hours in Hh. apply safe_offset_minutes in Hm.
    unfold offsetRaw.
    destruct sg; cbn [signRaw].
    + lex_punct "+"%char TokType.Plus.
      lex_numeral. lex_punct ":"%char TokType.Colon.
      lex_numeral; [rewrite append_nil_l; exact Hstop|].
      rewrite append_nil_l. exact Hl.
    + lex_punct "-"%char TokType.Dash.
      lex_numeral. lex_punct ":"%char TokType.Colon.
      lex_numeral; [rewrite append_nil_l; exact Hstop|].
      rewrite append_nil_l. exact Hl.
Qed.

(** ** The parser on canonical tokens *)

Lemma parseOffset_canonical sign h m p :
  (0 <= h <= 14)%Z -> (0 <= m <= 59)%Z ->
  parseOffset (Sign_text sign +:+ pad 2 h +:+ ":" +:+ pad 2 m) p
  = Ok (NumericOffset sign h m (Sign_text sign +:+ pad 2 h +:+ ":" +:+ pad 2 m)).
Proof.
  intros Hh Hm. unfold pad.
  rewrite !padStart_twoDigits by lia.
  change (Sign_text sign +:+ twoDigits h +:+ ":" +:+ twoDigits m)
    with (offsetText sign h m).
  pose proof (offsetOutcome_all sign h m ltac:(lia) ltac:(lia)) as H.
  unfold offsetOutcome in H. rewrite (parseOffset_position _ 0 p).
  destruct (parseOffset (offsetText sign h m) 0) as [[|s h1 m1 raw]|e].
  - discriminate.
  - repeat (apply andb_true_iff in H as [H ?]).
    apply String.eqb_eq in H0. apply Z.eqb_eq in H1, H2.
    destruct s, sign; try discriminate; subst; reflexivity.
  - exfalso. destruct e as [| [] [] | |]; try discriminate;
      repeat (apply andb_true_iff in H as [H ?]);
      repeat match goal with
             | E : (_ <? _)%Z = true |- _ => apply Z.ltb_lt in E
             end; lia.
Qed.

Section CanonicalCursor.

Import Parser.

Variable toks : list AnyToken.

Lemma drop_head i (t : AnyToken) r : drop i toks = t :: r -> toks !! i = Some t.
Proof.
  intros H. rewrite <- (Nat.add_0_r i), <- lookup_drop, H. reflexivity.
Qed.

Lemma drop_tail i (t : AnyToken) r : drop i toks = t :: r -> drop (S i) toks = r.
Proof.
  intros H. pose proof (drop_S _ _ _ (drop_head i t r H)) as E.
  rewrite H in E. congruence.
Qed.

Lemma eat_drop i t r ty :
  drop i toks = t :: r -> any_type t = ty -> eat toks ty i = Ok (t, S i).
Proof. intros H. apply eat_here. exact (drop_head _ _ _ H). Qed.

Lemma tryEat_drop i t r ty :
  drop i toks = t :: r -> any_type t = ty -> tryEat toks ty i = Ok (Some t, S i).
Proof. intros H. apply tryEat_here. exact (drop_head _ _ _ H). Qed.

Lemma tryEat_drop_other i t r ty :
  drop i toks = t :: r -> any_type t <> ty -> tryEat toks ty i = Ok (None, i).
Proof. intros H. apply tryEat_other. exact (drop_head _ _ _ H). Qed.

Lemma at_drop i t r ty :
  drop i toks = t :: r -> any_type t = ty -> at_ toks ty i = Ok (true, i).
Proof. intros H. apply at_same. exact (drop_head _ _ _ H). Qed.

Lemma at_drop_other i t r ty :
  drop i toks = t :: r -> any_type t <> ty -> at_ toks ty i = Ok (false, i).
Proof. intros H. apply at_other. exact (drop_head _ _ _ H). Qed.

Lemma peek_drop i t r : drop i toks = t :: r -> peek toks 0 i = Ok (t, i).
Proof. intros H. apply peek_here. exact (drop_head _ _ _ H). Qed.

Lemma lift_Ok {A} (x : Result A) a i : x = Ok a -> lift x i = Ok (a, i).
Proof. intros ->. reflexivity. Qed.

End CanonicalCursor.

(** One step of the parser on the token under the cursor, [H] being the
    tokens from the cursor on. *)
Ltac type_differs := first [assumption | simpl; congruence].

Ltac p_eat H :=
  match type of H with
  | drop ?i ?toks = ?t :: _ =>
      rewrite (bindM_Ok _ _ i t (S i))
        by (apply (eat_drop toks i t _ _ H); reflexivity);
      apply drop_tail in H; cbv beta iota
  end.

Ltac p_tryEat H :=
  match type of H with
  | drop ?i ?toks = ?t :: _ =>
      rewrite (bindM_Ok _ _ i (Some t) (S i))
        by (apply (tryEat_drop toks i t _ _ H); reflexivity);
      apply drop_tail in H; cbv beta iota
  end.

Ltac p_tryEat_no H :=
  match type of H with
  | drop ?i ?toks = ?t :: _ =>
      rewrite (bindM_Ok _ _ i None i)
        by (apply (tryEat_drop_other toks i t _ _ H); type_differs);
      cbv beta iota
  end.

Ltac p_at H :=
  match type of H with
  | drop ?i ?toks = ?t :: _ =>
      rewrite (bindM_Ok _ _ i true i)
        by (apply (at_drop toks i t _ _ H); reflexivity);
      cbv beta iota
  end.

Ltac p_at_no H :=
  match type of H with
  | drop ?i ?toks = ?t :: _ =>
      rewrite (bindM_Ok _ _ i false i)
        by (apply (at_drop_other toks i t _ _ H); type_differs);
      cbv beta iota
  end.

Ltac p_peek H :=
  match type of H with
  | drop ?i ?toks = ?t :: _ =>
      rewrite (bindM_Ok _ _ i t i) by (apply (peek_drop toks i t _ H));
      cbv beta iota
  end.

Ltac p_position H :=
  match type of H with
  | drop ?i ?toks = _ =>
      rewrite (bindM_Ok Parser.position _ i i i) by reflexivity; cbv beta iota
  end.

Ltac p_toInt H n :=
  match type of H with
  | drop ?i ?toks = _ =>
      rewrite (bindM_Ok _ _ i n i)
        by (apply lift_Ok; cbn [any_value value tk];
            first [apply toInt_pad | apply toInt_toString]; assumption);
      cbv beta iota
  end.

Section CanonicalPieces.

Import Parser.

Variable toks : list AnyToken.

Lemma parseDate_canonical d i t r :
  CanonicalDate d ->
  drop i toks = map Raw (dateRaw d) ++ t :: r -> any_type t <> TT TokType.Dash ->
  exists j d',
    parseDate toks i = Ok (d', j) /\ drop j toks = t :: r
    /\ stringifyDate d' = stringifyDate d.
Proof.
  intros (Hy & Hm & Hd) H Ht. unfold dateRaw in H. unfold parseDate.
  destruct (month d) as [m|] eqn:Em; [destruct (day d) as [dd|] eqn:Ed|];
    cbn [map app] in H.
  - specialize (Hm m eq_refl). specialize (Hd dd eq_refl).
    p_eat H. p_position H. p_toInt H (year d).
    p_tryEat H. p_eat H. p_position H. p_toInt H m.
    p_tryEat H. p_eat H. p_position H. p_toInt H dd.
    eexists _, _. split; [reflexivity|]. split; [exact H|].
    unfold stringifyDate. rewrite Em, Ed. reflexivity.
  - specialize (Hm m eq_refl).
    p_eat H. p_position H. p_toInt H (year d).
    p_tryEat H. p_eat H. p_position H. p_toInt H m.
    p_tryEat_no H.
    eexists _, _. split; [reflexivity|]. split; [exact H|].
    unfold stringifyDate. rewrite Em, Ed. reflexivity.
  - p_eat H. p_position H. p_toInt H (year d).
    p_tryEat_no H.
    eexists _, _. split; [reflexivity|]. split; [exact H|].
    unfold stringifyDate. rewrite Em. reflexivity.
Qed.

Lemma parseTime_canonical tm i t r :
  CanonicalTime tm ->
  drop i toks = map Raw (timeRaw tm) ++ t :: r ->
  any_type t <> TT TokType.Colon -> any_type t <> TT TokType.Dot ->
  exists j tm',
    parseTime toks i = Ok (tm', j) /\ drop j toks = t :: r
    /\ stringifyTime tm' = stringifyTime tm.
Proof.
  intros (Hh & Hm & Hs & Hf) H Ht1 Ht2. unfold timeRaw in H. unfold parseTime.
  destruct (second tm) as [s|] eqn:Es; [destruct (fraction tm) as [f|] eqn:Ef|];
    cbn [map app] in H.
  - specialize (Hs s eq_refl).
    p_eat H. p_position H. p_toInt H (hour tm).
    p_eat H. p_eat H. p_position H. p_toInt H (minute tm).
    p_tryEat H. p_eat H. p_position H. p_toInt H s.
    p_tryEat H. p_eat H.
    eexists _, _. split; [reflexivity|]. split; [exact H|].
    unfold stringifyTime. rewrite Es, Ef. reflexivity.
  - specialize (Hs s eq_refl).
    p_eat H. p_position H. p_toInt H (hour tm).
    p_eat H. p_eat H. p_position H. p_toInt H (minute tm).
    p_tryEat H. p_eat H. p_position H. p_toInt H s.
    p_tryEat_no H.
    eexists _, _. split; [reflexivity|]. split; [exact H|].
    unfold stringifyTime. rewrite Es, Ef. reflexivity.
  - p_eat H. p_position H. p_toInt H (hour tm).
    p_eat H. p_eat H. p_position H. p_toInt H (minute tm).
    p_tryEat_no H.
    eexists _, _. split; [reflexivity|]. split; [exact H|].
    unfold stringifyTime. rewrite Es. reflexivity.
Qed.

(** The tokens of an offset behind the fuser. *)
Definition offsetFused (o : OffsetAst) : list AnyToken :=
  match o with
  | UtcOffset => [Raw (tk TokType.Z "Z")]
  | NumericOffset s h m _ =>
      [Combined
         (mkCombinedToken CombinedTokType.TZOffset
            (value (signRaw s) +:+ pad 2 h +:+ ":" +:+ pad 2 m)
            [signRaw s; tk TokType.Number (pad 2 h); tk TokType.Colon ":";
             tk TokType.Number (pad 2 m)] 0 0)]
  end.

Lemma parseOffsetIfPresent_canonical o i t r :
  CanonicalOffset o ->
  drop i toks = offsetFused o ++ t :: r ->
  exists j o',
    parseOffsetIfPresent toks i = Ok (Some o', j) /\ drop j toks = t :: r
    /\ stringifyOffset o' = stringifyOffset o.
Proof.
  intros Ho H. unfold parseOffsetIfPresent.
  destruct o as [|sg h m raw]; cbn [offsetFused app] in H.
  - p_tryEat H. eexists _, _. split; [reflexivity|]. split; [exact H|reflexivity].
  - destruct Ho as [Hh Hm].
    p_tryEat_no H. p_at H. p_eat H. p_position H.
    rewrite (bindM_Ok _ _ _ (NumericOffset sg h m (Sign_text sg +:+ pad 2 h +:+ ":" +:+ pad 2 m)) (S i)).
    2:{ apply lift_Ok. cbn [any_value cvalue].
        replace (value (signRaw sg)) with (Sign_text sg) by (destruct sg; reflexivity).
        apply parseOffset_canonical; assumption. }
    eexists _, _. split; [reflexivity|]. split; [exact H|reflexivity].
Qed.

Lemma parseOffsetIfPresent_absent i t r :
  drop i toks = t :: r ->
  any_type t <> TT TokType.Z -> any_type t <> CT CombinedTokType.TZOffset ->
  parseOffsetIfPresent toks i = Ok (None, i).
Proof.
  intros H H1 H2. unfold parseOffsetIfPresent.
  p_tryEat_no H. p_at_no H. reflexivity.
Qed.

End CanonicalPieces.

(** *** Bracket groups *)

(** A bracket content starts with the critical mark. *)
Definition bang (X : string) : bool :=
  match X with
  | String c _ => Ascii.eqb c "!"
  | EmptyString => false
  end.

Definition stripBang (X : string) : string :=
  if bang X then JS.slice_from 1 X else X.

(** What [parseBracketGroup] makes of the content [X]. *)
Definition groupOf (X : string) : Parser.BracketGroup :=
  Parser.mkBracketGroup X (bang X)
    (fold_left Parser.addSegment
       (List.filter JSNumber.nonEmpty (map JS.trim (JS.split "," (stripBang X)))) ∅)
    (Parser.likelyTzId (stripBang X)).

Definition groupRaw (X : string) : list Token :=
  tk TokType.LBracket "[" :: bracketTokens (String.length X) X
    ++ [tk TokType.RBracket "]"].

Definition groupsRaw (Xs : list string) : list Token := flat_map groupRaw Xs.

(** The token types of bracket mode. *)
Definition isBracketType (ty : TokType.t) : bool :=
  match ty with
  | TokType.Equals | TokType.Underscore | TokType.Colon | TokType.Dash
  | TokType.Plus | TokType.Slash | TokType.Dot | TokType.Comma
  | TokType.Exclamation | TokType.Ident | TokType.BracketText => true
  | _ => false
  end.

Lemma span_append p s a b : Lexer.span p s = (a, b) -> a +:+ b = s.
Proof.
  revert a b. induction s as [|c s IH]; simpl; intros a b H.
  - injection H as <- <-. reflexivity.
  - destruct (p c).
    + destruct (Lexer.span p s) as [a1 b1] eqn:E. injection H as <- <-.
      rewrite append_cons, (IH a1 b1 eq_refl). reflexivity.
    + injection H as <- <-. reflexivity.
Qed.

Lemma bracketPunct_type c ty : Lexer.bracketPunct c = Some ty -> isBracketType ty = true.
Proof.
  unfold Lexer.bracketPunct.
  repeat match goal with |- context [if ?b then _ else _] => destruct b end;
    intros [= <-]; reflexivity.
Qed.

Lemma bracketTokens_types : forall n X,
  Forall (fun t => isBracketType (type t) = true) (bracketTokens n X).
Proof.
  induction n as [|n IH]; intros X; [constructor|].
  destruct X as [|c X]; [constructor|]. cbn [bracketTokens].
  destruct (Lexer.bracketPunct c) as [ty|] eqn:E.
  - constructor; [exact (bracketPunct_type c ty E)|apply IH].
  - destruct (Lexer.span isBracketWordChar X) as [w X2].
    constructor; [|apply IH]. cbn [type tk].
    destruct (Lexer.isLetterWord (String c w)); reflexivity.
Qed.

Lemma bracketTokens_flat : forall n X,
  String.length X <= n -> flat (bracketTokens n X) = X.
Proof.
  induction n as [|n IH]; intros X Hn.
  - destruct X; [reflexivity|simpl in Hn; lia].
  - destruct X as [|c X]; [reflexivity|]. simpl in Hn. cbn [bracketTokens].
    destruct (Lexer.bracketPunct c) as [ty|].
    + cbn [flat value tk]. rewrite IH by lia. reflexivity.
    + destruct (Lexer.span isBracketWordChar X) as [w X2] eqn:E.
      pose proof (span_length _ _ _ _ E). pose proof (span_append _ _ _ _ E) as Ha.
      cbn [flat value tk]. rewrite IH by lia. rewrite append_cons, Ha. reflexivity.
Qed.

Lemma bracketTokens_head n X :
  bang X = false ->
  match bracketTokens n X with
  | [] => True
  | t :: _ => type t <> TokType.Exclamation
  end.
Proof.
  intros Hb. destruct n as [|n]; [exact I|]. destruct X as [|c X]; [exact I|].
  simpl in Hb. cbn [bracketTokens].
  destruct (Lexer.bracketPunct c) as [ty|] eqn:E.
  - simpl. intros ->. unfold Lexer.bracketPunct in E.
    repeat match type of E with
           | context [if ?b then _ else _] => destruct b eqn:?
           end; congruence.
  - destruct (Lexer.span isBracketWordChar X) as [w X2]. cbn [type tk].
    destruct (Lexer.isLetterWord (String c w)); discriminate.
Qed.

Lemma bang_String X : bang X = true -> exists X1, X = String "!" X1.
Proof.
  destruct X as [|c X]; [discriminate|]. simpl. intros H.
  apply Ascii.eqb_eq in H. subst. eauto.
Qed.

Lemma join_empty l : JS.join "" l = fold_right String.append "" l.
Proof.
  induction l as [|p [|q l] IH]; [reflexivity| |].
  - simpl. rewrite append_nil_r. reflexivity.
  - change (JS.join "" (p :: q :: l)) with (p +:+ "" +:+ JS.join "" (q :: l)).
    rewrite IH, append_nil_l. reflexivity.
Qed.

Lemma flat_values seg : fold_right String.append "" (map value seg) = flat seg.
Proof. induction seg as [|t seg IH]; [reflexivity|]. simpl. rewrite IH. reflexivity. Qed.

Lemma groupsRaw_length Xs : length Xs <= length (groupsRaw Xs).
Proof.
  induction Xs as [|X Xs IH]; [reflexivity|].
  unfold groupsRaw in *. simpl. rewrite length_app. lia.
Qed.

Lemma flat_groupRaw X : flat (groupRaw X) = "[" +:+ X +:+ "]".
Proof.
  unfold groupRaw. cbn [flat value tk]. rewrite flat_app, bracketTokens_flat by lia.
  reflexivity.
Qed.

Section CanonicalGroups.

Import Parser.

Variable toks : list AnyToken.

Lemma drop_length i (seg rest : list AnyToken) :
  drop i toks = seg ++ rest -> length seg + length rest <= length toks.
Proof.
  intros H. rewrite <- length_app, <- H, length_drop. lia.
Qed.

Lemma gatherParts_canonical : forall seg parts fuel i r,
  length seg < fuel ->
  Forall (fun t => isBracketType (type t) = true) seg ->
  drop i toks = map Raw seg ++ Raw (tk TokType.RBracket "]") :: r ->
  exists j,
    gatherParts toks fuel parts i = Ok (parts ++ map value seg, j)
    /\ drop j toks = Raw (tk TokType.RBracket "]") :: r.
Proof.
  induction seg as [|s seg IH]; intros parts fuel i r Hfuel Hseg H;
    (destruct fuel as [|fuel]; [simpl in Hfuel; lia|]); cbn [gatherParts].
  - cbn [map app] in H. p_at H.
    exists i. rewrite app_nil_r. split; [reflexivity|exact H].
  - inversion Hseg as [|? ? Hs Hseg1]; subst. cbn [map app] in H.
    assert (H1 : type s <> TokType.RBracket)
      by (intros E; rewrite E in Hs; discriminate).
    assert (H2 : type s <> TokType.EOF)
      by (intros E; rewrite E in Hs; discriminate).
    p_at_no H. unfold eof. p_at_no H. p_peek H.
    rewrite (bindM_Ok advance _ i tt (S i)) by reflexivity.
    apply drop_tail in H.
    destruct (IH (parts ++ [any_value (Raw s)]) fuel (S i) r) as (j & -> & Hj);
      [simpl in Hfuel; lia|exact Hseg1|exact H|].
    exists j. split; [|exact Hj]. cbn [any_value map]. rewrite <- app_assoc.
    reflexivity.
Qed.

Lemma parseBracketGroup_canonical X fuel i r :
  length toks < fuel ->
  drop i toks = map Raw (groupRaw X) ++ r ->
  exists j, parseBracketGroup toks fuel i = Ok (groupOf X, j) /\ drop j toks = r.
Proof.
  intros Hfuel H. unfold groupRaw in H.
  rewrite map_cons, map_app in H. cbn [map app] in H.
  rewrite <- app_assoc in H. cbn [app] in H.
  pose proof (drop_length i [Raw (tk TokType.LBracket "[")] _ H) as Hlen.
  rewrite length_app, length_map in Hlen. cbn [length] in Hlen.
  unfold parseBracketGroup. p_eat H.
  destruct (bang X) eqn:Eb.
  - destruct (bang_String X Eb) as (X1 & ->).
    change (bracketTokens (String.length (String "!" X1)) (String "!" X1))
      with (tk TokType.Exclamation "!" :: bracketTokens (String.length X1) X1) in H, Hlen.
    cbn [map app] in H. p_tryEat H.
    destruct (gatherParts_canonical (bracketTokens (String.length X1) X1) ["!"]
                fuel (S (S i)) r) as (j & Hg & Hj);
      [simpl in Hlen; lia|apply bracketTokens_types|exact H|].
    rewrite (bindM_Ok _ _ _ _ _ Hg). cbv beta iota.
    p_eat Hj. exists (S j). split; [|exact Hj]. unfold ret, groupOf, stripBang.
    cbn [bang]. change (Ascii.eqb "!" "!") with true. cbv iota.
    rewrite join_empty. cbn [app fold_right]. rewrite flat_values.
    rewrite bracketTokens_flat by lia. reflexivity.
  - assert (Hno : tryEat toks (TT TokType.Exclamation) (S i) = Ok (None, S i)).
    { pose proof (bracketTokens_head (String.length X) X Eb) as Hh.
      destruct (bracketTokens (String.length X) X) as [|t0 l0]; cbn [map app] in H.
      - apply (tryEat_drop_other toks _ _ _ _ H). simpl. congruence.
      - apply (tryEat_drop_other toks _ _ _ _ H). simpl. congruence. }
    rewrite (bindM_Ok _ _ _ _ _ Hno). cbv beta iota.
    destruct (gatherParts_canonical (bracketTokens (String.length X) X) []
                fuel (S i) r) as (j & Hg & Hj);
      [lia|apply bracketTokens_types|exact H|].
    rewrite (bindM_Ok _ _ _ _ _ Hg). cbv beta iota.
    p_eat Hj. exists (S j). split; [|exact Hj]. unfold ret, groupOf, stripBang.
    rewrite Eb. rewrite join_empty. cbn [app]. rewrite flat_values.
    rewrite bracketTokens_flat by lia. reflexivity.
Qed.

Lemma parseGroups_canonical : forall Xs fuel i t r,
  length Xs < fuel ->
  drop i toks = map Raw (groupsRaw Xs) ++ t :: r ->
  any_type t <> TT TokType.LBracket ->
  exists j, parseGroups toks fuel i = Ok (map groupOf Xs, j) /\ drop j toks = t :: r.
Proof.
  induction Xs as [|X Xs IH]; intros fuel i t r Hfuel H Ht;
    (destruct fuel as [|fuel]; [simpl in Hfuel; lia|]); cbn [parseGroups].
  - cbn [groupsRaw flat_map map app] in H. p_at_no H.
    exists i. split; [reflexivity|exact H].
  - unfold groupsRaw in H. cbn [flat_map] in H. rewrite map_app, <- app_assoc in H.
    assert (Hat : at_ toks (TT TokType.LBracket) i = Ok (true, i)).
    { unfold groupRaw in H. cbn [map app] in H.
      apply (at_drop toks _ _ _ _ H). reflexivity. }
    rewrite (bindM_Ok _ _ _ _ _ Hat). cbv beta iota.
    destruct (parseBracketGroup_canonical X (S (length toks)) i _ ltac:(lia) H)
      as (j & Hg & Hj).
    rewrite (bindM_Ok _ _ _ _ _ Hg). cbv beta iota.
    destruct (IH fuel j t r ltac:(simpl in Hfuel; lia) Hj Ht) as (j2 & Hgs & Hj2).
    rewrite (bindM_Ok _ _ _ _ _ Hgs). cbv beta iota.
    exists j2. split; [reflexivity|exact Hj2].
Qed.

Lemma durationBrackets_groups fuel : forall annotations i,
  durationBrackets toks fuel annotations i =
  match parseGroups toks fuel i with
  | Ok (gs, j) => Ok (annotations ++ map annotationOf gs, j)
  | Err e => Err e
  end.
Proof.
  induction fuel as [|fuel IH]; intros anns i; [reflexivity|].
  cbn [durationBrackets parseGroups]. unfold bindM at 1 3.
  destruct (at_ toks (TT TokType.LBracket) i) as [[[] j]|e]; [| |reflexivity].
  - unfold bindM at 1 2.
    destruct (parseBracketGroup toks (S (length toks)) j) as [[g j1]|e]; [|reflexivity].
    rewrite IH. unfold bindM.
    destruct (parseGroups toks fuel j1) as [[gs j2]|e]; [|reflexivity].
    unfold ret. simpl. rewrite <- app_assoc. reflexivity.
  - unfold ret. simpl. rewrite app_nil_r. reflexivity.
Qed.

End CanonicalGroups.

(** *** Date-times *)

Definition tzText (tz : TimeZoneAst) : string :=
  if tz_critical tz then "!" +:+ tz_id tz else tz_id tz.

(** The contents of the bracket groups a date-time is printed with. *)
Definition bracketTextsOf (timeZone : option TimeZoneAst)
    (annotations : list AnnotationAst) : list string :=
  match timeZone with Some tz => [tzText tz] | None => [] end
  ++ map ann_raw annotations.

Definition bracketTexts (a : DateTimeAst) : list string :=
  bracketTextsOf (timeZone a) (annotations a).

(** The content of a bracket group reads as a time zone. *)
Definition tzLike (X : string) : bool := Parser.likelyTzId (stripBang X).

(** The first group reads as a time zone, or none does. *)
Definition firstWins (Xs : list string) : Prop :=
  match Xs with
  | [] => True
  | X :: _ => tzLike X = true \/ Forall (fun Y => tzLike Y = false) Xs
  end.

Definition timePartRaw (time : option TimeAst) : list Token :=
  match time with
  | Some t => tk TokType.T "T" :: timeRaw t
  | None => []
  end.

Definition offsetPartRaw (offset : option OffsetAst) : list Token :=
  match offset with
  | Some o => offsetRaw o
  | None => []
  end.

Definition offsetPartFused (offset : option OffsetAst) : list AnyToken :=
  match offset with
  | Some o => offsetFused o
  | None => []
  end.

Definition dateTimeRaw (a : DateTimeAst) : list Token :=
  dateRaw (date a) ++ timePartRaw (time a) ++ offsetPartRaw (offset a)
  ++ groupsRaw (bracketTexts a).

Definition dateTimeFused (a : DateTimeAst) : list AnyToken :=
  map Raw (dateRaw (date a)) ++ map Raw (timePartRaw (time a))
  ++ offsetPartFused (offset a) ++ map Raw (groupsRaw (bracketTexts a)).

Definition CanonicalDateTime (a : DateTimeAst) : Prop :=
  CanonicalDate (date a)
  /\ (forall t, time a = Some t -> CanonicalTime t)
  /\ (forall o, offset a = Some o -> CanonicalOffset o)
  /\ (forall s h m raw, offset a = Some (NumericOffset s h m raw) -> time a <> None)
  /\ Forall (fun X => strAll isBracketChar X = true) (bracketTexts a)
  /\ firstWins (bracketTexts a).

(** The same but for the order of the bracket groups: a group that reads as
    a time zone may stand behind one that does not. *)
Definition WrittenDateTime (a : DateTimeAst) : Prop :=
  CanonicalDate (date a)
  /\ (forall t, time a = Some t -> CanonicalTime t)
  /\ (forall o, offset a = Some o -> CanonicalOffset o)
  /\ (forall s h m raw, offset a = Some (NumericOffset s h m raw) -> time a <> None)
  /\ Forall (fun X => strAll isBracketChar X = true) (bracketTexts a).

Lemma CanonicalDateTime_written a : CanonicalDateTime a -> WrittenDateTime a.
Proof.
  intros (H1 & H2 & H3 & H4 & H5 & _).
  exact (conj H1 (conj H2 (conj H3 (conj H4 H5)))).
Qed.

Lemma flat_groupsRaw_cons X Xs :
  flat (groupsRaw (X :: Xs)) = "[" +:+ X +:+ "]" +:+ flat (groupsRaw Xs).
Proof.
  unfold groupsRaw. cbn [flat_map]. rewrite flat_app, flat_groupRaw, !append_assoc.
  reflexivity.
Qed.

Lemma fold_annotations anns : forall result,
  fold_left (fun result annotation => result +:+ stringifyAnnotation annotation)
    anns result
  = result +:+ flat (groupsRaw (map ann_raw anns)).
Proof.
  induction anns as [|a anns IH]; intros result.
  - simpl. rewrite append_nil_r. reflexivity.
  - cbn [fold_left map]. rewrite IH, flat_groupsRaw_cons.
    unfold stringifyAnnotation. rewrite !append_assoc. reflexivity.
Qed.

Lemma stringifyDateTime_parts a :
  stringifyDateTime a
  = stringifyDate (date a) +:+ flat (timePartRaw (time a))
    +:+ flat (offsetPartRaw (offset a)) +:+ flat (groupsRaw (bracketTexts a)).
Proof.
  unfold stringifyDateTime, bracketTexts, bracketTextsOf.
  rewrite fold_annotations.
  destruct (time a) as [tm|]; destruct (offset a) as [o|];
    destruct (timeZone a) as [tz|]; cbn [timePartRaw offsetPartRaw app];
    rewrite ?flat_groupsRaw_cons, ?stringifyOffset_flat, ?stringifyTime_flat;
    unfold stringifyTimeZone, tzText; cbn [flat value tk];
    rewrite ?append_assoc, ?append_nil_l; reflexivity.
Qed.

Lemma stringifyDateTime_flat a : stringifyDateTime a = flat (dateTimeRaw a).
Proof.
  rewrite stringifyDateTime_parts, stringifyDate_flat. unfold dateTimeRaw.
  rewrite !flat_app. reflexivity.
Qed.

Lemma bang_restore X : bang X = true -> "!" +:+ JS.slice_from 1 X = X.
Proof. intros H. destruct (bang_String X H) as (X1 & ->). reflexivity. Qed.

Lemma classify_none gs :
  Forall (fun g => Parser.isLikelyTzId g = false) gs ->
  classify gs = (None, map annotationOf gs).
Proof.
  induction 1 as [|g gs Hg Hgs IH]; [reflexivity|].
  rewrite classify_cons, Hg, IH. reflexivity.
Qed.

(** Under [firstWins] the groups come back in the order they were read. *)
Lemma bracketTexts_classify Xs :
  firstWins Xs ->
  bracketTextsOf (fst (classify (map groupOf Xs))) (snd (classify (map groupOf Xs)))
  = Xs.
Proof.
  assert (Hraw : forall Ys, map ann_raw (map annotationOf (map groupOf Ys)) = Ys).
  { induction Ys as [|Y Ys IH]; [reflexivity|]. simpl. rewrite IH. reflexivity. }
  assert (Hnone : forall Ys, Forall (fun Y => tzLike Y = false) Ys ->
            classify (map groupOf Ys) = (None, map annotationOf (map groupOf Ys))).
  { intros Ys HYs. apply classify_none. apply Forall_map.
    eapply Forall_impl; [exact HYs|]. intros Y HY. exact HY. }
  destruct Xs as [|X Xs]; [reflexivity|]. intros [Hx | Hall].
  - cbn [map]. rewrite classify_cons.
    change (Parser.isLikelyTzId (groupOf X)) with (tzLike X). rewrite Hx.
    unfold bracketTextsOf. cbn [fst snd app]. rewrite Hraw.
    unfold tzText, timeZoneOf, groupContent. cbn [tz_critical tz_id groupOf
      Parser.critical Parser.raw].
    destruct (bang X) eqn:Eb; [rewrite (bang_restore X Eb)|]; reflexivity.
  - rewrite (Hnone _ Hall). unfold bracketTextsOf. cbn [fst snd app].
    apply Hraw.
Qed.

(** The first token of what is left to read. *)
Definition headIs (P : AnyTokType -> Prop) (rest : list AnyToken) : Prop :=
  exists t r, rest = t :: r /\ P (any_type t).

(** A value ends at a slash or at the end of the input. *)
Definition boundary (ty : AnyTokType) : Prop :=
  ty = TT TokType.Slash \/ ty = TT TokType.EOF.

Lemma headIs_cons (P : AnyTokType -> Prop) t r : P (any_type t) -> headIs P (t :: r).
Proof. intros H. exists t, r. auto. Qed.

Lemma headIs_groups (P : AnyTokType -> Prop) Xs rest :
  P (TT TokType.LBracket) -> headIs P rest ->
  headIs P (map Raw (groupsRaw Xs) ++ rest).
Proof.
  intros HP Hrest. destruct Xs as [|X Xs]; [exact Hrest|].
  unfold groupsRaw, groupRaw. cbn [flat_map map app]. apply headIs_cons. exact HP.
Qed.

Lemma headIs_boundary (P : AnyTokType -> Prop) rest :
  P (TT TokType.Slash) -> P (TT TokType.EOF) -> headIs boundary rest -> headIs P rest.
Proof.
  intros H1 H2 (t & r & -> & [E | E]); apply headIs_cons; rewrite E; assumption.
Qed.

Ltac head_solve :=
  cbn [timePartRaw offsetPartFused offsetFused timeRaw map app];
  first
    [ apply headIs_cons; cbn [any_type type tk ctype];
      repeat split; discriminate
    | apply headIs_groups;
      [repeat split; discriminate
      |apply headIs_boundary; [repeat split; discriminate ..|assumption]] ].

Section CanonicalDateTimes.

Import Parser.

Variable toks : list AnyToken.

Lemma tryEat_head_other i rest ty :
  drop i toks = rest -> headIs (fun ty1 => ty1 <> ty) rest ->
  tryEat toks ty i = Ok (None, i).
Proof.
  intros H (t & r & -> & Ht). exact (tryEat_drop_other toks i t r ty H Ht).
Qed.

Lemma parseDate_head d i rest :
  CanonicalDate d ->
  drop i toks = map Raw (dateRaw d) ++ rest ->
  headIs (fun ty => ty <> TT TokType.Dash) rest ->
  exists j d',
    parseDate toks i = Ok (d', j) /\ drop j toks = rest
    /\ stringifyDate d' = stringifyDate d.
Proof.
  intros Hd H (t & r & -> & Ht). exact (parseDate_canonical toks d i t r Hd H Ht).
Qed.

Lemma parseTime_head tm i rest :
  CanonicalTime tm ->
  drop i toks = map Raw (timeRaw tm) ++ rest ->
  headIs (fun ty => ty <> TT TokType.Colon /\ ty <> TT TokType.Dot) rest ->
  exists j tm',
    parseTime toks i = Ok (tm', j) /\ drop j toks = rest
    /\ stringifyTime tm' = stringifyTime tm.
Proof.
  intros Hd H (t & r & -> & Ht1 & Ht2).
  exact (parseTime_canonical toks tm i t r Hd H Ht1 Ht2).
Qed.

Lemma parseOffset_head o i rest :
  drop i toks = offsetPartFused o ++ rest ->
  (forall o1, o = Some o1 -> CanonicalOffset o1) ->
  headIs (fun ty => ty <> TT TokType.Z /\ ty <> CT CombinedTokType.TZOffset) rest ->
  exists j o',
    parseOffsetIfPresent toks i = Ok (o', j) /\ drop j toks = rest
    /\ flat (offsetPartRaw o') = flat (offsetPartRaw o).
Proof.
  intros H Ho (t & r & -> & Ht1 & Ht2). destruct o as [o|]; cbn [offsetPartFused] in H.
  - destruct (parseOffsetIfPresent_canonical toks o i t r (Ho o eq_refl) H)
      as (j & o' & Hp & Hj & Hs).
    exists j, (Some o'). split; [exact Hp|]. split; [exact Hj|].
    cbn [offsetPartRaw]. rewrite <- !stringifyOffset_flat. exact Hs.
  - exists i, None. split; [|split; [exact H|reflexivity]].
    exact (parseOffsetIfPresent_absent toks i t r H Ht1 Ht2).
Qed.

Lemma dateTimeBrackets_canonical Xs i rest :
  drop i toks = map Raw (groupsRaw Xs) ++ rest -> headIs boundary rest ->
  exists j,
    dateTimeBrackets toks (S (length toks)) None [] i
    = Ok (classify (map groupOf Xs), j)
    /\ drop j toks = rest.
Proof.
  intros H (t & r & -> & Ht).
  pose proof (drop_length toks i _ _ H) as Hlen. rewrite length_map in Hlen.
  pose proof (groupsRaw_length Xs) as Hx.
  destruct (parseGroups_canonical toks Xs (S (length toks)) i t r ltac:(lia) H)
    as (j & Hp & Hj).
  { destruct Ht as [-> | ->]; discriminate. }
  exists j. split; [|exact Hj]. rewrite dateTimeBrackets_groups, Hp.
  destruct (classify (map groupOf Xs)). reflexivity.
Qed.

Lemma parseDateTime_canonical a i rest :
  CanonicalDateTime a ->
  drop i toks = dateTimeFused a ++ rest -> headIs boundary rest ->
  exists j a',
    parseDateTime toks i = Ok (a', j) /\ drop j toks = rest
    /\ stringifyDateTime a' = stringifyDateTime a.
Proof.
  intros (Hd & Ht & Ho & _ & _ & Hfirst) H Hb.
  unfold dateTimeFused in H. rewrite <- !app_assoc in H. unfold parseDateTime.
  destruct (parseDate_head (date a) i _ Hd H) as (j1 & d' & Hp1 & H1 & S1).
  { destruct (time a); [head_solve|].
    destruct (offset a) as [[|]|]; head_solve. }
  rewrite (bindM_Ok _ _ _ _ _ Hp1). cbv beta iota.
  assert (Htime : exists j2 time',
    bindM (tryEat toks (TT TokType.T)) (fun t =>
      bindM (match t with
             | Some _ => bindM (parseTime toks) (fun tm => ret (Some tm))
             | None => ret None
             end)
        (fun time' => ret time')) j1 = Ok (time', j2)
    /\ drop j2 toks = offsetPartFused (offset a)
                      ++ map Raw (groupsRaw (bracketTexts a)) ++ rest
    /\ flat (timePartRaw time') = flat (timePartRaw (time a))).
  { destruct (time a) as [tm|] eqn:Et; cbn [timePartRaw map app] in H1.
    - pose proof (tryEat_drop toks j1 _ _ (TT TokType.T) H1 eq_refl) as Hp0.
      apply drop_tail in H1.
      destruct (parseTime_head tm (S j1) _ (Ht tm eq_refl) H1)
        as (j2 & tm' & Hp2 & H2 & S2).
      { destruct (offset a) as [[|]|]; head_solve. }
      exists j2, (Some tm').
      split; [unfold bindM; rewrite Hp0, Hp2; reflexivity|]. split; [exact H2|].
      cbn [timePartRaw flat]. rewrite <- !stringifyTime_flat, S2. reflexivity.
    - assert (Hp0 : tryEat toks (TT TokType.T) j1 = Ok (None, j1)).
      { apply (tryEat_head_other j1 _ _ H1).
        destruct (offset a) as [[|]|]; head_solve. }
      exists j1, None.
      split; [unfold bindM; rewrite Hp0; reflexivity|]. split; [exact H1|].
      reflexivity. }
  destruct Htime as (j2 & time' & Hp2 & H2 & S2).
  unfold bindM at 1 in Hp2. unfold bindM at 1.
  destruct (tryEat toks (TT TokType.T) j1) as [[t0 j0]|e]; [|discriminate].
  unfold bindM at 1 in Hp2. unfold bindM at 1.
  destruct ((match t0 with
             | Some _ => bindM (parseTime toks) (fun tm => ret (Some tm))
             | None => ret None
             end) j0) as [[time0 j3]|e]; [|discriminate].
  injection Hp2 as -> ->.
  destruct (parseOffset_head (offset a) j2 _ H2 Ho) as (j3 & o' & Hp3 & H3 & S3).
  { head_solve. }
  rewrite (bindM_Ok _ _ _ _ _ Hp3). cbv beta iota.
  destruct (dateTimeBrackets_canonical (bracketTexts a) j3 rest H3 Hb)
    as (j4 & Hp4 & H4).
  rewrite (bindM_Ok _ _ _ _ _ Hp4).
  destruct (classify (map groupOf (bracketTexts a))) as [tz anns] eqn:Ec.
  exists j4, (mkDateTime d' time' o' tz anns).
  split; [reflexivity|]. split; [exact H4|].
  rewrite !stringifyDateTime_parts.
  cbn [date time offset timeZone annotations bracketTexts].
  rewrite S1, S2, S3.
  change (bracketTexts (mkDateTime d' time' o' tz anns)) with (bracketTextsOf tz anns).
  replace tz with (fst (classify (map groupOf (bracketTexts a)))) by (rewrite Ec; reflexivity).
  replace anns with (snd (classify (map groupOf (bracketTexts a)))) by (rewrite Ec; reflexivity).
  rewrite (bracketTexts_classify _ Hfirst). reflexivity.
Qed.

End CanonicalDateTimes.

(** *** Durations *)

Definition unitRaw (x : option Z) (unit : string) : list Token :=
  match x with
  | Some n => [tk TokType.Number (JSNumber.toString n); tk TokType.Ident unit]
  | None => []
  end.

Definition fractionRaw (f : option string) : list Token :=
  match f with
  | Some f =>
      if (0 <? String.length f)%nat then [tk TokType.Dot "."; tk TokType.Number f]
      else []
  | None => []
  end.

Definition secondsRaw (s : option Z) (f : option string) : list Token :=
  match s with
  | Some n =>
      tk TokType.Number (JSNumber.toString n) :: fractionRaw f
        ++ [tk TokType.Ident "S"]
  | None => []
  end.

Definition hasTimePart (u : DurationAst) : bool :=
  isDefined (hours u) || isDefined (minutes u) || isDefined (seconds u).

Definition markerRaw (b : bool) : list Token :=
  if b then [tk TokType.T "T"] else [].

Definition durationMainRaw (u : DurationAst) : list Token :=
  tk TokType.Ident "P" ::
  unitRaw (years u) "Y" ++ unitRaw (months u) "M" ++ unitRaw (weeks u) "W"
  ++ unitRaw (days u) "D" ++ markerRaw (hasTimePart u)
  ++ unitRaw (hours u) "H" ++ unitRaw (minutes u) "M"
  ++ secondsRaw (seconds u) (secondsFraction u).

Definition durationRaw (u : DurationAst) : list Token :=
  durationMainRaw u ++ groupsRaw (map ann_raw (dur_annotations u)).

Definition CanonicalDuration (u : DurationAst) : Prop :=
  safeOpt (years u) /\ safeOpt (months u) /\ safeOpt (weeks u) /\ safeOpt (days u)
  /\ safeOpt (hours u) /\ safeOpt (minutes u) /\ safeOpt (seconds u)
  /\ (forall f, secondsFraction u = Some f -> strAll isDigit f = true)
  /\ Forall (fun X => strAll isBracketChar X = true) (map ann_raw (dur_annotations u)).

Lemma appendComponent_flat result x unit :
  appendComponent result x unit = result +:+ flat (unitRaw x unit).
Proof.
  destruct x as [n|]; cbn [appendComponent unitRaw flat value tk].
  - rewrite append_nil_r. reflexivity.
  - rewrite append_nil_r. reflexivity.
Qed.

Ltac flat_normalise :=
  repeat first
    [ rewrite flat_app | rewrite append_assoc | rewrite append_nil_l
    | rewrite append_nil_r | progress cbn [flat value tk app] ].

Lemma stringifyDuration_flat u : stringifyDuration u = flat (durationRaw u).
Proof.
  unfold stringifyDuration, durationRaw, durationMainRaw.
  rewrite fold_annotations, !appendComponent_flat.
  fold (hasTimePart u).
  destruct (hasTimePart u) eqn:Eh; cbn [markerRaw].
  - unfold secondsRaw, fractionRaw.
    destruct (seconds u) as [s|]; [destruct (secondsFraction u) as [f|];
      [destruct (0 <? String.length f)%nat|]|];
      flat_normalise; reflexivity.
  - unfold hasTimePart in Eh.
    destruct (hours u), (minutes u), (seconds u); try discriminate.
    cbn [unitRaw secondsRaw]. flat_normalise. reflexivity.
Qed.

(** The accumulator after one more number of the field [f]. *)
Definition addTo (f : DurationField) (n : Z) (dur : Parser.Dur) : Parser.Dur :=
  let '(Parser.mkDur y mo w d h mi s sf) := dur in
  match f with
  | Years => Parser.mkDur (Parser.accumulate y n) mo w d h mi s sf
  | Months => Parser.mkDur y (Parser.accumulate mo n) w d h mi s sf
  | Weeks => Parser.mkDur y mo (Parser.accumulate w n) d h mi s sf
  | Days => Parser.mkDur y mo w (Parser.accumulate d n) h mi s sf
  | Hours => Parser.mkDur y mo w d (Parser.accumulate h n) mi s sf
  | Minutes => Parser.mkDur y mo w d h (Parser.accumulate mi n) s sf
  | Seconds => Parser.mkDur y mo w d h mi (Parser.accumulate s n) sf
  end.

Definition addOpt (f : DurationField) (x : option Z) (dur : Parser.Dur) : Parser.Dur :=
  match x with
  | Some n => addTo f n dur
  | None => dur
  end.

(** The accumulator after the seconds and their fraction. *)
Definition addSeconds (s : option Z) (f : option string) (dur : Parser.Dur)
  : Parser.Dur :=
  match s with
  | Some n =>
      let '(Parser.mkDur y mo w d h mi s0 sf) := addTo Seconds n dur in
      Parser.mkDur y mo w d h mi s0
        (match f with
         | Some f => if (0 <? String.length f)%nat then Some f else sf
         | None => sf
         end)
  | None => dur
  end.

Definition rounds (x : option Z) : nat := if isDefined x then 1 else 0.

Lemma addUnit_addTo f n dur i :
  Parser.addUnit (inTimePart f) (designator f) n None dur i = Ok (addTo f n dur, i).
Proof. destruct f, dur; reflexivity. Qed.

Section CanonicalDurations.

Import Parser.

Variable toks : list AnyToken.

(** A number and its unit. *)
Lemma durationLoop_unit f x inTime i rest :
  safeOpt x -> (x <> None -> inTime = inTimePart f) ->
  drop i toks = map Raw (unitRaw x (designator f)) ++ rest ->
  exists j, drop j toks = rest /\
    forall fuel rawParts dur,
      durationLoop toks (rounds x + fuel) rawParts inTime dur i
      = durationLoop toks fuel (rawParts ++ map value (unitRaw x (designator f)))
          inTime (addOpt f x dur) j.
Proof.
  intros Hx Hin H. destruct x as [n|]; cbn [unitRaw map app] in H.
  - specialize (Hx n eq_refl). rewrite (Hin ltac:(discriminate)).
    exists (S (S i)). split; [exact (drop_tail toks _ _ _ (drop_tail toks _ _ _ H))|].
    intros fuel rawParts dur. cbn [rounds isDefined Nat.add].
    rewrite (durationLoop_pair toks fuel rawParts (inTimePart f) dur i
               (tk TokType.Number (JSNumber.toString n))
               (tk TokType.Ident (designator f)) n
               (drop_head toks _ _ _ H) eq_refl
               (drop_head toks _ _ _ (drop_tail toks _ _ _ H)) eq_refl
               (toInt_toString n _ _ Hx)).
    cbn [value tk]. rewrite addUnit_addTo. reflexivity.
  - exists i. split; [exact H|]. intros fuel rawParts dur.
    cbn [rounds isDefined Nat.add unitRaw map addOpt]. rewrite app_nil_r. reflexivity.
Qed.

(** The round of the loop up to the decision to go on. *)
Lemma durationLoop_continue fuel rawParts inTime dur i t r :
  drop i toks = t :: r ->
  any_type t <> TT TokType.EOF -> any_type t <> TT TokType.Slash ->
  any_type t <> TT TokType.LBracket ->
  durationLoop toks (S fuel) rawParts inTime dur i =
  bindM (tryEat toks (TT TokType.T)) (fun t =>
    match t with
    | Some _ => durationLoop toks fuel (rawParts ++ ["T"]) true dur
    | None =>
        bindM (tryEat toks (TT TokType.Number)) (fun numTok =>
          match numTok with
          | None => ret (rawParts, dur)
          | Some numTok =>
              let rawParts := rawParts ++ [any_value numTok] in
              bindM (tryEat toks (TT TokType.Dot)) (fun dot =>
                bindM (match dot with
                       | Some _ =>
                           bindM (eat toks (TT TokType.Number)) (fun fracTok =>
                             ret (rawParts ++ ["."; any_value fracTok],
                                  Some (any_value fracTok)))
                       | None => ret (rawParts, None)
                       end)
                  (fun '(rawParts, fraction) =>
                     bindM (eat toks (TT TokType.Ident)) (fun unitTok =>
                       let unit := any_value unitTok in
                       let rawParts := rawParts ++ [unit] in
                       bindM position (fun i =>
                         bindM (lift (toInt (any_value numTok) "duration number" i))
                           (fun n =>
                              bindM (addUnit inTime unit n fraction dur) (fun dur =>
                                durationLoop toks fuel rawParts inTime dur))))))
          end)
    end) i.
Proof.
  intros H H1 H2 H3. cbn [durationLoop]. unfold eof.
  p_at_no H.
  rewrite (bindM_Ok _ _ i true i); [reflexivity|].
  p_at_no H. p_at_no H. reflexivity.
Qed.

Lemma durationLoop_marker b i rest :
  drop i toks = map Raw (markerRaw b) ++ rest ->
  exists j, drop j toks = rest /\
    forall fuel rawParts dur,
      durationLoop toks ((if b then 1 else 0) + fuel) rawParts false dur i
      = durationLoop toks fuel (rawParts ++ map value (markerRaw b)) b dur j.
Proof.
  intros H. destruct b; cbn [markerRaw map app] in H.
  - exists (S i). split; [exact (drop_tail toks _ _ _ H)|].
    intros fuel rawParts dur. cbn [Nat.add].
    rewrite (durationLoop_continue fuel rawParts false dur i _ _ H)
      by (simpl; congruence).
    p_tryEat H. reflexivity.
  - exists i. split; [exact H|]. intros fuel rawParts dur.
    cbn [Nat.add markerRaw map]. rewrite app_nil_r. reflexivity.
Qed.

Lemma durationLoop_seconds s f inTime i rest :
  safeOpt s -> (s <> None -> inTime = true) ->
  drop i toks = map Raw (secondsRaw s f) ++ rest ->
  exists j, drop j toks = rest /\
    forall fuel rawParts dur,
      durationLoop toks (rounds s + fuel) rawParts inTime dur i
      = durationLoop toks fuel (rawParts ++ map value (secondsRaw s f))
          inTime (addSeconds s f dur) j.
Proof.
  intros Hs Hin H. destruct s as [n|]; cbn [secondsRaw map app] in H.
  2:{ exists i. split; [exact H|]. intros fuel rawParts dur.
      cbn [rounds isDefined Nat.add secondsRaw map addSeconds].
      rewrite app_nil_r. reflexivity. }
  specialize (Hs n eq_refl). cbn [rounds isDefined Nat.add].
  rewrite (Hin ltac:(discriminate)).
  unfold fractionRaw in *. destruct f as [f|];
    [destruct (0 <? String.length f)%nat eqn:Ef|]; cbn [map app] in H.
  - exists (S (S (S (S i)))). split.
    { exact (drop_tail toks _ _ _ (drop_tail toks _ _ _
               (drop_tail toks _ _ _ (drop_tail toks _ _ _ H)))). }
    intros fuel rawParts dur.
    rewrite (durationLoop_continue fuel rawParts true dur i _ _ H)
      by (simpl; congruence).
    p_tryEat_no H. p_tryEat H. p_tryEat H.
    rewrite (bindM_Ok _ _ (S (S i))
               ((rawParts ++ [JSNumber.toString n]) ++ ["."; f], Some f)
               (S (S (S i)))).
    2:{ p_eat H. reflexivity. }
    apply drop_tail in H. cbv beta iota zeta. p_eat H. p_position H.
    p_toInt H n. cbn [any_value value tk].
    destruct dur as [y mo w d h mi s0 sf].
    cbn [addUnit negb]. change (String.eqb "S" "H") with false.
    change (String.eqb "S" "M") with false. change (String.eqb "S" "S") with true.
    cbv iota. rewrite Ef.
    rewrite (bindM_Ok _ _ _ _ _ eq_refl).
    cbn [addSeconds addTo]. rewrite Ef.
    unfold secondsRaw, fractionRaw. rewrite Ef.
    cbn [map value tk app]. rewrite <- !app_assoc. reflexivity.
  - exists (S (S i)). split; [exact (drop_tail toks _ _ _ (drop_tail toks _ _ _ H))|].
    intros fuel rawParts dur.
    rewrite (durationLoop_pair toks fuel rawParts true dur i
               (tk TokType.Number (JSNumber.toString n))
               (tk TokType.Ident "S") n
               (drop_head toks _ _ _ H) eq_refl
               (drop_head toks _ _ _ (drop_tail toks _ _ _ H)) eq_refl
               (toInt_toString n _ _ Hs)).
    cbn [value tk]. rewrite (addUnit_addTo Seconds).
    cbn [addSeconds]. unfold secondsRaw, fractionRaw. rewrite Ef.
    destruct dur; reflexivity.
  - exists (S (S i)). split; [exact (drop_tail toks _ _ _ (drop_tail toks _ _ _ H))|].
    intros fuel rawParts dur.
    rewrite (durationLoop_pair toks fuel rawParts true dur i
               (tk TokType.Number (JSNumber.toString n))
               (tk TokType.Ident "S") n
               (drop_head toks _ _ _ H) eq_refl
               (drop_head toks _ _ _ (drop_tail toks _ _ _ H)) eq_refl
               (toInt_toString n _ _ Hs)).
    cbn [value tk]. rewrite (addUnit_addTo Seconds).
    cbn [addSeconds]. destruct dur; reflexivity.
Qed.

(** The loop stops at the end of the value and at a bracket group. *)
Lemma durationLoop_stop fuel rawParts inTime dur i rest :
  drop i toks = rest ->
  headIs (fun ty => boundary ty \/ ty = TT TokType.LBracket) rest ->
  durationLoop toks (S fuel) rawParts inTime dur i = Ok ((rawParts, dur), i).
Proof.
  intros H (t & r & -> & [[Ht | Ht] | Ht]); cbn [durationLoop]; unfold eof.
  - assert (Hs : any_type t <> TT TokType.EOF) by (rewrite Ht; discriminate).
    p_at_no H.
    rewrite (bindM_Ok _ _ i false i); [reflexivity|].
    rewrite (bindM_Ok _ _ i true i); [reflexivity|].
    apply (at_drop toks _ _ _ _ H Ht).
  - rewrite (bindM_Ok _ _ i true i) by (apply (at_drop toks _ _ _ _ H Ht)).
    cbv beta iota. rewrite (bindM_Ok _ _ i false i); reflexivity.
  - assert (H1 : any_type t <> TT TokType.EOF) by (rewrite Ht; discriminate).
    assert (H2 : any_type t <> TT TokType.Slash) by (rewrite Ht; discriminate).
    p_at_no H.
    rewrite (bindM_Ok _ _ i false i); [reflexivity|].
    p_at_no H.
    rewrite (bindM_Ok _ _ i true i); [reflexivity|].
    apply (at_drop toks _ _ _ _ H Ht).
Qed.

End CanonicalDurations.

Lemma ann_raw_groupOf Xs : map ann_raw (map annotationOf (map groupOf Xs)) = Xs.
Proof. induction Xs as [|X Xs IH]; [reflexivity|]. simpl. rewrite IH. reflexivity. Qed.

Lemma unitRaw_rounds x unit : rounds x <= length (unitRaw x unit).
Proof. destruct x; unfold rounds; simpl; lia. Qed.

Lemma secondsRaw_rounds s f : rounds s <= length (secondsRaw s f).
Proof. destruct s; unfold rounds; simpl; rewrite ?length_app; simpl; lia. Qed.

Lemma markerRaw_rounds (b : bool) :
  ((if b then 1 else 0) <= length (markerRaw b))%nat.
Proof. destruct b; simpl; lia. Qed.

(** The accumulator at the end of a canonical duration. *)
Lemma duration_fields y mo w d h mi s f :
  safeOpt y -> safeOpt mo -> safeOpt w -> safeOpt d -> safeOpt h -> safeOpt mi ->
  safeOpt s ->
  let dur :=
    addSeconds s f
      (addOpt Minutes mi (addOpt Hours h (addOpt Days d (addOpt Weeks w
         (addOpt Months mo (addOpt Years y Parser.emptyDur)))))) in
  Parser.d_years dur = y /\ Parser.d_months dur = mo /\ Parser.d_weeks dur = w
  /\ Parser.d_days dur = d /\ Parser.d_hours dur = h /\ Parser.d_minutes dur = mi
  /\ Parser.d_seconds dur = s
  /\ secondsRaw s (Parser.d_secondsFraction dur) = secondsRaw s f.
Proof.
  intros Hy Hmo Hw Hd Hh Hmi Hs.
  assert (F : forall x, safeOpt x -> forall n, x = Some n ->
                Parser.accumulate None n = Some n).
  { intros x Hx n E. apply accumulate_fresh, (Hx n E). }
  destruct y as [y|], mo as [mo|], w as [w|], d as [d|], h as [h|], mi as [mi|],
    s as [n|]; cbv zeta;
    cbn [addSeconds addOpt addTo Parser.emptyDur];
    rewrite ?(F _ Hy _ eq_refl), ?(F _ Hmo _ eq_refl), ?(F _ Hw _ eq_refl),
      ?(F _ Hd _ eq_refl), ?(F _ Hh _ eq_refl), ?(F _ Hmi _ eq_refl),
      ?(F _ Hs _ eq_refl);
    (repeat split; try reflexivity);
    destruct f as [f|]; try reflexivity;
    cbn [Parser.d_secondsFraction];
    unfold secondsRaw, fractionRaw;
    destruct (0 <? String.length f)%nat eqn:Ef; rewrite ?Ef; reflexivity.
Qed.

Section CanonicalValues.

Import Parser.

Variable toks : list AnyToken.

Lemma parseDuration_canonical u i rest :
  CanonicalDuration u ->
  drop i toks = map Raw (durationRaw u) ++ rest -> headIs boundary rest ->
  exists j u',
    parseDuration toks i = Ok (u', j) /\ drop j toks = rest
    /\ stringifyDuration u' = stringifyDuration u.
Proof.
  intros (Hy & Hmo & Hw & Hd & Hh & Hmi & Hs & _ & _) H Hb.
  pose proof (drop_length toks i _ _ H) as Hlen.
  unfold durationRaw, durationMainRaw in H, Hlen.
  rewrite map_app, map_cons, !map_app in H. cbn [app] in H.
  rewrite <- !app_assoc in H.
  rewrite length_map, length_app in Hlen. cbn [length] in Hlen.
  rewrite !length_app in Hlen.
  pose proof (unitRaw_rounds (years u) "Y") as R1.
  pose proof (unitRaw_rounds (months u) "M") as R2.
  pose proof (unitRaw_rounds (weeks u) "W") as R3.
  pose proof (unitRaw_rounds (days u) "D") as R4.
  pose proof (markerRaw_rounds (hasTimePart u)) as R5.
  pose proof (unitRaw_rounds (hours u) "H") as R6.
  pose proof (unitRaw_rounds (minutes u) "M") as R7.
  pose proof (secondsRaw_rounds (seconds u) (secondsFraction u)) as R8.
  unfold parseDuration. p_eat H. cbn [any_value value tk].
  change (String.eqb "P" "P") with true. cbn [negb]. cbv iota.
  destruct (durationLoop_unit toks Years (years u) false _ _ Hy ltac:(reflexivity) H)
    as (j1 & H1 & E1).
  destruct (durationLoop_unit toks Months (months u) false _ _ Hmo ltac:(reflexivity) H1)
    as (j2 & H2 & E2).
  destruct (durationLoop_unit toks Weeks (weeks u) false _ _ Hw ltac:(reflexivity) H2)
    as (j3 & H3 & E3).
  destruct (durationLoop_unit toks Days (days u) false _ _ Hd ltac:(reflexivity) H3)
    as (j4 & H4 & E4).
  destruct (durationLoop_marker toks (hasTimePart u) _ _ H4) as (j5 & H5 & E5).
  assert (T1 : hours u <> None -> hasTimePart u = inTimePart Hours).
  { unfold hasTimePart. destruct (hours u); [reflexivity|congruence]. }
  assert (T2 : minutes u <> None -> hasTimePart u = inTimePart Minutes).
  { unfold hasTimePart. destruct (minutes u); [|congruence].
    destruct (hours u); reflexivity. }
  assert (T3 : seconds u <> None -> hasTimePart u = true).
  { unfold hasTimePart. destruct (seconds u); [|congruence].
    destruct (hours u), (minutes u); reflexivity. }
  destruct (durationLoop_unit toks Hours (hours u) (hasTimePart u) _ _ Hh T1 H5)
    as (j6 & H6 & E6).
  destruct (durationLoop_unit toks Minutes (minutes u) (hasTimePart u) _ _ Hmi T2 H6)
    as (j7 & H7 & E7).
  destruct (durationLoop_seconds toks (seconds u) (secondsFraction u) (hasTimePart u)
              _ _ Hs T3 H7) as (j8 & H8 & E8).
  assert (Hloop : forall k,
    durationLoop toks
      (rounds (years u) + (rounds (months u) + (rounds (weeks u) + (rounds (days u)
       + ((if hasTimePart u then 1 else 0) + (rounds (hours u) + (rounds (minutes u)
       + (rounds (seconds u) + S k))))))))
      ["P"] false emptyDur (S i)
    = Ok ((((((((["P"] ++ map value (unitRaw (years u) "Y"))
                 ++ map value (unitRaw (months u) "M"))
                ++ map value (unitRaw (weeks u) "W"))
               ++ map value (unitRaw (days u) "D"))
              ++ map value (markerRaw (hasTimePart u)))
             ++ map value (unitRaw (hours u) "H"))
            ++ map value (unitRaw (minutes u) "M"))
           ++ map value (secondsRaw (seconds u) (secondsFraction u)),
           addSeconds (seconds u) (secondsFraction u)
             (addOpt Minutes (minutes u) (addOpt Hours (hours u)
                (addOpt Days (days u) (addOpt Weeks (weeks u)
                   (addOpt Months (months u) (addOpt Years (years u) emptyDur)))))),
           j8)).
  { intros k. rewrite E1, E2, E3, E4, E5, E6, E7, E8.
    apply (durationLoop_stop toks k _ _ _ j8 _ H8).
    apply headIs_groups; [right; reflexivity|].
    destruct Hb as (t & r & -> & Ht). apply headIs_cons. left. exact Ht. }
  pose proof (Hloop (length toks - (rounds (years u) + rounds (months u)
          + rounds (weeks u) + rounds (days u) + (if hasTimePart u then 1 else 0)
          + rounds (hours u) + rounds (minutes u) + rounds (seconds u)))) as HL.
  match type of HL with
  | durationLoop _ ?n _ _ _ _ = _ =>
      replace n with (S (length toks)) in HL by lia
  end.
  rewrite (bindM_Ok _ _ _ _ _ HL). cbv beta iota.
  pose proof (groupsRaw_length (map ann_raw (dur_annotations u))) as Hx.
  destruct Hb as (t & r & -> & Ht).
  destruct (parseGroups_canonical toks (map ann_raw (dur_annotations u))
              (S (length toks)) j8 t r) as (j9 & Hp & H9).
  { pose proof (drop_length toks j8 _ _ H8) as Hl8. rewrite length_map in Hl8. lia. }
  { exact H8. }
  { destruct Ht as [-> | ->]; discriminate. }
  assert (Hg : durationBrackets toks (S (length toks)) [] j8
               = Ok ([] ++ map annotationOf
                             (map groupOf (map ann_raw (dur_annotations u))), j9))
    by (rewrite durationBrackets_groups, Hp; reflexivity).
  rewrite (bindM_Ok _ _ _ _ _ Hg).
  eexists j9, _. split; [reflexivity|]. split; [exact H9|].
  rewrite !stringifyDuration_flat. unfold durationRaw, durationMainRaw, hasTimePart.
  cbn [years months weeks days hours minutes seconds secondsFraction dur_annotations app].
  destruct (duration_fields (years u) (months u) (weeks u) (days u) (hours u)
              (minutes u) (seconds u) (secondsFraction u) Hy Hmo Hw Hd Hh Hmi Hs)
    as (F1 & F2 & F3 & F4 & F5 & F6 & F7 & F8).
  rewrite F1, F2, F3, F4, F5, F6, F7, F8, ann_raw_groupOf. reflexivity.
Qed.

End CanonicalValues.

(** *** Values and ranges *)

Definition valueRaw (v : ValueAst) : list Token :=
  match v with
  | DateTime a => dateTimeRaw a
  | Duration u => durationRaw u
  end.

Definition valueFused (v : ValueAst) : list AnyToken :=
  match v with
  | DateTime a => dateTimeFused a
  | Duration u => map Raw (durationRaw u)
  end.

Definition optionRaw (v : option ValueAst) : list Token :=
  match v with Some v => valueRaw v | None => [] end.

Definition optionFused (v : option ValueAst) : list AnyToken :=
  match v with Some v => valueFused v | None => [] end.

Definition temporalRaw (ast : TemporalAst) : list Token :=
  match ast with
  | Value v => valueRaw v
  | Range s e => optionRaw s ++ tk TokType.Slash "/" :: optionRaw e
  end.

Definition temporalFused (ast : TemporalAst) : list AnyToken :=
  match ast with
  | Value v => valueFused v
  | Range s e => optionFused s ++ Raw (tk TokType.Slash "/") :: optionFused e
  end.

Definition CanonicalValue (v : ValueAst) : Prop :=
  match v with
  | DateTime a => CanonicalDateTime a
  | Duration u => CanonicalDuration u
  end.

Definition CanonicalOption (v : option ValueAst) : Prop :=
  match v with Some v => CanonicalValue v | None => True end.

(** The syntax trees whose text is canonical. *)
Definition Canonical (ast : TemporalAst) : Prop :=
  match ast with
  | Value v => CanonicalValue v
  | Range s e => CanonicalOption s /\ CanonicalOption e
  end.

Lemma stringifyValue_flat v : stringifyValue v = flat (valueRaw v).
Proof.
  destruct v; [apply stringifyDateTime_flat|apply stringifyDuration_flat].
Qed.

Lemma stringifyTemporal_flat ast : stringifyTemporal ast = flat (temporalRaw ast).
Proof.
  destruct ast as [s e|[a|u]]; cbn [stringifyTemporal temporalRaw valueRaw].
  - unfold stringifyRange. rewrite flat_app. cbn [flat value tk].
    destruct s as [s|], e as [e|]; cbn [optionRaw flat];
      rewrite ?stringifyValue_flat; reflexivity.
  - apply stringifyDateTime_flat.
  - apply stringifyDuration_flat.
Qed.

Lemma dateTimeFused_head a rest :
  exists r, dateTimeFused a ++ rest
            = Raw (tk TokType.Number (pad 4 (year (date a)))) :: r.
Proof. unfold dateTimeFused, dateRaw. cbn [map app]. eauto. Qed.

Lemma durationFused_head u rest :
  exists r, map Raw (durationRaw u) ++ rest = Raw (tk TokType.Ident "P") :: r.
Proof. unfold durationRaw, durationMainRaw. cbn [map app]. eauto. Qed.

Lemma valueFused_head v rest :
  headIs (fun ty => ty = TT TokType.Number \/ ty = TT TokType.Ident)
    (valueFused v ++ rest).
Proof.
  destruct v as [a|u]; cbn [valueFused].
  - destruct (dateTimeFused_head a rest) as (r & ->). apply headIs_cons. left.
    reflexivity.
  - destruct (durationFused_head u rest) as (r & ->). apply headIs_cons. right.
    reflexivity.
Qed.

Section CanonicalTemporal.

Import Parser.

Variable toks : list AnyToken.

Lemma parseValueOrNull_canonical v i rest :
  CanonicalValue v ->
  drop i toks = valueFused v ++ rest -> headIs boundary rest ->
  exists j v',
    parseValueOrNull toks i = Ok (Some v', j) /\ drop j toks = rest
    /\ stringifyValue v' = stringifyValue v.
Proof.
  intros Hv H Hb. unfold parseValueOrNull. destruct v as [a|u]; cbn [valueFused] in H.
  - pose proof H as H0. destruct (dateTimeFused_head a rest) as (r0 & E).
    rewrite E in H0. clear E.
    p_at_no H0.
    rewrite (bindM_Ok _ _ i false i)
      by (p_at_no H0; apply (at_drop_other toks _ _ _ _ H0); simpl; congruence).
    cbv beta iota.
    p_at_no H0. p_peek H0. cbn [andb]. cbv iota.
    destruct (parseDateTime_canonical toks a i rest Hv H Hb) as (j & a' & Hp & Hj & Sa).
    rewrite (bindM_Ok _ _ _ _ _ Hp).
    exists j, (DateTime a'). split; [reflexivity|]. split; [exact Hj|exact Sa].
  - pose proof H as H0. destruct (durationFused_head u rest) as (r0 & E).
    rewrite E in H0. clear E.
    p_at_no H0.
    rewrite (bindM_Ok _ _ i false i)
      by (p_at_no H0; apply (at_drop_other toks _ _ _ _ H0); simpl; congruence).
    cbv beta iota.
    p_at H0. p_peek H0. cbn [any_value value tk andb].
    change (String.eqb "P" "P") with true. cbv iota.
    destruct (parseDuration_canonical toks u i rest Hv H Hb) as (j & u' & Hp & Hj & Su).
    rewrite (bindM_Ok _ _ _ _ _ Hp).
    exists j, (Duration u'). split; [reflexivity|]. split; [exact Hj|exact Su].
Qed.

Lemma parseValueOrNull_empty i rest :
  drop i toks = rest -> headIs boundary rest ->
  parseValueOrNull toks i = Ok (None, i).
Proof.
  intros H (t & r & -> & [Ht | Ht]); unfold parseValueOrNull.
  - assert (Hs : any_type t <> TT TokType.EOF) by (rewrite Ht; discriminate).
    p_at_no H.
    rewrite (bindM_Ok _ _ i true i); [reflexivity|].
    rewrite (bindM_Ok _ _ i true i); [reflexivity|].
    apply (at_drop toks _ _ _ _ H Ht).
  - rewrite (bindM_Ok _ _ i true i) by (apply (at_drop toks _ _ _ _ H Ht)).
    cbv beta iota. rewrite (bindM_Ok _ _ i true i); reflexivity.
Qed.

Lemma parseOption_canonical v i rest :
  CanonicalOption v ->
  drop i toks = optionFused v ++ rest -> headIs boundary rest ->
  exists j v',
    parseValueOrNull toks i = Ok (v', j) /\ drop j toks = rest
    /\ flat (optionRaw v') = flat (optionRaw v).
Proof.
  intros Hv H Hb. destruct v as [v|]; cbn [optionFused] in H.
  - destruct (parseValueOrNull_canonical v i rest Hv H Hb) as (j & v' & Hp & Hj & Sv).
    exists j, (Some v'). split; [exact Hp|]. split; [exact Hj|].
    cbn [optionRaw]. rewrite <- !stringifyValue_flat. exact Sv.
  - exists i, None. split; [|split; [exact H|reflexivity]].
    exact (parseValueOrNull_empty i rest H Hb).
Qed.

End CanonicalTemporal.

Lemma headIs_impl (P Q : AnyTokType -> Prop) rest :
  (forall ty, P ty -> Q ty) -> headIs P rest -> headIs Q rest.
Proof. intros HPQ (t & r & -> & Ht). apply headIs_cons. auto. Qed.

Lemma stringifyTemporal_Value v : stringifyTemporal (Value v) = stringifyValue v.
Proof. destruct v; reflexivity. Qed.

(** The parser on the canonical tokens of a syntax tree yields a tree with
    the same text. *)
Lemma run_canonical ast :
  Canonical ast ->
  exists ast',
    Parser.run (temporalFused ast ++ [Raw (tk TokType.EOF "")]) = Ok ast'
    /\ stringifyTemporal ast' = stringifyTemporal ast.
Proof.
  intros Hc. unfold Parser.run, Parser.parseTemporal.
  set (toks := temporalFused ast ++ [Raw (tk TokType.EOF "")]).
  assert (H : drop 0 toks = temporalFused ast ++ [Raw (tk TokType.EOF "")])
    by reflexivity.
  assert (Hend : headIs boundary [Raw (tk TokType.EOF "")])
    by (apply headIs_cons; right; reflexivity).
  clearbody toks.
  destruct ast as [s e|v]; cbn [temporalFused Canonical] in *.
  - destruct Hc as [Hs He]. rewrite <- app_assoc in H. cbn [app] in H.
    destruct s as [s|]; cbn [optionFused CanonicalOption app] in *.
    + assert (Hslash : headIs boundary
                (Raw (tk TokType.Slash "/") :: optionFused e ++ [Raw (tk TokType.EOF "")]))
        by (apply headIs_cons; left; reflexivity).
      assert (H0 : Parser.tryEat toks (TT TokType.Slash) 0 = Ok (None, 0)).
      { apply (tryEat_head_other toks 0 _ _ H).
        eapply headIs_impl; [|apply valueFused_head].
        intros ty [-> | ->]; discriminate. }
      rewrite (bindM_Ok _ _ _ _ _ H0). cbv beta iota.
      destruct (parseValueOrNull_canonical toks s 0 _ Hs H Hslash)
        as (j & s' & Hp & Hj & Ss).
      rewrite (bindM_Ok _ _ _ _ _ Hp). cbv beta iota.
      p_tryEat Hj.
      destruct (parseOption_canonical toks e (S j) _ He Hj Hend)
        as (j2 & e' & Hp2 & Hj2 & Se).
      rewrite (bindM_Ok _ _ _ _ _ Hp2). cbv beta iota.
      p_eat Hj2. exists (Range (Some s') e'). split; [reflexivity|].
      rewrite !stringifyTemporal_flat. cbn [temporalRaw optionRaw].
      rewrite !flat_app. cbn [flat]. rewrite Se, <- !stringifyValue_flat, Ss.
      reflexivity.
    + p_tryEat H.
      destruct (parseOption_canonical toks e 1 _ He H Hend)
        as (j2 & e' & Hp2 & Hj2 & Se).
      rewrite (bindM_Ok _ _ _ _ _ Hp2). cbv beta iota.
      p_eat Hj2. exists (Range None e'). split; [reflexivity|].
      rewrite !stringifyTemporal_flat. cbn [temporalRaw optionRaw app flat].
      rewrite Se. reflexivity.
  - assert (H0 : Parser.tryEat toks (TT TokType.Slash) 0 = Ok (None, 0)).
    { apply (tryEat_head_other toks 0 _ _ H).
      eapply headIs_impl; [|apply valueFused_head].
      intros ty [-> | ->]; discriminate. }
    rewrite (bindM_Ok _ _ _ _ _ H0). cbv beta iota.
    destruct (parseValueOrNull_canonical toks v 0 _ Hc H Hend)
      as (j & v' & Hp & Hj & Sv).
    rewrite (bindM_Ok _ _ _ _ _ Hp). cbv beta iota.
    p_tryEat_no Hj. p_eat Hj. exists (Value v'). split; [reflexivity|].
    rewrite !stringifyTemporal_Value. exact Sv.
Qed.

(** ** The fuser on canonical tokens, piece by piece *)

Definition notSign (t : Token) : Prop :=
  type t <> TokType.Plus /\ type t <> TokType.Dash.

Lemma signOf_notSign t : notSign t -> Fuser.signOf (Raw t) = None.
Proof.
  intros [H1 H2]. unfold Fuser.signOf, Fuser.rawOfType.
  destruct (type t); try reflexivity; congruence.
Qed.

(** Tokens without a sign among them are pushed as they are. *)
Lemma fused_plain seg : forall rest out,
  Forall notSign seg ->
  fused (map Raw seg ++ rest) out = fused rest (out ++ map Raw seg).
Proof.
  induction seg as [|t seg IH]; intros rest out Hseg.
  - simpl. rewrite app_nil_r. reflexivity.
  - inversion Hseg as [|? ? Ht Hseg1]; subst. cbn [map app].
    rewrite fused_other by (apply signOf_notSign; exact Ht).
    rewrite (IH rest _ Hseg1), <- app_assoc. reflexivity.
Qed.

Ltac not_sign := repeat constructor; cbn [type tk]; discriminate.

Lemma fused_date d rest out :
  Quiet out ->
  fused (map Raw (dateRaw d) ++ rest) out = fused rest (out ++ map Raw (dateRaw d)).
Proof.
  intros Hq. unfold dateRaw.
  assert (Hn : forall v, Fuser.signOf (Raw (tk TokType.Number v)) = None)
    by reflexivity.
  destruct (month d) as [m|]; [destruct (day d) as [dd|]|]; cbn [map app].
  - rewrite fused_other by apply Hn.
    rewrite fused_quiet by apply Hq.
    rewrite fused_other by apply Hn.
    rewrite fused_quiet by (apply couldBeTzOffset_after_two; reflexivity).
    rewrite fused_other by apply Hn.
    rewrite <- !app_assoc. reflexivity.
  - rewrite fused_other by apply Hn.
    rewrite fused_quiet by apply Hq.
    rewrite fused_other by apply Hn.
    rewrite <- !app_assoc. reflexivity.
  - rewrite fused_other by apply Hn. reflexivity.
Qed.

Lemma timeRaw_notSign tm : Forall notSign (timeRaw tm).
Proof.
  unfold timeRaw. destruct (second tm); [destruct (fraction tm)|]; not_sign.
Qed.

(** A time ends with a colon or a dot and a number. *)
Lemma timeRaw_end tm :
  exists pre b n,
    timeRaw tm = pre ++ [b; n]
    /\ (type b = TokType.Colon \/ type b = TokType.Dot) /\ type n = TokType.Number.
Proof.
  unfold timeRaw. destruct (second tm) as [s|]; [destruct (fraction tm) as [f|]|].
  - exists [tk TokType.Number (pad 2 (hour tm)); tk TokType.Colon ":";
            tk TokType.Number (pad 2 (minute tm)); tk TokType.Colon ":";
            tk TokType.Number (pad 2 s)], (tk TokType.Dot "."), (tk TokType.Number f).
    auto.
  - exists [tk TokType.Number (pad 2 (hour tm)); tk TokType.Colon ":";
            tk TokType.Number (pad 2 (minute tm))],
           (tk TokType.Colon ":"), (tk TokType.Number (pad 2 s)).
    auto.
  - exists [tk TokType.Number (pad 2 (hour tm))],
           (tk TokType.Colon ":"), (tk TokType.Number (pad 2 (minute tm))).
    auto.
Qed.

Lemma fused_offsetPart o tm rest out0 :
  fused (map Raw (offsetPartRaw o) ++ rest)
    (out0 ++ map Raw (tk TokType.T "T" :: timeRaw tm))
  = fused rest ((out0 ++ map Raw (tk TokType.T "T" :: timeRaw tm))
                ++ offsetPartFused o).
Proof.
  destruct o as [[|sg h m raw]|]; cbn [offsetPartRaw offsetPartFused offsetRaw
    offsetFused].
  - apply fused_plain. not_sign.
  - destruct (timeRaw_end tm) as (pre & b & n & E & Hb & Hn).
    assert (Hc : Fuser.couldBeTzOffset
                   (out0 ++ Raw (tk TokType.T "T") :: map Raw (timeRaw tm)) = true).
    { rewrite E, map_app. cbn [map].
      change (out0 ++ Raw (tk TokType.T "T") :: map Raw pre ++ [Raw b; Raw n])
        with (out0 ++ (Raw (tk TokType.T "T") :: map Raw pre) ++ [Raw b] ++ [Raw n]).
      rewrite !app_assoc. apply couldBeTzOffset_time; assumption. }
    cbn [map app]. destruct sg; cbn [signRaw]; apply fused_offset;
      try reflexivity; try exact Hc; try (left; reflexivity); right; reflexivity.
  - simpl. rewrite app_nil_r. reflexivity.
Qed.

Lemma bracketTokens_no_number n X :
  Forall (fun t => type t <> TokType.Number) (bracketTokens n X).
Proof.
  eapply Forall_impl; [apply bracketTokens_types|].
  intros t Ht E. cbv beta in Ht. rewrite E in Ht. discriminate.
Qed.

Lemma fused_groups Xs : forall rest out,
  fused (map Raw (groupsRaw Xs) ++ rest) out
  = fused rest (out ++ map Raw (groupsRaw Xs)).
Proof.
  induction Xs as [|X Xs IH]; intros rest out.
  - simpl. rewrite app_nil_r. reflexivity.
  - unfold groupsRaw. cbn [flat_map]. fold (groupsRaw Xs). unfold groupRaw.
    rewrite !map_app. cbn [map app]. rewrite !map_app, <- !app_assoc. cbn [map app].
    rewrite fused_other by reflexivity.
    rewrite fused_no_numbers by (apply bracketTokens_no_number || reflexivity).
    rewrite fused_other by reflexivity.
    rewrite IH, <- !app_assoc. reflexivity.
Qed.

Lemma fused_dateTime a rest out :
  WrittenDateTime a -> Quiet out ->
  fused (map Raw (dateTimeRaw a) ++ rest) out = fused rest (out ++ dateTimeFused a).
Proof.
  intros (_ & _ & _ & Htime & _) Hq. unfold dateTimeRaw, dateTimeFused.
  rewrite !map_app, <- !app_assoc.
  rewrite (fused_date _ _ _ Hq).
  destruct (time a) as [tm|].
  - cbn [timePartRaw].
    rewrite (fused_plain (tk TokType.T "T" :: timeRaw tm))
      by (constructor; [split; discriminate|apply timeRaw_notSign]).
    rewrite fused_offsetPart, fused_groups, <- !app_assoc.
    reflexivity.
  - cbn [timePartRaw map app].
    destruct (offset a) as [[|sg h m raw]|].
    + cbn [offsetPartRaw offsetPartFused offsetRaw offsetFused map app].
      rewrite fused_other by reflexivity.
      rewrite fused_groups, <- !app_assoc. reflexivity.
    + exfalso. exact (Htime sg h m raw eq_refl eq_refl).
    + cbn [offsetPartRaw offsetPartFused map app].
      rewrite fused_groups, <- !app_assoc. reflexivity.
Qed.

Lemma unitRaw_notSign x unit : Forall notSign (unitRaw x unit).
Proof. destruct x; not_sign. Qed.

Lemma durationMainRaw_notSign u : Forall notSign (durationMainRaw u).
Proof.
  unfold durationMainRaw. constructor; [split; discriminate|].
  repeat (apply Forall_app; split; [apply unitRaw_notSign|]).
  apply Forall_app. split; [destruct (hasTimePart u); not_sign|].
  repeat (apply Forall_app; split; [apply unitRaw_notSign|]).
  unfold secondsRaw, fractionRaw.
  destruct (seconds u); [|constructor].
  destruct (secondsFraction u) as [f|]; [destruct (0 <? String.length f)%nat|];
    not_sign.
Qed.

Lemma fused_value v rest out :
  CanonicalValue v -> Quiet out ->
  fused (map Raw (valueRaw v) ++ rest) out = fused rest (out ++ valueFused v).
Proof.
  intros Hv Hq. destruct v as [a|u]; cbn [valueRaw valueFused].
  - apply fused_dateTime; [apply CanonicalDateTime_written|]; assumption.
  - unfold durationRaw. rewrite !map_app, <- !app_assoc.
    rewrite (fused_plain _ _ _ (durationMainRaw_notSign u)), fused_groups.
    rewrite <- !app_assoc. reflexivity.
Qed.

Lemma fused_option v rest out :
  CanonicalOption v -> Quiet out ->
  fused (map Raw (optionRaw v) ++ rest) out = fused rest (out ++ optionFused v).
Proof.
  intros Hv Hq. destruct v as [v|]; cbn [optionRaw optionFused].
  - apply fused_value; assumption.
  - simpl. rewrite app_nil_r. reflexivity.
Qed.

(** The fuser on the canonical tokens of a syntax tree. *)
Lemma combineTimezoneOffsets_canonical ast :
  Canonical ast ->
  combineTimezoneOffsets (map Raw (temporalRaw ast ++ [tk TokType.EOF ""]))
  = temporalFused ast ++ [Raw (tk TokType.EOF "")].
Proof.
  intros Hc. unfold combineTimezoneOffsets.
  change (Fuser.loop (length ?l) ?l 0 []) with (fused l []).
  destruct ast as [s e|v]; cbn [temporalRaw temporalFused Canonical] in *.
  - destruct Hc as [Hs He].
    rewrite !map_app, <- !app_assoc. cbn [map app].
    rewrite (fused_option s _ _ Hs Quiet_nil).
    rewrite fused_other by reflexivity.
    rewrite (fused_option e _ _ He) by (apply Quiet_snoc; reflexivity).
    rewrite fused_other by reflexivity.
    rewrite fused_nil. cbn [app]. rewrite <- !app_assoc. reflexivity.
  - rewrite map_app. cbn [map].
    rewrite (fused_value v _ _ Hc Quiet_nil).
    rewrite fused_other by reflexivity.
    rewrite fused_nil. reflexivity.
Qed.

(** ** The lexer on canonical text, piece by piece *)

Lemma stopsAt_cons (p : ascii -> bool) c s : p c = false -> stopsAt p (String c s) = true.
Proof. intros H. simpl. rewrite H. reflexivity. Qed.

Lemma stops_timePart (p : ascii -> bool) tm rest :
  p "T"%char = false -> stopsAt p rest = true ->
  stopsAt p (flat (timePartRaw tm) +:+ rest) = true.
Proof.
  intros HT Hrest. destruct tm as [tm|]; cbn [timePartRaw flat value tk].
  - rewrite !append_cons. apply stopsAt_cons. exact HT.
  - rewrite append_nil_l. exact Hrest.
Qed.

Lemma stops_offsetPart (p : ascii -> bool) o rest :
  p "Z"%char = false -> p "+"%char = false -> p "-"%char = false ->
  stopsAt p rest = true ->
  stopsAt p (flat (offsetPartRaw o) +:+ rest) = true.
Proof.
  intros HZ Hp Hm Hrest.
  destruct o as [[|[] h m raw]|]; cbn [offsetPartRaw offsetRaw signRaw flat value tk].
  - rewrite !append_cons. apply stopsAt_cons. exact HZ.
  - rewrite !append_cons. apply stopsAt_cons. exact Hp.
  - rewrite !append_cons. apply stopsAt_cons. exact Hm.
  - rewrite append_nil_l. exact Hrest.
Qed.

Lemma stops_groups (p : ascii -> bool) Xs rest :
  p "["%char = false -> stopsAt p rest = true ->
  stopsAt p (flat (groupsRaw Xs) +:+ rest) = true.
Proof.
  intros Hb Hrest. destruct Xs as [|X Xs].
  - cbn [groupsRaw flat_map flat]. rewrite append_nil_l. exact Hrest.
  - rewrite flat_groupsRaw_cons, !append_cons. apply stopsAt_cons. exact Hb.
Qed.

Lemma Lexes_timePart tm rest l :
  (forall t, tm = Some t -> CanonicalTime t) -> stopsAt isDigit rest = true ->
  Lexes rest l -> Lexes (flat (timePartRaw tm) +:+ rest) (timePartRaw tm ++ l).
Proof.
  intros Ht Hstop Hl. destruct tm as [tm|]; cbn [timePartRaw flat value tk app].
  - rewrite append_assoc, append_cons, append_nil_l. apply Lexes_T.
    apply Lexes_time; auto.
  - rewrite append_nil_l. exact Hl.
Qed.

Lemma Lexes_offsetPart o rest l :
  (forall o1, o = Some o1 -> CanonicalOffset o1) -> stopsAt isDigit rest = true ->
  Lexes rest l -> Lexes (flat (offsetPartRaw o) +:+ rest) (offsetPartRaw o ++ l).
Proof.
  intros Ho Hstop Hl. destruct o as [o|]; cbn [offsetPartRaw flat app].
  - apply Lexes_offset; auto.
  - rewrite append_nil_l. exact Hl.
Qed.

Lemma Lexes_groups Xs rest l :
  Forall (fun X => strAll isBracketChar X = true) Xs ->
  Lexes rest l -> Lexes (flat (groupsRaw Xs) +:+ rest) (groupsRaw Xs ++ l).
Proof.
  intros HXs Hl. induction HXs as [|X Xs HX HXs IH].
  - cbn [groupsRaw flat_map flat app]. rewrite append_nil_l. exact Hl.
  - rewrite flat_groupsRaw_cons, !append_assoc.
    unfold groupsRaw. cbn [flat_map]. fold (groupsRaw Xs). unfold groupRaw.
    cbn [app]. rewrite <- !app_assoc. cbn [app].
    apply Lexes_bracket; [exact HX|exact IH].
Qed.

Lemma Lexes_dateTime a rest l :
  WrittenDateTime a -> stopsAt isDigit rest = true ->
  Lexes rest l -> Lexes (flat (dateTimeRaw a) +:+ rest) (dateTimeRaw a ++ l).
Proof.
  intros (Hd & Ht & Ho & _ & Hg) Hstop Hl. unfold dateTimeRaw.
  rewrite !flat_app, !append_assoc, <- !app_assoc.
  assert (S3 : stopsAt isDigit (flat (groupsRaw (bracketTexts a)) +:+ rest) = true)
    by (apply stops_groups; [reflexivity|exact Hstop]).
  assert (S2 : stopsAt isDigit
                 (flat (offsetPartRaw (offset a))
                  +:+ flat (groupsRaw (bracketTexts a)) +:+ rest) = true)
    by (apply stops_offsetPart; [reflexivity..|exact S3]).
  assert (S1 : stopsAt isDigit
                 (flat (timePartRaw (time a)) +:+ flat (offsetPartRaw (offset a))
                  +:+ flat (groupsRaw (bracketTexts a)) +:+ rest) = true)
    by (apply stops_timePart; [reflexivity|exact S2]).
  apply Lexes_date; [exact Hd|exact S1|].
  apply Lexes_timePart; [exact Ht|exact S2|].
  apply Lexes_offsetPart; [exact Ho|exact S3|].
  apply Lexes_groups; [exact Hg|exact Hl].
Qed.

Lemma identTail_not_digit c : isIdentTail c = true -> isDigit c = false.
Proof.
  destruct c as [[] [] [] [] [] [] [] []]; vm_compute; congruence.
Qed.

Lemma stops_unit x unit rest :
  safeOpt x -> stopsAt isIdentTail rest = true ->
  stopsAt isIdentTail (flat (unitRaw x unit) +:+ rest) = true.
Proof.
  intros Hx Hrest. destruct x as [n|]; cbn [unitRaw flat value tk].
  - rewrite !append_assoc. apply numeral_stops_ident.
    apply toString_is_numeral. exact (Hx n eq_refl).
  - rewrite append_nil_l. exact Hrest.
Qed.

Lemma stops_marker b rest :
  stopsAt isIdentTail rest = true ->
  stopsAt isIdentTail (flat (markerRaw b) +:+ rest) = true.
Proof.
  intros Hrest. destruct b; cbn [markerRaw flat value tk].
  - rewrite !append_cons. reflexivity.
  - rewrite append_nil_l. exact Hrest.
Qed.

Lemma stops_seconds s f rest :
  safeOpt s -> stopsAt isIdentTail rest = true ->
  stopsAt isIdentTail (flat (secondsRaw s f) +:+ rest) = true.
Proof.
  intros Hs Hrest. destruct s as [n|]; cbn [secondsRaw flat value tk].
  - rewrite !append_assoc. apply numeral_stops_ident.
    apply toString_is_numeral. exact (Hs n eq_refl).
  - rewrite append_nil_l. exact Hrest.
Qed.

Lemma Lexes_unit x c rest l :
  safeOpt x -> isIdentTail c = true -> stopsAt isIdentTail rest = true ->
  Lexes rest l ->
  Lexes (flat (unitRaw x (String c "")) +:+ rest) (unitRaw x (String c "") ++ l).
Proof.
  intros Hx Hc Hstop Hl. destruct x as [n|]; cbn [unitRaw flat value tk app].
  - rewrite !append_assoc, append_nil_l, append_cons, append_nil_l.
    apply Lexes_numeral.
    + apply toString_is_numeral. exact (Hx n eq_refl).
    + apply stopsAt_cons. apply identTail_not_digit. exact Hc.
    + apply Lexes_letter; assumption.
  - rewrite append_nil_l. exact Hl.
Qed.

Lemma Lexes_marker b rest l :
  Lexes rest l -> Lexes (flat (markerRaw b) +:+ rest) (markerRaw b ++ l).
Proof.
  intros Hl. destruct b; cbn [markerRaw flat value tk app].
  - rewrite append_assoc, append_cons, !append_nil_l. apply Lexes_T. exact Hl.
  - rewrite append_nil_l. exact Hl.
Qed.

Lemma Lexes_seconds s f rest l :
  safeOpt s -> (forall f1, f = Some f1 -> strAll isDigit f1 = true) ->
  stopsAt isIdentTail rest = true -> Lexes rest l ->
  Lexes (flat (secondsRaw s f) +:+ rest) (secondsRaw s f ++ l).
Proof.
  intros Hs Hf Hstop Hl. destruct s as [n|]; cbn [secondsRaw];
    [|cbn [flat app]; rewrite append_nil_l; exact Hl].
  specialize (Hs n eq_refl). unfold fractionRaw.
  assert (HS : Lexes ("S" +:+ rest) (tk TokType.Ident "S" :: l))
    by (apply Lexes_letter; [reflexivity|exact Hstop|exact Hl]).
  destruct f as [f|]; [destruct (0 <? String.length f)%nat eqn:Ef|];
    cbn [flat value tk app]; rewrite ?append_assoc, ?append_nil_l.
  - apply Lexes_numeral; [apply toString_is_numeral; exact Hs|reflexivity|].
    apply (Lexes_punct "."%char TokType.Dot); [reflexivity|].
    apply Lexes_numeral; [|reflexivity|exact HS].
    unfold isNumeral. rewrite (Hf f eq_refl).
    destruct f; [discriminate|reflexivity].
  - apply Lexes_numeral; [apply toString_is_numeral; exact Hs|reflexivity|exact HS].
  - apply Lexes_numeral; [apply toString_is_numeral; exact Hs|reflexivity|exact HS].
Qed.

Lemma Lexes_duration u rest l :
  CanonicalDuration u -> stopsAt isIdentTail rest = true ->
  Lexes rest l -> Lexes (flat (durationRaw u) +:+ rest) (durationRaw u ++ l).
Proof.
  intros (Hy & Hmo & Hw & Hd & Hh & Hmi & Hs & Hf & Hg) Hstop Hl.
  unfold durationRaw, durationMainRaw.
  cbn [flat value tk app]. rewrite !flat_app, !append_assoc, <- !app_assoc.
  rewrite append_cons, append_nil_l.
  set (X := map ann_raw (dur_annotations u)) in *.
  assert (S9 : stopsAt isIdentTail (flat (groupsRaw X) +:+ rest) = true)
    by (apply stops_groups; [reflexivity|exact Hstop]).
  assert (S8 : stopsAt isIdentTail
                 (flat (secondsRaw (seconds u) (secondsFraction u))
                  +:+ flat (groupsRaw X) +:+ rest) = true)
    by (apply stops_seconds; assumption).
  assert (S7 : stopsAt isIdentTail
                 (flat (unitRaw (minutes u) "M")
                  +:+ flat (secondsRaw (seconds u) (secondsFraction u))
                  +:+ flat (groupsRaw X) +:+ rest) = true)
    by (apply stops_unit; assumption).
  assert (S6 : stopsAt isIdentTail
                 (flat (unitRaw (hours u) "H") +:+ flat (unitRaw (minutes u) "M")
                  +:+ flat (secondsRaw (seconds u) (secondsFraction u))
                  +:+ flat (groupsRaw X) +:+ rest) = true)
    by (apply stops_unit; assumption).
  assert (S5 : stopsAt isIdentTail
                 (flat (markerRaw (hasTimePart u))
                  +:+ flat (unitRaw (hours u) "H") +:+ flat (unitRaw (minutes u) "M")
                  +:+ flat (secondsRaw (seconds u) (secondsFraction u))
                  +:+ flat (groupsRaw X) +:+ rest) = true)
    by (apply stops_marker; assumption).
  assert (S4 : stopsAt isIdentTail
                 (flat (unitRaw (days u) "D")
                  +:+ flat (markerRaw (hasTimePart u))
                  +:+ flat (unitRaw (hours u) "H") +:+ flat (unitRaw (minutes u) "M")
                  +:+ flat (secondsRaw (seconds u) (secondsFraction u))
                  +:+ flat (groupsRaw X) +:+ rest) = true)
    by (apply stops_unit; assumption).
  assert (S3 : stopsAt isIdentTail
                 (flat (unitRaw (weeks u) "W") +:+ flat (unitRaw (days u) "D")
                  +:+ flat (markerRaw (hasTimePart u))
                  +:+ flat (unitRaw (hours u) "H") +:+ flat (unitRaw (minutes u) "M")
                  +:+ flat (secondsRaw (seconds u) (secondsFraction u))
                  +:+ flat (groupsRaw X) +:+ rest) = true)
    by (apply stops_unit; assumption).
  assert (S2 : stopsAt isIdentTail
                 (flat (unitRaw (months u) "M")
                  +:+ flat (unitRaw (weeks u) "W") +:+ flat (unitRaw (days u) "D")
                  +:+ flat (markerRaw (hasTimePart u))
                  +:+ flat (unitRaw (hours u) "H") +:+ flat (unitRaw (minutes u) "M")
                  +:+ flat (secondsRaw (seconds u) (secondsFraction u))
                  +:+ flat (groupsRaw X) +:+ rest) = true)
    by (apply stops_unit; assumption).
  assert (S1 : stopsAt isIdentTail
                 (flat (unitRaw (years u) "Y") +:+ flat (unitRaw (months u) "M")
                  +:+ flat (unitRaw (weeks u) "W") +:+ flat (unitRaw (days u) "D")
                  +:+ flat (markerRaw (hasTimePart u))
                  +:+ flat (unitRaw (hours u) "H") +:+ flat (unitRaw (minutes u) "M")
                  +:+ flat (secondsRaw (seconds u) (secondsFraction u))
                  +:+ flat (groupsRaw X) +:+ rest) = true)
    by (apply stops_unit; assumption).
  apply Lexes_letter; [reflexivity|exact S1|].
  apply Lexes_unit; [exact Hy|reflexivity|exact S2|].
  apply Lexes_unit; [exact Hmo|reflexivity|exact S3|].
  apply Lexes_unit; [exact Hw|reflexivity|exact S4|].
  apply Lexes_unit; [exact Hd|reflexivity|exact S5|].
  apply Lexes_marker.
  apply Lexes_unit; [exact Hh|reflexivity|exact S7|].
  apply Lexes_unit; [exact Hmi|reflexivity|exact S8|].
  apply Lexes_seconds; [exact Hs|exact Hf|exact S9|].
  apply Lexes_groups; [exact Hg|exact Hl].
Qed.

Lemma Lexes_value v rest l :
  CanonicalValue v -> stopsAt isDigit rest = true ->
  stopsAt isIdentTail rest = true ->
  Lexes rest l -> Lexes (flat (valueRaw v) +:+ rest) (valueRaw v ++ l).
Proof.
  intros Hv H1 H2 Hl. destruct v as [a|u]; cbn [valueRaw].
  - apply Lexes_dateTime; [apply CanonicalDateTime_written| |]; assumption.
  - apply Lexes_duration; assumption.
Qed.

Lemma Lexes_option v rest l :
  CanonicalOption v -> stopsAt isDigit rest = true ->
  stopsAt isIdentTail rest = true ->
  Lexes rest l -> Lexes (flat (optionRaw v) +:+ rest) (optionRaw v ++ l).
Proof.
  intros Hv H1 H2 Hl. destruct v as [v|]; cbn [optionRaw].
  - apply Lexes_value; assumption.
  - cbn [flat app]. rewrite append_nil_l. exact Hl.
Qed.

(** The lexer on the text of a canonical syntax tree. *)
Lemma Lexes_canonical ast :
  Canonical ast ->
  Lexes (flat (temporalRaw ast)) (temporalRaw ast ++ [tk TokType.EOF ""]).
Proof.
  intros Hc. destruct ast as [s e|v]; cbn [temporalRaw Canonical] in *.
  - destruct Hc as [Hs He]. rewrite flat_app, <- app_assoc. cbn [flat value tk app].
    apply Lexes_option; [exact Hs|reflexivity|reflexivity|].
    rewrite append_cons, append_nil_l.
    apply (Lexes_punct "/"%char TokType.Slash); [reflexivity|].
    rewrite <- (append_nil_r (flat (optionRaw e))).
    apply Lexes_option; [exact He|reflexivity|reflexivity|exact Lexes_end].
  - rewrite <- (append_nil_r (flat (valueRaw v))).
    apply Lexes_value; [exact Hc|reflexivity|reflexivity|exact Lexes_end].
Qed.

(** * The texts the parser yields *)

(** ** What the lexer emits *)

(** A token of default mode. *)
Definition plainTok (t : Token) : Prop :=
  type t <> TokType.LBracket /\ type t <> TokType.RBracket
  /\ type t <> TokType.EOF
  /\ (type t = TokType.Number -> isNumeral (value t) = true).

(** A token of bracket mode. *)
Definition bracketTok (t : Token) : Prop :=
  isBracketType (type t) = true /\ strAll isBracketChar (value t) = true
  /\ value t <> ""
  /\ (type t = TokType.Exclamation -> value t = "!")
  /\ (type t <> TokType.Exclamation -> bang (value t) = false).

(** The token sequences of the lexer: tokens of default mode and bracket
    groups, closed by the end marker. *)
Inductive Lexed : list Token -> Prop :=
| Lexed_end e : type e = TokType.EOF -> Lexed [e]
| Lexed_plain t l : plainTok t -> Lexed l -> Lexed (t :: l)
| Lexed_group lb seg rb l :
    type lb = TokType.LBracket -> type rb = TokType.RBracket ->
    Forall bracketTok seg -> Lexed l -> Lexed (lb :: seg ++ rb :: l).

Lemma span_prefix p s a b : Lexer.span p s = (a, b) -> strAll p a = true.
Proof.
  revert a b. induction s as [|c s IH]; simpl; intros a b H.
  - injection H as <- <-. reflexivity.
  - destruct (p c) eqn:Ec.
    + destruct (Lexer.span p s) as [a1 b1] eqn:E. injection H as <- <-.
      simpl. rewrite Ec. exact (IH a1 b1 eq_refl).
    + injection H as <- <-. reflexivity.
Qed.

Lemma strAll_impl (p q : ascii -> bool) s :
  (forall c, p c = true -> q c = true) -> strAll p s = true -> strAll q s = true.
Proof.
  intros Hpq. induction s as [|c s IH]; [reflexivity|]. simpl. intros H.
  apply andb_true_iff in H as [Hc Hs]. rewrite (Hpq c Hc), (IH Hs). reflexivity.
Qed.

Lemma wordChar_bracketChar c : isBracketWordChar c = true -> isBracketChar c = true.
Proof. unfold isBracketChar. destruct (Lexer.bracketPunct c); auto. Qed.

Lemma bracketPunct_bang c ty :
  Lexer.bracketPunct c = Some ty ->
  (ty = TokType.Exclamation -> c = "!"%char)
  /\ (ty <> TokType.Exclamation -> Ascii.eqb c "!" = false).
Proof.
  unfold Lexer.bracketPunct.
  repeat match goal with
         | |- context [if Ascii.eqb c ?x then _ else _] =>
             destruct (Ascii.eqb c x) eqn:?
         end; intros [= <-]; split; try discriminate; try congruence;
    try (intros _; apply Ascii.eqb_eq; assumption).
  all: intros _; destruct (Ascii.eqb c "!") eqn:E; [|reflexivity];
    apply Ascii.eqb_eq in E; subst; discriminate.
Qed.

Lemma punct_bracketTok c ty i :
  Lexer.bracketPunct c = Some ty -> bracketTok (Lexer.emit ty i (String c "")).
Proof.
  intros H. unfold bracketTok, Lexer.emit. cbn [type value].
  destruct (bracketPunct_bang c ty H) as [H1 H2].
  split; [exact (bracketPunct_type c ty H)|].
  split; [simpl; unfold isBracketChar; rewrite H; reflexivity|].
  split; [discriminate|]. split.
  - intros E. rewrite (H1 E). reflexivity.
  - intros E. simpl. exact (H2 E).
Qed.

Lemma word_bracketTok c w rest rest2 i :
  Lexer.bracketPunct c = None -> isBracketWordChar c = true ->
  Lexer.span isBracketWordChar rest = (w, rest2) ->
  bracketTok (Lexer.emit (if Lexer.isLetterWord (String c w) then TokType.Ident
                          else TokType.BracketText) i (String c w)).
Proof.
  intros Hp Hc Hsp. unfold bracketTok, Lexer.emit. cbn [type value].
  split; [destruct (Lexer.isLetterWord (String c w)); reflexivity|].
  split.
  { simpl. rewrite (wordChar_bracketChar c Hc). simpl.
    apply (strAll_impl isBracketWordChar); [exact wordChar_bracketChar|].
    exact (span_prefix _ _ _ _ Hsp). }
  split; [discriminate|]. split.
  - destruct (Lexer.isLetterWord (String c w)); discriminate.
  - intros _. simpl. destruct (Ascii.eqb c "!") eqn:E; [|reflexivity].
    apply Ascii.eqb_eq in E. subst. discriminate.
Qed.

Section LexerShape.

Import Lexer.

Lemma lexBracketContent_shape : forall fuel i rest toks toks1 i1 rest1,
  lexBracketContent fuel i rest toks = Ok (toks1, i1, rest1) ->
  exists seg, toks1 = toks ++ seg /\ Forall bracketTok seg.
Proof.
  induction fuel as [|fuel IH]; intros i rest toks toks1 i1 rest1 H; [discriminate|].
  destruct rest as [|ch r]; [discriminate|]. rewrite lexBracketContent_unfold in H.
  destruct (Ascii.eqb ch "]").
  { injection H as <- _ _. exists []. rewrite app_nil_r. auto. }
  destruct (JS.isWhitespace ch); [exact (IH _ _ _ _ _ _ H)|].
  destruct (bracketPunct ch) as [ty|] eqn:Ep.
  - destruct (IH _ _ _ _ _ _ H) as (seg & -> & Hseg).
    exists (emit ty i (String ch "") :: seg). rewrite <- app_assoc. split; [reflexivity|].
    constructor; [exact (punct_bracketTok ch ty i Ep)|exact Hseg].
  - destruct (isBracketWordChar ch) eqn:Ec; [|discriminate].
    destruct (span isBracketWordChar r) as [w r2] eqn:Esp. cbv zeta in H.
    destruct (IH _ _ _ _ _ _ H) as (seg & -> & Hseg).
    eexists (_ :: seg). rewrite <- app_assoc. split; [reflexivity|].
    constructor; [exact (word_bracketTok ch w r r2 i Ep Ec Esp)|exact Hseg].
Qed.

Lemma lexNumber_plain i ch rest tok i1 rest1 :
  isDigit ch = true -> lexNumber i ch rest = (tok, i1, rest1) -> plainTok tok.
Proof.
  intros Hc. unfold lexNumber.
  destruct (span isDigit rest) as [ds r] eqn:E. intros [= <- _ _].
  unfold plainTok, emit. cbn [type value].
  repeat split; try discriminate.
  intros _. unfold isNumeral. simpl. rewrite Hc. exact (span_prefix _ _ _ _ E).
Qed.

Lemma lexIdent_plain i ch rest tok i1 rest1 :
  lexIdent i ch rest = (tok, i1, rest1) -> plainTok tok.
Proof.
  unfold lexIdent.
  destruct (Ascii.eqb ch "T"); [intros [= <- _ _]; repeat split; discriminate|].
  destruct (Ascii.eqb ch "Z"); [intros [= <- _ _]; repeat split; discriminate|].
  destruct (span _ rest) as [ls r]. intros [= <- _ _].
  repeat split; discriminate.
Qed.

Lemma punct_plain ch ty i :
  punct ch = Some ty -> plainTok (emit ty i (String ch "")).
Proof.
  unfold punct.
  repeat match goal with |- context [if ?b then _ else _] => destruct b end;
    intros [= <-]; repeat split; discriminate.
Qed.

Lemma lex_loop_shape : forall n rest, String.length rest <= n ->
  forall i l, lex_loop (S (String.length rest)) i rest [] = Ok l -> Lexed l.
Proof.
  induction n as [|n IH]; intros rest Hn i l H.
  - destruct rest; [|simpl in Hn; lia]. simpl in H. injection H as <-.
    apply Lexed_end. reflexivity.
  - destruct rest as [|ch rest1].
    { simpl in H. injection H as <-. apply Lexed_end. reflexivity. }
    simpl in Hn. change (String.length (String ch rest1)) with (S (String.length rest1)) in H.
    rewrite lex_loop_unfold in H.
    destruct (JS.isWhitespace ch).
    { apply (IH rest1 ltac:(lia) _ _ H). }
    destruct (Ascii.eqb ch "[").
    { destruct (lexBracketContent (S (String.length rest1)) (i + 1) rest1
                  ([] ++ [emit TokType.LBracket i (String ch "")]))
        as [[[toks1 i1] rest2]|e] eqn:Eb; [|discriminate].
      cbn [bind] in H.
      pose proof (lexBracketContent_length _ _ _ _ _ _ _ Eb) as Hlen.
      destruct (lexBracketContent_shape _ _ _ _ _ _ _ Eb) as (seg & -> & Hseg).
      destruct rest2 as [|c rest3]; [discriminate|].
      destruct (Ascii.eqb c "]"); [|discriminate].
      simpl in Hlen.
      rewrite (lex_loop_enough _ rest3 (Nat.le_refl _)) in H by lia.
      destruct (lex_loop (S (String.length rest3)) (i1 + 1) rest3 []) as [l1|e] eqn:El;
        [|discriminate].
      injection H as <-. apply (IH rest3 ltac:(lia)) in El.
      cbn [app]. rewrite <- !app_assoc. cbn [app].
      apply Lexed_group; [reflexivity|reflexivity|exact Hseg|exact El]. }
    destruct (isDigit ch) eqn:Ed.
    { destruct (lexNumber i ch rest1) as [[tok i1] rest2] eqn:En.
      pose proof (lexNumber_length _ _ _ _ _ _ En) as Hlen.
      rewrite (lex_loop_enough _ rest2 (Nat.le_refl _)) in H by lia.
      destruct (lex_loop (S (String.length rest2)) i1 rest2 []) as [l1|e] eqn:El;
        [|discriminate].
      injection H as <-. apply (IH rest2 ltac:(lia)) in El.
      apply Lexed_plain; [exact (lexNumber_plain _ _ _ _ _ _ Ed En)|exact El]. }
    destruct (isAlpha ch).
    { destruct (lexIdent i ch rest1) as [[tok i1] rest2] eqn:En.
      pose proof (lexIdent_length _ _ _ _ _ _ En) as Hlen.
      rewrite (lex_loop_enough _ rest2 (Nat.le_refl _)) in H by lia.
      destruct (lex_loop (S (String.length rest2)) i1 rest2 []) as [l1|e] eqn:El;
        [|discriminate].
      injection H as <-. apply (IH rest2 ltac:(lia)) in El.
      apply Lexed_plain; [exact (lexIdent_plain _ _ _ _ _ _ En)|exact El]. }
    destruct (punct ch) as [ty|] eqn:Ep; [|discriminate].
    rewrite (lex_loop_enough _ rest1 (Nat.le_refl _)) in H by lia.
    destruct (lex_loop (S (String.length rest1)) (i + 1) rest1 []) as [l1|e] eqn:El;
      [|discriminate].
    injection H as <-. apply (IH rest1 ltac:(lia)) in El.
    apply Lexed_plain; [exact (punct_plain ch ty i Ep)|exact El].
Qed.

End LexerShape.

Lemma lexTemporal_Lexed s l : lexTemporal s = Ok l -> Lexed l.
Proof. unfold lexTemporal. apply (lex_loop_shape _ s (Nat.le_refl _)). Qed.

(** ** What the fuser makes of it *)

Definition plainAny (t : AnyToken) : Prop :=
  match t with
  | Raw r => plainTok r
  | Combined _ => True
  end.

(** The token sequences the parser is given. *)
Inductive Stream : list AnyToken -> Prop :=
| Stream_end e : type e = TokType.EOF -> Stream [Raw e]
| Stream_plain t l : plainAny t -> Stream l -> Stream (t :: l)
| Stream_group lb seg rb l :
    type lb = TokType.LBracket -> type rb = TokType.RBracket ->
    Forall bracketTok seg -> Stream l ->
    Stream (Raw lb :: map Raw seg ++ Raw rb :: l).

(** Every fused offset stands behind a colon or a dot and a number. *)
Definition Ctx (out : list AnyToken) : Prop :=
  forall k c, out !! k = Some (Combined c) ->
    exists b n,
      2 <= k /\ out !! (k - 2) = Some (Raw b) /\ out !! (k - 1) = Some (Raw n)
      /\ (type b = TokType.Colon \/ type b = TokType.Dot)
      /\ type n = TokType.Number.

Lemma Ctx_nil : Ctx [].
Proof. intros k c H. rewrite lookup_nil in H. discriminate. Qed.

Lemma Ctx_prefix out k c :
  Ctx out -> out !! k = Some (Combined c) ->
  forall more, exists b n,
    2 <= k /\ (out ++ more) !! (k - 2) = Some (Raw b)
    /\ (out ++ more) !! (k - 1) = Some (Raw n)
    /\ (type b = TokType.Colon \/ type b = TokType.Dot)
    /\ type n = TokType.Number.
Proof.
  intros Hc Hk more. destruct (Hc k c Hk) as (b & n & H2 & Hb & Hn & Tb & Tn).
  exists b, n. split; [exact H2|].
  split; [apply lookup_app_l_Some; exact Hb|].
  split; [apply lookup_app_l_Some; exact Hn|]. auto.
Qed.

Lemma Ctx_snoc_raw out r : Ctx out -> Ctx (out ++ [Raw r]).
Proof.
  intros Hc k c Hk.
  destruct (decide (k < length out)) as [Hlt|Hge].
  - rewrite lookup_app_l in Hk by exact Hlt. exact (Ctx_prefix out k c Hc Hk _).
  - rewrite lookup_app_r in Hk by lia.
    destruct (k - length out) as [|j]; simpl in Hk; [discriminate|].
    rewrite lookup_nil in Hk. discriminate.
Qed.

Lemma Ctx_app_raws seg : forall out, Ctx out -> Ctx (out ++ map Raw seg).
Proof.
  induction seg as [|t seg IH]; intros out Hc.
  - simpl. rewrite app_nil_r. exact Hc.
  - cbn [map]. change (Raw t :: map Raw seg) with ([Raw t] ++ map Raw seg).
    rewrite app_assoc. apply IH. apply Ctx_snoc_raw. exact Hc.
Qed.

Lemma couldBeTzOffset_true out :
  Fuser.couldBeTzOffset out = true ->
  exists b n,
    2 <= length out /\ out !! (length out - 2) = Some (Raw b)
    /\ out !! (length out - 1) = Some (Raw n)
    /\ (type b = TokType.Colon \/ type b = TokType.Dot)
    /\ type n = TokType.Number.
Proof.
  unfold Fuser.couldBeTzOffset, Fuser.typeIs, Fuser.fromEnd.
  destruct (length out <? 1)%nat; [discriminate|].
  destruct (out !! (length out - 1)) as [t1|] eqn:E1; [|discriminate].
  destruct (Fuser.rawOfType TokType.Z (Some t1)); [discriminate|].
  destruct (Fuser.rawOfType TokType.RBracket (Some t1)); [discriminate|].
  destruct (Fuser.rawOfType TokType.Number (Some t1)) as [n|] eqn:En; [|discriminate].
  apply rawOfType_type in En as [[= ->] Tn].
  destruct (length out <? 2)%nat eqn:E2; [discriminate|].
  apply Nat.ltb_ge in E2.
  destruct (Fuser.rawOfType TokType.Colon (out !! (length out - 2))) as [b|] eqn:Eb.
  - apply rawOfType_type in Eb as [Eb Tb]. intros _. exists b, n. auto 10.
  - destruct (Fuser.rawOfType TokType.Dot (out !! (length out - 2))) as [b|] eqn:Ed;
      [|discriminate].
    apply rawOfType_type in Ed as [Ed Tb]. intros _. exists b, n. auto 10.
Qed.

Lemma Ctx_snoc_combined out c :
  Ctx out -> Fuser.couldBeTzOffset out = true -> Ctx (out ++ [Combined c]).
Proof.
  intros Hc Hb k c1 Hk.
  destruct (decide (k < length out)) as [Hlt|Hge].
  - rewrite lookup_app_l in Hk by exact Hlt. exact (Ctx_prefix out k c1 Hc Hk _).
  - rewrite lookup_app_r in Hk by lia.
    destruct (k - length out) as [|j] eqn:Ek; simpl in Hk;
      [|rewrite lookup_nil in Hk; discriminate].
    assert (k = length out) as -> by lia.
    destruct (couldBeTzOffset_true out Hb) as (b & n & H2 & Eb & En & Tb & Tn).
    exists b, n. split; [exact H2|].
    split; [apply lookup_app_l_Some; exact Eb|].
    split; [apply lookup_app_l_Some; exact En|]. auto.
Qed.

Lemma Lexed_tail x l :
  Lexed (x :: l) -> type x <> TokType.LBracket -> type x <> TokType.EOF -> Lexed l.
Proof.
  intros H H1 H2. inversion H; subst; try assumption; contradiction.
Qed.

(** What a fusion covers. *)
Lemma fuse_Some s (peek : nat -> option AnyToken) tz k :
  Fuser.fuse s peek = Some (tz, k) ->
  (k = 4 /\ exists n1 c n2,
      peek 1 = Some (Raw n1) /\ peek 2 = Some (Raw c) /\ peek 3 = Some (Raw n2)
      /\ type n1 = TokType.Number /\ type c = TokType.Colon
      /\ type n2 = TokType.Number)
  \/ (k = 2 /\ exists n1, peek 1 = Some (Raw n1) /\ type n1 = TokType.Number).
Proof.
  unfold Fuser.fuse.
  destruct (Fuser.rawOfType TokType.Number (peek 1)) as [n1|] eqn:E1.
  2:{ destruct (Fuser.rawOfType TokType.Colon (peek 2));
        [destruct (Fuser.rawOfType TokType.Number (peek 3))|]; discriminate. }
  apply rawOfType_type in E1 as [E1 T1].
  destruct (Fuser.rawOfType TokType.Colon (peek 2)) as [c|] eqn:E2.
  - destruct (Fuser.rawOfType TokType.Number (peek 3)) as [n2|] eqn:E3.
    + apply rawOfType_type in E2 as [E2 T2]. apply rawOfType_type in E3 as [E3 T3].
      intros [= _ <-]. left. split; [reflexivity|]. exists n1, c, n2. auto 10.
    + destruct (_ || _); [|discriminate]. intros [= _ <-]. right. eauto.
  - destruct (_ || _); [|discriminate]. intros [= _ <-]. right. eauto.
Qed.

Lemma fused_Lexed : forall n l, length l <= n -> Lexed l ->
  forall out, Ctx out ->
  exists res, fused (map Raw l) out = out ++ res /\ Stream res /\ Ctx (out ++ res).
Proof.
  induction n as [|n IH]; intros l Hn Hl out Hc.
  { inversion Hl; subst; simpl in Hn; lia. }
  inversion Hl as [e He|t l1 Ht Hl1|lb seg rb l1 Hlb Hrb Hseg Hl1]; subst.
  - exists [Raw e]. cbn [map].
    rewrite fused_other, fused_nil
      by (unfold Fuser.signOf, Fuser.rawOfType; rewrite He; reflexivity).
    split; [reflexivity|]. split; [apply Stream_end; exact He|].
    apply Ctx_snoc_raw. exact Hc.
  - cbn [map]. rewrite fused_cons.
    destruct (Fuser.step (Raw t :: map Raw l1) 0 out (Raw t)) as [[tz k]|] eqn:Es.
    + unfold Fuser.step in Es.
      destruct (Fuser.signOf (Raw t)) as [s|]; [|discriminate].
      destruct (Fuser.couldBeTzOffset out) eqn:Eb; [|discriminate].
      apply fuse_Some in Es.
      destruct Es as [[-> (n1 & c & n2 & E1 & E2 & E3 & T1 & T2 & T3)]
                     |[-> (n1 & E1 & T1)]].
      * destruct l1 as [|x1 [|x2 [|x3 l2]]]; try discriminate.
        simpl in E1, E2, E3. injection E1 as ->. injection E2 as ->.
        injection E3 as ->.
        assert (Hl2 : Lexed l2).
        { apply (Lexed_tail n2); [|rewrite T3; discriminate..].
          apply (Lexed_tail c); [|rewrite T2; discriminate..].
          apply (Lexed_tail n1); [|rewrite T1; discriminate..]. exact Hl1. }
        destruct (IH l2 ltac:(simpl in Hn; lia) Hl2 (out ++ [Combined tz])
                    (Ctx_snoc_combined out tz Hc Eb)) as (res & E & Hs & Hx).
        exists (Combined tz :: res).
        change (drop 4 (Raw t :: map Raw (n1 :: c :: n2 :: l2))) with (map Raw l2).
        rewrite E, <- app_assoc.
        split; [reflexivity|]. split; [apply Stream_plain; [exact I|exact Hs]|].
        rewrite <- app_assoc in Hx. exact Hx.
      * destruct l1 as [|x1 l2]; try discriminate.
        simpl in E1. injection E1 as ->.
        assert (Hl2 : Lexed l2).
        { apply (Lexed_tail n1); [|rewrite T1; discriminate..]. exact Hl1. }
        destruct (IH l2 ltac:(simpl in Hn; lia) Hl2 (out ++ [Combined tz])
                    (Ctx_snoc_combined out tz Hc Eb)) as (res & E & Hs & Hx).
        exists (Combined tz :: res).
        change (drop 2 (Raw t :: map Raw (n1 :: l2))) with (map Raw l2).
        rewrite E, <- app_assoc.
        split; [reflexivity|]. split; [apply Stream_plain; [exact I|exact Hs]|].
        rewrite <- app_assoc in Hx. exact Hx.
    + destruct (IH l1 ltac:(simpl in Hn; lia) Hl1 (out ++ [Raw t])
                  (Ctx_snoc_raw out t Hc)) as (res & E & Hs & Hx).
      exists (Raw t :: res). rewrite E, <- app_assoc.
      split; [reflexivity|]. split; [apply Stream_plain; [exact Ht|exact Hs]|].
      rewrite <- app_assoc in Hx. exact Hx.
  - cbn [map]. rewrite map_app. cbn [map].
    rewrite fused_other
      by (unfold Fuser.signOf, Fuser.rawOfType; rewrite Hlb; reflexivity).
    rewrite fused_no_numbers.
    2:{ eapply Forall_impl; [exact Hseg|]. intros t (Ht & _) E. rewrite E in Ht.
        discriminate. }
    2:{ unfold Fuser.typeIs, Fuser.rawOfType. rewrite Hlb. reflexivity. }
    rewrite fused_other
      by (unfold Fuser.signOf, Fuser.rawOfType; rewrite Hrb; reflexivity).
    assert (Hlen : length l1 <= n).
    { simpl in Hn. rewrite length_app in Hn. simpl in Hn. lia. }
    assert (Hc1 : Ctx (((out ++ [Raw lb]) ++ map Raw seg) ++ [Raw rb])).
    { apply Ctx_snoc_raw, Ctx_app_raws, Ctx_snoc_raw. exact Hc. }
    destruct (IH l1 Hlen Hl1 _ Hc1) as (res & E & Hs & Hx).
    exists (Raw lb :: map Raw seg ++ Raw rb :: res). rewrite E.
    split; [rewrite <- !app_assoc; reflexivity|].
    split; [apply Stream_group; assumption|].
    rewrite <- !app_assoc in Hx. exact Hx.
Qed.

(** The tokens the parser reads. *)
Lemma combineTimezoneOffsets_Stream l :
  Lexed l ->
  Stream (combineTimezoneOffsets (map Raw l))
  /\ Ctx (combineTimezoneOffsets (map Raw l)).
Proof.
  intros Hl. unfold combineTimezoneOffsets.
  change (Fuser.loop (length (map Raw l)) (map Raw l) 0 [])
    with (fused (map Raw l) []).
  destruct (fused_Lexed _ l (Nat.le_refl _) Hl [] Ctx_nil) as (res & -> & Hs & Hc).
  auto.
Qed.

(** ** The parser on such tokens *)

Lemma Stream_cons l : Stream l -> exists t r, l = t :: r.
Proof. intros H. inversion H; eauto. Qed.

Lemma Stream_tail t r :
  Stream (t :: r) -> any_type t <> TT TokType.LBracket ->
  any_type t <> TT TokType.EOF -> Stream r.
Proof.
  intros H H1 H2. inversion H; subst; try assumption; exfalso.
  - apply H2. simpl. congruence.
  - apply H1. simpl. congruence.
Qed.

Lemma Stream_number t r :
  Stream (t :: r) -> any_type t = TT TokType.Number ->
  exists n, t = Raw n /\ type n = TokType.Number /\ isNumeral (value n) = true.
Proof.
  intros H Ht. inversion H as [e He|t1 l1 Hp Hl|lb seg rb l1 Hlb]; subst.
  - simpl in Ht. congruence.
  - destruct t as [n|c]; [|discriminate]. simpl in Ht. injection Ht as Ht.
    destruct Hp as (_ & _ & _ & Hn). eauto.
  - simpl in Ht. congruence.
Qed.

Lemma Stream_group_inv t r :
  Stream (t :: r) -> any_type t = TT TokType.LBracket ->
  exists lb seg rb l,
    t = Raw lb /\ r = map Raw seg ++ Raw rb :: l /\ type lb = TokType.LBracket
    /\ type rb = TokType.RBracket /\ Forall bracketTok seg /\ Stream l.
Proof.
  intros H Ht. inversion H as [e He|t1 l1 Hp Hl|lb seg rb l1 Hlb Hrb Hseg Hl]; subst.
  - simpl in Ht. congruence.
  - destruct t as [n|c]; [|discriminate]. simpl in Ht. injection Ht as Ht.
    destruct Hp as (Hp & _). contradiction.
  - exists lb, seg, rb, l1. auto 10.
Qed.

Lemma strAll_append p s t : strAll p (s +:+ t) = strAll p s && strAll p t.
Proof.
  induction s as [|c s IH]; [reflexivity|]. rewrite append_cons. simpl.
  rewrite IH, andb_assoc. reflexivity.
Qed.

Lemma strAll_flat seg :
  Forall bracketTok seg -> strAll isBracketChar (flat seg) = true.
Proof.
  induction 1 as [|t seg (_ & Ht & _) _ IH]; [reflexivity|].
  cbn [flat]. rewrite strAll_append, Ht, IH. reflexivity.
Qed.

Lemma bang_append v s : v <> "" -> bang (v +:+ s) = bang v.
Proof. destruct v; [congruence|reflexivity]. Qed.

(** The numbers of a syntax tree are safe integers. *)
Definition SafeTime (t : TimeAst) : Prop :=
  safe (hour t) /\ safe (minute t) /\ safeOpt (second t).

Definition SafeDateTime (a : DateTimeAst) : Prop :=
  CanonicalDate (date a) /\ forall t, time a = Some t -> SafeTime t.

Definition SafeDuration (u : DurationAst) : Prop :=
  safeOpt (years u) /\ safeOpt (months u) /\ safeOpt (weeks u) /\ safeOpt (days u)
  /\ safeOpt (hours u) /\ safeOpt (minutes u) /\ safeOpt (seconds u).

Definition SafeValue (v : ValueAst) : Prop :=
  match v with
  | DateTime a => SafeDateTime a
  | Duration u => SafeDuration u
  end.

Definition SafeOption (v : option ValueAst) : Prop :=
  match v with Some v => SafeValue v | None => True end.

Definition SafeNumbers (ast : TemporalAst) : Prop :=
  match ast with
  | Value v => SafeValue v
  | Range s e => SafeOption s /\ SafeOption e
  end.

(** The groups of a date-time, sorted by [classify], are printed with the
    time zone first. *)
Lemma classify_texts (P : string -> Prop) Xs :
  firstWins (bracketTextsOf (fst (classify (map groupOf Xs)))
               (snd (classify (map groupOf Xs))))
  /\ (Forall P Xs ->
      Forall P (bracketTextsOf (fst (classify (map groupOf Xs)))
                  (snd (classify (map groupOf Xs))))).
Proof.
  assert (Htz : forall X, tzText (timeZoneOf (groupOf X)) = X).
  { intros X. unfold tzText, timeZoneOf, groupContent.
    cbn [tz_critical tz_id groupOf Parser.critical Parser.raw].
    destruct (bang X) eqn:Eb; [exact (bang_restore X Eb)|reflexivity]. }
  assert (Hgen : forall Ys,
    match fst (classify (map groupOf Ys)) with
    | Some z =>
        exists Y Ys1, tzText z = Y /\ tzLike Y = true
          /\ map ann_raw (snd (classify (map groupOf Ys))) = Ys1
          /\ (Forall P Ys -> P Y /\ Forall P Ys1)
    | None =>
        map ann_raw (snd (classify (map groupOf Ys))) = Ys
        /\ Forall (fun Y => tzLike Y = false) Ys
    end).
  { induction Ys as [|Y Ys IH]; [split; [reflexivity|constructor]|].
    cbn [map]. rewrite classify_cons.
    change (Parser.isLikelyTzId (groupOf Y)) with (tzLike Y).
    destruct (tzLike Y) eqn:Ey; cbn [fst snd].
    - exists Y, Ys. split; [apply Htz|]. split; [exact Ey|].
      split; [apply ann_raw_groupOf|]. intros HP. inversion HP; subst. auto.
    - destruct (fst (classify (map groupOf Ys))) as [z|].
      + destruct IH as (Y1 & Ys1 & E1 & T1 & E2 & HP1).
        exists Y1, (Y :: Ys1). split; [exact E1|]. split; [exact T1|].
        split; [cbn [map ann_raw annotationOf groupOf Parser.raw]; rewrite E2;
                reflexivity|].
        intros HP. inversion HP; subst. destruct (HP1 ltac:(assumption)). auto.
      + destruct IH as (E1 & T1). split.
        * cbn [map ann_raw annotationOf groupOf Parser.raw]. rewrite E1. reflexivity.
        * constructor; assumption. }
  specialize (Hgen Xs). unfold bracketTextsOf.
  destruct (fst (classify (map groupOf Xs))) as [z|].
  - destruct Hgen as (Y & Ys1 & E1 & T1 & E2 & HP). rewrite E1, E2. cbn [app].
    split; [left; exact T1|]. intros HX. destruct (HP HX). constructor; assumption.
  - destruct Hgen as (E1 & T1). rewrite E1. cbn [app]. split.
    + destruct Xs; [exact I|]. right. exact T1.
    + auto.
Qed.

Section StreamParser.

Import Parser.

Variable toks : list AnyToken.

Lemma bindM_eat {B} ty (k : AnyToken -> M B) i t r :
  drop i toks = t :: r ->
  bindM (eat toks ty) k i =
  if AnyTokType_eqb (any_type t) ty then k t (S i)
  else Err (ParseError (ExpectedButGot (AnyTokType_name ty)
                          (AnyTokType_name (any_type t))) i).
Proof.
  intros H. unfold bindM at 1, eat, bindM. rewrite (peek_drop toks i t r H).
  destruct (AnyTokType_eqb (any_type t) ty); reflexivity.
Qed.

Lemma bindM_tryEat {B} ty (k : option AnyToken -> M B) i t r :
  drop i toks = t :: r ->
  bindM (tryEat toks ty) k i =
  if AnyTokType_eqb (any_type t) ty then k (Some t) (S i) else k None i.
Proof.
  intros H. destruct (AnyTokType_eqb (any_type t) ty) eqn:E.
  - apply AnyTokType_eqb_eq in E.
    rewrite (bindM_Ok _ _ _ _ _ (tryEat_drop toks i t r ty H E)). reflexivity.
  - assert (any_type t <> ty)
      by (intros E1; apply AnyTokType_eqb_eq in E1; congruence).
    rewrite (bindM_Ok _ _ _ _ _ (tryEat_drop_other toks i t r ty H ltac:(assumption))).
    reflexivity.
Qed.

Lemma bindM_at {B} ty (k : bool -> M B) i t r :
  drop i toks = t :: r ->
  bindM (at_ toks ty) k i = k (AnyTokType_eqb (any_type t) ty) i.
Proof.
  intros H. apply bindM_Ok. apply at_here. exact (drop_head toks i t r H).
Qed.

Lemma bindM_position {B} (k : nat -> M B) i : bindM position k i = k i i.
Proof. reflexivity. Qed.

Lemma bindM_lift {A B} (x : Result A) (k : A -> M B) i :
  bindM (lift x) k i = match x with Ok a => k a i | Err e => Err e end.
Proof. destruct x; reflexivity. Qed.

Lemma bindM_inv {A B} (m : M A) (k : A -> M B) i b j :
  bindM m k i = Ok (b, j) -> exists a i1, m i = Ok (a, i1) /\ k a i1 = Ok (b, j).
Proof.
  unfold bindM. destruct (m i) as [[a i1]|e]; [|discriminate]. eauto.
Qed.

(** Where a date ends. *)
Definition DateEnd (i j : nat) : Prop :=
  j = S i \/ exists b, 2 <= j /\ toks !! (j - 2) = Some b /\ any_type b = TT TokType.Dash.

Ltac eqb_cases H :=
  match type of H with
  | context [AnyTokType_eqb ?a ?b] =>
      let Ty := fresh "Ty" in
      destruct (AnyTokType_eqb a b) eqn:Ty;
      [apply AnyTokType_eqb_eq in Ty|try discriminate H]
  end.

Ltac toInt_cases H :=
  match type of H with
  | context [toInt ?s ?l ?p] =>
      let n := fresh "n" in
      destruct (toInt s l p) as [n|]; [|discriminate H]
  end.

Lemma Stream_after i t r :
  Stream (drop i toks) -> drop i toks = t :: r ->
  any_type t <> TT TokType.LBracket -> any_type t <> TT TokType.EOF ->
  Stream (drop (S i) toks).
Proof.
  intros HS E H1 H2. rewrite (drop_tail toks i t r E). rewrite E in HS.
  exact (Stream_tail t r HS H1 H2).
Qed.

Lemma parseDate_Stream i d j :
  Stream (drop i toks) -> parseDate toks i = Ok (d, j) ->
  Stream (drop j toks) /\ DateEnd i j.
Proof.
  intros HS H. unfold parseDate in H.
  destruct (Stream_cons _ HS) as (t0 & r0 & E0).
  rewrite (bindM_eat _ _ _ _ _ E0) in H. eqb_cases H.
  rewrite bindM_position, bindM_lift in H. toInt_cases H.
  pose proof (Stream_after _ _ _ HS E0 ltac:(congruence) ltac:(congruence)) as HS1.
  destruct (Stream_cons _ HS1) as (t1 & r1 & E1).
  rewrite (bindM_tryEat _ _ _ _ _ E1) in H. eqb_cases H.
  2:{ injection H as _ <-. split; [exact HS1|left; reflexivity]. }
  pose proof (Stream_after _ _ _ HS1 E1 ltac:(congruence) ltac:(congruence)) as HS2.
  destruct (Stream_cons _ HS2) as (t2 & r2 & E2).
  rewrite (bindM_eat _ _ _ _ _ E2) in H. eqb_cases H.
  rewrite bindM_position, bindM_lift in H. toInt_cases H.
  pose proof (Stream_after _ _ _ HS2 E2 ltac:(congruence) ltac:(congruence)) as HS3.
  destruct (Stream_cons _ HS3) as (t3 & r3 & E3).
  rewrite (bindM_tryEat _ _ _ _ _ E3) in H. eqb_cases H.
  2:{ injection H as _ <-. split; [exact HS3|]. right. exists t1.
      split; [lia|]. split; [|assumption].
      replace (S (S (S i)) - 2) with (S i) by lia.
      exact (drop_head toks _ _ _ E1). }
  pose proof (Stream_after _ _ _ HS3 E3 ltac:(congruence) ltac:(congruence)) as HS4.
  destruct (Stream_cons _ HS4) as (t4 & r4 & E4).
  rewrite (bindM_eat _ _ _ _ _ E4) in H. eqb_cases H.
  rewrite bindM_position, bindM_lift in H. toInt_cases H.
  pose proof (Stream_after _ _ _ HS4 E4 ltac:(congruence) ltac:(congruence)) as HS5.
  injection H as _ <-. split; [exact HS5|]. right. exists t3.
  split; [lia|]. split; [|assumption].
  replace (S (S (S (S (S i)))) - 2) with (S (S (S i))) by lia.
  exact (drop_head toks _ _ _ E3).
Qed.

Lemma parseTime_Stream i tm j :
  Stream (drop i toks) -> parseTime toks i = Ok (tm, j) ->
  Stream (drop j toks) /\ (SafeTime tm -> CanonicalTime tm).
Proof.
  intros HS H. unfold parseTime in H.
  destruct (Stream_cons _ HS) as (t0 & r0 & E0).
  rewrite (bindM_eat _ _ _ _ _ E0) in H. eqb_cases H.
  rewrite bindM_position, bindM_lift in H. toInt_cases H.
  pose proof (Stream_after _ _ _ HS E0 ltac:(congruence) ltac:(congruence)) as HS1.
  destruct (Stream_cons _ HS1) as (t1 & r1 & E1).
  rewrite (bindM_eat _ _ _ _ _ E1) in H. eqb_cases H.
  pose proof (Stream_after _ _ _ HS1 E1 ltac:(congruence) ltac:(congruence)) as HS2.
  destruct (Stream_cons _ HS2) as (t2 & r2 & E2).
  rewrite (bindM_eat _ _ _ _ _ E2) in H. eqb_cases H.
  rewrite bindM_position, bindM_lift in H. toInt_cases H.
  pose proof (Stream_after _ _ _ HS2 E2 ltac:(congruence) ltac:(congruence)) as HS3.
  destruct (Stream_cons _ HS3) as (t3 & r3 & E3).
  rewrite (bindM_tryEat _ _ _ _ _ E3) in H. eqb_cases H.
  2:{ injection H as <- <-. split; [exact HS3|].
      intros (Hh & Hm & Hs). split; [exact Hh|]. split; [exact Hm|].
      split; [exact Hs|]. intros f Hf. discriminate Hf. }
  pose proof (Stream_after _ _ _ HS3 E3 ltac:(congruence) ltac:(congruence)) as HS4.
  destruct (Stream_cons _ HS4) as (t4 & r4 & E4).
  rewrite (bindM_eat _ _ _ _ _ E4) in H. eqb_cases H.
  rewrite bindM_position, bindM_lift in H. toInt_cases H.
  pose proof (Stream_after _ _ _ HS4 E4 ltac:(congruence) ltac:(congruence)) as HS5.
  destruct (Stream_cons _ HS5) as (t5 & r5 & E5).
  rewrite (bindM_tryEat _ _ _ _ _ E5) in H. eqb_cases H.
  2:{ injection H as <- <-. split; [exact HS5|].
      intros (Hh & Hm & Hs). split; [exact Hh|]. split; [exact Hm|].
      split; [exact Hs|]. intros f Hf. discriminate Hf. }
  pose proof (Stream_after _ _ _ HS5 E5 ltac:(congruence) ltac:(congruence)) as HS6.
  destruct (Stream_cons _ HS6) as (t6 & r6 & E6).
  rewrite (bindM_eat _ _ _ _ _ E6) in H. eqb_cases H.
  pose proof (Stream_after _ _ _ HS6 E6 ltac:(congruence) ltac:(congruence)) as HS7.
  injection H as <- <-. split; [exact HS7|].
  intros (Hh & Hm & Hs). split; [exact Hh|]. split; [exact Hm|].
  split; [exact Hs|]. cbn [fraction]. intros f [= <-].
  rewrite E6 in HS6. destruct (Stream_number _ _ HS6 ltac:(assumption))
    as (nf & -> & _ & Hnum). exact Hnum.
Qed.

Lemma parseOffsetIfPresent_Stream i o j :
  Stream (drop i toks) -> parseOffsetIfPresent toks i = Ok (o, j) ->
  Stream (drop j toks)
  /\ (forall o1, o = Some o1 -> CanonicalOffset o1)
  /\ (forall s h m raw, o = Some (NumericOffset s h m raw) ->
        exists c, toks !! i = Some (Combined c)).
Proof.
  intros HS H. unfold parseOffsetIfPresent in H.
  destruct (Stream_cons _ HS) as (t0 & r0 & E0).
  rewrite (bindM_tryEat _ _ _ _ _ E0) in H. eqb_cases H.
  { pose proof (Stream_after _ _ _ HS E0 ltac:(congruence) ltac:(congruence)) as HS1.
    injection H as <- <-. split; [exact HS1|]. split.
    - intros o1 [= <-]. exact I.
    - discriminate. }
  rewrite (bindM_at _ _ _ _ _ E0) in H.
  destruct (AnyTokType_eqb (any_type t0) (CT CombinedTokType.TZOffset)) eqn:Ec.
  2:{ injection H as <- <-. split; [exact HS|]. split; discriminate. }
  rewrite (bindM_eat _ _ _ _ _ E0), Ec in H.
  apply AnyTokType_eqb_eq in Ec.
  rewrite bindM_position, bindM_lift in H.
  destruct (parseOffset (any_value t0) (S i)) as [o1|] eqn:Eo; [|discriminate].
  pose proof (Stream_after _ _ _ HS E0 ltac:(congruence) ltac:(congruence)) as HS1.
  injection H as <- <-. split; [exact HS1|].
  destruct (parseOffset_Ok _ _ _ Eo) as (sg & h & m & -> & Hh & Hm). split.
  - intros o1 [= <-]. split; assumption.
  - intros s1 h1 m1 raw1 _. destruct t0 as [n|c]; [discriminate|].
    exists c. exact (drop_head toks _ _ _ E0).
Qed.

(** A bracket group under the cursor. *)
Lemma gatherParts_group : forall seg parts fuel i rb r,
  length seg < fuel -> type rb = TokType.RBracket ->
  Forall bracketTok seg ->
  drop i toks = map Raw seg ++ Raw rb :: r ->
  exists j,
    gatherParts toks fuel parts i = Ok (parts ++ map value seg, j)
    /\ drop j toks = Raw rb :: r.
Proof.
  induction seg as [|s seg IH]; intros parts fuel i rb r Hfuel Hrb Hseg H;
    (destruct fuel as [|fuel]; [simpl in Hfuel; lia|]); cbn [gatherParts].
  - cbn [map app] in H. rewrite (bindM_at _ _ _ _ _ H). cbn [any_type].
    rewrite Hrb. cbn [AnyTokType_eqb TokType.eqb].
    exists i. rewrite app_nil_r. split; [reflexivity|exact H].
  - inversion Hseg as [|? ? (Hs & _) Hseg1]; subst. cbn [map app] in H.
    assert (H1 : type s <> TokType.RBracket)
      by (intros E; rewrite E in Hs; discriminate).
    assert (H2 : type s <> TokType.EOF)
      by (intros E; rewrite E in Hs; discriminate).
    p_at_no H. unfold eof. p_at_no H. p_peek H.
    rewrite (bindM_Ok advance _ i tt (S i)) by reflexivity.
    apply drop_tail in H.
    destruct (IH (parts ++ [any_value (Raw s)]) fuel (S i) rb r) as (j & -> & Hj);
      [simpl in Hfuel; lia|exact Hrb|exact Hseg1|exact H|].
    exists j. split; [|exact Hj]. cbn [any_value map]. rewrite <- app_assoc.
    reflexivity.
Qed.

Lemma parseBracketGroup_group lb seg rb fuel i r :
  length toks < fuel ->
  type lb = TokType.LBracket -> type rb = TokType.RBracket ->
  Forall bracketTok seg ->
  drop i toks = Raw lb :: map Raw seg ++ Raw rb :: r ->
  exists j,
    parseBracketGroup toks fuel i = Ok (groupOf (flat seg), j) /\ drop j toks = r.
Proof.
  intros Hfuel Hlb Hrb Hseg H.
  pose proof (drop_length toks i [Raw lb] _ H) as Hlen.
  rewrite length_app, length_map in Hlen. cbn [length] in Hlen.
  unfold parseBracketGroup.
  rewrite (bindM_eat _ _ _ _ _ H). cbn [any_type]. rewrite Hlb.
  cbn [AnyTokType_eqb TokType.eqb]. apply drop_tail in H.
  assert (Hcase :
    (exists e seg1, seg = e :: seg1 /\ type e = TokType.Exclamation)
    \/ (bang (flat seg) = false
        /\ tryEat toks (TT TokType.Exclamation) (S i) = Ok (None, S i))).
  { destruct seg as [|e seg1].
    - right. split; [reflexivity|]. cbn [map app] in H.
      apply (tryEat_drop_other toks _ _ _ _ H). simpl. congruence.
    - destruct (TokType.eqb (type e) TokType.Exclamation) eqn:Ee.
      + left. exists e, seg1. split; [reflexivity|].
        apply TokType_eqb_eq. exact Ee.
      + right. inversion Hseg as [|? ? (_ & _ & Hne & _ & Hb) _]; subst.
        assert (Hty : type e <> TokType.Exclamation)
          by (intros E; rewrite E in Ee; discriminate).
        split.
        * cbn [flat]. rewrite (bang_append _ _ Hne). exact (Hb Hty).
        * cbn [map app] in H. apply (tryEat_drop_other toks _ _ _ _ H).
          simpl. congruence. }
  destruct Hcase as [(e & seg1 & -> & He)|[Hb Hno]].
  - inversion Hseg as [|? ? (_ & _ & _ & Hv & _) Hseg1]; subst.
    cbn [map app] in H.
    rewrite (bindM_tryEat _ _ _ _ _ H). cbn [any_type]. rewrite He.
    cbn [AnyTokType_eqb TokType.eqb]. apply drop_tail in H.
    destruct (gatherParts_group seg1 ["!"] fuel (S (S i)) rb r) as (j & Hg & Hj);
      [simpl in Hlen; lia|exact Hrb|exact Hseg1|exact H|].
    rewrite (bindM_Ok _ _ _ _ _ Hg). cbv beta iota.
    rewrite (bindM_eat _ _ _ _ _ Hj). cbn [any_type]. rewrite Hrb.
    cbn [AnyTokType_eqb TokType.eqb].
    exists (S j). split; [|exact (drop_tail toks _ _ _ Hj)].
    unfold ret, groupOf, stripBang. cbn [flat]. rewrite (Hv He).
    rewrite join_empty. cbn [app fold_right]. rewrite flat_values.
    cbn [bang]. change (Ascii.eqb "!" "!") with true. cbv iota. reflexivity.
  - rewrite (bindM_Ok _ _ _ _ _ Hno). cbv beta iota.
    destruct (gatherParts_group seg [] fuel (S i) rb r) as (j & Hg & Hj);
      [lia|exact Hrb|exact Hseg|exact H|].
    rewrite (bindM_Ok _ _ _ _ _ Hg). cbv beta iota.
    rewrite (bindM_eat _ _ _ _ _ Hj). cbn [any_type]. rewrite Hrb.
    cbn [AnyTokType_eqb TokType.eqb].
    exists (S j). split; [|exact (drop_tail toks _ _ _ Hj)].
    unfold ret, groupOf, stripBang. rewrite Hb.
    rewrite join_empty. cbn [app]. rewrite flat_values. reflexivity.
Qed.

Lemma parseGroups_Stream : forall fuel i gs j,
  Stream (drop i toks) -> parseGroups toks fuel i = Ok (gs, j) ->
  exists Xs,
    gs = map groupOf Xs /\ Forall (fun X => strAll isBracketChar X = true) Xs
    /\ Stream (drop j toks).
Proof.
  induction fuel as [|fuel IH]; intros i gs j HS H; [discriminate|].
  cbn [parseGroups] in H.
  destruct (Stream_cons _ HS) as (t0 & r0 & E0).
  rewrite (bindM_at _ _ _ _ _ E0) in H.
  destruct (AnyTokType_eqb (any_type t0) (TT TokType.LBracket)) eqn:El.
  2:{ injection H as <- <-. exists []. auto. }
  apply AnyTokType_eqb_eq in El.
  pose proof HS as HS0. rewrite E0 in HS0.
  destruct (Stream_group_inv _ _ HS0 El)
    as (lb & seg & rb & l1 & -> & -> & Hlb & Hrb & Hseg & Hl1).
  destruct (parseBracketGroup_group lb seg rb (S (length toks)) i l1
              ltac:(lia) Hlb Hrb Hseg E0) as (j1 & Hg & Hj1).
  rewrite (bindM_Ok _ _ _ _ _ Hg) in H.
  apply bindM_inv in H as (gs1 & j2 & Hgs & H).
  rewrite <- Hj1 in Hl1.
  destruct (IH j1 gs1 j2 Hl1 Hgs) as (Xs & -> & HXs & HS2).
  injection H as <- <-. exists (flat seg :: Xs). split; [reflexivity|].
  split; [|exact HS2]. constructor; [exact (strAll_flat seg Hseg)|exact HXs].
Qed.

End StreamParser.

(** The fraction of the accumulator is a run of digits. *)
Definition FracOK (dur : Parser.Dur) : Prop :=
  forall f, Parser.d_secondsFraction dur = Some f -> strAll isDigit f = true.

Lemma addUnit_FracOK inTime unit n fraction dur p dur2 p2 :
  Parser.addUnit inTime unit n fraction dur p = Ok (dur2, p2) ->
  p2 = p
  /\ (FracOK dur -> (forall f, fraction = Some f -> strAll isDigit f = true) ->
      FracOK dur2).
Proof.
  unfold Parser.addUnit, FracOK. destruct dur as [y mo w d h mi s sf].
  repeat match goal with
         | |- context [if ?b then _ else _] => destruct b
         end; unfold Parser.ret, Parser.throwAt; intros [= <- <-];
    (split; [reflexivity|]); cbn [Parser.d_secondsFraction]; auto.
  intros Hd Hf. destruct fraction as [f|]; [|exact Hd].
  destruct (0 <? String.length f)%nat; [|exact Hd].
  intros f1 [= <-]. apply Hf. reflexivity.
Qed.

Lemma FracOK_empty : FracOK Parser.emptyDur.
Proof. intros f Hf. discriminate Hf. Qed.

Lemma isNumeral_digits f : isNumeral f = true -> strAll isDigit f = true.
Proof. unfold isNumeral. intros H. apply andb_true_iff in H as [_ H]. exact H. Qed.

Section StreamValues.

Import Parser.

Variable toks : list AnyToken.

(** A value starts the input or follows a slash. *)
Definition StartCtx (i : nat) : Prop :=
  forall b, 1 <= i -> toks !! (i - 1) = Some b -> any_type b = TT TokType.Slash.

Lemma parseDateTime_Stream i a j :
  Stream (drop i toks) -> Ctx toks -> StartCtx i ->
  parseDateTime toks i = Ok (a, j) ->
  Stream (drop j toks) /\ (SafeDateTime a -> CanonicalDateTime a).
Proof.
  intros HS HC Hstart H. unfold parseDateTime in H.
  apply bindM_inv in H as (d & j1 & Hd & H).
  destruct (parseDate_Stream toks i d j1 HS Hd) as (HS1 & Hend).
  destruct (Stream_cons _ HS1) as (t1 & r1 & E1).
  rewrite (bindM_tryEat toks _ _ _ _ _ E1) in H.
  assert (Htime : exists time1 j2,
    Stream (drop j2 toks)
    /\ (forall tm, time1 = Some tm -> SafeTime tm -> CanonicalTime tm)
    /\ (time1 = None -> j2 = j1)
    /\ bindM (parseOffsetIfPresent toks) (fun offset1 =>
         bindM (dateTimeBrackets toks (S (length toks)) None [])
           (fun '(timeZone1, annotations1) =>
              ret (mkDateTime d time1 offset1 timeZone1 annotations1))) j2
       = Ok (a, j)).
  { destruct (AnyTokType_eqb (any_type t1) (TT TokType.T)) eqn:Ty.
    - apply AnyTokType_eqb_eq in Ty.
      pose proof (Stream_after toks _ _ _ HS1 E1 ltac:(congruence) ltac:(congruence))
        as HS2.
      apply bindM_inv in H as (time1 & j2 & Ht & H).
      apply bindM_inv in Ht as (tm & j3 & Htm & Hret).
      injection Hret as <- <-.
      destruct (parseTime_Stream toks _ _ _ HS2 Htm) as (HS3 & Hc).
      exists (Some tm), j3. split; [exact HS3|]. split; [|split; [discriminate|exact H]].
      intros tm1 [= <-]. exact Hc.
    - apply bindM_inv in H as (time1 & j2 & Ht & H). injection Ht as <- <-.
      exists None, j1. split; [exact HS1|].
      split; [discriminate|]. split; [reflexivity|exact H]. }
  clear H. destruct Htime as (time1 & j2 & HS2 & Hct & Hnone & H).
  apply bindM_inv in H as (o & j3 & Ho & H).
  destruct (parseOffsetIfPresent_Stream toks _ _ _ HS2 Ho) as (HS3 & Hco & Hcomb).
  apply bindM_inv in H as ([tz anns] & j4 & Hb & H).
  rewrite dateTimeBrackets_groups in Hb.
  destruct (parseGroups toks (S (length toks)) j3) as [[gs j5]|e] eqn:Eg;
    [|discriminate].
  injection Hb as <- <- <-.
  destruct (parseGroups_Stream toks _ _ _ _ HS3 Eg) as (Xs & -> & HXs & HS5).
  injection H as <- <-. split; [exact HS5|].
  intros (Hsd & Hst). unfold CanonicalDateTime.
  cbn [date time offset timeZone annotations bracketTexts app].
  split; [exact Hsd|]. split; [intros tm Etm; exact (Hct tm Etm (Hst tm Etm))|].
  split; [exact Hco|]. split.
  - intros sg h m raw Eo Etime.
    destruct (Hcomb sg h m raw Eo) as (c & Ec).
    rewrite (Hnone Etime) in Ec.
    destruct (HC j1 c Ec) as (b & n & H2 & Eb & En & Tb & Tn).
    destruct Hend as [-> | (b1 & _ & Eb1 & Tb1)].
    + replace (S i - 2) with (i - 1) in Eb by lia.
      specialize (Hstart (Raw b) ltac:(lia) Eb). simpl in Hstart.
      destruct Tb as [Tb | Tb]; rewrite Tb in Hstart; discriminate.
    + rewrite Eb in Eb1. injection Eb1 as <-. simpl in Tb1.
      destruct Tb as [Tb | Tb]; rewrite Tb in Tb1; discriminate.
  - destruct (classify_texts (fun X => strAll isBracketChar X = true) Xs)
      as (Hfirst & Hall).
    split; [exact (Hall HXs)|exact Hfirst].
Qed.

Lemma durationLoop_Stream : forall fuel rawParts inTime dur i res j,
  Stream (drop i toks) -> FracOK dur ->
  durationLoop toks fuel rawParts inTime dur i = Ok (res, j) ->
  Stream (drop j toks) /\ FracOK (snd res).
Proof.
  induction fuel as [|fuel IH]; intros rawParts inTime dur i res j HS Hf H;
    [discriminate|].
  destruct (Stream_cons _ HS) as (t0 & r0 & E0).
  destruct (AnyTokType_eqb (any_type t0) (TT TokType.EOF)) eqn:T1.
  { apply AnyTokType_eqb_eq in T1.
    rewrite (durationLoop_stop toks fuel rawParts inTime dur i _ E0) in H
      by (apply headIs_cons; left; right; exact T1).
    injection H as <- <-. auto. }
  destruct (AnyTokType_eqb (any_type t0) (TT TokType.Slash)) eqn:T2.
  { apply AnyTokType_eqb_eq in T2.
    rewrite (durationLoop_stop toks fuel rawParts inTime dur i _ E0) in H
      by (apply headIs_cons; left; left; exact T2).
    injection H as <- <-. auto. }
  destruct (AnyTokType_eqb (any_type t0) (TT TokType.LBracket)) eqn:T3.
  { apply AnyTokType_eqb_eq in T3.
    rewrite (durationLoop_stop toks fuel rawParts inTime dur i _ E0) in H
      by (apply headIs_cons; right; exact T3).
    injection H as <- <-. auto. }
  assert (N1 : any_type t0 <> TT TokType.EOF)
    by (intros E; apply AnyTokType_eqb_eq in E; congruence).
  assert (N2 : any_type t0 <> TT TokType.Slash)
    by (intros E; apply AnyTokType_eqb_eq in E; congruence).
  assert (N3 : any_type t0 <> TT TokType.LBracket)
    by (intros E; apply AnyTokType_eqb_eq in E; congruence).
  rewrite (durationLoop_continue toks fuel rawParts inTime dur i t0 r0 E0 N1 N2 N3) in H.
  pose proof (Stream_after toks _ _ _ HS E0 N3 N1) as HS1.
  rewrite (bindM_tryEat toks _ _ _ _ _ E0) in H.
  destruct (AnyTokType_eqb (any_type t0) (TT TokType.T)) eqn:T4.
  { exact (IH _ _ _ _ _ _ HS1 Hf H). }
  rewrite (bindM_tryEat toks _ _ _ _ _ E0) in H.
  destruct (AnyTokType_eqb (any_type t0) (TT TokType.Number)) eqn:T5.
  2:{ injection H as <- <-. auto. }
  cbv zeta in H.
  (* the unit and what follows, for either shape of the number *)
  assert (Hunit : forall rp fraction j1,
    Stream (drop j1 toks) ->
    (forall f, fraction = Some f -> strAll isDigit f = true) ->
    bindM (eat toks (TT TokType.Ident)) (fun unitTok =>
      bindM position (fun p =>
        bindM (lift (toInt (any_value t0) "duration number" p)) (fun n =>
          bindM (addUnit inTime (any_value unitTok) n fraction dur) (fun dur1 =>
            durationLoop toks fuel (rp ++ [any_value unitTok]) inTime dur1)))) j1
    = Ok (res, j) ->
    Stream (drop j toks) /\ FracOK (snd res)).
  { intros rp fraction j1 HSj Hfr Hu.
    destruct (Stream_cons _ HSj) as (t3 & r3 & E3).
    rewrite (bindM_eat toks _ _ _ _ _ E3) in Hu.
    destruct (AnyTokType_eqb (any_type t3) (TT TokType.Ident)) eqn:T6;
      [|discriminate].
    apply AnyTokType_eqb_eq in T6.
    pose proof (Stream_after toks _ _ _ HSj E3 ltac:(congruence) ltac:(congruence))
      as HS3.
    rewrite bindM_position, bindM_lift in Hu.
    destruct (toInt (any_value t0) "duration number" (S j1)) as [n|]; [|discriminate].
    apply bindM_inv in Hu as (dur1 & j2 & Ha & Hu).
    destruct (addUnit_FracOK _ _ _ _ _ _ _ _ Ha) as (-> & Hf1).
    exact (IH _ _ _ _ _ _ HS3 (Hf1 Hf Hfr) Hu). }
  destruct (Stream_cons _ HS1) as (t1 & r1 & E1).
  rewrite (bindM_tryEat toks _ _ _ _ _ E1) in H.
  destruct (AnyTokType_eqb (any_type t1) (TT TokType.Dot)) eqn:T7.
  - apply AnyTokType_eqb_eq in T7.
    pose proof (Stream_after toks _ _ _ HS1 E1 ltac:(congruence) ltac:(congruence))
      as HS2.
    apply bindM_inv in H as ([rp fraction] & j1 & Hm & H).
    destruct (Stream_cons _ HS2) as (t2 & r2 & E2).
    rewrite (bindM_eat toks _ _ _ _ _ E2) in Hm.
    destruct (AnyTokType_eqb (any_type t2) (TT TokType.Number)) eqn:T8;
      [|discriminate].
    apply AnyTokType_eqb_eq in T8. injection Hm as <- <- <-.
    pose proof (Stream_after toks _ _ _ HS2 E2 ltac:(congruence) ltac:(congruence))
      as HS3.
    refine (Hunit _ _ _ HS3 _ H).
    intros f [= <-]. rewrite E2 in HS2.
    destruct (Stream_number _ _ HS2 T8) as (nf & -> & _ & Hnum).
    exact (isNumeral_digits _ Hnum).
  - apply bindM_inv in H as ([rp fraction] & j1 & Hm & H).
    injection Hm as <- <- <-.
    refine (Hunit _ _ _ HS1 _ H). discriminate.
Qed.

Lemma parseDuration_Stream i u j :
  Stream (drop i toks) -> parseDuration toks i = Ok (u, j) ->
  Stream (drop j toks) /\ (SafeDuration u -> CanonicalDuration u).
Proof.
  intros HS H. unfold parseDuration in H.
  destruct (Stream_cons _ HS) as (t0 & r0 & E0).
  rewrite (bindM_eat toks _ _ _ _ _ E0) in H.
  destruct (AnyTokType_eqb (any_type t0) (TT TokType.Ident)) eqn:T1; [|discriminate].
  apply AnyTokType_eqb_eq in T1.
  pose proof (Stream_after toks _ _ _ HS E0 ltac:(congruence) ltac:(congruence)) as HS1.
  destruct (negb (String.eqb (any_value t0) "P")); [discriminate|].
  apply bindM_inv in H as ([rp dur] & j1 & Hl & H).
  destruct (durationLoop_Stream _ _ _ _ _ _ _ HS1 FracOK_empty Hl)
    as (HS2 & Hf).
  apply bindM_inv in H as (anns & j2 & Hb & H).
  rewrite durationBrackets_groups in Hb.
  destruct (parseGroups toks (S (length toks)) j1) as [[gs j3]|e] eqn:Eg;
    [|discriminate].
  injection Hb as <- <-.
  destruct (parseGroups_Stream toks _ _ _ _ HS2 Eg) as (Xs & -> & HXs & HS3).
  injection H as <- <-. split; [exact HS3|].
  intros (H1 & H2 & H3 & H4 & H5 & H6 & H7). unfold CanonicalDuration.
  cbn [years months weeks days hours minutes seconds secondsFraction
       dur_annotations app] in *.
  do 7 (split; [assumption|]). split; [exact Hf|].
  rewrite ann_raw_groupOf. exact HXs.
Qed.

Lemma parseValueOrNull_Stream i v j :
  Stream (drop i toks) -> Ctx toks -> StartCtx i ->
  parseValueOrNull toks i = Ok (v, j) ->
  Stream (drop j toks) /\ (SafeOption v -> CanonicalOption v).
Proof.
  intros HS HC Hstart H. unfold parseValueOrNull in H.
  destruct (Stream_cons _ HS) as (t0 & r0 & E0).
  rewrite (bindM_at toks _ _ _ _ _ E0) in H.
  apply bindM_inv in H as (empty & j1 & He & H).
  assert (j1 = i) as ->.
  { destruct (AnyTokType_eqb (any_type t0) (TT TokType.EOF));
      [injection He as _ <-; reflexivity|].
    rewrite (bindM_at toks _ _ _ _ _ E0) in He.
    destruct (AnyTokType_eqb (any_type t0) (TT TokType.Slash));
      [injection He as _ <-; reflexivity|].
    rewrite (at_here toks i t0 _ (drop_head toks _ _ _ E0)) in He.
    injection He as _ <-. reflexivity. }
  clear He. destruct empty.
  { injection H as <- <-. split; [exact HS|]. intros _. exact I. }
  rewrite (bindM_at toks _ _ _ _ _ E0) in H.
  rewrite (bindM_Ok _ _ _ _ _ (peek_drop toks i t0 r0 E0)) in H.
  destruct (AnyTokType_eqb (any_type t0) (TT TokType.Ident) && (any_value t0 =? "P")%string).
  - apply bindM_inv in H as (u & j2 & Hu & H). injection H as <- <-.
    exact (parseDuration_Stream i u j2 HS Hu).
  - apply bindM_inv in H as (a & j2 & Ha & H). injection H as <- <-.
    exact (parseDateTime_Stream i a j2 HS HC Hstart Ha).
Qed.

Lemma parseTemporal_Stream ast j :
  Stream toks -> Ctx toks ->
  parseTemporal toks 0 = Ok (ast, j) -> SafeNumbers ast -> Canonical ast.
Proof.
  intros HS HC H. unfold parseTemporal in H.
  change toks with (drop 0 toks) in HS.
  destruct (Stream_cons _ HS) as (t0 & r0 & E0).
  rewrite (bindM_tryEat toks _ _ _ _ _ E0) in H.
  destruct (AnyTokType_eqb (any_type t0) (TT TokType.Slash)) eqn:T1.
  - apply AnyTokType_eqb_eq in T1.
    pose proof (Stream_after toks _ _ _ HS E0 ltac:(congruence) ltac:(congruence))
      as HS1.
    apply bindM_inv in H as (e & j1 & He & H).
    destruct (parseValueOrNull_Stream 1 e j1 HS1 HC) as (_ & Hc); [|exact He|].
    { intros b _ Eb. simpl in Eb. rewrite (drop_head toks _ _ _ E0) in Eb.
      injection Eb as <-. exact T1. }
    apply bindM_inv in H as (t1 & j2 & _ & H). injection H as <- _.
    intros [_ Hs]. split; [exact I|exact (Hc Hs)].
  - apply bindM_inv in H as (first & j1 & Hfirst & H).
    destruct (parseValueOrNull_Stream 0 first j1 HS HC) as (HS1 & Hc1);
      [intros b Hb; lia|exact Hfirst|].
    destruct first as [first|]; [|discriminate].
    destruct (Stream_cons _ HS1) as (t1 & r1 & E1).
    rewrite (bindM_tryEat toks _ _ _ _ _ E1) in H.
    destruct (AnyTokType_eqb (any_type t1) (TT TokType.Slash)) eqn:T2.
    + apply AnyTokType_eqb_eq in T2.
      pose proof (Stream_after toks _ _ _ HS1 E1 ltac:(congruence) ltac:(congruence))
        as HS2.
      apply bindM_inv in H as (e & j2 & He & H).
      destruct (parseValueOrNull_Stream (S j1) e j2 HS2 HC) as (_ & Hc2);
        [|exact He|].
      { intros b _ Eb. simpl in Eb. rewrite Nat.sub_0_r in Eb.
        rewrite (drop_head toks _ _ _ E1) in Eb. injection Eb as <-. exact T2. }
      apply bindM_inv in H as (t2 & j3 & _ & H). injection H as <- _.
      intros [Hs1 Hs2]. split; [exact (Hc1 Hs1)|exact (Hc2 Hs2)].
    + apply bindM_inv in H as (t2 & j3 & _ & H). injection H as <- _.
      intros Hs. exact (Hc1 Hs).
Qed.

End StreamValues.

(** Whatever the parser yields is canonical, as far as its numbers are safe
    integers. *)
Lemma parsed_canonical s ast :
  parseTemporal s = Ok ast -> SafeNumbers ast -> Canonical ast.
Proof.
  unfold parseTemporal. destruct (lexTemporal s) as [l|e] eqn:El; [|discriminate].
  cbn [bind]. destruct (combineTimezoneOffsets_Stream l (lexTemporal_Lexed s l El))
    as (HS & HC).
  unfold Parser.run.
  destruct (Parser.parseTemporal (combineTimezoneOffsets (map Raw l)) 0)
    as [[a j]|e] eqn:Ep; [|discriminate].
  intros [= <-]. exact (parseTemporal_Stream _ a j HS HC Ep).
Qed.

(** ** Round trips *)

(** The text a parsed input is printed as. *)
Definition reprint (s : string) : Result string :=
  let* ast := parseTemporal s in
  Ok (stringifyTemporal ast).

(** The text of a canonical syntax tree is read and printed back as it
    is. *)
Lemma reprint_canonical ast :
  Canonical ast -> reprint (stringifyTemporal ast) = Ok (stringifyTemporal ast).
Proof.
  intros Hc. unfold reprint.
  rewrite (stringifyTemporal_flat ast) at 1.
  rewrite (parseTemporal_Lexes _ _ (Lexes_canonical ast Hc)).
  rewrite (combineTimezoneOffsets_canonical ast Hc).
  destruct (run_canonical ast Hc) as (ast' & -> & Hs).
  cbn [bind]. rewrite Hs. reflexivity.
Qed.

(** Discharges [Canonical] on a closed syntax tree. *)
Ltac canonical_closed :=
  cbv [Canonical CanonicalOption CanonicalValue CanonicalDateTime CanonicalDuration
       CanonicalDate CanonicalTime CanonicalOffset safeOpt safe
       date time offset timeZone annotations year month day hour minute second
       fraction years months weeks days hours minutes seconds secondsFraction
       dur_annotations];
  repeat match goal with
         | |- _ /\ _ => split
         | |- True => exact I
         | |- forall _, _ => intro
         | H : Some _ = Some _ |- _ => injection H as <-
         | H : None = Some _ |- _ => discriminate H
         | |- (_ <= _)%Z => discriminate
         | |- (_ < _)%Z => reflexivity
         | |- _ <> None => discriminate
         | |- Forall _ _ => repeat constructor
         | |- firstWins _ => first [exact I | left; reflexivity]
         | |- _ = true => reflexivity
         end.

(** ** A unit written twice *)

(** The text [P], the time marker where the field asks for it, and two
    numbers with the designator of the field. *)
Definition pairTokens (f : DurationField) (n1 n2 : Z) : list Token :=
  tk TokType.Ident "P" :: markerRaw (inTimePart f)
  ++ unitRaw (Some n1) (designator f) ++ unitRaw (Some n2) (designator f).

Definition pairText (f : DurationField) (n1 n2 : Z) : string :=
  flat (pairTokens f n1 n2).

(** The duration that has the one field [f]. *)
Definition durationOf (f : DurationField) (x : Z) (raw : string) : DurationAst :=
  match f with
  | Years => mkDuration (Some x) None None None None None None None raw []
  | Months => mkDuration None (Some x) None None None None None None raw []
  | Weeks => mkDuration None None (Some x) None None None None None raw []
  | Days => mkDuration None None None (Some x) None None None None raw []
  | Hours => mkDuration None None None None (Some x) None None None raw []
  | Minutes => mkDuration None None None None None (Some x) None None raw []
  | Seconds => mkDuration None None None None None None (Some x) None raw []
  end.

Lemma designator_letter f :
  exists c, designator f = String c "" /\ isIdentTail c = true.
Proof. destruct f; eexists; split; reflexivity. Qed.

Lemma Lexes_pair f n1 n2 :
  safe n1 -> safe n2 ->
  Lexes (pairText f n1 n2) (pairTokens f n1 n2 ++ [tk TokType.EOF ""]).
Proof.
  intros H1 H2. unfold pairText, pairTokens.
  destruct (designator_letter f) as (c & -> & Hc).
  assert (S1 : safeOpt (Some n1)) by (intros n [= <-]; exact H1).
  assert (S2 : safeOpt (Some n2)) by (intros n [= <-]; exact H2).
  cbn [flat value tk app]. rewrite !flat_app, <- !app_assoc.
  rewrite append_cons, append_nil_l.
  rewrite <- (append_nil_r (flat (unitRaw (Some n2) (String c "")))).
  rewrite ?append_assoc.
  apply Lexes_letter; [reflexivity| |].
  { apply stops_marker. apply stops_unit; [exact S1|].
    apply stops_unit; [exact S2|reflexivity]. }
  apply Lexes_marker.
  apply Lexes_unit; [exact S1|exact Hc| |].
  { apply stops_unit; [exact S2|reflexivity]. }
  apply Lexes_unit; [exact S2|exact Hc|reflexivity|exact Lexes_end].
Qed.

Lemma pairTokens_notSign f n1 n2 : Forall notSign (pairTokens f n1 n2).
Proof.
  unfold pairTokens. constructor; [split; discriminate|].
  apply Forall_app. split; [destruct (inTimePart f); not_sign|].
  apply Forall_app. split; apply unitRaw_notSign.
Qed.

Lemma parseValueOrNull_duration toks i r :
  drop i toks = Raw (tk TokType.Ident "P") :: r ->
  Parser.parseValueOrNull toks i
  = Parser.bindM (Parser.parseDuration toks)
      (fun d => Parser.ret (Some (Duration d))) i.
Proof.
  intros H. unfold Parser.parseValueOrNull.
  p_at_no H.
  rewrite (bindM_Ok _ _ i false i)
    by (p_at_no H; apply (at_drop_other toks _ _ _ _ H); simpl; congruence).
  cbv beta iota. p_at H. p_peek H. reflexivity.
Qed.

(** The parser on a field written twice. *)
Lemma run_pair f n1 n2 :
  safe n1 -> safe n2 ->
  Parser.run (map Raw (pairTokens f n1 n2) ++ [Raw (tk TokType.EOF "")])
  = Ok (Value (Duration (durationOf f (JSNumber.add n1 n2) (pairText f n1 n2)))).
Proof.
  intros H1 H2. unfold Parser.run, Parser.parseTemporal.
  set (toks := map Raw (pairTokens f n1 n2) ++ [Raw (tk TokType.EOF "")]).
  assert (H : drop 0 toks = map Raw (pairTokens f n1 n2) ++ [Raw (tk TokType.EOF "")])
    by reflexivity.
  assert (Hlen : length toks = length (markerRaw (inTimePart f)) + 6).
  { unfold toks, pairTokens. rewrite length_app, length_map. cbn [length].
    rewrite !length_app. simpl. lia. }
  clearbody toks. unfold pairTokens in H.
  rewrite map_cons, !map_app in H. cbn [app] in H. rewrite <- !app_assoc in H.
  assert (S1 : safeOpt (Some n1)) by (intros n [= <-]; exact H1).
  assert (S2 : safeOpt (Some n2)) by (intros n [= <-]; exact H2).
  set (dur := addOpt f (Some n2) (addOpt f (Some n1) Parser.emptyDur)).
  set (rp := ((["P"] ++ map value (markerRaw (inTimePart f)))
              ++ map value (unitRaw (Some n1) (designator f)))
             ++ map value (unitRaw (Some n2) (designator f))).
  assert (HD : exists j3,
    Parser.parseDuration toks 0
    = Ok (mkDuration (Parser.d_years dur) (Parser.d_months dur) (Parser.d_weeks dur)
            (Parser.d_days dur) (Parser.d_hours dur) (Parser.d_minutes dur)
            (Parser.d_seconds dur) (Parser.d_secondsFraction dur)
            (JS.join "" rp) [], j3)
    /\ drop j3 toks = [Raw (tk TokType.EOF "")]).
  { pose proof H as H0. unfold Parser.parseDuration. p_eat H0.
    cbn [any_value value tk].
    change (String.eqb "P" "P") with true. cbn [negb]. cbv iota.
    destruct (durationLoop_marker toks (inTimePart f) _ _ H0) as (j1 & J1 & E1).
    destruct (durationLoop_unit toks f (Some n1) (inTimePart f) _ _ S1
                ltac:(reflexivity) J1) as (j2 & J2 & E2).
    destruct (durationLoop_unit toks f (Some n2) (inTimePart f) _ _ S2
                ltac:(reflexivity) J2) as (j3 & J3 & E3).
    assert (HL : Parser.durationLoop toks (S (length toks)) ["P"] false
                   Parser.emptyDur 1 = Ok (rp, dur, j3)).
    { replace (S (length toks))
        with ((if inTimePart f then 1 else 0)
              + (rounds (Some n1) + (rounds (Some n2)
                 + S (length toks - (if inTimePart f then 1 else 0) - 2))))
        by (rewrite Hlen; destruct (inTimePart f); simpl; lia).
      rewrite E1, E2, E3.
      apply (durationLoop_stop toks _ _ _ _ j3 _ J3).
      apply headIs_cons. left. right. reflexivity. }
    rewrite (bindM_Ok _ _ _ _ _ HL). cbv beta iota.
    assert (HB : Parser.durationBrackets toks (S (length toks)) [] j3 = Ok ([], j3)).
    { cbn [Parser.durationBrackets]. p_at_no J3. reflexivity. }
    rewrite (bindM_Ok _ _ _ _ _ HB). cbv beta iota.
    exists j3. split; [reflexivity|exact J3]. }
  destruct HD as (j3 & HD & J3).
  p_tryEat_no H.
  rewrite (bindM_Ok _ _ 0 _ _
             (eq_trans (parseValueOrNull_duration toks 0 _ H)
                (bindM_Ok _ _ _ _ _ HD))).
  cbv beta iota. unfold Parser.ret at 1.
  p_tryEat_no J3. p_eat J3.
  unfold Parser.ret. do 3 f_equal. unfold rp, dur.
  rewrite join_empty. unfold pairText, pairTokens.
  destruct f; cbn [addOpt addTo Parser.emptyDur]; rewrite (accumulate_fresh n1 H1);
    reflexivity.
Qed.

(** A duration with one unit written twice holds the sum of the two
    Numbers. *)
Lemma parseTemporal_pair f n1 n2 :
  safe n1 -> safe n2 ->
  parseTemporal (pairText f n1 n2)
  = Ok (Value (Duration (durationOf f (JSNumber.add n1 n2) (pairText f n1 n2)))).
Proof.
  intros H1 H2.
  rewrite (parseTemporal_Lexes _ _ (Lexes_pair f n1 n2 H1 H2)).
  unfold combineTimezoneOffsets.
  change (Fuser.loop (length ?l) ?l 0 []) with (fused l []).
  rewrite map_app. cbn [map].
  rewrite (fused_plain _ _ _ (pairTokens_notSign f n1 n2)).
  rewrite fused_other, fused_nil by reflexivity.
  cbn [app]. exact (run_pair f n1 n2 H1 H2).
Qed.

(** C7.  Every number and unit of a duration is added to what its field
    holds already: [P1Y2Y] has 3 years.  For each of the seven fields the
    unit dispatch stores the sum of the old value (or 0) and the number, as
    JavaScript adds Numbers, and leaves the other six fields alone; that
    sum is the sum of the integers as long as it stays below 2^53; a round
    of the loop on a number and a unit is that dispatch on the converted
    number.  For each of the seven fields the text with two numbers for it
    parses to the duration that holds their sum, nothing is overwritten
    and no error is raised; beyond 2^53 the sum is the nearest double, as
    in [P9007199254740991Y2Y], which holds 9007199254740992 years. *)
Theorem duration_units_accumulate :
  parseTemporal "P1Y2Y"
    = Ok (Value (Duration
            (mkDuration (Some 3%Z) None None None None None None None "P1Y2Y" [])))
  /\ (forall f n fraction dur i,
        exists dur',
          Parser.addUnit (inTimePart f) (designator f) n fraction dur i = Ok (dur', i)
          /\ fieldOf f dur' = Some (JSNumber.add (default 0%Z (fieldOf f dur)) n)
          /\ forall g, g <> f -> fieldOf g dur' = fieldOf g dur)
  /\ (forall a b,
        (0 <= a)%Z -> (0 <= b)%Z -> safe (a + b) -> JSNumber.add a b = (a + b)%Z)
  /\ (forall toks fuel rawParts inTime dur i numTok unitTok n,
        toks !! i = Some (Raw numTok) -> type numTok = TokType.Number ->
        toks !! S i = Some (Raw unitTok) -> type unitTok = TokType.Ident ->
        toInt (value numTok) "duration number" (S (S i)) = Ok n ->
        Parser.durationLoop toks (S fuel) rawParts inTime dur i =
        match Parser.addUnit inTime (value unitTok) n None dur (S (S i)) with
        | Ok (dur', _) =>
            Parser.durationLoop toks fuel
              (rawParts ++ [value numTok; value unitTok]) inTime dur' (S (S i))
        | Err e => Err e
        end)
  /\ (forall f n1 n2,
        safe n1 -> safe n2 ->
        parseTemporal (pairText f n1 n2)
        = Ok (Value (Duration
                (durationOf f (JSNumber.add n1 n2) (pairText f n1 n2)))))
  /\ (forall f n1 n2,
        safe n1 -> safe n2 -> safe (n1 + n2) ->
        parseTemporal (pairText f n1 n2)
        = Ok (Value (Duration (durationOf f (n1 + n2) (pairText f n1 n2)))))
  /\ parseTemporal "P9007199254740991Y2Y"
     = Ok (Value (Duration
             (mkDuration (Some 9007199254740992%Z) None None None None None None
                None "P9007199254740991Y2Y" []))).
Proof.
  split; [vm_compute; reflexivity|]. split; [|split; [exact add_safe|]].
  2: split; [exact durationLoop_pair|]. 2: split; [exact parseTemporal_pair|].
  2: split; [|vm_compute; reflexivity].
  - intros f n fraction [y mo w d h mi s sf] i.
    destruct f; eexists; (split; [reflexivity|]); (split; [reflexivity|]);
      intros g Hg; destruct g; try reflexivity; contradiction.
  - intros f n1 n2 H1 H2 H3. rewrite (parseTemporal_pair f n1 n2 H1 H2).
    rewrite (add_safe n1 n2 (proj1 H1) (proj1 H2) H3). reflexivity.
Qed.

Lemma duration_units_accumulate_witness :
  parseTemporal "PT15M30M"
  = Ok (Value (Duration
          (mkDuration None None None None None (Some 45%Z) None None "PT15M30M" []))).
Proof.
  refine (proj1 (proj2 (proj2 (proj2 (proj2 (proj2 duration_units_accumulate)))))
            Minutes 15%Z 30%Z _ _ _);
    split; first [discriminate | reflexivity].
Defined.

(** ** The colon shape of the offset parser *)

Lemma includes_app_colon h m : JS.includes ":" (h +:+ ":" +:+ m) = true.
Proof.
  unfold JS.includes. induction h as [|c h IH]; simpl.
  - reflexivity.
  - destruct (Ascii.eqb c ":"); [reflexivity|].
    revert IH. destruct (JS.indexOf _ _); [reflexivity|discriminate].
Qed.

Lemma split_no_separator c s : JS.includes c s = false -> JS.split c s = [s].
Proof.
  unfold JS.includes. induction s as [|d s IH]; simpl; [reflexivity|].
  destruct (Ascii.eqb d c); [discriminate|].
  destruct (JS.indexOf c s); [discriminate|].
  intros _. rewrite IH; reflexivity.
Qed.

Lemma split_app_colon h m :
  JS.includes ":" h = false -> JS.includes ":" m = false ->
  JS.split ":" (h +:+ ":" +:+ m) = [h; m].
Proof.
  intros Hh Hm. induction h as [|c h IH]; simpl.
  - rewrite split_no_separator by exact Hm. reflexivity.
  - unfold JS.includes in Hh. simpl in Hh.
    destruct (Ascii.eqb c ":"); [discriminate|].
    rewrite IH; [reflexivity|].
    unfold JS.includes. destruct (JS.indexOf ":" h); [discriminate|reflexivity].
Qed.

Lemma length_app_colon h m : (String.length (h +:+ ":" +:+ m) =? 0)%nat = false.
Proof. destruct h; reflexivity. Qed.

(** Numeric text holds no colon. *)

Definition noColon (c : ascii) : bool := negb (Ascii.eqb c ":").

Lemma includes_noColon s : strAll noColon s = true -> JS.includes ":" s = false.
Proof.
  unfold JS.includes, noColon. induction s as [|c s IH]; [reflexivity|]. simpl.
  intros H. apply andb_true_iff in H as [Hc Hs]. apply negb_true_iff in Hc.
  rewrite Hc. specialize (IH Hs). destruct (JS.indexOf ":" s); [discriminate|].
  reflexivity.
Qed.

Lemma whitespace_noColon c : JS.isWhitespace c = true -> noColon c = true.
Proof.
  unfold noColon. destruct (Ascii.eqb c ":") eqn:E; [|reflexivity].
  apply Ascii.eqb_eq in E. subst. discriminate.
Qed.

Lemma isDigit_noColon c : isDigit c = true -> noColon c = true.
Proof.
  unfold noColon. destruct (Ascii.eqb c ":") eqn:E; [|reflexivity].
  apply Ascii.eqb_eq in E. subst. discriminate.
Qed.

Lemma digitValue_noColon c v : JSNumber.digitValue c = Some v -> noColon c = true.
Proof.
  unfold noColon. destruct (Ascii.eqb c ":") eqn:E; [|reflexivity].
  apply Ascii.eqb_eq in E. subst. discriminate.
Qed.

Lemma trimStart_strAll (p : ascii -> bool) s :
  (forall c, JS.isWhitespace c = true -> p c = true) ->
  strAll p (JS.trimStart s) = true -> strAll p s = true.
Proof.
  intros Hw. induction s as [|c s IH]; [reflexivity|]. simpl.
  destruct (JS.isWhitespace c) eqn:Ec; [|exact (fun H => H)].
  intros H. rewrite (Hw c Ec), (IH H). reflexivity.
Qed.

Lemma trimEnd_strAll (p : ascii -> bool) s :
  (forall c, JS.isWhitespace c = true -> p c = true) ->
  strAll p (JS.trimEnd s) = true -> strAll p s = true.
Proof.
  intros Hw. induction s as [|c s IH]; [reflexivity|]. simpl.
  destruct (JS.trimEnd s) as [|d t].
  - specialize (IH eq_refl). rewrite IH, andb_true_r.
    destruct (JS.isWhitespace c) eqn:Ec; [intros _; exact (Hw c Ec)|].
    simpl. rewrite andb_true_r. exact (fun H => H).
  - intros H. change (strAll p (String c (String d t)))
      with (p c && strAll p (String d t)) in H.
    apply andb_true_iff in H as [Hc Ht]. rewrite Hc, (IH Ht). reflexivity.
Qed.

Lemma digitsValue_noColon radix : forall s acc v,
  JSNumber.digitsValue radix acc s = Some v -> strAll noColon s = true.
Proof.
  induction s as [|c s IH]; intros acc v H; [reflexivity|]. simpl in H |- *.
  destruct (JSNumber.digitValue c) as [d|] eqn:Ed; [|discriminate].
  destruct (d <? radix)%Z; [|discriminate].
  rewrite (digitValue_noColon c d Ed), (IH _ _ H). reflexivity.
Qed.

Lemma takeSign_noColon s neg u :
  JSNumber.takeSign s = (neg, u) -> strAll noColon u = true -> strAll noColon s = true.
Proof.
  unfold JSNumber.takeSign. destruct s as [|c s]; [intros [= _ <-]; auto|].
  destruct (Ascii.eqb c "-") eqn:E1.
  { apply Ascii.eqb_eq in E1. subst. intros [= _ <-] H. simpl. exact H. }
  destruct (Ascii.eqb c "+") eqn:E2.
  { apply Ascii.eqb_eq in E2. subst. intros [= _ <-] H. simpl. exact H. }
  intros [= _ <-]. auto.
Qed.

Lemma exponentPart_noColon r e :
  JSNumber.exponentPart r = Some e -> strAll noColon r = true.
Proof.
  unfold JSNumber.exponentPart. destruct r as [|c r]; [reflexivity|].
  destruct (Ascii.eqb c "e" || Ascii.eqb c "E") eqn:Ec; [|discriminate].
  destruct (JSNumber.takeSign r) as [neg ds] eqn:Es.
  destruct (JSNumber.nonEmpty ds); [|discriminate].
  destruct (JSNumber.digitsValue 10 0 ds) as [v|] eqn:Ed; [|discriminate].
  intros _. simpl.
  rewrite (takeSign_noColon r neg ds Es (digitsValue_noColon _ _ _ _ Ed)).
  rewrite andb_true_r. unfold noColon.
  destruct (Ascii.eqb c ":") eqn:E; [|reflexivity].
  apply Ascii.eqb_eq in E. subst. discriminate.
Qed.

Lemma unsignedDecimal_noColon u q :
  JSNumber.unsignedDecimal u = Some q -> strAll noColon u = true.
Proof.
  unfold JSNumber.unsignedDecimal.
  destruct (Lexer.span isDigit u) as [ip r1] eqn:E1.
  pose proof (span_append _ _ _ _ E1) as <-.
  pose proof (strAll_impl _ noColon _ isDigit_noColon (span_prefix _ _ _ _ E1)) as Hip.
  rewrite strAll_append, Hip. cbn [andb].
  assert (Hgen : forall fp r2,
    (if JSNumber.nonEmpty ip || JSNumber.nonEmpty fp
     then match JSNumber.digitsValue 10 0 (ip +:+ fp), JSNumber.exponentPart r2 with
          | Some m, Some e =>
              Some (if (0 <=? e - Z.of_nat (String.length fp))%Z
                    then (m * 10 ^ (e - Z.of_nat (String.length fp)) # 1)%Q
                    else Qmake m (Z.to_pos (10 ^ (- (e - Z.of_nat (String.length fp))))))
          | _, _ => None
          end
     else None) = Some q -> strAll noColon r2 = true).
  { intros fp r2. destruct (_ || _); [|discriminate].
    destruct (JSNumber.digitsValue 10 0 (ip +:+ fp)); [|discriminate].
    destruct (JSNumber.exponentPart r2) as [e|] eqn:Ee; [|discriminate].
    intros _. exact (exponentPart_noColon r2 e Ee). }
  destruct r1 as [|c r]; [exact (Hgen "" "")|].
  destruct (Ascii.eqb c ".") eqn:Ec; [|exact (Hgen "" (String c r))].
  apply Ascii.eqb_eq in Ec. subst c.
  destruct (Lexer.span isDigit r) as [fp r2] eqn:E2.
  pose proof (span_append _ _ _ _ E2) as <-.
  pose proof (strAll_impl _ noColon _ isDigit_noColon (span_prefix _ _ _ _ E2)) as Hfp.
  intros H. simpl. rewrite strAll_append, Hfp, (Hgen fp r2 H). reflexivity.
Qed.

Lemma ofString_noColon s q :
  JSNumber.ofString s = JSNumber.Finite q -> strAll noColon s = true.
Proof.
  unfold JSNumber.ofString, JS.trim. intros H.
  apply (trimStart_strAll _ _ whitespace_noColon).
  apply (trimEnd_strAll _ _ whitespace_noColon).
  destruct (JS.trimEnd (JS.trimStart s)) as [|c t] eqn:Et; [reflexivity|].
  destruct (JSNumber.nonDecimalRadix (String c t)) as [[radix body]|] eqn:Er.
  - destruct (JSNumber.nonEmpty body); [|discriminate].
    destruct (JSNumber.digitsValue radix 0 body) as [v|] eqn:Ed; [|discriminate].
    pose proof (digitsValue_noColon _ _ _ _ Ed) as Hb.
    unfold JSNumber.nonDecimalRadix in Er.
    destruct (Ascii.eqb c "0") eqn:E0.
    2:{ destruct c as [[] [] [] [] [] [] [] []]; discriminate. }
    apply Ascii.eqb_eq in E0. subst c. destruct t as [|c1 t1]; [discriminate|].
    assert (body = t1) as ->.
    { repeat match type of Er with
             | context [if ?b then _ else _] => destruct b
             end; congruence. }
    assert (Hc1 : noColon c1 = true).
    { unfold noColon. destruct (Ascii.eqb c1 ":") eqn:E; [|reflexivity].
      apply Ascii.eqb_eq in E. subst. discriminate. }
    simpl. rewrite Hc1, Hb. reflexivity.
  - destruct (JSNumber.takeSign (String c t)) as [neg u] eqn:Es.
    destruct (String.eqb u "Infinity"); [discriminate|].
    destruct (JSNumber.unsignedDecimal u) as [q1|] eqn:Eu; [|discriminate].
    exact (takeSign_noColon _ _ _ Es (unsignedDecimal_noColon u q1 Eu)).
Qed.

(** The texts [toInt] reads hold no colon. *)
Lemma toInt_noColon s label p n :
  toInt s label p = Ok n -> JS.includes ":" s = false.
Proof.
  unfold toInt. intros H. apply includes_noColon.
  destruct (JSNumber.ofString s) as [| |q] eqn:E; try discriminate.
  exact (ofString_noColon s q E).
Qed.

(** C10.  The colon shape of [parseOffset] asks for no digit count: a sign
    followed by [H], a colon and [M] parses as soon as [toInt] reads [H]
    and [M] as integers within the ranges, however many digits they have,
    and the result keeps the text as [raw]; [+8:5] is such a text. *)
Theorem parseOffset_colon_shape_any_width sign H M h m p :
  toInt H "offset hours" p = Ok h ->
  toInt M "offset minutes" p = Ok m ->
  (0 <= h <= 14)%Z -> (0 <= m <= 59)%Z ->
  parseOffset (Sign_text sign +:+ H +:+ ":" +:+ M) p
    = Ok (NumericOffset sign h m (Sign_text sign +:+ H +:+ ":" +:+ M))
  /\ parseOffset "+8:5" 0 = Ok (NumericOffset SignPlus 8 5 "+8:5").
Proof.
  intros HH HM Hh Hm. split; [|vm_compute; reflexivity].
  pose proof (toInt_noColon _ _ _ _ HH) as HcH.
  pose proof (toInt_noColon _ _ _ _ HM) as HcM.
  assert (E : parseOffset (Sign_text sign +:+ H +:+ ":" +:+ M) p
              = if ((h <? 0) || (MAX_OFFSET_HOURS <? h))%Z
                then Err (ParseError (OffsetHoursRange h) p)
                else if ((m <? 0) || (MAX_MINUTES <? m))%Z
                     then Err (ParseError (OffsetMinutesRange m) p)
                     else Ok (NumericOffset sign h m
                                (Sign_text sign +:+ H +:+ ":" +:+ M))).
  { destruct sign; cbn [Sign_text];
      [change ("+" +:+ H +:+ ":" +:+ M) with (String "+" (H +:+ ":" +:+ M))
      |change ("-" +:+ H +:+ ":" +:+ M) with (String "-" (H +:+ ":" +:+ M))];
      unfold parseOffset; cbv beta iota;
      [change (Ascii.eqb "+" "+") with true
      |change (Ascii.eqb "-" "+") with false; change (Ascii.eqb "-" "-") with true];
      cbv beta iota; unfold bind at 1;
      rewrite length_app_colon, includes_app_colon, split_app_colon by assumption;
      rewrite HH; unfold bind at 2; rewrite HM; reflexivity. }
  rewrite E. unfold MAX_OFFSET_HOURS, MAX_MINUTES.
  destruct (h <? 0)%Z eqn:E1; [lia|].
  destruct (14 <? h)%Z eqn:E2; [lia|].
  destruct (m <? 0)%Z eqn:E3; [lia|].
  destruct (59 <? m)%Z eqn:E4; [lia|]. reflexivity.
Qed.

Lemma parseOffset_colon_shape_any_width_witness :
  parseOffset "-008:5" 3 = Ok (NumericOffset SignMinus 8 5 "-008:5").
Proof.
  exact (proj1 (parseOffset_colon_shape_any_width SignMinus "008" "5" 8 5 3
                  eq_refl eq_refl ltac:(lia) ltac:(lia))).
Defined.

(** * Further properties of the sources *)

(** ** The lexer: the text it keeps, the positions it records, its failures *)

(** The source without its white space. *)
Fixpoint unspaced (s : string) : string :=
  match s with
  | EmptyString => EmptyString
  | String c s1 => if JS.isWhitespace c then unspaced s1 else String c (unspaced s1)
  end.

(** The tokens follow each other from the index [from] on: none starts
    before its predecessor ends. *)
Fixpoint ordered (from : nat) (l : list Token) : Prop :=
  match l with
  | [] => True
  | t :: l1 => from <= start t /\ start t <= end_ t /\ ordered (end_ t) l1
  end.

(** A token read in [rest], the part of the source from the index [i] on. *)
Definition tokenAt (i : nat) (rest : string) (t : Token) : Prop :=
  i <= start t /\ start t < end_ t /\ end_ t <= i + String.length rest
  /\ value t = JS.slice (start t - i) (end_ t - i) rest
  /\ type t <> TokType.EOF.

(** The end marker of a source of the given length. *)
Definition endToken (n : nat) : Token := mkToken TokType.EOF "" n n.

(** What a failure of the lexer reports, [rest] being the part of the
    source from the index [i] on. *)
Definition failureAt (i : nat) (rest : string) (e : Error) : Prop :=
  match e with
  | LexError (UnexpectedCharacter ch) j =>
      i <= j /\ String.get (j - i) rest = Some ch
      /\ JS.isWhitespace ch = false /\ Ascii.eqb ch "[" = false
      /\ isDigit ch = false /\ isAlpha ch = false /\ Lexer.punct ch = None
  | LexError (UnexpectedCharacterInBrackets ch) j =>
      i <= j /\ String.get (j - i) rest = Some ch
      /\ JS.isWhitespace ch = false /\ Ascii.eqb ch "]" = false
      /\ isBracketChar ch = false
  | LexError UnterminatedBracket j => j = i + String.length rest
  | _ => False
  end.

(** The result of the main loop on [rest] from the index [i]. *)
Definition lexedFrom (i : nat) (rest : string) (r : Result (list Token)) : Prop :=
  match r with
  | Ok l =>
      exists l0, l = l0 ++ [endToken (i + String.length rest)]
        /\ flat l0 = unspaced rest /\ Forall (tokenAt i rest) l0 /\ ordered i l0
  | Err e => failureAt i rest e
  end.

(** The result of the bracket scanner on [rest] from the index [i]. *)
Definition bracketFrom (i : nat) (rest : string)
    (r : Result (list Token * nat * string)) : Prop :=
  match r with
  | Ok (l, i1, rest1) =>
      exists body, rest = body +:+ rest1 /\ i1 = i + String.length body
        /\ (exists rest2, rest1 = String "]" rest2)
        /\ flat l = unspaced body /\ Forall (tokenAt i body) l /\ ordered i l
  | Err e => failureAt i rest e
  end.

Lemma unspaced_app s t : unspaced (s +:+ t) = unspaced s +:+ unspaced t.
Proof.
  induction s as [|c s IH]; [reflexivity|].
  rewrite append_cons. simpl. destruct (JS.isWhitespace c); rewrite IH; reflexivity.
Qed.

Lemma unspaced_plain p s :
  (forall c, p c = true -> JS.isWhitespace c = false) ->
  strAll p s = true -> unspaced s = s.
Proof.
  intros Hp. induction s as [|c s IH]; [reflexivity|]. simpl. intros H.
  apply andb_true_iff in H as [Hc Hs]. rewrite (Hp c Hc), (IH Hs). reflexivity.
Qed.

Lemma slice_from_app a b n :
  JS.slice_from (String.length a + n) (a +:+ b) = JS.slice_from n b.
Proof. induction a as [|c a IH]; [reflexivity|]. exact IH. Qed.

Lemma slice_from_prefix a b n :
  n <= String.length a -> JS.slice_from n (a +:+ b) = JS.slice_from n a +:+ b.
Proof.
  revert n. induction a as [|c a IH]; intros n Hn.
  - simpl in Hn. replace n with 0 by lia. destruct b; reflexivity.
  - destruct n as [|n]; [reflexivity|]. simpl in Hn.
    rewrite append_cons. simpl. apply IH. lia.
Qed.

Lemma slice_from_length a n :
  String.length (JS.slice_from n a) = String.length a - n.
Proof.
  revert n. induction a as [|c a IH]; intros [|n]; try reflexivity. simpl. apply IH.
Qed.

Lemma slice_to_prefix a b n :
  n <= String.length a -> JS.slice_to n (a +:+ b) = JS.slice_to n a.
Proof.
  revert n. induction a as [|c a IH]; intros n Hn.
  - simpl in Hn. replace n with 0 by lia. destruct b; reflexivity.
  - destruct n as [|n]; [reflexivity|]. simpl in Hn.
    rewrite append_cons. simpl. rewrite IH by lia. reflexivity.
Qed.

Lemma slice_to_all a : JS.slice_to (String.length a) a = a.
Proof. induction a as [|c a IH]; [reflexivity|]. simpl. rewrite IH. reflexivity. Qed.

Lemma slice_shift a b x y :
  JS.slice (String.length a + x) (String.length a + y) (a +:+ b) = JS.slice x y b.
Proof.
  unfold JS.slice. rewrite slice_from_app. f_equal. lia.
Qed.

Lemma slice_prefix a b x y :
  x <= y -> y <= String.length a -> JS.slice x y (a +:+ b) = JS.slice x y a.
Proof.
  intros Hxy Hy. unfold JS.slice. rewrite slice_from_prefix by lia.
  apply slice_to_prefix. rewrite slice_from_length. lia.
Qed.

Lemma slice_whole a : JS.slice 0 (String.length a) a = a.
Proof.
  unfold JS.slice. rewrite Nat.sub_0_r.
  replace (JS.slice_from 0 a) with a by (destruct a; reflexivity).
  apply slice_to_all.
Qed.

Lemma get_app_shift a b n :
  String.get (String.length a + n) (a +:+ b) = String.get n b.
Proof. induction a as [|c a IH]; [reflexivity|]. exact IH. Qed.

Lemma tokenAt_shift i pre rest t :
  tokenAt (i + String.length pre) rest t -> tokenAt i (pre +:+ rest) t.
Proof.
  intros (H1 & H2 & H3 & H4 & H5). unfold tokenAt. rewrite length_append.
  repeat split; try lia; [|exact H5].
  rewrite H4.
  replace (start t - i) with (String.length pre + (start t - (i + String.length pre)))
    by lia.
  replace (end_ t - i) with (String.length pre + (end_ t - (i + String.length pre)))
    by lia.
  rewrite slice_shift. reflexivity.
Qed.

Lemma tokenAt_extend i pre rest t :
  tokenAt i pre t -> tokenAt i (pre +:+ rest) t.
Proof.
  intros (H1 & H2 & H3 & H4 & H5). unfold tokenAt. rewrite length_append.
  repeat split; try lia; [|exact H5].
  rewrite H4. symmetry. apply slice_prefix; lia.
Qed.

Lemma tokenAt_emit ty i text :
  text <> "" -> ty <> TokType.EOF -> tokenAt i text (Lexer.emit ty i text).
Proof.
  intros Ht Hty. unfold tokenAt, Lexer.emit. cbn [start end_ value type].
  destruct text as [|c text]; [congruence|].
  repeat split; try (simpl; lia); [|exact Hty].
  rewrite Nat.sub_diag.
  replace (i + String.length (String c text) - i) with (String.length (String c text))
    by lia.
  symmetry. apply slice_whole.
Qed.

Lemma ordered_from i j l : i <= j -> ordered j l -> ordered i l.
Proof. destruct l as [|t l]; [auto|]. simpl. intros H (H1 & H2 & H3). repeat split; auto; lia. Qed.

Lemma ordered_app i j l1 l2 :
  ordered i l1 -> Forall (fun t => end_ t <= j) l1 -> i <= j ->
  ordered j l2 -> ordered i (l1 ++ l2).
Proof.
  revert i. induction l1 as [|t l1 IH]; intros i H1 HF Hj H2.
  - simpl. apply (ordered_from i j); [lia|exact H2].
  - simpl in *. destruct H1 as (Ha & Hb & Hc).
    apply List.Forall_cons_iff in HF as [Ht HF].
    repeat split; auto.
Qed.

Lemma tokenAt_end i rest l :
  Forall (tokenAt i rest) l -> Forall (fun t => end_ t <= i + String.length rest) l.
Proof. apply List.Forall_impl. intros t (_ & _ & H & _). exact H. Qed.

Lemma failureAt_shift i pre rest e :
  failureAt (i + String.length pre) rest e -> failureAt i (pre +:+ rest) e.
Proof.
  destruct e as [[ch|ch|] j| | |]; simpl; try tauto.
  - intros (H1 & H2 & H3). split; [lia|]. split; [|exact H3].
    replace (j - i) with (String.length pre + (j - (i + String.length pre))) by lia.
    rewrite get_app_shift. exact H2.
  - intros (H1 & H2 & H3). split; [lia|]. split; [|exact H3].
    replace (j - i) with (String.length pre + (j - (i + String.length pre))) by lia.
    rewrite get_app_shift. exact H2.
  - intros ->. rewrite length_append. lia.
Qed.

(** The main loop behind a piece [pre] of the source read as the tokens
    [ts]. *)
Lemma lexedFrom_app i pre rest ts r :
  flat ts = unspaced pre -> Forall (tokenAt i pre) ts -> ordered i ts ->
  lexedFrom (i + String.length pre) rest r ->
  lexedFrom i (pre +:+ rest) (prependL ts r).
Proof.
  intros Hf Ht Ho. destruct r as [l|e]; simpl; [|apply failureAt_shift].
  intros (l0 & -> & Hl0 & Hl1 & Hl2). exists (ts ++ l0).
  rewrite length_append, Nat.add_assoc, app_assoc. split; [reflexivity|].
  split; [rewrite flat_app, unspaced_app, Hf, Hl0; reflexivity|].
  split.
  - apply Forall_app. split.
    + revert Ht. apply List.Forall_impl. intros t. apply tokenAt_extend.
    + revert Hl1. apply List.Forall_impl. intros t. apply tokenAt_shift.
  - apply (ordered_app i (i + String.length pre)); auto; [|lia].
    apply tokenAt_end. exact Ht.
Qed.

Lemma bracketFrom_app i pre rest ts r :
  flat ts = unspaced pre -> Forall (tokenAt i pre) ts -> ordered i ts ->
  bracketFrom (i + String.length pre) rest r ->
  bracketFrom i (pre +:+ rest) (prepend ts r).
Proof.
  intros Hf Ht Ho. destruct r as [[[l i1] rest1]|e]; simpl; [|apply failureAt_shift].
  intros (body & -> & -> & Hclose & Hl0 & Hl1 & Hl2). exists (pre +:+ body).
  rewrite length_append, Nat.add_assoc, append_assoc. split; [reflexivity|].
  split; [reflexivity|]. split; [exact Hclose|].
  split; [rewrite flat_app, unspaced_app, Hf, Hl0; reflexivity|].
  split.
  - apply Forall_app. split.
    + revert Ht. apply List.Forall_impl. intros t. apply tokenAt_extend.
    + revert Hl1. apply List.Forall_impl. intros t. apply tokenAt_shift.
  - apply (ordered_app i (i + String.length pre)); auto; [|lia].
    apply tokenAt_end. exact Ht.
Qed.

(** One token [text] of type [ty], emitted at [i]. *)
Lemma one_token ty i text :
  text <> "" -> ty <> TokType.EOF -> unspaced text = text ->
  flat [Lexer.emit ty i text] = unspaced text
  /\ Forall (tokenAt i text) [Lexer.emit ty i text]
  /\ ordered i [Lexer.emit ty i text].
Proof.
  intros Ht Hty Hu. split; [simpl; rewrite append_nil_r; auto|].
  split; [repeat constructor; apply tokenAt_emit; auto|].
  simpl. repeat split; lia.
Qed.

Lemma wordChar_plain c : isBracketWordChar c = true -> JS.isWhitespace c = false.
Proof. intros H. apply wordChar_bracketChar in H. apply bracketChar_plain in H. tauto. Qed.

Lemma digit_plain c : isDigit c = true -> JS.isWhitespace c = false.
Proof. destruct c as [[] [] [] [] [] [] [] []]; vm_compute; congruence. Qed.

Lemma alpha_plain c : isAlpha c = true -> JS.isWhitespace c = false.
Proof. destruct c as [[] [] [] [] [] [] [] []]; vm_compute; congruence. Qed.

Section LexerOutcome.

Import Lexer.

Lemma lexBracketContent_from : forall n rest, String.length rest <= n ->
  forall i, bracketFrom i rest (lexBracketContent (S (String.length rest)) i rest []).
Proof.
  induction n as [|n IH]; intros rest Hn i.
  - destruct rest; [|simpl in Hn; lia]. simpl. lia.
  - destruct rest as [|ch rest1]; [simpl; lia|].
    change (String.length (String ch rest1)) with (S (String.length rest1)).
    rewrite lexBracketContent_unfold. simpl in Hn.
    destruct (Ascii.eqb ch "]") eqn:Eclose.
    { apply Ascii.eqb_eq in Eclose. subst ch. exists "".
      rewrite Nat.add_0_r. repeat split; eauto; constructor. }
    destruct (JS.isWhitespace ch) eqn:Ews.
    { change (String ch rest1) with (String ch "" +:+ rest1).
      rewrite <- (prepend_nil (lexBracketContent _ _ _ _)).
      apply bracketFrom_app; [simpl; rewrite Ews; reflexivity|constructor|exact I|].
      apply IH. lia. }
    destruct (bracketPunct ch) as [ty|] eqn:Ep.
    { rewrite (lexBracketContent_enough _ rest1 (Nat.le_refl _)) by lia.
      change (String ch rest1) with (String ch "" +:+ rest1).
      destruct (one_token ty i (String ch "")) as (T1 & T2 & T3);
        [discriminate
        |intros ->; pose proof (bracketPunct_type ch _ Ep); discriminate
        |simpl; rewrite Ews; reflexivity|].
      apply bracketFrom_app; auto. apply IH. lia. }
    destruct (isBracketWordChar ch) eqn:Ew.
    2:{ simpl. rewrite Nat.sub_diag. repeat split; auto.
        unfold isBracketChar. rewrite Ep. exact Ew. }
    destruct (span isBracketWordChar rest1) as [w rest2] eqn:Esp. cbv zeta.
    pose proof (span_length _ _ _ _ Esp) as Hlen.
    rewrite (lexBracketContent_enough _ rest2 (Nat.le_refl _)) by lia.
    rewrite <- (span_append _ _ _ _ Esp), <- append_cons.
    set (ty := if isLetterWord (String ch w) then TokType.Ident else TokType.BracketText).
    destruct (one_token ty i (String ch w)) as (T1 & T2 & T3);
      [discriminate|subst ty; destruct (isLetterWord _); discriminate| |].
    { apply (unspaced_plain isBracketWordChar); [exact wordChar_plain|].
      simpl. rewrite Ew. exact (span_prefix _ _ _ _ Esp). }
    apply bracketFrom_app; auto. apply IH. lia.
Qed.

Lemma lex_loop_from : forall n rest, String.length rest <= n ->
  forall i, lexedFrom i rest (lex_loop (S (String.length rest)) i rest []).
Proof.
  induction n as [|n IH]; intros rest Hn i.
  - destruct rest; [|simpl in Hn; lia]. simpl. exists [].
    rewrite Nat.add_0_r. repeat split; constructor.
  - destruct rest as [|ch rest1].
    { simpl. exists []. rewrite Nat.add_0_r. repeat split; constructor. }
    change (String.length (String ch rest1)) with (S (String.length rest1)).
    rewrite lex_loop_unfold. simpl in Hn.
    destruct (JS.isWhitespace ch) eqn:Ews.
    { change (String ch rest1) with (String ch "" +:+ rest1).
      rewrite <- (prependL_nil (lex_loop _ _ _ _)).
      apply lexedFrom_app; [simpl; rewrite Ews; reflexivity|constructor|exact I|].
      apply IH. lia. }
    destruct (Ascii.eqb ch "[") eqn:Eopen.
    { rewrite (lexBracketContent_enough _ rest1 (Nat.le_refl _)) by lia.
      pose proof (lexBracketContent_from _ rest1 (Nat.le_refl _) (i + 1)) as HB.
      change (String ch rest1) with (String ch "" +:+ rest1).
      destruct (lexBracketContent _ _ _ _) as [[[l i1] rest2]|e];
        [|apply failureAt_shift; exact HB].
      destruct HB as (body & -> & -> & [rest3 ->] & B1 & B2 & B3).
      cbn [prepend bind]. cbn [Ascii.eqb Bool.eqb].
      rewrite length_append in Hn. simpl in Hn.
      rewrite lex_loop_enough with (n := String.length rest3);
        [|lia|rewrite length_append; simpl; lia].
      rewrite <- app_assoc, <- !prependL_prependL, prependL_nil.
      destruct (one_token TokType.LBracket i (String ch "")) as (T1 & T2 & T3);
        [discriminate|discriminate|simpl; rewrite Ews; reflexivity|].
      apply lexedFrom_app; auto.
      apply lexedFrom_app; auto.
      change (String "]" rest3) with (String "]" "" +:+ rest3).
      destruct (one_token TokType.RBracket (i + 1 + String.length body) (String "]" ""))
        as (U1 & U2 & U3); [discriminate|discriminate|reflexivity|].
      apply lexedFrom_app; auto.
      replace (i + String.length (String ch "") + String.length body
               + String.length (String "]" ""))
        with (i + 1 + String.length body + 1) by (simpl; lia).
      apply IH. lia. }
    destruct (isDigit ch) eqn:Ed.
    { unfold lexNumber.
      destruct (span isDigit rest1) as [ds rest2] eqn:Esp.
      pose proof (span_length _ _ _ _ Esp) as Hlen.
      rewrite (lex_loop_enough _ rest2 (Nat.le_refl _)) by lia.
      rewrite <- (span_append _ _ _ _ Esp), <- append_cons.
      destruct (one_token TokType.Number i (String ch ds)) as (T1 & T2 & T3);
        [discriminate|discriminate| |].
      { apply (unspaced_plain isDigit); [exact digit_plain|].
        simpl. rewrite Ed. exact (span_prefix _ _ _ _ Esp). }
      apply lexedFrom_app; auto. apply IH. lia. }
    destruct (isAlpha ch) eqn:Ea.
    { unfold lexIdent.
      destruct (Ascii.eqb ch "T") eqn:ET.
      { rewrite (lex_loop_enough _ rest1 (Nat.le_refl _)) by lia.
        apply Ascii.eqb_eq in ET. subst ch.
        change (String "T" rest1) with (String "T" "" +:+ rest1).
        destruct (one_token TokType.T i (String "T" "")) as (T1 & T2 & T3);
          [discriminate|discriminate|reflexivity|].
        apply lexedFrom_app; auto. apply IH. lia. }
      destruct (Ascii.eqb ch "Z") eqn:EZ.
      { rewrite (lex_loop_enough _ rest1 (Nat.le_refl _)) by lia.
        apply Ascii.eqb_eq in EZ. subst ch.
        change (String "Z" rest1) with (String "Z" "" +:+ rest1).
        destruct (one_token TokType.Z i (String "Z" "")) as (T1 & T2 & T3);
          [discriminate|discriminate|reflexivity|].
        apply lexedFrom_app; auto. apply IH. lia. }
      destruct (span _ rest1) as [ls rest2] eqn:Esp.
      pose proof (span_length _ _ _ _ Esp) as Hlen.
      rewrite (lex_loop_enough _ rest2 (Nat.le_refl _)) by lia.
      rewrite <- (span_append _ _ _ _ Esp), <- append_cons.
      destruct (one_token TokType.Ident i (String ch ls)) as (T1 & T2 & T3);
        [discriminate|discriminate| |].
      { apply (unspaced_plain isAlpha); [exact alpha_plain|].
        simpl. rewrite Ea.
        pose proof (span_prefix _ _ _ _ Esp) as Hls.
        revert Hls. apply strAll_impl. intros c Hc.
        apply andb_true_iff in Hc as [Hc _]. apply andb_true_iff in Hc as [Hc _].
        exact Hc. }
      apply lexedFrom_app; auto. apply IH. lia. }
    destruct (punct ch) as [ty|] eqn:Ep.
    { rewrite (lex_loop_enough _ rest1 (Nat.le_refl _)) by lia.
      change (String ch rest1) with (String ch "" +:+ rest1).
      destruct (one_token ty i (String ch "")) as (T1 & T2 & T3);
        [discriminate
        |pose proof (punct_plain ch ty i Ep) as (_ & _ & Hp & _); exact Hp
        |simpl; rewrite Ews; reflexivity|].
      apply lexedFrom_app; auto. apply IH. lia. }
    simpl. rewrite Nat.sub_diag. repeat split; auto.
Qed.

End LexerOutcome.

(** X1.  The lexer loses no text: the values of the tokens, written one
    after the other, are the source without its white space. *)
Theorem lexTemporal_keeps_text src l :
  lexTemporal src = Ok l -> flat l = unspaced src.
Proof.
  intros H. pose proof (lex_loop_from _ src (Nat.le_refl _) 0) as HL.
  unfold lexTemporal in H. rewrite H in HL.
  destruct HL as (l0 & -> & Hf & _).
  rewrite flat_app, Hf. simpl. rewrite append_nil_r. reflexivity.
Qed.

Lemma lexTemporal_keeps_text_witness :
  exists l, lexTemporal " 2025-01-12 T10:30 [ u-ca = gregory ]" = Ok l
    /\ flat l = "2025-01-12T10:30[u-ca=gregory]".
Proof.
  eexists. split; [vm_compute; reflexivity|].
  exact (lexTemporal_keeps_text " 2025-01-12 T10:30 [ u-ca = gregory ]" _ eq_refl).
Defined.

(** X2.  The offsets of the tokens index the source: every token but the
    last is a non-empty slice [src.slice(start, end)] of the source, no
    token starts before its predecessor ends, and the last token is the end
    marker at [src.length]. *)
Theorem lexTemporal_positions src l :
  lexTemporal src = Ok l ->
  exists l0,
    l = l0 ++ [mkToken TokType.EOF "" (String.length src) (String.length src)]
    /\ Forall (fun t => type t <> TokType.EOF
                        /\ start t < end_ t <= String.length src
                        /\ value t = JS.slice (start t) (end_ t) src) l0
    /\ ordered 0 l.
Proof.
  intros H. pose proof (lex_loop_from _ src (Nat.le_refl _) 0) as HL.
  unfold lexTemporal in H. rewrite H in HL.
  destruct HL as (l0 & -> & _ & Ht & Ho). exists l0.
  split; [reflexivity|]. split.
  - revert Ht. apply List.Forall_impl.
    intros t (T1 & T2 & T3 & T4 & T5). rewrite !Nat.sub_0_r in T4. simpl in T3.
    repeat split; auto.
  - apply (ordered_app 0 (String.length src)); [exact Ho| |lia|simpl; lia].
    apply tokenAt_end in Ht. exact Ht.
Qed.

Lemma lexTemporal_positions_witness :
  exists l0,
    [mkToken TokType.Number "10" 1 3; mkToken TokType.Colon ":" 3 4;
     mkToken TokType.Number "30" 4 6; mkToken TokType.EOF "" 7 7]
    = l0 ++ [mkToken TokType.EOF "" 7 7]
    /\ Forall (fun t => type t <> TokType.EOF
                        /\ start t < end_ t <= 7
                        /\ value t = JS.slice (start t) (end_ t) " 10:30 ") l0
    /\ ordered 0 [mkToken TokType.Number "10" 1 3; mkToken TokType.Colon ":" 3 4;
                  mkToken TokType.Number "30" 4 6; mkToken TokType.EOF "" 7 7].
Proof. exact (lexTemporal_positions " 10:30 " _ eq_refl). Defined.

(** X3.  The lexer stops on every source, and a failure names its place:
    an unexpected character is reported with its own index, outside
    brackets when default mode has no token for it and inside brackets when
    bracket mode has none, and a bracket that is not closed is reported at
    the end of the source.  Nothing else is thrown. *)
Theorem lexTemporal_failures src e :
  lexTemporal src = Err e ->
  match e with
  | LexError (UnexpectedCharacter ch) j =>
      String.get j src = Some ch
      /\ JS.isWhitespace ch = false /\ Ascii.eqb ch "[" = false
      /\ isDigit ch = false /\ isAlpha ch = false /\ Lexer.punct ch = None
  | LexError (UnexpectedCharacterInBrackets ch) j =>
      String.get j src = Some ch
      /\ JS.isWhitespace ch = false /\ Ascii.eqb ch "]" = false
      /\ Lexer.bracketPunct ch = None /\ isBracketWordChar ch = false
  | LexError UnterminatedBracket j => j = String.length src
  | _ => False
  end.
Proof.
  intros H. pose proof (lex_loop_from _ src (Nat.le_refl _) 0) as HL.
  unfold lexTemporal in H. rewrite H in HL. unfold lexedFrom, failureAt in HL.
  destruct e as [[ch|ch|] j| | |]; try exact HL.
  - rewrite Nat.sub_0_r in HL. tauto.
  - rewrite Nat.sub_0_r in HL. destruct HL as (_ & H1 & H2 & H3 & H4).
    unfold isBracketChar in H4.
    destruct (Lexer.bracketPunct ch); [discriminate|]. auto.
Qed.

Lemma lexTemporal_failures_witness :
  String.get 4 "2025#01" = Some "#"%char
  /\ JS.isWhitespace "#" = false /\ Ascii.eqb "#" "[" = false
  /\ isDigit "#" = false /\ isAlpha "#" = false /\ Lexer.punct "#" = None.
Proof.
  exact (lexTemporal_failures "2025#01" (LexError (UnexpectedCharacter "#") 4) eq_refl).
Defined.

(** ** The offset fuser: what a fused token holds and where it stands *)

(** The raw tokens a token of the fused sequence stands for. *)
Definition rawTokens (t : AnyToken) : list Token :=
  match t with
  | Raw r => [r]
  | Combined c => tokens c
  end.

(** The two shapes of a fused offset: a sign, a number, a colon and a
    number, or a sign and a number of two or four digits. *)
Definition offsetToken (c : CombinedToken) : Prop :=
  exists s, (type s = TokType.Plus \/ type s = TokType.Dash)
    /\ ((exists n1 col n2,
           type n1 = TokType.Number /\ type col = TokType.Colon
           /\ type n2 = TokType.Number
           /\ c = mkCombinedToken CombinedTokType.TZOffset
                    (value s +:+ value n1 +:+ ":" +:+ value n2) [s; n1; col; n2]
                    (start s) (end_ n2))
        \/ (exists n,
              type n = TokType.Number
              /\ (String.length (value n) = 2 \/ String.length (value n) = 4)
              /\ c = mkCombinedToken CombinedTokType.TZOffset
                       (value s +:+ value n) [s; n] (start s) (end_ n))).

Lemma signOf_Raw t s :
  Fuser.signOf t = Some s ->
  t = Raw s /\ (type s = TokType.Plus \/ type s = TokType.Dash).
Proof.
  unfold Fuser.signOf.
  destruct (Fuser.rawOfType TokType.Plus (Some t)) as [r|] eqn:E1.
  - intros [= <-]. apply rawOfType_type in E1 as [[= ->] T]. auto.
  - intros E2. apply rawOfType_type in E2 as [[= ->] T]. auto.
Qed.

(** One fusion: what is read and what is emitted. *)
Lemma step_Some t rest out tz k :
  Fuser.step (t :: rest) 0 out t = Some (tz, k) ->
  Fuser.couldBeTzOffset out = true /\ offsetToken tz
  /\ t :: rest = map Raw (tokens tz) ++ drop k (t :: rest)
  /\ 1 <= k.
Proof.
  unfold Fuser.step.
  destruct (Fuser.signOf t) as [s|] eqn:Es; [|discriminate].
  destruct (Fuser.couldBeTzOffset out); [|discriminate].
  apply signOf_Raw in Es as [-> Ts]. intros H. split; [reflexivity|].
  unfold Fuser.fuse in H. cbn [Nat.add] in H.
  destruct (Fuser.rawOfType TokType.Number ((Raw s :: rest) !! 1)) as [n1|] eqn:E1.
  2: discriminate.
  apply rawOfType_type in E1 as [E1 T1].
  destruct rest as [|x1 rest1]; [discriminate|]. simpl in E1. injection E1 as ->.
  assert (Short :
    (if (String.length (value n1) =? 2)%nat || (String.length (value n1) =? 4)%nat
     then Some (mkCombinedToken CombinedTokType.TZOffset (value s +:+ value n1)
                  [s; n1] (start s) (end_ n1), 2)
     else None) = Some (tz, k) ->
    offsetToken tz
    /\ Raw s :: Raw n1 :: rest1 = map Raw (tokens tz) ++ drop k (Raw s :: Raw n1 :: rest1)
    /\ 1 <= k).
  { destruct (_ || _) eqn:El; [|discriminate]. intros [= <- <-].
    split; [|split; [reflexivity|lia]].
    exists s. split; [exact Ts|]. right. exists n1. split; [exact T1|].
    split; [|reflexivity].
    apply orb_true_iff in El as [El|El]; apply Nat.eqb_eq in El; auto. }
  destruct (Fuser.rawOfType TokType.Colon _) as [c|] eqn:E2; [|exact (Short H)].
  destruct (Fuser.rawOfType TokType.Number _) as [n2|] eqn:E3; [|exact (Short H)].
  apply rawOfType_type in E2 as [E2 T2]. apply rawOfType_type in E3 as [E3 T3].
  destruct rest1 as [|x2 [|x3 rest2]]; try discriminate.
  simpl in E2, E3. injection E2 as ->. injection E3 as ->.
  injection H as <- <-. split; [|split; [reflexivity|lia]].
  exists s. split; [exact Ts|]. left. exists n1, c, n2. auto.
Qed.

Lemma flat_map_Raw (l : list Token) : flat_map rawTokens (map Raw l) = l.
Proof. induction l as [|t l IH]; [reflexivity|]. simpl. congruence. Qed.

Lemma lookup_In {A} (l : list A) k x : l !! k = Some x -> In x l.
Proof.
  revert k. induction l as [|y l IH]; intros [|k] H; try discriminate.
  - injection H as ->. left. reflexivity.
  - right. exact (IH k H).
Qed.

Lemma fused_lossless : forall n rest, length rest <= n -> forall out,
  flat_map rawTokens (fused rest out)
  = flat_map rawTokens out ++ flat_map rawTokens rest
  /\ length (fused rest out) <= length out + length rest.
Proof.
  induction n as [|n IH]; intros rest Hn out.
  { destruct rest; [|simpl in Hn; lia]. rewrite fused_nil. simpl.
    rewrite app_nil_r. split; [reflexivity|lia]. }
  destruct rest as [|t rest].
  { rewrite fused_nil. simpl. rewrite app_nil_r. split; [reflexivity|lia]. }
  rewrite fused_cons. simpl in Hn.
  destruct (Fuser.step (t :: rest) 0 out t) as [[tz k]|] eqn:Es.
  - apply step_Some in Es as (_ & _ & Hsplit & Hk).
    assert (Hlen : length (drop k (t :: rest)) <= n)
      by (rewrite length_drop; simpl; lia).
    destruct (IH _ Hlen (out ++ [Combined tz])) as [H1 H2].
    rewrite H1. split.
    + rewrite Hsplit at 2. rewrite !flat_map_app, flat_map_Raw. simpl.
      rewrite app_nil_r, <- app_assoc. reflexivity.
    + rewrite length_app in H2. rewrite length_drop in H2. simpl in *. lia.
  - destruct (IH rest ltac:(lia) (out ++ [t])) as [H1 H2]. rewrite H1. split.
    + rewrite flat_map_app. simpl. rewrite app_nil_r, <- app_assoc. reflexivity.
    + rewrite length_app in H2. simpl in *. lia.
Qed.

(** X4.  The fuser loses no token: a fused offset holds the tokens it
    replaces, so that the raw tokens of the result, fused ones unfolded, are
    the raw tokens of the argument; the result is never longer than the
    argument. *)
Theorem combineTimezoneOffsets_lossless (toks : list AnyToken) :
  flat_map rawTokens (combineTimezoneOffsets toks) = flat_map rawTokens toks
  /\ length (combineTimezoneOffsets toks) <= length toks.
Proof.
  unfold combineTimezoneOffsets.
  change (Fuser.loop (length toks) toks 0 []) with (fused toks []).
  exact (fused_lossless _ toks (Nat.le_refl _) []).
Qed.

(** The tokens emitted so far: fused ones have one of the two shapes. *)
Definition shaped (t : AnyToken) : Prop :=
  match t with
  | Raw _ => True
  | Combined c => offsetToken c
  end.

Lemma fused_raw : forall n rest, length rest <= n ->
  Forall shaped rest -> (forall k c, rest !! k <> Some (Combined c)) ->
  forall out, Ctx out -> Forall shaped out ->
  Ctx (fused rest out) /\ Forall shaped (fused rest out).
Proof.
  induction n as [|n IH]; intros rest Hn Hr Hraw out Hc Ho.
  { destruct rest; [|simpl in Hn; lia]. rewrite fused_nil. auto. }
  destruct rest as [|t rest]; [rewrite fused_nil; auto|].
  rewrite fused_cons. simpl in Hn.
  assert (Hraw1 : forall m k c, drop m (t :: rest) !! k <> Some (Combined c)).
  { intros m k c. rewrite lookup_drop. apply Hraw. }
  assert (Hr1 : forall m, Forall shaped (drop m (t :: rest))).
  { intros m. apply Forall_drop. exact Hr. }
  destruct (Fuser.step (t :: rest) 0 out t) as [[tz k]|] eqn:Es.
  - apply step_Some in Es as (Hb & Htz & _ & Hk).
    apply IH; auto.
    + rewrite length_drop. simpl. lia.
    + apply Ctx_snoc_combined; assumption.
    + apply Forall_app. split; [exact Ho|]. repeat constructor. exact Htz.
  - apply IH; auto.
    + lia.
    + exact (Hr1 1).
    + exact (Hraw1 1).
    + destruct t as [r|c]; [apply Ctx_snoc_raw; exact Hc|].
      exfalso. exact (Hraw 0 c eq_refl).
    + apply Forall_app. split; [exact Ho|]. repeat constructor.
      apply List.Forall_cons_iff in Hr as [Ht _]. exact Ht.
Qed.

Lemma combineTimezoneOffsets_raw (l : list Token) :
  Ctx (combineTimezoneOffsets (map Raw l))
  /\ Forall shaped (combineTimezoneOffsets (map Raw l)).
Proof.
  unfold combineTimezoneOffsets.
  change (Fuser.loop (length (map Raw l)) (map Raw l) 0 [])
    with (fused (map Raw l) []).
  apply (fused_raw _ _ (Nat.le_refl _)).
  - apply Forall_map. apply Forall_true. intros; exact I.
  - intros k c. rewrite list_lookup_fmap. destruct (l !! k); discriminate.
  - exact Ctx_nil.
  - constructor.
Qed.

(** X5.  On the tokens of the lexer the fuser only builds an offset
    token behind a time: the two tokens before a fused token are a colon or
    a dot and a number, and the fused token is a sign with a number, a colon
    and a number, or a sign with a number of two or four digits, its value
    being their texts. *)
Theorem combineTimezoneOffsets_fuses_after_time (l : list Token) k c :
  combineTimezoneOffsets (map Raw l) !! k = Some (Combined c) ->
  offsetToken c
  /\ exists b n,
       2 <= k
       /\ combineTimezoneOffsets (map Raw l) !! (k - 2) = Some (Raw b)
       /\ combineTimezoneOffsets (map Raw l) !! (k - 1) = Some (Raw n)
       /\ (type b = TokType.Colon \/ type b = TokType.Dot)
       /\ type n = TokType.Number.
Proof.
  intros H. destruct (combineTimezoneOffsets_raw l) as [Hc Hs]. split.
  - rewrite Forall_lookup in Hs. exact (Hs k _ H).
  - exact (Hc k c H).
Qed.

Lemma combineTimezoneOffsets_fuses_after_time_witness :
  offsetToken
    (mkCombinedToken CombinedTokType.TZOffset "+05:30"
       [mkToken TokType.Plus "+" 5 6; mkToken TokType.Number "05" 6 8;
        mkToken TokType.Colon ":" 8 9; mkToken TokType.Number "30" 9 11] 5 11).
Proof.
  exact (proj1 (combineTimezoneOffsets_fuses_after_time
                  [mkToken TokType.Number "10" 0 2; mkToken TokType.Colon ":" 2 3;
                   mkToken TokType.Number "00" 3 5; mkToken TokType.Plus "+" 5 6;
                   mkToken TokType.Number "05" 6 8; mkToken TokType.Colon ":" 8 9;
                   mkToken TokType.Number "30" 9 11; mkToken TokType.EOF "" 11 11]
                  3 _ eq_refl)).
Defined.

(** X6.  Tokens without a colon and without a dot among them, as those of
    a date or of a duration without a fraction, pass the fuser unchanged:
    the dashes of a date are never taken for the sign of an offset. *)
Theorem combineTimezoneOffsets_without_time (l : list Token) :
  Forall (fun t => type t <> TokType.Colon /\ type t <> TokType.Dot) l ->
  combineTimezoneOffsets (map Raw l) = map Raw l.
Proof.
  intros Hl. destruct (combineTimezoneOffsets_raw l) as [Hc _].
  pose proof (proj1 (fused_lossless _ (map Raw l) (Nat.le_refl _) [])) as Hf.
  change (fused (map Raw l) []) with (combineTimezoneOffsets (map Raw l)) in Hf.
  cbn [flat_map app] in Hf.
  pose proof (flat_map_Raw l) as El.
  rewrite El in Hf.
  set (out := combineTimezoneOffsets (map Raw l)) in *.
  assert (Hraws : forall k t, out !! k = Some t -> exists r, t = Raw r).
  { intros k [r|c] Hk; [eauto|]. exfalso.
    destruct (Hc k c Hk) as (b & n & _ & Hb & _ & Tb & _).
    assert (Hin : In b (flat_map rawTokens out)).
    { apply in_flat_map. exists (Raw b). split; [|left; reflexivity].
      exact (lookup_In _ _ _ Hb). }
    rewrite Hf in Hin. rewrite List.Forall_forall in Hl.
    destruct (Hl b Hin) as [N1 N2]. destruct Tb; contradiction. }
  clearbody out. revert l Hf Hl El. clear Hc.
  induction out as [|t out IH]; intros l Hf Hl El.
  - simpl in Hf. subst l. reflexivity.
  - destruct (Hraws 0 t eq_refl) as [r ->]. simpl in Hf. subst l.
    cbn [map]. f_equal. apply IH.
    + intros k t Hk. exact (Hraws (S k) t Hk).
    + reflexivity.
    + apply List.Forall_cons_iff in Hl as [_ Hl]. exact Hl.
    + clear. induction (flat_map rawTokens out) as [|t l IH]; [reflexivity|].
      simpl. congruence.
Qed.

Lemma combineTimezoneOffsets_without_time_witness :
  combineTimezoneOffsets
    (map Raw [mkToken TokType.Number "2025" 0 4; mkToken TokType.Dash "-" 4 5;
              mkToken TokType.Number "01" 5 7; mkToken TokType.Dash "-" 7 8;
              mkToken TokType.Number "12" 8 10; mkToken TokType.EOF "" 10 10])
  = map Raw [mkToken TokType.Number "2025" 0 4; mkToken TokType.Dash "-" 4 5;
             mkToken TokType.Number "01" 5 7; mkToken TokType.Dash "-" 7 8;
             mkToken TokType.Number "12" 8 10; mkToken TokType.EOF "" 10 10].
Proof.
  apply combineTimezoneOffsets_without_time.
  repeat (apply List.Forall_cons; [split; discriminate|]). apply List.Forall_nil.
Defined.

(** ** Runs of digits and their values *)

(** The number a run of decimal digits denotes, read behind [acc]. *)
Fixpoint decimalFrom (acc : Z) (s : string) : Z :=
  match s with
  | EmptyString => acc
  | String c s1 => decimalFrom (acc * 10 + (Z.of_nat (nat_of_ascii c) - 48)) s1
  end.

Definition decimal (s : string) : Z := decimalFrom 0 s.

Lemma digitValue_digit c :
  isDigit c = true ->
  JSNumber.digitValue c = Some (Z.of_nat (nat_of_ascii c) - 48)%Z
  /\ (0 <= Z.of_nat (nat_of_ascii c) - 48 <= 9)%Z.
Proof.
  destruct c as [[] [] [] [] [] [] [] []]; vm_compute; intros H; try discriminate;
    (split; [reflexivity|split; discriminate]).
Qed.

Lemma digitsValue_decimal s : forall acc,
  strAll isDigit s = true -> JSNumber.digitsValue 10 acc s = Some (decimalFrom acc s).
Proof.
  induction s as [|c s IH]; intros acc H; [reflexivity|].
  simpl in H. apply andb_true_iff in H as [Hc Hs].
  destruct (digitValue_digit c Hc) as [E Hb].
  cbn [JSNumber.digitsValue decimalFrom]. rewrite E.
  destruct (Z.ltb_spec (Z.of_nat (nat_of_ascii c) - 48) 10) as [_|Hge]; [|lia].
  apply IH. exact Hs.
Qed.

Lemma decimalFrom_bounds s : forall acc,
  strAll isDigit s = true -> (0 <= acc)%Z ->
  (acc * 10 ^ Z.of_nat (String.length s) <= decimalFrom acc s
   < (acc + 1) * 10 ^ Z.of_nat (String.length s))%Z.
Proof.
  induction s as [|c s IH]; intros acc H Hacc.
  - simpl. lia.
  - simpl in H. apply andb_true_iff in H as [Hc Hs].
    destruct (digitValue_digit c Hc) as [_ Hb].
    cbn [decimalFrom String.length]. rewrite Nat2Z.inj_succ, Z.pow_succ_r by lia.
    specialize (IH (acc * 10 + (Z.of_nat (nat_of_ascii c) - 48))%Z Hs ltac:(lia)).
    assert (0 < 10 ^ Z.of_nat (String.length s))%Z by (apply Z.pow_pos_nonneg; lia).
    nia.
Qed.

Lemma decimal_bounds s :
  strAll isDigit s = true ->
  (0 <= decimal s < 10 ^ Z.of_nat (String.length s))%Z.
Proof.
  intros H. pose proof (decimalFrom_bounds s 0 H ltac:(lia)) as Hb.
  unfold decimal. lia.
Qed.

(** [toInt] reads a run of digits as its value, as long as that is a safe
    integer. *)
Lemma toInt_decimal s label p :
  isNumeral s = true -> (decimal s < 2 ^ 53)%Z -> toInt s label p = Ok (decimal s).
Proof.
  intros H Hlt. apply toInt_numeral; [exact H| |exact Hlt].
  apply digitsValue_decimal. apply isNumeral_digits. exact H.
Qed.

Lemma toInt_short s label p :
  isNumeral s = true -> String.length s <= 15 -> toInt s label p = Ok (decimal s).
Proof.
  intros H Hlen. apply toInt_decimal; [exact H|].
  pose proof (decimal_bounds s (isNumeral_digits s H)) as Hb.
  assert (10 ^ Z.of_nat (String.length s) <= 10 ^ 15)%Z
    by (apply Z.pow_le_mono_r; lia).
  assert (10 ^ 15 < 2 ^ 53)%Z by (vm_compute; reflexivity). lia.
Qed.

(** The value of the printed form of a number. *)
Lemma decimal_pad k n : safe n -> decimal (pad k n) = n.
Proof.
  intros Hn. pose proof (pad_numeral k n Hn) as H.
  destruct (toString_numeral n ltac:(destruct Hn; lia)) as [H1 H2].
  destruct (padStart_numeral k _ H1) as [H3 H4].
  rewrite H2 in H4. unfold pad.
  rewrite (digitsValue_decimal _ 0 (isNumeral_digits _ H3)) in H4.
  injection H4 as H4. exact H4.
Qed.

(** ** The three shapes of an offset text *)

(** A result of [parseOffset] with another text kept as [raw]. *)
Definition withRaw (raw : string) (r : Result OffsetAst) : Result OffsetAst :=
  match r with
  | Ok (NumericOffset sign hours minutes _) => Ok (NumericOffset sign hours minutes raw)
  | _ => r
  end.

(** The range checks that end [parseOffset]. *)
Definition checkedOffset (sign : Sign) (hours minutes : Z) (raw : string) (p : nat)
  : Result OffsetAst :=
  if ((hours <? 0) || (MAX_OFFSET_HOURS <? hours))%Z
  then Err (ParseError (OffsetHoursRange hours) p)
  else if ((minutes <? 0) || (MAX_MINUTES <? minutes))%Z
       then Err (ParseError (OffsetMinutesRange minutes) p)
       else Ok (NumericOffset sign hours minutes raw).

Lemma parseOffset_signed sign rest p :
  parseOffset (Sign_text sign +:+ rest) p =
  if (String.length rest =? 0)%nat then Err (ParseError OffsetNoDigits p)
  else
    let* (hours, minutes) :=
      (if JS.includes ":" rest then
         match JS.split ":" rest with
         | [h; m] =>
             let* hours := toInt h "offset hours" p in
             let* minutes := toInt m "offset minutes" p in
             Ok (hours, minutes)
         | _ => Err (ParseError (OffsetBadColonFormat (Sign_text sign +:+ rest)) p)
         end
       else if (String.length rest =? 4)%nat then
         let* hours := toInt (JS.slice 0 2 rest) "offset hours" p in
         let* minutes := toInt (JS.slice 2 4 rest) "offset minutes" p in
         Ok (hours, minutes)
       else if (String.length rest =? 2)%nat then
         let* hours := toInt rest "offset hours" p in
         Ok (hours, 0%Z)
       else Err (ParseError (OffsetBadFormat (Sign_text sign +:+ rest)) p)) in
    checkedOffset sign hours minutes (Sign_text sign +:+ rest) p.
Proof. destruct sign; reflexivity. Qed.

Lemma digits_noColon s : strAll isDigit s = true -> JS.includes ":" s = false.
Proof.
  intros H. apply includes_noColon. revert H. apply strAll_impl.
  exact isDigit_noColon.
Qed.

Lemma two_chars s : String.length s = 2 -> exists a b, s = String a (String b "").
Proof. destruct s as [|a [|b [|c s]]]; try discriminate. eauto. Qed.

(** X7.  The compact shape and the short shape of an offset are read as
    the colon shape with the same digits: with two digits [HH] and two
    digits [MM], the text [±HHMM] gives what [±HH:MM] gives and [±HH] what
    [±HH:00] gives, range failures included, but for the text kept as
    [raw].  A sign followed by one, three or more than four characters
    without a colon is no offset. *)
Theorem parseOffset_shapes_agree sign HH MM p :
  isNumeral HH = true -> String.length HH = 2 ->
  isNumeral MM = true -> String.length MM = 2 ->
  parseOffset (Sign_text sign +:+ HH +:+ MM) p
    = withRaw (Sign_text sign +:+ HH +:+ MM)
        (parseOffset (Sign_text sign +:+ HH +:+ ":" +:+ MM) p)
  /\ parseOffset (Sign_text sign +:+ HH) p
    = withRaw (Sign_text sign +:+ HH)
        (parseOffset (Sign_text sign +:+ HH +:+ ":" +:+ "00") p)
  /\ (forall rest,
        JS.includes ":" rest = false ->
        String.length rest <> 0 -> String.length rest <> 2 ->
        String.length rest <> 4 ->
        parseOffset (Sign_text sign +:+ rest) p
        = Err (ParseError (OffsetBadFormat (Sign_text sign +:+ rest)) p)).
Proof.
  intros NH LH NM LM.
  pose proof (digits_noColon _ (isNumeral_digits _ NH)) as CH.
  pose proof (digits_noColon _ (isNumeral_digits _ NM)) as CM.
  assert (TH : forall label, toInt HH label p = Ok (decimal HH))
    by (intros; apply toInt_short; [exact NH|lia]).
  assert (TM : forall label, toInt MM label p = Ok (decimal MM))
    by (intros; apply toInt_short; [exact NM|lia]).
  assert (Colon : forall M, JS.includes ":" M = false ->
            forall m, toInt M "offset minutes" p = Ok m ->
            parseOffset (Sign_text sign +:+ HH +:+ ":" +:+ M) p
            = checkedOffset sign (decimal HH) m (Sign_text sign +:+ HH +:+ ":" +:+ M) p).
  { intros M HcM m HM. rewrite parseOffset_signed.
    rewrite length_app_colon, includes_app_colon, split_app_colon by assumption.
    cbv zeta. rewrite TH. cbn [bind]. rewrite HM. reflexivity. }
  split; [|split].
  - rewrite (Colon MM CM _ (TM _)). rewrite parseOffset_signed.
    destruct (two_chars HH LH) as (a & b & ->).
    destruct (two_chars MM LM) as (c & d & ->).
    replace (JS.includes ":" (String a (String b "") +:+ String c (String d "")))
      with false.
    2:{ symmetry. apply digits_noColon. rewrite strAll_app.
        apply andb_true_iff. split; apply isNumeral_digits; assumption. }
    change (String.length (String a (String b "") +:+ String c (String d ""))) with 4.
    cbn [Nat.eqb].
    change (JS.slice 0 2 (String a (String b "") +:+ String c (String d "")))
      with (String a (String b "")).
    change (JS.slice 2 4 (String a (String b "") +:+ String c (String d "")))
      with (String c (String d "")).
    cbv zeta. rewrite TH. cbn [bind]. rewrite TM. cbn [bind].
    unfold checkedOffset.
    destruct (_ || _)%Z; [reflexivity|]. destruct (_ || _)%Z; reflexivity.
  - rewrite (Colon "00" eq_refl 0%Z eq_refl). rewrite parseOffset_signed.
    rewrite CH, LH. cbn [Nat.eqb]. cbv zeta. rewrite TH. cbn [bind].
    unfold checkedOffset.
    destruct (_ || _)%Z; [reflexivity|]. destruct (_ || _)%Z; reflexivity.
  - intros rest Hc L0 L2 L4. rewrite parseOffset_signed, Hc.
    destruct (Nat.eqb_spec (String.length rest) 0) as [?|_]; [contradiction|].
    destruct (Nat.eqb_spec (String.length rest) 4) as [?|_]; [contradiction|].
    destruct (Nat.eqb_spec (String.length rest) 2) as [?|_]; [contradiction|].
    reflexivity.
Qed.

Lemma parseOffset_shapes_agree_witness :
  parseOffset "-0530" 7 = Ok (NumericOffset SignMinus 5 30 "-0530").
Proof.
  exact (proj1 (parseOffset_shapes_agree SignMinus "05" "30" 7
                  eq_refl eq_refl eq_refl eq_refl)).
Defined.

(** ** [toInt] on signed digits between white space *)

Section SignedDigits.

Import JSNumber.

Lemma trimStart_spaces ws s :
  strAll JS.isWhitespace ws = true -> JS.trimStart (ws +:+ s) = JS.trimStart s.
Proof.
  induction ws as [|c ws IH]; [reflexivity|]. simpl. intros H.
  apply andb_true_iff in H as [Hc Hs]. rewrite Hc. exact (IH Hs).
Qed.

Lemma trimEnd_spaces_only ws : strAll JS.isWhitespace ws = true -> JS.trimEnd ws = "".
Proof.
  induction ws as [|c ws IH]; [reflexivity|]. simpl. intros H.
  apply andb_true_iff in H as [Hc Hs]. rewrite (IH Hs), Hc. reflexivity.
Qed.

Lemma trimEnd_spaces s ws :
  strAll JS.isWhitespace ws = true -> JS.trimEnd (s +:+ ws) = JS.trimEnd s.
Proof.
  intros H. induction s as [|c s IH].
  - rewrite append_nil_l. simpl. apply trimEnd_spaces_only. exact H.
  - rewrite append_cons. cbn [JS.trimEnd]. rewrite IH. reflexivity.
Qed.

Lemma trimEnd_behind c s :
  JS.trimEnd s = s -> s <> "" -> JS.trimEnd (String c s) = String c s.
Proof.
  intros H Hne. cbn [JS.trimEnd]. rewrite H. destruct s; [congruence|reflexivity].
Qed.

(** The text between the white space: digits behind an optional sign. *)
Lemma trim_signed ws1 ws2 sg ds :
  strAll JS.isWhitespace ws1 = true -> strAll JS.isWhitespace ws2 = true ->
  isNumeral ds = true -> sg = "" \/ sg = "+" \/ sg = "-" ->
  JS.trim (ws1 +:+ (sg +:+ ds) +:+ ws2) = sg +:+ ds.
Proof.
  intros H1 H2 Hds Hsg. unfold JS.trim.
  rewrite trimStart_spaces by exact H1.
  pose proof (isNumeral_digits _ Hds) as Hd.
  destruct ds as [|d ds]; [discriminate|].
  assert (Hdigit : isDigit d = true) by (simpl in Hd; apply andb_true_iff in Hd; tauto).
  assert (E : JS.trimStart ((sg +:+ String d ds) +:+ ws2) = (sg +:+ String d ds) +:+ ws2).
  { destruct Hsg as [-> | [-> | ->]]; rewrite ?append_nil_l, ?append_cons; simpl;
      try reflexivity.
    rewrite (digit_not_whitespace d Hdigit). reflexivity. }
  rewrite E, trimEnd_spaces by exact H2.
  pose proof (trimEnd_numeral _ Hd) as Ht.
  destruct Hsg as [-> | [-> | ->]]; [exact Ht| |];
    apply (trimEnd_behind _ (String d ds)); (exact Ht || discriminate).
Qed.

Lemma roundToNumber_opp n :
  (0 < n < 2 ^ 53)%Z ->
  exists q, roundToNumber (Qopp (Qmake n 1)) = Finite q
            /\ (Qnum q mod Zpos (Qden q) = 0)%Z /\ (Qnum q / Zpos (Qden q) = - n)%Z.
Proof.
  intros Hn.
  destruct (roundToNumber_safe n ltac:(lia)) as (q & Hq & Hmod & Hdiv).
  exists (Qopp q). revert Hq. unfold roundToNumber.
  cbn [Qopp Qnum Qden]. rewrite Z.abs_opp.
  destruct (Z.abs n =? 0)%Z eqn:E0; [apply Z.eqb_eq in E0; lia|].
  destruct (nearestDouble (Z.abs n) 1) as [m e].
  assert (N1 : (n <? 0)%Z = false) by (apply Z.ltb_ge; lia).
  assert (N2 : (- n <? 0)%Z = true) by (apply Z.ltb_lt; lia).
  rewrite N1, N2.
  destruct (0 <=? e)%Z.
  - destruct (2 ^ 1024 <=? m * 2 ^ e)%Z; [discriminate|].
    intros [= <-]. cbn [Qopp Qnum Qden] in *. split; [reflexivity|].
    rewrite Z.mod_1_r, Z.div_1_r in *. split; [reflexivity|]. lia.
  - intros [= <-]. split.
    + f_equal. rewrite <- Qred_opp. reflexivity.
    + cbn [Qopp Qnum Qden].
      set (r := Qred (m # Z.to_pos (2 ^ (- e)))) in *.
      apply Z.mod_divide in Hmod; [|lia]. destruct Hmod as [k Hk].
      rewrite Hk in *. rewrite Z.div_mul in Hdiv by lia. subst k.
      rewrite <- Z.mul_opp_l. split; [apply Z.mod_mul; lia|apply Z.div_mul; lia].
Qed.

Lemma numeral_not_Infinity ds : isNumeral ds = true -> String.eqb ds "Infinity" = false.
Proof.
  intros H. pose proof (isNumeral_digits _ H) as Hd.
  destruct ds as [|c ds]; [reflexivity|]. simpl in Hd.
  apply andb_true_iff in Hd as [Hc _]. simpl.
  rewrite (digit_neq c "I") by (assumption || reflexivity). reflexivity.
Qed.

Lemma ofString_signed (negative : bool) ds t :
  isNumeral ds = true ->
  JS.trim t = String (if negative then "-"%char else "+"%char) ds ->
  ofString t
  = roundToNumber (if negative then Qopp (decimal ds # 1)%Q else (decimal ds # 1)%Q).
Proof.
  intros H Ht. unfold ofString. rewrite Ht.
  pose proof (unsignedDecimal_numeral ds (decimal ds) H
                (digitsValue_decimal _ 0 (isNumeral_digits _ H))) as Hu.
  rewrite Z.pow_0_r, Z.mul_1_r in Hu.
  destruct negative; cbn [nonDecimalRadix takeSign];
    cbn [Ascii.eqb Bool.eqb]; cbv iota;
    rewrite (numeral_not_Infinity ds H), Hu; reflexivity.
Qed.

End SignedDigits.

(** X8.  [toInt] does not ask for bare digits: white space around the
    text is ignored and a sign is read, so that digits, digits behind
    a plus and digits behind a minus give the number, the number and its
    opposite, and a text that is empty or all white space gives 0. *)
Theorem toInt_signed_between_spaces ws1 ws2 ds label p :
  strAll JS.isWhitespace ws1 = true -> strAll JS.isWhitespace ws2 = true ->
  isNumeral ds = true -> (decimal ds < 2 ^ 53)%Z ->
  toInt (ws1 +:+ ds +:+ ws2) label p = Ok (decimal ds)
  /\ toInt (ws1 +:+ ("+" +:+ ds) +:+ ws2) label p = Ok (decimal ds)
  /\ toInt (ws1 +:+ ("-" +:+ ds) +:+ ws2) label p = Ok (- decimal ds)%Z
  /\ toInt (ws1 +:+ ws2) label p = Ok 0%Z.
Proof.
  intros H1 H2 Hds Hlt.
  pose proof (decimal_bounds ds (isNumeral_digits _ Hds)) as [Hge _].
  assert (Plus : forall t, JS.trim t = "+" +:+ ds -> toInt t label p = Ok (decimal ds)).
  { intros t Ht. rewrite toInt_spec, (ofString_signed false ds t Hds Ht).
    destruct (roundToNumber_safe (decimal ds) ltac:(lia)) as (q & -> & Hmod & Hdiv).
    rewrite Hmod, Hdiv. reflexivity. }
  split; [|split; [|split]].
  - rewrite toInt_spec.
    assert (E : JSNumber.ofString (ws1 +:+ ds +:+ ws2) = JSNumber.ofString ds).
    { pose proof (trim_signed ws1 ws2 "" ds H1 H2 Hds (or_introl eq_refl)) as T.
      rewrite append_nil_l in T. unfold JSNumber.ofString.
      rewrite T, (trim_numeral ds (isNumeral_digits _ Hds)). reflexivity. }
    rewrite E, (ofString_numeral ds (decimal ds) Hds
                  (digitsValue_decimal _ 0 (isNumeral_digits _ Hds))).
    rewrite Z.pow_0_r, Z.mul_1_r.
    destruct (roundToNumber_safe (decimal ds) ltac:(lia)) as (q & -> & Hmod & Hdiv).
    rewrite Hmod, Hdiv. reflexivity.
  - apply Plus. apply (trim_signed ws1 ws2 "+" ds); auto.
  - rewrite toInt_spec.
    rewrite (ofString_signed true ds _ Hds
               (trim_signed ws1 ws2 "-" ds H1 H2 Hds (or_intror (or_intror eq_refl)))).
    destruct (Z.eq_dec (decimal ds) 0%Z) as [E0|N0].
    + rewrite E0. reflexivity.
    + destruct (roundToNumber_opp (decimal ds) ltac:(lia)) as (q & -> & Hmod & Hdiv).
      rewrite Hmod, Hdiv. reflexivity.
  - unfold toInt, JSNumber.ofString, JS.trim.
    rewrite trimStart_spaces by exact H1.
    replace (JS.trimEnd (JS.trimStart ws2)) with "".
    + reflexivity.
    + symmetry. apply trimEnd_spaces_only.
      clear -H2. induction ws2 as [|c ws IH]; [reflexivity|]. simpl in *.
      apply andb_true_iff in H2 as [Hc Hs]. rewrite Hc. exact (IH Hs).
Qed.

Lemma toInt_signed_between_spaces_witness :
  toInt "  12  " "test" 0 = Ok 12%Z
  /\ toInt "  +12  " "test" 0 = Ok 12%Z
  /\ toInt "  -12  " "test" 0 = Ok (-12)%Z
  /\ toInt "    " "test" 0 = Ok 0%Z.
Proof.
  exact (toInt_signed_between_spaces "  " "  " "12" "test" 0
           eq_refl eq_refl eq_refl eq_refl).
Defined.

(** ** The time-of-day parser *)

Section TimeStringFacts.

Import TimeString.

Variable trimmed : string.
Variable tokens : list Token.

Lemma time_bind_Done {A B} (m : M A) (k : A -> M B) i b j :
  bindM m k i = Done (b, j) ->
  exists a i1, m i = Done (a, i1) /\ k a i1 = Done (b, j).
Proof.
  unfold bindM. destruct (m i) as [[a i1]|f]; [|discriminate]. eauto.
Qed.

Lemma time_peek_Done k i t j :
  peek tokens k i = Done (t, j) -> j = i /\ In t tokens.
Proof.
  unfold peek. destruct (tokens !! _) as [t1|] eqn:E; [|discriminate].
  intros [= <- <-]. split; [reflexivity|]. exact (lookup_In _ _ _ E).
Qed.

Lemma time_eat_Done ty i t j :
  eat trimmed tokens ty i = Done (t, j) ->
  j = S i /\ In t tokens /\ type t = ty.
Proof.
  unfold eat. intros H. apply time_bind_Done in H as (t1 & i1 & Hp & H).
  apply time_peek_Done in Hp as [-> Hin].
  destruct (TokType.eqb (type t1) ty) eqn:E; [|discriminate].
  injection H as <- <-. apply TokType_eqb_eq in E. auto.
Qed.

Lemma time_tryEat_Done ty i o j :
  tryEat trimmed tokens ty i = Done (o, j) ->
  match o with
  | Some t => j = S i /\ In t tokens /\ type t = ty
  | None => j = i
  end.
Proof.
  unfold tryEat, at_. intros H. apply time_bind_Done in H as (b & i1 & Hb & H).
  apply time_bind_Done in Hb as (t1 & i2 & Hp & Hb).
  apply time_peek_Done in Hp as [-> _]. injection Hb as <- <-.
  destruct (TokType.eqb (type t1) ty).
  - apply time_bind_Done in H as (t & i3 & He & H). injection H as <- <-.
    exact (time_eat_Done _ _ _ _ He).
  - injection H as <- <-. reflexivity.
Qed.

(** A fraction is the value of a number token. *)
Definition numberValue (x : string) : Prop :=
  exists t, In t tokens /\ type t = TokType.Number /\ value t = x.

Lemma parseFraction_Done i f j :
  parseFraction trimmed tokens i = Done (f, j) ->
  forall x, f = Some x -> numberValue x.
Proof.
  unfold parseFraction. intros H.
  apply time_bind_Done in H as (dot & i1 & _ & H).
  apply time_bind_Done in H as (sep & i2 & _ & H).
  destruct sep.
  - apply time_bind_Done in H as (t & i3 & He & H). injection H as <- <-.
    apply time_eat_Done in He as (_ & Hin & Ht).
    intros x [= <-]. exists t. auto.
  - injection H as <- <-. discriminate.
Qed.

Definition inClock (m : Z) (s : option Z) (f : option string) : Prop :=
  (0 <= m <= 59)%Z
  /\ (forall x, s = Some x -> (0 <= x <= 59)%Z)
  /\ (forall x, f = Some x -> numberValue x).

Lemma parseClock_Done i h m s f j :
  parseClock trimmed tokens i = Done (h, m, s, f, j) -> inClock m s f.
Proof.
  unfold parseClock. intros H.
  apply time_bind_Done in H as (hourTok & i1 & _ & H).
  apply time_bind_Done in H as (colon & i2 & _ & H).
  destruct (negb colon && _).
  - apply time_bind_Done in H as (p & i3 & _ & H).
    apply time_bind_Done in H as (hour & i4 & _ & H).
    apply time_bind_Done in H as (minute & i5 & _ & H).
    apply time_bind_Done in H as (second & i6 & Hs & H).
    destruct ((minute <? 0) || (59 <? minute))%Z eqn:Em; [discriminate|].
    apply time_bind_Done in H as (fraction & i7 & Hf & H).
    injection H as <- <- <- <- <-.
    apply orb_false_iff in Em as [E1 E2].
    apply Z.ltb_ge in E1. apply Z.ltb_ge in E2.
    split; [lia|]. split; [|exact (parseFraction_Done _ _ _ Hf)].
    destruct (_ =? 6)%nat.
    + apply time_bind_Done in Hs as (sec & i8 & _ & Hs).
      destruct ((sec <? 0) || (59 <? sec))%Z eqn:Es; [discriminate|].
      injection Hs as <- <-. intros x [= <-].
      apply orb_false_iff in Es as [E3 E4].
      apply Z.ltb_ge in E3. apply Z.ltb_ge in E4. lia.
    + injection Hs as <- <-. discriminate.
  - apply time_bind_Done in H as (p & i3 & _ & H).
    apply time_bind_Done in H as (hour & i4 & _ & H).
    apply time_bind_Done in H as ([c|] & i5 & _ & H).
    2:{ injection H as <- <- <- <- <-. repeat split; try lia; discriminate. }
    apply time_bind_Done in H as (minuteTok & i6 & _ & H).
    apply time_bind_Done in H as (p2 & i7 & _ & H).
    apply time_bind_Done in H as (minute & i8 & _ & H).
    destruct (negb _); [discriminate|].
    destruct ((minute <? 0) || (59 <? minute))%Z eqn:Em; [discriminate|].
    apply orb_false_iff in Em as [E1 E2].
    apply Z.ltb_ge in E1. apply Z.ltb_ge in E2.
    apply time_bind_Done in H as ([c2|] & i9 & _ & H).
    2:{ injection H as <- <- <- <- <-. repeat split; try lia; discriminate. }
    apply time_bind_Done in H as (secondTok & i10 & _ & H).
    apply time_bind_Done in H as (p3 & i11 & _ & H).
    apply time_bind_Done in H as (sec & i12 & _ & H).
    destruct ((sec <? 0) || (59 <? sec))%Z eqn:Es; [discriminate|].
    apply orb_false_iff in Es as [E3 E4].
    apply Z.ltb_ge in E3. apply Z.ltb_ge in E4.
    apply time_bind_Done in H as (fraction & i13 & Hf & H).
    injection H as <- <- <- <- <-.
    split; [lia|]. split; [|exact (parseFraction_Done _ _ _ Hf)].
    intros x [= <-]. lia.
Qed.

Lemma convertHour_Done a h i h1 j :
  convertHour a h i = Done (h1, j) -> (0 <= h1 <= 23)%Z.
Proof.
  unfold convertHour. destruct a as [ampm|].
  - destruct ((h <? 1) || (12 <? h))%Z eqn:E; [discriminate|].
    apply orb_false_iff in E as [E1 E2].
    apply Z.ltb_ge in E1. apply Z.ltb_ge in E2.
    destruct (String.eqb ampm "P").
    + destruct (Z.eqb_spec h 12); intros [= <- _]; simpl; lia.
    + destruct (Z.eqb_spec h 12); intros [= <- _]; lia.
  - destruct ((h <? 0) || (23 <? h))%Z eqn:E; [discriminate|].
    apply orb_false_iff in E as [E1 E2].
    apply Z.ltb_ge in E1. apply Z.ltb_ge in E2.
    intros [= <- _]. lia.
Qed.

Lemma parseTokens_Done i t j :
  parseTokens trimmed tokens i = Done (t, j) ->
  (0 <= hour t <= 23)%Z /\ inClock (minute t) (second t) (fraction t).
Proof.
  unfold parseTokens. intros H.
  apply time_bind_Done in H as ([[[h m] s] f] & i1 & Hc & H).
  apply time_bind_Done in H as (a & i2 & _ & H).
  apply time_bind_Done in H as (e & i3 & _ & H).
  apply time_bind_Done in H as (h1 & i4 & Hh & H).
  injection H as <- <-. cbn [hour minute second fraction].
  split; [exact (convertHour_Done _ _ _ _ _ Hh)|exact (parseClock_Done _ _ _ _ _ _ Hc)].
Qed.

End TimeStringFacts.

Lemma Lexed_numbers l :
  Lexed l -> Forall (fun t => type t = TokType.Number -> isNumeral (value t) = true) l.
Proof.
  induction 1 as [e He|t l Ht Hl IH|lb seg rb l Hlb Hrb Hseg Hl IH].
  - repeat constructor. rewrite He. discriminate.
  - constructor; [|exact IH]. destruct Ht as (_ & _ & _ & Hn). exact Hn.
  - constructor; [rewrite Hlb; discriminate|].
    apply Forall_app. split.
    + revert Hseg. apply List.Forall_impl. intros t (Hty & _) E.
      rewrite E in Hty. discriminate.
    + constructor; [rewrite Hrb; discriminate|exact IH].
Qed.

(** X9.  Whatever [parseTimeString] returns is a time of day: the hour
    is between 0 and 23, also behind AM and PM, the minute between 0 and
    59, a second, if any, between 0 and 59, and a fraction, if any, a run of
    digits. *)
Theorem parseTimeString_time_of_day input t :
  parseTimeString input = TimeString.Done t ->
  (0 <= hour t <= 23)%Z /\ (0 <= minute t <= 59)%Z
  /\ (forall s, second t = Some s -> (0 <= s <= 59)%Z)
  /\ (forall f, fraction t = Some f -> isNumeral f = true).
Proof.
  unfold parseTimeString. cbv zeta.
  destruct (negb _); [discriminate|].
  destruct (lexTemporal (JS.trim input)) as [l|e] eqn:El; [|discriminate].
  destruct (TimeString.parseTokens _ l 0) as [[t1 j]|f] eqn:Ep; [|discriminate].
  intros [= ->].
  apply parseTokens_Done in Ep as (Hh & Hm & Hs & Hf).
  split; [exact Hh|]. split; [exact Hm|]. split; [exact Hs|].
  intros f E. destruct (Hf f E) as (tok & Hin & Hty & <-).
  pose proof (Lexed_numbers l (lexTemporal_Lexed _ _ El)) as HN.
  rewrite List.Forall_forall in HN. exact (HN tok Hin Hty).
Qed.

Lemma parseTimeString_time_of_day_witness :
  (0 <= 23 <= 23)%Z /\ (0 <= 59 <= 59)%Z
  /\ (forall s, Some 58%Z = Some s -> (0 <= s <= 59)%Z)
  /\ (forall f, Some "25" = Some f -> isNumeral f = true).
Proof.
  exact (parseTimeString_time_of_day " 11:59:58,25 p.m. "
           (mkTime 23 59 (Some 58%Z) (Some "25")) eq_refl).
Defined.

(** *** The parser on the tokens of a time *)

Section TimeStringCursor.

Import TimeString.

Variable trimmed : string.
Variable tokens : list Token.

Lemma time_drop_head i (t : Token) r : drop i tokens = t :: r -> tokens !! i = Some t.
Proof.
  intros H. rewrite <- (Nat.add_0_r i), <- lookup_drop, H. reflexivity.
Qed.

Lemma time_drop_tail i (t : Token) r : drop i tokens = t :: r -> drop (S i) tokens = r.
Proof.
  intros H. pose proof (drop_S _ _ _ (time_drop_head i t r H)) as E.
  rewrite H in E. congruence.
Qed.

Lemma time_peek_drop i t r : drop i tokens = t :: r -> peek tokens 0 i = Done (t, i).
Proof.
  intros H. apply time_drop_head in H. unfold peek.
  assert (i < length tokens) by (eapply lookup_lt_Some; eauto).
  replace (Nat.min (i + 0) (length tokens - 1)) with i by lia.
  rewrite H. reflexivity.
Qed.

Lemma TokType_eqb_refl ty : TokType.eqb ty ty = true.
Proof. destruct ty; reflexivity. Qed.

Lemma TokType_eqb_neq a b : a <> b -> TokType.eqb a b = false.
Proof.
  intros H. destruct (TokType.eqb a b) eqn:E; [|reflexivity].
  apply TokType_eqb_eq in E. contradiction.
Qed.

Lemma time_at_drop i t r ty :
  drop i tokens = t :: r -> at_ tokens ty i = Done (TokType.eqb (type t) ty, i).
Proof. intros H. unfold at_, bindM. rewrite (time_peek_drop i t r H). reflexivity. Qed.

Lemma time_eat_drop i t r ty :
  drop i tokens = t :: r -> type t = ty -> eat trimmed tokens ty i = Done (t, S i).
Proof.
  intros H <-. unfold eat, bindM. rewrite (time_peek_drop i t r H).
  rewrite TokType_eqb_refl. reflexivity.
Qed.

Lemma time_eat_drop_other i t r ty :
  drop i tokens = t :: r -> type t <> ty ->
  eat trimmed tokens ty i = Failed (TimeError (InvalidTimeFormat trimmed) i).
Proof.
  intros H Hty. unfold eat, bindM. rewrite (time_peek_drop i t r H).
  rewrite TokType_eqb_neq by exact Hty. reflexivity.
Qed.

Lemma time_tryEat_drop i t r ty :
  drop i tokens = t :: r -> type t = ty ->
  tryEat trimmed tokens ty i = Done (Some t, S i).
Proof.
  intros H E. unfold tryEat, bindM. rewrite (time_at_drop i t r ty H), E.
  rewrite TokType_eqb_refl, (time_eat_drop i t r ty H E). reflexivity.
Qed.

Lemma time_tryEat_drop_other i t r ty :
  drop i tokens = t :: r -> type t <> ty ->
  tryEat trimmed tokens ty i = Done (None, i).
Proof.
  intros H E. unfold tryEat, bindM. rewrite (time_at_drop i t r ty H).
  rewrite TokType_eqb_neq by exact E. reflexivity.
Qed.

Lemma time_bind {A B} (m : M A) (k : A -> M B) i a j :
  m i = Done (a, j) -> bindM m k i = k a j.
Proof. intros H. unfold bindM. rewrite H. reflexivity. Qed.

Lemma time_bind_assoc {A B C} (m : M A) (f : A -> M B) (g : B -> M C) i :
  bindM (bindM m f) g i = bindM m (fun a => bindM (f a) g) i.
Proof. unfold bindM. destruct (m i) as [[a j]|e]; reflexivity. Qed.

Lemma time_bind_ret {A B} (a : A) (k : A -> M B) i : bindM (ret a) k i = k a i.
Proof. reflexivity. Qed.

Lemma time_lift {A} (x : Result A) a i : x = Ok a -> lift x i = Done (a, i).
Proof. intros ->. reflexivity. Qed.

End TimeStringCursor.

(** One step of the time parser on the token under the index, [H] being
    the tokens from the index on. *)
Ltac t_eat H :=
  match type of H with
  | drop ?i ?toks = ?t :: _ =>
      rewrite (time_bind _ _ i t (S i))
        by (apply (time_eat_drop _ toks i t _ _ H); first [assumption|reflexivity]);
      apply time_drop_tail in H; cbv beta iota
  end.

Ltac t_tryEat H :=
  match type of H with
  | drop ?i ?toks = ?t :: _ =>
      rewrite (time_bind _ _ i (Some t) (S i))
        by (apply (time_tryEat_drop _ toks i t _ _ H); first [assumption|reflexivity]);
      apply time_drop_tail in H; cbv beta iota
  end.

Ltac t_tryEat_no H :=
  match type of H with
  | drop ?i ?toks = ?t :: _ =>
      rewrite (time_bind _ _ i None i)
        by (apply (time_tryEat_drop_other _ toks i t _ _ H); type_differs);
      cbv beta iota
  end.

Ltac t_at H b :=
  match type of H with
  | drop ?i ?toks = ?t :: _ =>
      rewrite (time_bind _ _ i b i)
        by (rewrite (time_at_drop toks i t _ _ H);
            first [ match goal with E : type t = _ |- _ => rewrite E end; reflexivity
                  | rewrite TokType_eqb_neq by type_differs; reflexivity
                  | reflexivity ]);
      cbv beta iota
  end.

Ltac t_ret :=
  repeat match goal with
         | |- context [TimeString.bindM (TimeString.ret ?a) ?k ?j] =>
             rewrite (time_bind_ret a k j); cbv beta iota
         end.

Ltac t_position :=
  match goal with
  | |- context [TimeString.bindM TimeString.position _ ?i] =>
      rewrite (time_bind TimeString.position _ i i i) by reflexivity; cbv beta iota
  end.

Ltac t_toInt n :=
  match goal with
  | |- context [TimeString.bindM (TimeString.lift (toInt ?s ?l ?p)) _ ?i] =>
      rewrite (time_bind (TimeString.lift (toInt s l p)) _ i n i)
        by (apply time_lift; cbn [value tk]; auto);
      cbv beta iota
  end.

(** The digits of a time as they are written. *)
Inductive Clock :=
| HourOnly (H : string)
| HourMinute (H MM : string)
| HourMinuteSecond (H MM SS : string)
| HourMinuteSecondFraction (H MM SS : string) (comma : bool) (F : string).

Definition separatorText (comma : bool) : string := if comma then "," else ".".


(** A run of digits that denotes a safe integer. *)
Definition digits (s : string) : Prop := isNumeral s = true /\ (decimal s < 2 ^ 53)%Z.

(** The texts [parseTimeString] reads as extended format: an hour of any
    number of digits, but not of four or six when it stands alone, minutes
    of two digits up to 59, seconds up to 59, and any digits as fraction. *)
Definition clockOK (c : Clock) : Prop :=
  match c with
  | HourOnly H => digits H /\ String.length H <> 4 /\ String.length H <> 6
  | HourMinute H MM =>
      digits H /\ isNumeral MM = true /\ String.length MM = 2 /\ (decimal MM <= 59)%Z
  | HourMinuteSecond H MM SS =>
      digits H /\ isNumeral MM = true /\ String.length MM = 2 /\ (decimal MM <= 59)%Z
      /\ digits SS /\ (decimal SS <= 59)%Z
  | HourMinuteSecondFraction H MM SS _ F =>
      digits H /\ isNumeral MM = true /\ String.length MM = 2 /\ (decimal MM <= 59)%Z
      /\ digits SS /\ (decimal SS <= 59)%Z /\ isNumeral F = true
  end.



Definition separatorRaw (comma : bool) : Token :=
  if comma then tk TokType.Comma "," else tk TokType.Dot ".".


(** A token list up to the offsets of its tokens. *)
Definition reads (l1 l : list Token) : Prop := map normT l1 = l.

Lemma reads_cons l1 t l :
  reads l1 (t :: l) ->
  exists t1 l2, l1 = t1 :: l2 /\ normT t1 = t /\ reads l2 l.
Proof.
  unfold reads. destruct l1 as [|t1 l2]; [discriminate|]. cbn [map].
  intros [= E1 E2]. exists t1, l2. auto.
Qed.

Lemma reads_nil l1 : reads l1 [] -> l1 = [].
Proof. unfold reads. destruct l1; [reflexivity|discriminate]. Qed.

Lemma reads_app l a b :
  reads l (a ++ b) -> exists la lb, l = la ++ lb /\ reads la a /\ reads lb b.
Proof.
  revert l. induction a as [|t a IH]; intros l H.
  - exists [], l. split; [reflexivity|]. split; [reflexivity|exact H].
  - cbn [app] in H. apply reads_cons in H as (t1 & l2 & -> & E & H).
    destruct (IH l2 H) as (la & lb & -> & Ha & Hb).
    exists (t1 :: la), lb. split; [reflexivity|]. split; [|exact Hb].
    unfold reads in *. cbn [map]. rewrite Ha, E. reflexivity.
Qed.

Lemma reads_length l a : reads l a -> length l = length a.
Proof. unfold reads. intros <-. rewrite length_map. reflexivity. Qed.

(** Takes the first token off a token list known up to offsets. *)
Ltac take_token Hseg t T V :=
  let l := fresh "l" in
  let E := fresh "E" in
  apply reads_cons in Hseg as (t & l & -> & E & Hseg);
  pose proof (f_equal type E) as T; pose proof (f_equal value E) as V;
  clear E; cbn [normT type value tk] in T, V.

Section TimeStringClock.

Import TimeString.

Variable trimmed : string.
Variable tokens : list Token.

Lemma range_check n : (0 <= n <= 59)%Z -> ((n <? 0) || (59 <? n))%Z = false.
Proof. intros H. apply orb_false_iff. split; apply Z.ltb_ge; lia. Qed.

Lemma parseFraction_absent i t r :
  drop i tokens = t :: r -> type t <> TokType.Dot -> type t <> TokType.Comma ->
  parseFraction trimmed tokens i = Done (None, i).
Proof.
  intros H H1 H2. unfold parseFraction.
  t_tryEat_no H. rewrite time_bind_assoc. t_tryEat_no H. reflexivity.
Qed.

Lemma parseFraction_present i sep f r :
  drop i tokens = sep :: f :: r ->
  type sep = TokType.Dot \/ type sep = TokType.Comma -> type f = TokType.Number ->
  parseFraction trimmed tokens i = Done (Some (value f), S (S i)).
Proof.
  intros H Hs Hf. unfold parseFraction. destruct Hs as [Hs|Hs].
  - t_tryEat H. t_ret. t_eat H. reflexivity.
  - t_tryEat_no H. rewrite time_bind_assoc. t_tryEat H.
    t_ret. t_eat H. reflexivity.
Qed.


End TimeStringClock.


(** The word starts with [P] or [p]. *)
Definition isPM (w : string) : bool :=
  String.eqb (JS.slice 0 1 (toUpperCase w)) "P".







Section TimeStringPeriod.

Import TimeString.

Variable trimmed : string.
Variable tokens : list Token.

Lemma parsePeriod_absent i t r :
  drop i tokens = t :: r -> type t <> TokType.Ident ->
  parsePeriod trimmed tokens i = Done (None, i).
Proof.
  intros H Ht. unfold parsePeriod. t_at H false. reflexivity.
Qed.


End TimeStringPeriod.




(** *** The lexer on the text of a time *)

Lemma Lexes_space c rest l :
  JS.isWhitespace c = true -> Lexes rest l -> Lexes (String c rest) l.
Proof.
  intros Hc Hl i. destruct (Hl (i + 1)) as (l1 & E & Hn).
  exists l1. split; [|exact Hn].
  change (String.length (String c rest)) with (S (String.length rest)).
  rewrite lex_loop_unfold, Hc. exact E.
Qed.

Lemma Lexes_spaces sp rest l :
  strAll JS.isWhitespace sp = true -> Lexes rest l -> Lexes (sp +:+ rest) l.
Proof.
  induction sp as [|c sp IH]; intros H Hl; [exact Hl|].
  simpl in H. apply andb_true_iff in H as [Hc Hs].
  rewrite append_cons. apply Lexes_space; auto.
Qed.




Lemma stopsAt_append p s rest :
  s <> "" -> stopsAt p s = true -> stopsAt p (s +:+ rest) = true.
Proof. destruct s; [congruence|]. intros _ H. exact H. Qed.

Lemma numeral_stops_digit c rest :
  isDigit c = false -> stopsAt isDigit (String c rest) = true.
Proof. intros H. simpl. rewrite H. reflexivity. Qed.




(** *** Texts that [trim] leaves alone *)


Lemma trimEnd_app_keep a b :
  b <> "" -> JS.trimEnd b = b -> JS.trimEnd (a +:+ b) = a +:+ b.
Proof.
  intros Hne Hb. induction a as [|c a IH]; [exact Hb|].
  rewrite append_cons. cbn [JS.trimEnd]. rewrite IH.
  destruct (a +:+ b) eqn:E; [|reflexivity].
  destruct a; [|discriminate]. rewrite append_nil_l in E. congruence.
Qed.


Lemma numeral_nonempty s : isNumeral s = true -> s <> "".
Proof. destruct s; [discriminate|discriminate]. Qed.





Lemma Lexes_lexTemporal s l :
  Lexes s l -> exists l1, lexTemporal s = Ok l1 /\ reads l1 l.
Proof. intros H. exact (H 0). Qed.







(** *** The basic format *)

(** Two digits. *)
Definition twoDigitText (s : string) : Prop :=
  isNumeral s = true /\ String.length s = 2.

(** An optional fraction behind a dot or a comma. *)
Definition timeFractionText (frac : option (bool * string)) : string :=
  match frac with
  | Some (comma, F) => separatorText comma +:+ F
  | None => ""
  end.

Definition timeFractionRaw (frac : option (bool * string)) : list Token :=
  match frac with
  | Some (comma, F) => [separatorRaw comma; tk TokType.Number F]
  | None => []
  end.

Definition timeFractionOK (frac : option (bool * string)) : Prop :=
  match frac with
  | Some (_, F) => isNumeral F = true
  | None => True
  end.

(** The text, if any. *)
Definition optionalText (o : option string) : string :=
  match o with
  | Some s => s
  | None => ""
  end.

Lemma two_digits_chars s :
  twoDigitText s -> exists a b, s = String a (String b "").
Proof. intros [_ H]. exact (two_chars s H). Qed.

Lemma parseTokens_basic trimmed tokens HH MM (sec : option string)
    (frac : option (bool * string)) :
  twoDigitText HH -> twoDigitText MM -> (decimal HH <= 23)%Z -> (decimal MM <= 59)%Z ->
  (forall SS, sec = Some SS -> twoDigitText SS /\ (decimal SS <= 59)%Z) ->
  timeFractionOK frac ->
  reads tokens (tk TokType.Number (HH +:+ MM +:+ optionalText sec)
                :: timeFractionRaw frac ++ [tk TokType.EOF ""]) ->
  exists j,
    TimeString.parseTokens trimmed tokens 0
    = TimeString.Done (mkTime (decimal HH) (decimal MM) (option_map decimal sec)
                         (option_map snd frac), j).
Proof.
  intros HH2 MM2 RH RM Hsec Hfrac Hr.
  assert (Htwo : forall s, twoDigitText s -> forall label p, toInt s label p = Ok (decimal s)).
  { intros s [Hs Hl] label p. apply toInt_short; [exact Hs|lia]. }
  assert (Hnn : forall s, twoDigitText s -> (0 <= decimal s)%Z).
  { intros s [Hs _]. apply decimal_bounds, isNumeral_digits, Hs. }
  pose proof (Htwo HH HH2) as TH. pose proof (Htwo MM MM2) as TM.
  pose proof (Hnn HH HH2) as PH. pose proof (Hnn MM MM2) as PM.
  destruct (two_digits_chars HH HH2) as (a & b & EH).
  destruct (two_digits_chars MM MM2) as (c & d & EM).
  change (tk TokType.Number (HH +:+ MM +:+ optionalText sec)
          :: timeFractionRaw frac ++ [tk TokType.EOF ""])
    with ([tk TokType.Number (HH +:+ MM +:+ optionalText sec)]
          ++ timeFractionRaw frac ++ [tk TokType.EOF ""]) in Hr.
  apply reads_app in Hr as (l0 & lr & -> & H0 & Hr).
  take_token H0 t0 T0 V0. apply reads_nil in H0 as ->.
  apply reads_app in Hr as (lf & le & -> & Hf & He).
  take_token He e Te Ve. apply reads_nil in He as ->.
  assert (Hnext : exists t r, lf ++ [e] = t :: r /\ type t <> TokType.Colon
                              /\ type t <> TokType.Ident).
  { destruct frac as [[comma F]|]; cbn [timeFractionRaw] in Hf.
    - take_token Hf s0 S0 W0. eexists _, _. split; [reflexivity|].
      rewrite S0. destruct comma; split; discriminate.
    - apply reads_nil in Hf as ->. eexists _, _. split; [reflexivity|].
      rewrite Te. split; discriminate. }
  destruct Hnext as (t & r & Et & Nt1 & Nt2).
  assert (H : drop 0 ([t0] ++ lf ++ [e]) = t0 :: t :: r) by (simpl; rewrite Et; reflexivity).
  set (tokens := [t0] ++ lf ++ [e]) in *.
  (* the fraction and what follows *)
  assert (Hfr : exists j,
            TimeString.parseFraction trimmed tokens 1
            = TimeString.Done (option_map snd frac, j)
            /\ drop j tokens = [e]).
  { destruct frac as [[comma F]|]; cbn [timeFractionRaw option_map snd] in *.
    - take_token Hf s0 S0 W0. take_token Hf s1 S1 W1. apply reads_nil in Hf as ->.
      exists 3. split; [|reflexivity].
      rewrite <- W1.
      apply (parseFraction_present trimmed tokens 1 s0 s1 [e]); [reflexivity| |exact S1].
      rewrite S0. destruct comma; auto.
    - apply reads_nil in Hf as ->. exists 1. split; [|reflexivity].
      apply (parseFraction_absent trimmed tokens 1 e []); [reflexivity| |];
        rewrite Te; discriminate. }
  destruct Hfr as (j & Hfr & Hj).
  assert (Hend : forall f,
    (TimeString.bindM (TimeString.parsePeriod trimmed tokens)
       (fun ampmStr =>
          TimeString.bindM (TimeString.eat trimmed tokens TokType.EOF)
            (fun _ =>
               TimeString.bindM (TimeString.convertHour ampmStr (decimal HH))
                 (fun hour => TimeString.ret (mkTime hour (decimal MM) (option_map decimal sec) f))))) j
    = TimeString.Done (mkTime (decimal HH) (decimal MM) (option_map decimal sec) f, S j)).
  { intros f.
    rewrite (time_bind _ _ _ _ _ (parsePeriod_absent trimmed tokens j e [] Hj
               ltac:(rewrite Te; discriminate))).
    t_eat Hj. unfold TimeString.convertHour.
    destruct (Z.ltb_spec (decimal HH) 0) as [?|_]; [lia|].
    destruct (Z.ltb_spec 23 (decimal HH)) as [?|_]; [lia|]. reflexivity. }
  exists (S j). unfold TimeString.parseTokens, TimeString.parseClock.
  rewrite ?time_bind_assoc.
  t_eat H. rewrite time_bind_assoc. t_at H false. cbn [negb andb]. rewrite V0.
  destruct sec as [SS|]; cbn [optionalText option_map].
  - destruct (Hsec SS eq_refl) as [SS2 RS].
    pose proof (Htwo SS SS2) as TS. pose proof (Hnn SS SS2) as PS.
    destruct (two_digits_chars SS SS2) as (x & y & ES).
    assert (E6 : String.length (HH +:+ MM +:+ SS) = 6) by (rewrite EH, EM, ES; reflexivity).
    rewrite E6. cbn [Nat.eqb orb].
    replace (JS.slice 0 2 (HH +:+ MM +:+ SS)) with HH by (rewrite EH, EM, ES; reflexivity).
    replace (JS.slice 2 4 (HH +:+ MM +:+ SS)) with MM by (rewrite EH, EM, ES; reflexivity).
    replace (JS.slice 4 6 (HH +:+ MM +:+ SS)) with SS by (rewrite EH, EM, ES; reflexivity).
    rewrite ?time_bind_assoc. t_position.
    rewrite ?time_bind_assoc. t_toInt (decimal HH).
    rewrite ?time_bind_assoc. t_toInt (decimal MM).
    rewrite ?time_bind_assoc. t_toInt (decimal SS).
    rewrite (range_check (decimal SS)) by lia.
    rewrite ?time_bind_assoc. t_ret.
    rewrite (range_check (decimal MM)) by lia.
    rewrite ?time_bind_assoc.
    rewrite (time_bind _ _ _ _ _ Hfr). cbv beta iota.
    t_ret. apply Hend.
  - rewrite append_nil_r.
    assert (E4 : String.length (HH +:+ MM) = 4) by (rewrite EH, EM; reflexivity).
    rewrite E4. cbn [Nat.eqb orb].
    replace (JS.slice 0 2 (HH +:+ MM)) with HH by (rewrite EH, EM; reflexivity).
    replace (JS.slice 2 4 (HH +:+ MM)) with MM by (rewrite EH, EM; reflexivity).
    rewrite ?time_bind_assoc. t_position.
    rewrite ?time_bind_assoc. t_toInt (decimal HH).
    rewrite ?time_bind_assoc. t_toInt (decimal MM).
    rewrite ?time_bind_assoc. t_ret.
    rewrite (range_check (decimal MM)) by lia.
    rewrite ?time_bind_assoc.
    rewrite (time_bind _ _ _ _ _ Hfr). cbv beta iota.
    t_ret. apply Hend.
Qed.

Lemma isNumeral_append a b :
  isNumeral a = true -> strAll isDigit b = true -> isNumeral (a +:+ b) = true.
Proof.
  unfold isNumeral. intros Ha Hb. apply andb_true_iff in Ha as [Hne Ha].
  rewrite strAll_app, Ha, Hb. destruct a; [discriminate|reflexivity].
Qed.

Lemma Lexes_fraction frac :
  timeFractionOK frac -> Lexes (timeFractionText frac) (timeFractionRaw frac ++ [tk TokType.EOF ""]).
Proof.
  intros Hok. destruct frac as [[comma F]|]; cbn [timeFractionText timeFractionRaw app];
    [|exact Lexes_end].
  pose proof (Lexes_numeral F "" _ Hok eq_refl Lexes_end) as HF.
  rewrite append_nil_r in HF.
  destruct comma; cbn [separatorText separatorRaw]; rewrite append_cons, append_nil_l.
  - apply (Lexes_punct ","%char TokType.Comma); [reflexivity|exact HF].
  - apply (Lexes_punct "."%char TokType.Dot); [reflexivity|exact HF].
Qed.

Lemma fraction_stops frac : stopsAt isDigit (timeFractionText frac) = true.
Proof. destruct frac as [[[] F]|]; reflexivity. Qed.

Lemma trimEnd_fraction frac :
  timeFractionOK frac -> frac <> None ->
  timeFractionText frac <> "" /\ JS.trimEnd (timeFractionText frac) = timeFractionText frac.
Proof.
  intros Hok Hne. destruct frac as [[comma F]|]; [|congruence].
  cbn [timeFractionText timeFractionOK] in *. split; [destruct comma; discriminate|].
  apply trimEnd_app_keep; [exact (numeral_nonempty _ Hok)|].
  apply trimEnd_numeral, isNumeral_digits, Hok.
Qed.

Lemma trim_digits_first T rest :
  isNumeral T = true ->
  rest = "" \/ (rest <> "" /\ JS.trimEnd rest = rest) ->
  JS.trim (T +:+ rest) = T +:+ rest /\ JSNumber.nonEmpty (T +:+ rest) = true.
Proof.
  intros HT Hrest. unfold JS.trim.
  destruct (numeral_head T rest HT) as (d & s & E & Hd).
  assert (Es : JS.trimStart (T +:+ rest) = T +:+ rest).
  { rewrite E. simpl. rewrite (digit_not_whitespace d Hd). reflexivity. }
  rewrite Es. split; [|rewrite E; reflexivity].
  destruct Hrest as [-> | [Hne Hr]].
  - rewrite append_nil_r. apply trimEnd_numeral, isNumeral_digits, HT.
  - apply trimEnd_app_keep; assumption.
Qed.

(** X12.  The basic format.  A lone number of four or six digits is not
    an hour: it is read as [HHMM] or [HHMMSS], two digits each, with the
    ranges of the 24-hour clock, and gives the time the extended format
    gives for the same digits.  A fraction behind a dot or a comma is kept
    behind either width, so that a fraction can stand behind the minutes,
    which the extended format rejects. *)
Theorem parseTimeString_basic_format HH MM sec frac :
  twoDigitText HH -> twoDigitText MM -> (decimal HH <= 23)%Z -> (decimal MM <= 59)%Z ->
  (forall SS, sec = Some SS -> twoDigitText SS /\ (decimal SS <= 59)%Z) ->
  timeFractionOK frac ->
  parseTimeString (HH +:+ MM +:+ optionalText sec +:+ timeFractionText frac)
  = TimeString.Done (mkTime (decimal HH) (decimal MM) (option_map decimal sec)
                       (option_map snd frac))
  /\ (timeFractionText frac <> "" ->
      parseTimeString (HH +:+ ":" +:+ MM +:+ timeFractionText frac)
      = TimeString.Failed
          (TimeString.TimeError
             (TimeString.InvalidTimeFormat (HH +:+ ":" +:+ MM +:+ timeFractionText frac)) 3)).
Proof.
  intros HH2 MM2 RH RM Hsec Hfrac.
  assert (NT : isNumeral (HH +:+ MM +:+ optionalText sec) = true).
  { apply isNumeral_append; [exact (proj1 HH2)|]. rewrite strAll_app.
    rewrite (isNumeral_digits _ (proj1 MM2)).
    destruct sec as [SS|]; [|reflexivity].
    exact (isNumeral_digits _ (proj1 (proj1 (Hsec SS eq_refl)))). }
  assert (Hrest : timeFractionText frac = ""
                  \/ (timeFractionText frac <> ""
                      /\ JS.trimEnd (timeFractionText frac) = timeFractionText frac)).
  { destruct frac as [p|]; [right|left; reflexivity].
    apply trimEnd_fraction; [exact Hfrac|discriminate]. }
  split.
  - destruct (trim_digits_first _ _ NT Hrest) as [Et Ene].
    rewrite !append_assoc in Et, Ene.
    unfold parseTimeString. cbv zeta. rewrite Et, Ene. cbn [negb].
    pose proof (Lexes_numeral _ _ _ NT (fraction_stops frac) (Lexes_fraction frac Hfrac))
      as HL.
    rewrite !append_assoc in HL.
    destruct (Lexes_lexTemporal _ _ HL) as (l1 & -> & Hr).
    destruct (parseTokens_basic (HH +:+ MM +:+ optionalText sec +:+ timeFractionText frac)
                l1 HH MM sec frac HH2 MM2 RH RM Hsec Hfrac Hr) as (j & ->).
    reflexivity.
  - intros Hne. destruct Hrest as [?|[_ Hend]]; [contradiction|].
    destruct frac as [[comma F]|]; [|contradiction].
    cbn [timeFractionText timeFractionOK] in *.
    assert (Hc : isNumeral (HH) = true) by exact (proj1 HH2).
    destruct (trim_digits_first HH (":" +:+ MM +:+ separatorText comma +:+ F) Hc) as [Et Ene].
    { right. split; [discriminate|].
      rewrite <- !append_assoc. apply trimEnd_app_keep.
      - exact (numeral_nonempty _ Hfrac).
      - apply trimEnd_numeral, isNumeral_digits, Hfrac. }
    unfold parseTimeString. cbv zeta. rewrite Et, Ene. cbn [negb].
    assert (HL : Lexes (HH +:+ ":" +:+ MM +:+ separatorText comma +:+ F)
                   ([tk TokType.Number HH; tk TokType.Colon ":"; tk TokType.Number MM]
                    ++ timeFractionRaw (Some (comma, F)) ++ [tk TokType.EOF ""])).
    { apply Lexes_numeral; [exact Hc|reflexivity|].
      rewrite append_cons, append_nil_l.
      apply (Lexes_punct ":"%char TokType.Colon); [reflexivity|].
      apply Lexes_numeral; [exact (proj1 MM2)|destruct comma; reflexivity|].
      exact (Lexes_fraction (Some (comma, F)) Hfrac). }
    destruct (Lexes_lexTemporal _ _ HL) as (l1 & -> & Hr).
    apply reads_app in Hr as (seg & lr & -> & Hseg & Hr).
    cbn [timeFractionRaw app] in Hr.
    take_token Hr s0 S0 W0.
    assert (N1 : type s0 <> TokType.Colon) by (rewrite S0; destruct comma; discriminate).
    assert (N2 : type s0 <> TokType.Ident) by (rewrite S0; destruct comma; discriminate).
    assert (N3 : type s0 <> TokType.EOF) by (rewrite S0; destruct comma; discriminate).
    set (tokens := seg ++ s0 :: l) in *.
    assert (Hd : drop 0 tokens = seg ++ s0 :: l) by reflexivity.
    assert (Hok : clockOK (HourMinute HH MM)).
    { cbn [clockOK]. destruct HH2 as [A1 A2], MM2 as [B1 B2].
      repeat split; auto.
      pose proof (decimal_bounds HH (isNumeral_digits _ A1)) as [_ Hb].
      rewrite A2 in Hb. eapply Z.lt_trans; [exact Hb|]. reflexivity. }
    pose proof (reads_length _ _ Hseg) as Hlen. cbn [length] in Hlen.
    assert (Hclock : TimeString.parseClock
                       (HH +:+ ":" +:+ MM +:+ separatorText comma +:+ F) tokens 0
                     = TimeString.Done (decimal HH, decimal MM, None, None, 3)
                       /\ drop 3 tokens = s0 :: l).
    { clear Hr. revert Hseg Hd. generalize tokens. clear tokens. intros tokens Hseg Hd.
      unfold TimeString.parseClock.
      take_token Hseg t0 T0 V0. take_token Hseg t1 T1 V1. take_token Hseg t2 T2 V2.
      apply reads_nil in Hseg as ->. cbn [app] in Hd.
      destruct Hok as ((NH & DH) & NM & LM & RM').
      pose proof (decimal_bounds MM (isNumeral_digits _ NM)) as [BM _].
      t_eat Hd. t_at Hd true. cbn [negb andb]. rewrite V0.
      t_position. rewrite (time_bind _ _ _ (decimal HH) 1)
        by (apply time_lift, toInt_decimal; assumption).
      cbv beta iota. t_tryEat Hd. t_eat Hd. rewrite V2.
      t_position. rewrite (time_bind _ _ _ (decimal MM) 3)
        by (apply time_lift, toInt_short; [assumption|lia]).
      cbv beta iota. rewrite LM. cbn [Nat.eqb negb].
      rewrite range_check by lia. t_tryEat_no Hd.
      split; [reflexivity|exact Hd]. }
    destruct Hclock as [Hclock Hd3].
    unfold TimeString.parseTokens.
    rewrite (time_bind _ _ _ _ _ Hclock). cbv beta iota.
    rewrite (time_bind _ _ _ _ _ (parsePeriod_absent _ tokens 3 s0 l Hd3 N2)).
    unfold TimeString.bindM at 1.
    rewrite (time_eat_drop_other _ tokens 3 s0 l TokType.EOF Hd3 N3). reflexivity.
Qed.

Lemma parseTimeString_basic_format_witness :
  parseTimeString "143045,5"
  = TimeString.Done (mkTime 14 30 (Some 45%Z) (Some "5")).
Proof.
  assert (H : forall SS, Some "45" = Some SS -> twoDigitText SS /\ (decimal SS <= 59)%Z).
  { intros SS [= <-]. repeat split. vm_compute. discriminate. }
  exact (proj1 (parseTimeString_basic_format "14" "30" (Some "45") (Some (true, "5"))
                  (conj eq_refl eq_refl) (conj eq_refl eq_refl)
                  ltac:(vm_compute; discriminate) ltac:(vm_compute; discriminate)
                  H eq_refl)).
Defined.

(** *** White space around the time, and texts that are no time *)

Lemma trimStart_idem s : JS.trimStart (JS.trimStart s) = JS.trimStart s.
Proof.
  induction s as [|c s IH]; [reflexivity|]. simpl.
  destruct (JS.isWhitespace c) eqn:E; [exact IH|]. simpl. rewrite E. reflexivity.
Qed.

Lemma trimEnd_idem s : JS.trimEnd (JS.trimEnd s) = JS.trimEnd s.
Proof.
  induction s as [|c s IH]; [reflexivity|]. cbn [JS.trimEnd].
  destruct (JS.trimEnd s) as [|d t] eqn:E.
  - destruct (JS.isWhitespace c) eqn:Ec; [reflexivity|]. simpl. rewrite Ec. reflexivity.
  - cbn [JS.trimEnd]. cbn [JS.trimEnd] in IH. rewrite IH. reflexivity.
Qed.

Lemma trimStart_trimEnd t :
  JS.trimStart t = t -> JS.trimStart (JS.trimEnd t) = JS.trimEnd t.
Proof.
  destruct t as [|c t]; [reflexivity|]. intros H.
  assert (Hc : JS.isWhitespace c = false).
  { simpl in H. destruct (JS.isWhitespace c); [|reflexivity].
    exfalso. assert (L : forall s, String.length (JS.trimStart s) <= String.length s).
    { clear. induction s as [|d s IH]; simpl; [lia|].
      destruct (JS.isWhitespace d); simpl; lia. }
    specialize (L t). rewrite H in L. simpl in L. lia. }
  cbn [JS.trimEnd]. destruct (JS.trimEnd t); rewrite ?Hc; simpl; rewrite Hc; reflexivity.
Qed.

Lemma trim_idem s : JS.trim (JS.trim s) = JS.trim s.
Proof.
  unfold JS.trim. rewrite (trimStart_trimEnd _ (trimStart_idem s)).
  apply trimEnd_idem.
Qed.

Lemma trim_spaces s : strAll JS.isWhitespace s = true -> JS.trim s = "".
Proof.
  intros H. unfold JS.trim.
  replace (JS.trimStart s) with "".
  - reflexivity.
  - symmetry. induction s as [|c s IH]; [reflexivity|]. simpl in *.
    apply andb_true_iff in H as [Hc Hs]. rewrite Hc. exact (IH Hs).
Qed.

(** X13.  [parseTimeString] reads its argument without the white space
    around it: the result is the result on the trimmed text, and a text that
    is empty or all white space is rejected as an empty time string, at
    index 0. *)
Theorem parseTimeString_trims input :
  parseTimeString input = parseTimeString (JS.trim input)
  /\ (strAll JS.isWhitespace input = true ->
      parseTimeString input
      = TimeString.Failed (TimeString.TimeError TimeString.EmptyTimeString 0)).
Proof.
  split.
  - unfold parseTimeString. cbv zeta. rewrite trim_idem. reflexivity.
  - intros H. unfold parseTimeString. cbv zeta. rewrite (trim_spaces input H).
    reflexivity.
Qed.

Lemma parseTimeString_trims_witness :
  parseTimeString "  14:30 " = parseTimeString "14:30"
  /\ parseTimeString "   "
     = TimeString.Failed (TimeString.TimeError TimeString.EmptyTimeString 0).
Proof.
  split.
  - exact (proj1 (parseTimeString_trims "  14:30 ")).
  - exact (proj2 (parseTimeString_trims "   ") eq_refl).
Defined.

Section TimeStringRejects.

Import TimeString.

Variable trimmed : string.



End TimeStringRejects.




(** ** The parser stops, and throws nothing but its own errors *)

Section ParserOutcome.

Import Parser.

Variable toks : list AnyToken.
Variable final : Token.
Hypothesis final_last : last toks = Some (Raw final).
Hypothesis final_type : type final = TokType.EOF.

(** The outcome of a computation started at the cursor [i]: a result with
    the cursor not moved back and by at least [step], or a [ParseError]. *)
Definition outcome {A} (step : nat) (i : nat) (r : Result (A * nat)) : Prop :=
  match r with
  | Ok (_, j) => i + step <= j
  | Err (ParseError _ _) => True
  | Err _ => False
  end.

Definition good {A} (m : M A) : Prop := forall i, outcome 0 i (m i).

Lemma outcome_weaken {A} step i (r : Result (A * nat)) :
  outcome step i r -> outcome 0 i r.
Proof. destruct r as [[a j]|[]]; simpl; auto. lia. Qed.

Lemma good_bind {A B} (m : M A) (k : A -> M B) :
  good m -> (forall a, good (k a)) -> good (bindM m k).
Proof.
  intros Hm Hk i. unfold bindM. specialize (Hm i).
  destruct (m i) as [[a j]|e]; [|exact Hm].
  specialize (Hk a j). simpl in Hm.
  destruct (k a j) as [[b j2]|[]]; simpl in *; auto. lia.
Qed.

Lemma outcome_bind {A B} (m : M A) (k : A -> M B) s1 s2 i :
  outcome s1 i (m i) -> (forall a j, i + s1 <= j -> outcome s2 j (k a j)) ->
  outcome (s1 + s2) i (bindM m k i).
Proof.
  intros Hm Hk. unfold bindM.
  destruct (m i) as [[a j]|e]; [|destruct e; simpl in *; auto].
  simpl in Hm. specialize (Hk a j Hm).
  destruct (k a j) as [[b j2]|[]]; simpl in *; auto. lia.
Qed.

Lemma good_ret {A} (a : A) : good (ret a).
Proof. intros i. simpl. lia. Qed.

Lemma good_throwAt {A} k : good (@throwAt A k).
Proof. intros i. exact I. Qed.

Lemma good_position : good position.
Proof. intros i. simpl. lia. Qed.

Lemma toks_nonempty : toks <> [].
Proof. intros E. rewrite E in final_last. discriminate. Qed.

Lemma peek_total i : exists t, peek toks 0 i = Ok (t, i).
Proof.
  unfold peek. pose proof toks_nonempty as Hne.
  destruct (toks !! Nat.min (i + 0) (length toks - 1)) as [t|] eqn:E; [eauto|].
  apply lookup_ge_None in E. destruct toks; [congruence|]. simpl in E. lia.
Qed.

(** Past the last token but one, the token under the cursor is the end
    marker. *)
Lemma peek_end i t :
  peek toks 0 i = Ok (t, i) -> any_type t <> TT TokType.EOF -> S i < length toks.
Proof.
  unfold peek. intros H Ht.
  destruct (toks !! Nat.min (i + 0) (length toks - 1)) as [t1|] eqn:E; [|discriminate].
  injection H as ->.
  destruct (Nat.lt_ge_cases (S i) (length toks)) as [?|Hge]; [assumption|].
  exfalso. apply Ht.
  replace (Nat.min (i + 0) (length toks - 1)) with (length toks - 1) in E by lia.
  rewrite last_lookup in final_last.
  replace (Nat.pred (length toks)) with (length toks - 1) in final_last by lia.
  rewrite final_last in E. injection E as <-. simpl. rewrite final_type. reflexivity.
Qed.

Lemma good_peek : good (peek toks 0).
Proof. intros i. destruct (peek_total i) as [t ->]. simpl. lia. Qed.

Lemma good_at ty : good (at_ toks ty).
Proof. unfold at_. apply good_bind; [exact good_peek|]. intros t. apply good_ret. Qed.

Lemma good_advance : good advance.
Proof. intros i. simpl. lia. Qed.

Lemma good_eat ty : good (eat toks ty).
Proof.
  unfold eat. apply good_bind; [exact good_peek|]. intros t.
  destruct (negb _); [apply good_throwAt|].
  apply good_bind; [exact good_advance|]. intros _. apply good_ret.
Qed.

Lemma good_tryEat ty : good (tryEat toks ty).
Proof.
  unfold tryEat. apply good_bind; [apply good_at|]. intros [|]; [|apply good_ret].
  apply good_bind; [apply good_eat|]. intros t. apply good_ret.
Qed.

Lemma good_toInt s label : good (fun i => lift (toInt s label i) i).
Proof.
  intros i. unfold lift, toInt.
  destruct (_ || _); simpl; [exact I|lia].
Qed.

Lemma bind_position {A} (k : nat -> M A) :
  (forall p, good (k p)) -> good (bindM position k).
Proof. intros H. apply good_bind; [exact good_position|exact H]. Qed.

Lemma good_lift_toInt s label p : good (lift (toInt s label p)).
Proof.
  intros i. unfold lift, toInt.
  destruct (_ || _); simpl; [exact I|lia].
Qed.

Lemma parseOffset_error s p e :
  parseOffset s p = Err e -> exists k, e = ParseError k p.
Proof.
  unfold parseOffset, toInt. destruct s as [|c rest]; [intros [= <-]; eauto|].
  repeat match goal with
         | |- context [if ?b then _ else _] => destruct b; simpl
         | |- context [match ?x with _ => _ end] => destruct x; simpl
         end; intros H; try discriminate; injection H as <-; eauto.
Qed.

Lemma good_lift_parseOffset s p : good (lift (parseOffset s p)).
Proof.
  intros i. unfold lift.
  destruct (parseOffset s p) as [o|e] eqn:E; simpl; [lia|].
  apply parseOffset_error in E as [k ->]. exact I.
Qed.

Ltac good_step :=
  first
    [ apply good_ret | apply good_throwAt | apply good_position | apply good_eat
    | apply good_tryEat | apply good_at | apply good_peek | apply good_advance
    | apply good_lift_toInt | apply good_lift_parseOffset
    | apply good_bind; [|intros ?]
    | match goal with |- good (match ?x with _ => _ end) => destruct x end ].

Lemma good_parseDate : good (parseDate toks).
Proof. unfold parseDate. repeat good_step. Qed.

Lemma good_parseTime : good (parseTime toks).
Proof. unfold parseTime. repeat good_step. Qed.

Lemma good_parseOffsetIfPresent : good (parseOffsetIfPresent toks).
Proof. unfold parseOffsetIfPresent. repeat good_step. Qed.

Lemma good_addUnit inTime unit n fraction dur : good (addUnit inTime unit n fraction dur).
Proof. unfold addUnit. destruct dur. repeat good_step. Qed.

Lemma at_total ty i : exists t,
  peek toks 0 i = Ok (t, i) /\ at_ toks ty i = Ok (AnyTokType_eqb (any_type t) ty, i).
Proof.
  destruct (peek_total i) as [t Ht]. exists t. split; [exact Ht|].
  unfold at_, bindM. rewrite Ht. reflexivity.
Qed.

Lemma tryEat_cases ty i :
  (exists t, tryEat toks ty i = Ok (Some t, S i)
             /\ peek toks 0 i = Ok (t, i) /\ any_type t = ty)
  \/ tryEat toks ty i = Ok (None, i).
Proof.
  destruct (at_total ty i) as (t & Hp & Ha). unfold tryEat, bindM. rewrite Ha.
  destruct (AnyTokType_eqb (any_type t) ty) eqn:E; [|right; reflexivity].
  left. exists t. unfold eat, bindM. rewrite Hp, E. simpl.
  apply AnyTokType_eqb_eq in E. auto.
Qed.

Lemma eat_outcome ty i : outcome 1 i (eat toks ty i).
Proof.
  destruct (peek_total i) as [t Ht]. unfold eat, bindM. rewrite Ht.
  destruct (negb _); simpl; [exact I|lia].
Qed.

(** The loops: as many rounds as tokens are left are enough. *)
Lemma gatherParts_outcome : forall fuel parts i,
  length toks - i < fuel -> outcome 0 i (gatherParts toks fuel parts i).
Proof.
  induction fuel as [|fuel IH]; intros parts i Hfuel; [lia|].
  cbn [gatherParts]. unfold eof.
  destruct (at_total (TT TokType.RBracket) i) as (t & Hp & Ha).
  unfold bindM at 1. rewrite Ha.
  destruct (AnyTokType_eqb (any_type t) (TT TokType.RBracket)); [simpl; lia|].
  destruct (at_total (TT TokType.EOF) i) as (t1 & Hp1 & Ha1).
  rewrite Hp in Hp1. injection Hp1 as <-.
  unfold bindM at 1. rewrite Ha1.
  destruct (AnyTokType_eqb (any_type t) (TT TokType.EOF)) eqn:E; [exact I|].
  assert (Hi : S i < length toks).
  { apply (peek_end i t Hp). intros Et. rewrite Et in E. discriminate. }
  unfold bindM at 1. rewrite Hp. unfold bindM at 1, advance.
  specialize (IH (parts ++ [any_value t]) (S i) ltac:(lia)).
  destruct (gatherParts toks fuel _ (S i)) as [[a j]|[]]; simpl in *; auto. lia.
Qed.

Lemma parseBracketGroup_outcome i :
  outcome 1 i (parseBracketGroup toks (S (length toks)) i).
Proof.
  unfold parseBracketGroup.
  apply (outcome_bind _ _ 1 0); [apply eat_outcome|]. intros _ j Hj.
  apply (outcome_bind _ _ 0 0); [apply good_tryEat|]. intros bang j1 Hj1.
  apply (outcome_bind _ _ 0 0); [apply gatherParts_outcome; lia|]. intros parts j2 Hj2.
  apply (outcome_bind _ _ 0 0); [apply good_eat|]. intros _ j3 Hj3.
  simpl. lia.
Qed.

Lemma at_not_end ty i t :
  peek toks 0 i = Ok (t, i) -> AnyTokType_eqb (any_type t) ty = true ->
  ty <> TT TokType.EOF -> S i < length toks.
Proof.
  intros Hp E Hty. apply (peek_end i t Hp).
  apply AnyTokType_eqb_eq in E. congruence.
Qed.

Lemma dateTimeBrackets_outcome : forall fuel timeZone annotations i,
  length toks - i < fuel ->
  outcome 0 i (dateTimeBrackets toks fuel timeZone annotations i).
Proof.
  induction fuel as [|fuel IH]; intros timeZone annotations i Hfuel; [lia|].
  cbn [dateTimeBrackets].
  destruct (at_total (TT TokType.LBracket) i) as (t & Hp & Ha).
  unfold bindM at 1. rewrite Ha.
  destruct (AnyTokType_eqb (any_type t) (TT TokType.LBracket)) eqn:E; [|simpl; lia].
  pose proof (at_not_end _ i t Hp E ltac:(discriminate)) as Hi.
  apply outcome_weaken with (step := 1 + 0).
  apply outcome_bind; [apply parseBracketGroup_outcome|]. intros g j Hj.
  destruct timeZone as [tz|]; [|destruct (isLikelyTzId g)]; apply IH; lia.
Qed.

Lemma durationBrackets_outcome : forall fuel annotations i,
  length toks - i < fuel ->
  outcome 0 i (durationBrackets toks fuel annotations i).
Proof.
  induction fuel as [|fuel IH]; intros annotations i Hfuel; [lia|].
  cbn [durationBrackets].
  destruct (at_total (TT TokType.LBracket) i) as (t & Hp & Ha).
  unfold bindM at 1. rewrite Ha.
  destruct (AnyTokType_eqb (any_type t) (TT TokType.LBracket)) eqn:E; [|simpl; lia].
  pose proof (at_not_end _ i t Hp E ltac:(discriminate)) as Hi.
  apply outcome_weaken with (step := 1 + 0).
  apply outcome_bind; [apply parseBracketGroup_outcome|]. intros g j Hj.
  apply IH. lia.
Qed.

Lemma durationLoop_outcome : forall fuel rawParts inTime dur i,
  length toks - i < fuel ->
  outcome 0 i (durationLoop toks fuel rawParts inTime dur i).
Proof.
  induction fuel as [|fuel IH]; intros rawParts inTime dur i Hfuel; [lia|].
  cbn [durationLoop]. unfold eof.
  destruct (at_total (TT TokType.EOF) i) as (t & Hp & Ha).
  unfold bindM at 1. rewrite Ha.
  destruct (AnyTokType_eqb (any_type t) (TT TokType.EOF)) eqn:E.
  { simpl. lia. }
  assert (Hi : S i < length toks).
  { apply (peek_end i t Hp). intros Et. rewrite Et in E. discriminate. }
  destruct (at_total (TT TokType.Slash) i) as (t1 & Hp1 & Ha1).
  rewrite Hp in Hp1. injection Hp1 as <-.
  unfold bindM at 1. unfold bindM at 1. rewrite Ha1.
  destruct (AnyTokType_eqb (any_type t) (TT TokType.Slash)); [simpl; lia|].
  destruct (at_total (TT TokType.LBracket) i) as (t1 & Hp1 & Ha1').
  rewrite Hp in Hp1. injection Hp1 as <-.
  unfold bindM at 1. rewrite Ha1'.
  destruct (AnyTokType_eqb (any_type t) (TT TokType.LBracket)); [simpl; lia|].
  cbn [negb ret].
  destruct (tryEat_cases (TT TokType.T) i) as [(tt & Ht & _)|Ht];
    unfold bindM at 1; rewrite Ht.
  { specialize (IH (rawParts ++ ["T"]) true dur (S i) ltac:(lia)).
    destruct (durationLoop toks fuel _ true dur (S i)) as [[a j]|[]]; simpl in *; auto.
    lia. }
  destruct (tryEat_cases (TT TokType.Number) i) as [(nt & Hn & _)|Hn];
    unfold bindM at 1; rewrite Hn; [|simpl; lia].
  apply outcome_weaken with (step := 1).
  assert (Hrest : forall (k : M (list string * Dur)),
            (forall j, S i <= j -> outcome 0 j (k j)) -> outcome 1 i (k (S i))).
  { intros k Hk. specialize (Hk (S i) (Nat.le_refl _)).
    destruct (k (S i)) as [[a j]|[]]; simpl in *; auto. lia. }
  apply (Hrest (fun j => _ j)). intros j Hj.
  apply (outcome_bind _ _ 0 0); [apply good_tryEat|]. intros dot j1 Hj1.
  apply (outcome_bind _ _ 0 0).
  { destruct dot; [|apply good_ret].
    apply good_bind; [apply good_eat|]. intros f. apply good_ret. }
  intros [rp fr] j2 Hj2.
  apply (outcome_bind _ _ 0 0); [apply good_eat|]. intros unitTok j3 Hj3.
  apply (outcome_bind _ _ 0 0); [apply good_position|]. intros p j4 Hj4.
  apply (outcome_bind _ _ 0 0); [apply good_lift_toInt|]. intros n j5 Hj5.
  apply (outcome_bind _ _ 0 0); [apply good_addUnit|]. intros dur1 j6 Hj6.
  apply IH. lia.
Qed.

Lemma good_parseDateTime : good (parseDateTime toks).
Proof.
  unfold parseDateTime.
  apply good_bind; [exact good_parseDate|]. intros d.
  apply good_bind; [apply good_tryEat|]. intros t.
  apply good_bind.
  { destruct t; [|apply good_ret].
    apply good_bind; [exact good_parseTime|]. intros tm. apply good_ret. }
  intros tm.
  apply good_bind; [exact good_parseOffsetIfPresent|]. intros o.
  apply good_bind.
  { intros i. apply dateTimeBrackets_outcome. lia. }
  intros [tz anns]. apply good_ret.
Qed.

Lemma good_parseDuration : good (parseDuration toks).
Proof.
  unfold parseDuration.
  apply good_bind; [apply good_eat|]. intros pTok.
  destruct (negb _); [apply good_throwAt|].
  apply good_bind.
  { intros i. apply durationLoop_outcome. lia. }
  intros [rawParts dur].
  apply good_bind.
  { intros i. apply durationBrackets_outcome. lia. }
  intros anns. apply good_ret.
Qed.

Lemma good_parseValueOrNull : good (parseValueOrNull toks).
Proof.
  unfold parseValueOrNull.
  apply good_bind; [apply good_at|]. intros e.
  apply good_bind.
  { destruct e; [apply good_ret|].
    apply good_bind; [apply good_at|]. intros s.
    destruct s; [apply good_ret|apply good_at]. }
  intros empty. destruct empty; [apply good_ret|].
  apply good_bind; [apply good_at|]. intros ident.
  apply good_bind; [apply good_peek|]. intros t.
  destruct (ident && _).
  - apply good_bind; [exact good_parseDuration|]. intros d. apply good_ret.
  - apply good_bind; [exact good_parseDateTime|]. intros d. apply good_ret.
Qed.

Lemma good_parseTemporal : good (Parser.parseTemporal toks).
Proof.
  unfold Parser.parseTemporal.
  apply good_bind; [apply good_tryEat|]. intros [slash|].
  - apply good_bind; [exact good_parseValueOrNull|]. intros e.
    apply good_bind; [apply good_eat|]. intros _. apply good_ret.
  - apply good_bind; [exact good_parseValueOrNull|]. intros [first|];
      [|apply good_throwAt].
    apply good_bind; [apply good_tryEat|]. intros [slash|].
    + apply good_bind; [exact good_parseValueOrNull|]. intros e.
      apply good_bind; [apply good_eat|]. intros _. apply good_ret.
    + apply good_bind; [apply good_eat|]. intros _. apply good_ret.
Qed.

End ParserOutcome.

Lemma Stream_last l : Stream l -> exists e, last l = Some (Raw e) /\ type e = TokType.EOF.
Proof.
  induction 1 as [e He|t l Ht Hl IH|lb seg rb l Hlb Hrb Hseg Hl IH].
  - exists e. auto.
  - destruct IH as (e & E & He). exists e. split; [|exact He].
    destruct l; [discriminate|]. exact E.
  - destruct IH as (e & E & He). exists e. split; [|exact He].
    destruct l as [|a l]; [discriminate|]. rewrite <- E.
    replace (Raw lb :: map Raw seg ++ Raw rb :: a :: l)
      with ((Raw lb :: map Raw seg ++ [Raw rb]) ++ a :: l)
      by (simpl; rewrite <- app_assoc; reflexivity).
    apply last_app_cons.
Qed.

(** X15.  [parseTemporal] stops on every source, with a syntax tree, a
    [LexError] or a [ParseError]: the loops of the lexer and of the parser
    end within the tokens, and the parser never reads a token that is not
    there. *)
Theorem parseTemporal_stops s :
  match parseTemporal s with
  | Ok _ => True
  | Err (LexError _ position) => position <= String.length s
  | Err (ParseError _ _) => True
  | Err TypeError | Err OutOfFuel => False
  end.
Proof.
  unfold parseTemporal.
  pose proof (lex_loop_from _ s (Nat.le_refl _) 0) as HL.
  destruct (lexTemporal s) as [l|e] eqn:El.
  - cbn [bind]. apply lexTemporal_Lexed in El.
    destruct (combineTimezoneOffsets_Stream l El) as [Hs _].
    destruct (Stream_last _ Hs) as (e & Hlast & He).
    pose proof (good_parseTemporal _ e Hlast He 0) as Hg.
    unfold Parser.run.
    destruct (Parser.parseTemporal _ 0) as [[a j]|[]]; simpl in *; tauto.
  - cbn [bind]. unfold lexTemporal in El. rewrite El in HL.
    unfold lexedFrom, failureAt in HL.
    destruct e as [[ch|ch|] j| | |]; try tauto.
    + destruct HL as (_ & HL & _). rewrite Nat.sub_0_r in HL.
      apply Nat.lt_le_incl. clear -HL. revert j HL.
      induction s as [|c s IH]; intros [|j] H; simpl in *; try discriminate; try lia.
      specialize (IH j H). lia.
    + destruct HL as (_ & HL & _). rewrite Nat.sub_0_r in HL.
      apply Nat.lt_le_incl. clear -HL. revert j HL.
      induction s as [|c s IH]; intros [|j] H; simpl in *; try discriminate; try lia.
      specialize (IH j H). lia.
    + subst j. simpl. lia.
Qed.

(** ** Reading back what the serializer writes *)

(** The syntax trees the serializer prints in full: it leaves out a day
    without a month, a fraction without seconds, and an empty fraction of a
    duration. *)
Definition WholeDate (d : DateAst) : Prop := day d <> None -> month d <> None.

Definition WholeTime (t : TimeAst) : Prop := fraction t <> None -> second t <> None.

Definition WholeDuration (u : DurationAst) : Prop :=
  forall f, secondsFraction u = Some f -> f <> "" /\ seconds u <> None.

Definition WholeValue (v : ValueAst) : Prop :=
  match v with
  | DateTime a => WholeDate (date a) /\ forall t, time a = Some t -> WholeTime t
  | Duration u => WholeDuration u
  end.

Definition WholeOption (v : option ValueAst) : Prop :=
  match v with Some v => WholeValue v | None => True end.

Definition Whole (ast : TemporalAst) : Prop :=
  match ast with
  | Value v => WholeValue v
  | Range s e => WholeOption s /\ WholeOption e
  end.

(** What is not printed is not read back: the [raw] text of an offset
    and of a duration is the printed one, and the time zone and the
    annotations are those of the printed bracket groups. *)
Definition writtenOffset (o : OffsetAst) : OffsetAst :=
  match o with
  | UtcOffset => UtcOffset
  | NumericOffset s h m _ => NumericOffset s h m (stringifyOffset o)
  end.

Definition readDateTime (a : DateTimeAst) : DateTimeAst :=
  let groups := classify (map groupOf (bracketTexts a)) in
  mkDateTime (date a) (time a) (option_map writtenOffset (offset a))
    (fst groups) (snd groups).

Definition readDuration (u : DurationAst) : DurationAst :=
  mkDuration (years u) (months u) (weeks u) (days u) (hours u) (minutes u)
    (seconds u) (secondsFraction u) (flat (durationMainRaw u))
    (map annotationOf (map groupOf (map ann_raw (dur_annotations u)))).

Definition readValue (v : ValueAst) : ValueAst :=
  match v with
  | DateTime a => DateTime (readDateTime a)
  | Duration u => Duration (readDuration u)
  end.

Definition readBack (ast : TemporalAst) : TemporalAst :=
  match ast with
  | Value v => Value (readValue v)
  | Range s e => Range (option_map readValue s) (option_map readValue e)
  end.

Section ExactPieces.

Import Parser.

Variable toks : list AnyToken.

Lemma parseDate_exact d i rest :
  CanonicalDate d -> WholeDate d ->
  drop i toks = map Raw (dateRaw d) ++ rest ->
  headIs (fun ty => ty <> TT TokType.Dash) rest ->
  exists j, parseDate toks i = Ok (d, j) /\ drop j toks = rest.
Proof.
  intros (Hy & Hm & Hd) Hw H (t & r & -> & Ht). unfold dateRaw in H.
  unfold WholeDate in Hw. destruct d as [y mo dd]. cbn [year month day] in *.
  unfold parseDate.
  destruct mo as [m|]; [destruct dd as [dd|]|]; cbn [map app] in H.
  - specialize (Hm m eq_refl). specialize (Hd dd eq_refl).
    p_eat H. p_position H. p_toInt H y.
    p_tryEat H. p_eat H. p_position H. p_toInt H m.
    p_tryEat H. p_eat H. p_position H. p_toInt H dd.
    eexists. split; [reflexivity|exact H].
  - specialize (Hm m eq_refl).
    p_eat H. p_position H. p_toInt H y.
    p_tryEat H. p_eat H. p_position H. p_toInt H m.
    p_tryEat_no H.
    eexists. split; [reflexivity|exact H].
  - destruct dd as [dd|]; [exfalso; apply Hw; congruence|].
    p_eat H. p_position H. p_toInt H y.
    p_tryEat_no H.
    eexists. split; [reflexivity|exact H].
Qed.

Lemma parseTime_exact tm i rest :
  CanonicalTime tm -> WholeTime tm ->
  drop i toks = map Raw (timeRaw tm) ++ rest ->
  headIs (fun ty => ty <> TT TokType.Colon /\ ty <> TT TokType.Dot) rest ->
  exists j, parseTime toks i = Ok (tm, j) /\ drop j toks = rest.
Proof.
  intros (Hh & Hm & Hs & Hf) Hw H (t & r & -> & Ht1 & Ht2). unfold timeRaw in H.
  unfold WholeTime in Hw. destruct tm as [h m s f]. cbn [hour minute second fraction] in *.
  unfold parseTime.
  destruct s as [s|]; [destruct f as [f|]|]; cbn [map app] in H.
  - specialize (Hs s eq_refl).
    p_eat H. p_position H. p_toInt H h.
    p_eat H. p_eat H. p_position H. p_toInt H m.
    p_tryEat H. p_eat H. p_position H. p_toInt H s.
    p_tryEat H. p_eat H.
    eexists. split; [reflexivity|exact H].
  - specialize (Hs s eq_refl).
    p_eat H. p_position H. p_toInt H h.
    p_eat H. p_eat H. p_position H. p_toInt H m.
    p_tryEat H. p_eat H. p_position H. p_toInt H s.
    p_tryEat_no H.
    eexists. split; [reflexivity|exact H].
  - destruct f as [f|]; [exfalso; apply Hw; congruence|].
    p_eat H. p_position H. p_toInt H h.
    p_eat H. p_eat H. p_position H. p_toInt H m.
    p_tryEat_no H.
    eexists. split; [reflexivity|exact H].
Qed.

Lemma parseOffsetIfPresent_exact o i rest :
  drop i toks = offsetPartFused o ++ rest ->
  (forall o1, o = Some o1 -> CanonicalOffset o1) ->
  headIs (fun ty => ty <> TT TokType.Z /\ ty <> CT CombinedTokType.TZOffset) rest ->
  exists j,
    parseOffsetIfPresent toks i = Ok (option_map writtenOffset o, j)
    /\ drop j toks = rest.
Proof.
  intros H Ho (t & r & -> & Ht1 & Ht2).
  destruct o as [[|sg h m raw]|]; cbn [offsetPartFused offsetFused app] in H.
  - unfold parseOffsetIfPresent. p_tryEat H.
    eexists. split; [reflexivity|exact H].
  - destruct (Ho _ eq_refl) as [Hh Hm]. unfold parseOffsetIfPresent.
    p_tryEat_no H. p_at H. p_eat H. p_position H.
    rewrite (bindM_Ok _ _ _
               (NumericOffset sg h m (Sign_text sg +:+ pad 2 h +:+ ":" +:+ pad 2 m))
               (S i)).
    2:{ apply lift_Ok. cbn [any_value cvalue].
        replace (value (signRaw sg)) with (Sign_text sg) by (destruct sg; reflexivity).
        apply parseOffset_canonical; assumption. }
    eexists. split; [reflexivity|exact H].
  - exists i. split; [|exact H].
    exact (parseOffsetIfPresent_absent toks i t r H Ht1 Ht2).
Qed.

Lemma parseDateTime_exact a i rest :
  WrittenDateTime a -> WholeDate (date a) ->
  (forall t, time a = Some t -> WholeTime t) ->
  drop i toks = dateTimeFused a ++ rest -> headIs boundary rest ->
  exists j, parseDateTime toks i = Ok (readDateTime a, j) /\ drop j toks = rest.
Proof.
  intros (Hd & Ht & Ho & _ & _) Wd Wt H Hb.
  unfold dateTimeFused in H. rewrite <- !app_assoc in H. unfold parseDateTime.
  destruct (parseDate_exact (date a) i _ Hd Wd H) as (j1 & Hp1 & H1).
  { destruct (time a); [head_solve|].
    destruct (offset a) as [[|]|]; head_solve. }
  rewrite (bindM_Ok _ _ _ _ _ Hp1). cbv beta iota.
  assert (Htime : exists j2,
    bindM (tryEat toks (TT TokType.T)) (fun t =>
      bindM (match t with
             | Some _ => bindM (parseTime toks) (fun tm => ret (Some tm))
             | None => ret None
             end)
        (fun time' => ret time')) j1 = Ok (time a, j2)
    /\ drop j2 toks = offsetPartFused (offset a)
                      ++ map Raw (groupsRaw (bracketTexts a)) ++ rest).
  { destruct (time a) as [tm|] eqn:Et; cbn [timePartRaw map app] in H1.
    - pose proof (tryEat_drop toks j1 _ _ (TT TokType.T) H1 eq_refl) as Hp0.
      apply drop_tail in H1.
      destruct (parseTime_exact tm (S j1) _ (Ht tm eq_refl) (Wt tm eq_refl) H1)
        as (j2 & Hp2 & H2).
      { destruct (offset a) as [[|]|]; head_solve. }
      exists j2.
      split; [unfold bindM; rewrite Hp0, Hp2; reflexivity|exact H2].
    - assert (Hp0 : tryEat toks (TT TokType.T) j1 = Ok (None, j1)).
      { apply (tryEat_head_other toks j1 _ _ H1).
        destruct (offset a) as [[|]|]; head_solve. }
      exists j1.
      split; [unfold bindM; rewrite Hp0; reflexivity|exact H1]. }
  destruct Htime as (j2 & Hp2 & H2).
  unfold bindM at 1 in Hp2. unfold bindM at 1.
  destruct (tryEat toks (TT TokType.T) j1) as [[t0 j0]|e]; [|discriminate].
  unfold bindM at 1 in Hp2. unfold bindM at 1.
  destruct ((match t0 with
             | Some _ => bindM (parseTime toks) (fun tm => ret (Some tm))
             | None => ret None
             end) j0) as [[time0 j3]|e]; [|discriminate].
  injection Hp2 as -> ->.
  destruct (parseOffsetIfPresent_exact (offset a) j2 _ H2 Ho) as (j3 & Hp3 & H3).
  { head_solve. }
  rewrite (bindM_Ok _ _ _ _ _ Hp3). cbv beta iota.
  destruct (dateTimeBrackets_canonical toks (bracketTexts a) j3 rest H3 Hb)
    as (j4 & Hp4 & H4).
  rewrite (bindM_Ok _ _ _ _ _ Hp4).
  exists j4. split; [|exact H4]. unfold readDateTime.
  destruct (classify (map groupOf (bracketTexts a))) as [tz anns]. reflexivity.
Qed.

Lemma parseDuration_exact u i rest :
  CanonicalDuration u -> WholeDuration u ->
  drop i toks = map Raw (durationRaw u) ++ rest -> headIs boundary rest ->
  exists j, parseDuration toks i = Ok (readDuration u, j) /\ drop j toks = rest.
Proof.
  intros (Hy & Hmo & Hw & Hd & Hh & Hmi & Hs & _ & _) Wu H Hb.
  pose proof (drop_length toks i _ _ H) as Hlen.
  unfold durationRaw, durationMainRaw in H, Hlen.
  rewrite map_app, map_cons, !map_app in H. cbn [app] in H.
  rewrite <- !app_assoc in H.
  rewrite length_map, length_app in Hlen. cbn [length] in Hlen.
  rewrite !length_app in Hlen.
  pose proof (unitRaw_rounds (years u) "Y") as R1.
  pose proof (unitRaw_rounds (months u) "M") as R2.
  pose proof (unitRaw_rounds (weeks u) "W") as R3.
  pose proof (unitRaw_rounds (days u) "D") as R4.
  pose proof (markerRaw_rounds (hasTimePart u)) as R5.
  pose proof (unitRaw_rounds (hours u) "H") as R6.
  pose proof (unitRaw_rounds (minutes u) "M") as R7.
  pose proof (secondsRaw_rounds (seconds u) (secondsFraction u)) as R8.
  unfold parseDuration. p_eat H. cbn [any_value value tk].
  change (String.eqb "P" "P") with true. cbn [negb]. cbv iota.
  destruct (durationLoop_unit toks Years (years u) false _ _ Hy ltac:(reflexivity) H)
    as (j1 & H1 & E1).
  destruct (durationLoop_unit toks Months (months u) false _ _ Hmo ltac:(reflexivity) H1)
    as (j2 & H2 & E2).
  destruct (durationLoop_unit toks Weeks (weeks u) false _ _ Hw ltac:(reflexivity) H2)
    as (j3 & H3 & E3).
  destruct (durationLoop_unit toks Days (days u) false _ _ Hd ltac:(reflexivity) H3)
    as (j4 & H4 & E4).
  destruct (durationLoop_marker toks (hasTimePart u) _ _ H4) as (j5 & H5 & E5).
  assert (T1 : hours u <> None -> hasTimePart u = inTimePart Hours).
  { unfold hasTimePart. destruct (hours u); [reflexivity|congruence]. }
  assert (T2 : minutes u <> None -> hasTimePart u = inTimePart Minutes).
  { unfold hasTimePart. destruct (minutes u); [|congruence].
    destruct (hours u); reflexivity. }
  assert (T3 : seconds u <> None -> hasTimePart u = true).
  { unfold hasTimePart. destruct (seconds u); [|congruence].
    destruct (hours u), (minutes u); reflexivity. }
  destruct (durationLoop_unit toks Hours (hours u) (hasTimePart u) _ _ Hh T1 H5)
    as (j6 & H6 & E6).
  destruct (durationLoop_unit toks Minutes (minutes u) (hasTimePart u) _ _ Hmi T2 H6)
    as (j7 & H7 & E7).
  destruct (durationLoop_seconds toks (seconds u) (secondsFraction u) (hasTimePart u)
              _ _ Hs T3 H7) as (j8 & H8 & E8).
  assert (Hloop : forall k,
    durationLoop toks
      (rounds (years u) + (rounds (months u) + (rounds (weeks u) + (rounds (days u)
       + ((if hasTimePart u then 1 else 0) + (rounds (hours u) + (rounds (minutes u)
       + (rounds (seconds u) + S k))))))))
      ["P"] false emptyDur (S i)
    = Ok ((((((((["P"] ++ map value (unitRaw (years u) "Y"))
                 ++ map value (unitRaw (months u) "M"))
                ++ map value (unitRaw (weeks u) "W"))
               ++ map value (unitRaw (days u) "D"))
              ++ map value (markerRaw (hasTimePart u)))
             ++ map value (unitRaw (hours u) "H"))
            ++ map value (unitRaw (minutes u) "M"))
           ++ map value (secondsRaw (seconds u) (secondsFraction u)),
           addSeconds (seconds u) (secondsFraction u)
             (addOpt Minutes (minutes u) (addOpt Hours (hours u)
                (addOpt Days (days u) (addOpt Weeks (weeks u)
                   (addOpt Months (months u) (addOpt Years (years u) emptyDur)))))),
           j8)).
  { intros k. rewrite E1, E2, E3, E4, E5, E6, E7, E8.
    apply (durationLoop_stop toks k _ _ _ j8 _ H8).
    apply headIs_groups; [right; reflexivity|].
    destruct Hb as (t & r & -> & Ht). apply headIs_cons. left. exact Ht. }
  pose proof (Hloop (length toks - (rounds (years u) + rounds (months u)
          + rounds (weeks u) + rounds (days u) + (if hasTimePart u then 1 else 0)
          + rounds (hours u) + rounds (minutes u) + rounds (seconds u)))) as HL.
  match type of HL with
  | durationLoop _ ?n _ _ _ _ = _ =>
      replace n with (S (length toks)) in HL by lia
  end.
  rewrite (bindM_Ok _ _ _ _ _ HL). cbv beta iota.
  pose proof (groupsRaw_length (map ann_raw (dur_annotations u))) as Hx.
  destruct Hb as (t & r & -> & Ht).
  destruct (parseGroups_canonical toks (map ann_raw (dur_annotations u))
              (S (length toks)) j8 t r) as (j9 & Hp & H9).
  { pose proof (drop_length toks j8 _ _ H8) as Hl8. rewrite length_map in Hl8. lia. }
  { exact H8. }
  { destruct Ht as [-> | ->]; discriminate. }
  assert (Hg : durationBrackets toks (S (length toks)) [] j8
               = Ok ([] ++ map annotationOf
                             (map groupOf (map ann_raw (dur_annotations u))), j9))
    by (rewrite durationBrackets_groups, Hp; reflexivity).
  rewrite (bindM_Ok _ _ _ _ _ Hg).
  exists j9. split; [|exact H9].
  unfold ret, readDuration.
  assert (Hraw : JS.join ""
     ((((((((["P"] ++ map value (unitRaw (years u) "Y"))
                 ++ map value (unitRaw (months u) "M"))
                ++ map value (unitRaw (weeks u) "W"))
               ++ map value (unitRaw (days u) "D"))
              ++ map value (markerRaw (hasTimePart u)))
             ++ map value (unitRaw (hours u) "H"))
            ++ map value (unitRaw (minutes u) "M"))
           ++ map value (secondsRaw (seconds u) (secondsFraction u)))
     = flat (durationMainRaw u)).
  { rewrite join_empty. unfold durationMainRaw.
    rewrite <- flat_values. cbn [map]. rewrite !map_app, <- !app_assoc.
    reflexivity. }
  rewrite Hraw.
  destruct (duration_fields (years u) (months u) (weeks u) (days u) (hours u)
              (minutes u) (seconds u) (secondsFraction u) Hy Hmo Hw Hd Hh Hmi Hs)
    as (F1 & F2 & F3 & F4 & F5 & F6 & F7 & _).
  rewrite F1, F2, F3, F4, F5, F6, F7.
  assert (F8 : d_secondsFraction
                 (addSeconds (seconds u) (secondsFraction u)
                    (addOpt Minutes (minutes u) (addOpt Hours (hours u)
                       (addOpt Days (days u) (addOpt Weeks (weeks u)
                          (addOpt Months (months u)
                             (addOpt Years (years u) emptyDur)))))))
               = secondsFraction u).
  { unfold WholeDuration in Wu.
    destruct (secondsFraction u) as [f|] eqn:Ef.
    - destruct (Wu f eq_refl) as [Hne Hsec].
      destruct (seconds u) as [s|]; [|congruence].
      destruct f as [|c f]; [congruence|].
      destruct (years u), (months u), (weeks u), (days u), (hours u), (minutes u);
        reflexivity.
    - destruct (years u), (months u), (weeks u), (days u), (hours u), (minutes u),
        (seconds u); reflexivity. }
  rewrite F8, app_nil_l. reflexivity.
Qed.

Lemma parseValueOrNull_exact v i rest :
  CanonicalValue v -> WholeValue v ->
  drop i toks = valueFused v ++ rest -> headIs boundary rest ->
  exists j, parseValueOrNull toks i = Ok (Some (readValue v), j) /\ drop j toks = rest.
Proof.
  intros Hv Wv H Hb. unfold parseValueOrNull.
  destruct v as [a|u]; cbn [valueFused WholeValue] in *.
  - pose proof H as H0. destruct (dateTimeFused_head a rest) as (r0 & E).
    rewrite E in H0. clear E.
    p_at_no H0.
    rewrite (bindM_Ok _ _ i false i)
      by (p_at_no H0; apply (at_drop_other toks _ _ _ _ H0); simpl; congruence).
    cbv beta iota.
    p_at_no H0. p_peek H0. cbn [andb]. cbv iota.
    destruct Wv as [Wd Wt].
    destruct (parseDateTime_exact a i rest (CanonicalDateTime_written a Hv) Wd Wt H Hb)
      as (j & Hp & Hj).
    rewrite (bindM_Ok _ _ _ _ _ Hp).
    exists j. split; [reflexivity|exact Hj].
  - pose proof H as H0. destruct (durationFused_head u rest) as (r0 & E).
    rewrite E in H0. clear E.
    p_at_no H0.
    rewrite (bindM_Ok _ _ i false i)
      by (p_at_no H0; apply (at_drop_other toks _ _ _ _ H0); simpl; congruence).
    cbv beta iota.
    p_at H0. p_peek H0. cbn [any_value value tk andb].
    change (String.eqb "P" "P") with true. cbv iota.
    destruct (parseDuration_exact u i rest Hv Wv H Hb) as (j & Hp & Hj).
    rewrite (bindM_Ok _ _ _ _ _ Hp).
    exists j. split; [reflexivity|exact Hj].
Qed.

Lemma parseOption_exact v i rest :
  CanonicalOption v -> WholeOption v ->
  drop i toks = optionFused v ++ rest -> headIs boundary rest ->
  exists j,
    parseValueOrNull toks i = Ok (option_map readValue v, j) /\ drop j toks = rest.
Proof.
  intros Hv Wv H Hb. destruct v as [v|]; cbn [optionFused] in H.
  - exact (parseValueOrNull_exact v i rest Hv Wv H Hb).
  - exists i. split; [|exact H].
    exact (parseValueOrNull_empty toks i rest H Hb).
Qed.

End ExactPieces.

(** The parser on the canonical tokens of a syntax tree. *)
Lemma run_exact ast :
  Canonical ast -> Whole ast ->
  Parser.run (temporalFused ast ++ [Raw (tk TokType.EOF "")]) = Ok (readBack ast).
Proof.
  intros Hc Hw. unfold Parser.run, Parser.parseTemporal.
  set (toks := temporalFused ast ++ [Raw (tk TokType.EOF "")]).
  assert (H : drop 0 toks = temporalFused ast ++ [Raw (tk TokType.EOF "")])
    by reflexivity.
  assert (Hend : headIs boundary [Raw (tk TokType.EOF "")])
    by (apply headIs_cons; right; reflexivity).
  clearbody toks.
  destruct ast as [s e|v]; cbn [temporalFused Canonical Whole] in *.
  - destruct Hc as [Hs He]. destruct Hw as [Ws We].
    rewrite <- app_assoc in H. cbn [app] in H.
    destruct s as [s|]; cbn [optionFused CanonicalOption WholeOption app] in *.
    + assert (Hslash : headIs boundary
                (Raw (tk TokType.Slash "/") :: optionFused e ++ [Raw (tk TokType.EOF "")]))
        by (apply headIs_cons; left; reflexivity).
      assert (H0 : Parser.tryEat toks (TT TokType.Slash) 0 = Ok (None, 0)).
      { apply (tryEat_head_other toks 0 _ _ H).
        eapply headIs_impl; [|apply valueFused_head].
        intros ty [-> | ->]; discriminate. }
      rewrite (bindM_Ok _ _ _ _ _ H0). cbv beta iota.
      destruct (parseValueOrNull_exact toks s 0 _ Hs Ws H Hslash) as (j & Hp & Hj).
      rewrite (bindM_Ok _ _ _ _ _ Hp). cbv beta iota.
      p_tryEat Hj.
      destruct (parseOption_exact toks e (S j) _ He We Hj Hend) as (j2 & Hp2 & Hj2).
      rewrite (bindM_Ok _ _ _ _ _ Hp2). cbv beta iota.
      p_eat Hj2. reflexivity.
    + p_tryEat H.
      destruct (parseOption_exact toks e 1 _ He We H Hend) as (j2 & Hp2 & Hj2).
      rewrite (bindM_Ok _ _ _ _ _ Hp2). cbv beta iota.
      p_eat Hj2. reflexivity.
  - assert (H0 : Parser.tryEat toks (TT TokType.Slash) 0 = Ok (None, 0)).
    { apply (tryEat_head_other toks 0 _ _ H).
      eapply headIs_impl; [|apply valueFused_head].
      intros ty [-> | ->]; discriminate. }
    rewrite (bindM_Ok _ _ _ _ _ H0). cbv beta iota.
    destruct (parseValueOrNull_exact toks v 0 _ Hc Hw H Hend) as (j & Hp & Hj).
    rewrite (bindM_Ok _ _ _ _ _ Hp). cbv beta iota.
    p_tryEat_no Hj. p_eat Hj. reflexivity.
Qed.

(** The pipeline on the text of a canonical syntax tree. *)
Lemma parseTemporal_exact ast :
  Canonical ast -> Whole ast ->
  parseTemporal (stringifyTemporal ast) = Ok (readBack ast).
Proof.
  intros Hc Hw. rewrite (stringifyTemporal_flat ast).
  rewrite (parseTemporal_Lexes _ _ (Lexes_canonical ast Hc)).
  rewrite (combineTimezoneOffsets_canonical ast Hc).
  exact (run_exact ast Hc Hw).
Qed.

(** What is read back is printed as the tree it stands for: the two
    trees differ in nothing the serializer prints. *)
Lemma readBack_prints ast :
  Canonical ast -> Whole ast ->
  stringifyTemporal (readBack ast) = stringifyTemporal ast.
Proof.
  intros Hc Hw. destruct (run_canonical ast Hc) as (ast' & Hr & Hs).
  rewrite (run_exact ast Hc Hw) in Hr. injection Hr as <-. exact Hs.
Qed.

(** X16.  The parser reads the serializer's text back as the tree it was
    printed from.  For a tree of canonical text that is printed in full (no
    day without a month, no fraction without seconds, no empty fraction),
    [parseTemporal (stringifyTemporal ast)] is that tree: the date, the
    time, the sign, hours and minutes of the offset and the fields of a
    duration are the same, ranges and their open ends included.  Only what
    the serializer does not print is set anew: the [raw] text of an offset
    and of a duration is the printed one, and the time zone and the
    annotations are read from the printed bracket groups.  Reading the
    result's own text back changes nothing more. *)
Theorem parseTemporal_reads_back ast :
  Canonical ast -> Whole ast ->
  parseTemporal (stringifyTemporal ast) = Ok (readBack ast)
  /\ parseTemporal (stringifyTemporal (readBack ast)) = Ok (readBack ast).
Proof.
  intros Hc Hw. split; [exact (parseTemporal_exact ast Hc Hw)|].
  rewrite (readBack_prints ast Hc Hw). exact (parseTemporal_exact ast Hc Hw).
Qed.

Lemma parseTemporal_reads_back_witness :
  let a :=
    Range
      (Some (DateTime
         (mkDateTime (mkDate 2025 (Some 1%Z) (Some 12%Z))
            (Some (mkTime 10 0 (Some 0%Z) (Some "5")))
            (Some (NumericOffset SignPlus 5 30 "+0530"))
            (Some (mkTimeZone "Asia/Singapore" false))
            [mkAnnotation "u-ca=gregory" false ∅])))
      (Some (Duration
         (mkDuration (Some 1%Z) None None None None None (Some 6%Z) (Some "5")
            "" []))) in
  parseTemporal "2025-01-12T10:00:00.5+05:30[Asia/Singapore][u-ca=gregory]/P1YT6.5S"
  = Ok (readBack a).
Proof.
  intros a.
  refine (proj1 (parseTemporal_reads_back a _ _)).
  - unfold a. canonical_closed.
  - unfold a. cbv [Whole WholeOption WholeValue WholeDate WholeTime WholeDuration
                   date time year month day second fraction seconds secondsFraction].
    repeat split; try discriminate.
    + intros t [= <-]. discriminate.
    + injection H as <-. discriminate.
Defined.

(** ** Texts put together: white space around a text, and the two sides of a range *)

(** *** The lexer on a text followed by another *)

Section LexerAppend.

Import Lexer.

Lemma span_tail p s w r tail :
  span p s = (w, r) -> (r = "" -> stopsAt p tail = true) ->
  span p (s +:+ tail) = (w, r +:+ tail).
Proof.
  revert w r. induction s as [|c s IH]; intros w r H Hstop.
  - injection H as <- <-. rewrite !append_nil_l.
    specialize (Hstop eq_refl). destruct tail as [|c tail]; [reflexivity|].
    simpl in *. destruct (p c); [discriminate|reflexivity].
  - rewrite append_cons. simpl in *. destruct (p c).
    + destruct (span p s) as [w1 r1] eqn:E. injection H as <- <-.
      rewrite (IH w1 r1 eq_refl Hstop). reflexivity.
    + injection H as <- <-. rewrite append_cons. reflexivity.
Qed.

(** The bracket scanner returns at the closing bracket: what follows the
    text does not matter. *)
Lemma lexBracketContent_append tail : forall fuel i rest toks toks1 i1 rest1,
  lexBracketContent fuel i rest toks = Ok (toks1, i1, rest1) ->
  forall fuel', fuel <= fuel' ->
  lexBracketContent fuel' i (rest +:+ tail) toks = Ok (toks1, i1, rest1 +:+ tail).
Proof.
  induction fuel as [|fuel IH]; intros i rest toks toks1 i1 rest1 H fuel' Hf;
    [discriminate|].
  destruct fuel' as [|fuel']; [lia|].
  destruct rest as [|ch rest0]; [discriminate|].
  rewrite append_cons. rewrite lexBracketContent_unfold in *.
  destruct (Ascii.eqb ch "]").
  { injection H as <- <- <-. rewrite append_cons. reflexivity. }
  destruct (JS.isWhitespace ch); [apply (IH _ _ _ _ _ _ H); lia|].
  destruct (bracketPunct ch); [apply (IH _ _ _ _ _ _ H); lia|].
  destruct (isBracketWordChar ch); [|discriminate].
  destruct (span isBracketWordChar rest0) as [w rest2] eqn:Esp.
  rewrite (span_tail _ _ _ _ tail Esp).
  - apply (IH _ _ _ _ _ _ H). lia.
  - intros ->. destruct fuel; discriminate.
Qed.

(** The main loop on a text followed by a tail that starts with neither a
    digit nor a letter an identifier goes on with: the tokens of the text
    but for its end marker, then the tokens of the tail. *)
Lemma lex_loop_append tail lt :
  stopsAt isDigit tail = true -> stopsAt isIdentTail tail = true ->
  Lexes tail lt ->
  forall fuel i a toks l,
    lex_loop fuel i a toks = Ok l ->
    forall fuel', fuel + String.length tail <= fuel' ->
    exists l0 j l1,
      l = l0 ++ [mkToken TokType.EOF "" j j]
      /\ lex_loop fuel' i (a +:+ tail) toks = Ok (l0 ++ l1)
      /\ map normT l1 = lt.
Proof.
  intros Hd Ha Ht.
  induction fuel as [|fuel IH]; intros i a toks l H fuel' Hf; [discriminate|].
  destruct fuel' as [|fuel']; [lia|].
  destruct a as [|ch a1].
  - injection H as <-. rewrite append_nil_l.
    rewrite (lex_loop_enough _ tail (Nat.le_refl _)) by lia.
    destruct (Ht i) as (l1 & -> & Hl1).
    exists toks, i, l1. auto.
  - rewrite append_cons. rewrite lex_loop_unfold in *.
    destruct (JS.isWhitespace ch); [apply (IH _ _ _ _ H); lia|].
    destruct (Ascii.eqb ch "[").
    { destruct (lexBracketContent (S (String.length a1)) (i + 1) a1
                  (toks ++ [emit TokType.LBracket i (String ch "")]))
        as [[[toks1 i1] rest2]|e] eqn:Eb; [|discriminate].
      rewrite (lexBracketContent_append tail _ _ _ _ _ _ _ Eb)
        by (rewrite length_append; lia).
      cbn [bind] in *.
      destruct rest2 as [|c rest3]; [discriminate|]. rewrite append_cons.
      destruct (Ascii.eqb c "]"); [|discriminate].
      apply (IH _ _ _ _ H). lia. }
    destruct (isDigit ch).
    { unfold lexNumber in *.
      destruct (span isDigit a1) as [ds r] eqn:Esp.
      rewrite (span_tail _ _ _ _ tail Esp (fun _ => Hd)).
      apply (IH _ _ _ _ H). lia. }
    destruct (isAlpha ch).
    { unfold lexIdent in *.
      destruct (Ascii.eqb ch "T"); [apply (IH _ _ _ _ H); lia|].
      destruct (Ascii.eqb ch "Z"); [apply (IH _ _ _ _ H); lia|].
      change (fun c : ascii => isAlpha c && negb (Ascii.eqb c "T") && negb (Ascii.eqb c "Z"))
        with isIdentTail in *.
      destruct (span isIdentTail a1) as [ls r] eqn:Esp.
      rewrite (span_tail _ _ _ _ tail Esp (fun _ => Ha)).
      apply (IH _ _ _ _ H). lia. }
    destruct (punct ch); [|discriminate].
    apply (IH _ _ _ _ H). lia.
Qed.

(** The tokens do not depend on the index the loops start from, but for
    their offsets. *)
Lemma lexBracketContent_shift : forall fuel i rest toks toks1 i1 rest1,
  lexBracketContent fuel i rest toks = Ok (toks1, i1, rest1) ->
  forall i' toks', map normT toks' = map normT toks ->
  exists toks1' i1',
    lexBracketContent fuel i' rest toks' = Ok (toks1', i1', rest1)
    /\ map normT toks1' = map normT toks1.
Proof.
  induction fuel as [|fuel IH]; intros i rest toks toks1 i1 rest1 H i' toks' Ht;
    [discriminate|].
  destruct rest as [|ch rest0]; [discriminate|].
  rewrite lexBracketContent_unfold in *.
  destruct (Ascii.eqb ch "]").
  { injection H as <- <- <-. eauto. }
  destruct (JS.isWhitespace ch); [apply (IH _ _ _ _ _ _ H); exact Ht|].
  destruct (bracketPunct ch).
  { apply (IH _ _ _ _ _ _ H). rewrite !map_app, Ht. reflexivity. }
  destruct (isBracketWordChar ch); [|discriminate].
  destruct (span isBracketWordChar rest0) as [w rest2] eqn:Esp.
  apply (IH _ _ _ _ _ _ H). rewrite !map_app, Ht. reflexivity.
Qed.

Lemma lex_loop_shift : forall fuel i a toks l,
  lex_loop fuel i a toks = Ok l ->
  forall i' toks', map normT toks' = map normT toks ->
  exists l', lex_loop fuel i' a toks' = Ok l' /\ map normT l' = map normT l.
Proof.
  induction fuel as [|fuel IH]; intros i a toks l H i' toks' Ht; [discriminate|].
  destruct a as [|ch a1].
  - injection H as <-. eexists. split; [reflexivity|].
    rewrite !map_app, Ht. reflexivity.
  - rewrite lex_loop_unfold in *.
    destruct (JS.isWhitespace ch); [apply (IH _ _ _ _ H); exact Ht|].
    destruct (Ascii.eqb ch "[").
    { destruct (lexBracketContent (S (String.length a1)) (i + 1) a1
                  (toks ++ [emit TokType.LBracket i (String ch "")]))
        as [[[toks1 i1] rest2]|e] eqn:Eb; [|discriminate].
      destruct (lexBracketContent_shift _ _ _ _ _ _ _ Eb (i' + 1)
                  (toks' ++ [emit TokType.LBracket i' (String ch "")]))
        as (toks1' & i1' & -> & Ht1).
      { rewrite !map_app, Ht. reflexivity. }
      cbn [bind] in *.
      destruct rest2 as [|c rest3]; [discriminate|].
      destruct (Ascii.eqb c "]"); [|discriminate].
      apply (IH _ _ _ _ H). rewrite !map_app, Ht1. reflexivity. }
    destruct (isDigit ch).
    { unfold lexNumber in *.
      destruct (span isDigit a1) as [ds r] eqn:Esp.
      apply (IH _ _ _ _ H). rewrite !map_app, Ht. reflexivity. }
    destruct (isAlpha ch).
    { unfold lexIdent in *.
      destruct (Ascii.eqb ch "T");
        [apply (IH _ _ _ _ H); rewrite !map_app, Ht; reflexivity|].
      destruct (Ascii.eqb ch "Z");
        [apply (IH _ _ _ _ H); rewrite !map_app, Ht; reflexivity|].
      destruct (span _ a1) as [ls r] eqn:Esp.
      apply (IH _ _ _ _ H). rewrite !map_app, Ht. reflexivity. }
    destruct (punct ch); [|discriminate].
    apply (IH _ _ _ _ H). rewrite !map_app, Ht. reflexivity.
Qed.

End LexerAppend.

(** What [lexTemporal] returns is what the main loop reads from any
    index: the tokens of the text and the end marker. *)
Lemma lexTemporal_Lexes s l :
  lexTemporal s = Ok l ->
  exists l0, map normT l = l0 ++ [tk TokType.EOF ""] /\ Lexes s (l0 ++ [tk TokType.EOF ""]).
Proof.
  intros H. unfold lexTemporal in H.
  destruct (lex_loop_append "" [tk TokType.EOF ""] eq_refl eq_refl Lexes_end
              _ _ _ _ _ H (S (String.length s) + 0) ltac:(simpl; lia))
    as (l0 & j & l1 & -> & _ & _).
  exists (map normT l0). rewrite map_app. split; [reflexivity|].
  intros i. destruct (lex_loop_shift _ _ _ _ _ H i [] eq_refl) as (l' & Hl' & Hn).
  exists l'. split; [exact Hl'|]. rewrite Hn, map_app. reflexivity.
Qed.

Lemma Lexes_append a tail l0 lt :
  Lexes a (l0 ++ [tk TokType.EOF ""]) ->
  stopsAt isDigit tail = true -> stopsAt isIdentTail tail = true ->
  Lexes tail lt -> Lexes (a +:+ tail) (l0 ++ lt).
Proof.
  intros H Hd Ha Ht i. destruct (H i) as (l & Hl & Hn).
  destruct (lex_loop_append tail lt Hd Ha Ht _ _ _ _ _ Hl
              (S (String.length (a +:+ tail))))
    as (l0' & j & l1 & -> & Hrun & Hl1).
  { rewrite length_append. lia. }
  exists (l0' ++ l1). split; [exact Hrun|].
  rewrite map_app in Hn. apply app_inj_tail in Hn as [Hn _].
  rewrite map_app, Hn, Hl1. reflexivity.
Qed.

(** The tokens of a text are those of the text between white space. *)
Lemma Lexes_between_spaces ws1 s ws2 l :
  strAll JS.isWhitespace ws1 = true -> strAll JS.isWhitespace ws2 = true ->
  lexTemporal s = Ok l ->
  Lexes s (map normT l) /\ Lexes (ws1 +:+ s +:+ ws2) (map normT l).
Proof.
  intros H1 H2 Hl. destruct (lexTemporal_Lexes s l Hl) as (l0 & -> & HL).
  split; [exact HL|].
  apply Lexes_spaces; [exact H1|].
  apply Lexes_append; [exact HL| | |].
  - destruct ws2 as [|c ws2]; [reflexivity|]. simpl in *.
    apply andb_true_iff in H2 as [Hc _].
    destruct (isDigit c) eqn:E; [|reflexivity].
    rewrite (digit_not_whitespace c E) in Hc. discriminate.
  - destruct ws2 as [|c ws2]; [reflexivity|]. simpl in *.
    apply andb_true_iff in H2 as [Hc _].
    destruct (isIdentTail c) eqn:E; [|reflexivity].
    exfalso. clear -Hc E.
    destruct c as [[] [] [] [] [] [] [] []]; vm_compute in Hc, E; congruence.
  - rewrite <- (append_nil_r ws2). apply Lexes_spaces; [exact H2|exact Lexes_end].
Qed.

(** X17.  White space around a text changes nothing.  When the lexer
    accepts a text, [parseTemporal] gives the same result on the text
    between any white space as on the text itself: the same syntax tree,
    or the same [ParseError] at the same token index. *)
Theorem parseTemporal_between_spaces ws1 s ws2 l :
  strAll JS.isWhitespace ws1 = true -> strAll JS.isWhitespace ws2 = true ->
  lexTemporal s = Ok l ->
  parseTemporal (ws1 +:+ s +:+ ws2) = parseTemporal s.
Proof.
  intros H1 H2 Hl.
  destruct (Lexes_between_spaces ws1 s ws2 l H1 H2 Hl) as [Ha Hb].
  rewrite (parseTemporal_Lexes _ _ Ha), (parseTemporal_Lexes _ _ Hb). reflexivity.
Qed.

Lemma parseTemporal_between_spaces_witness :
  parseTemporal "  2025-01-12T10:30   " = parseTemporal "2025-01-12T10:30"
  /\ parseTemporal " 2025-01-12T10 " = parseTemporal "2025-01-12T10".
Proof.
  split.
  - exact (parseTemporal_between_spaces "  " "2025-01-12T10:30" "   " _
             eq_refl eq_refl eq_refl).
  - exact (parseTemporal_between_spaces " " "2025-01-12T10" " " _
             eq_refl eq_refl eq_refl).
Defined.

(** *** The fuser on the tokens of one side of a range *)

Section FuserSides.

Import Fuser.

(** Whether an offset can start depends on the last two tokens only. *)
Lemma couldBeTzOffset_last_two out b a :
  couldBeTzOffset ((out ++ [b]) ++ [a]) = couldBeTzOffset [b; a].
Proof.
  change [b; a] with (([] ++ [b]) ++ [a]).
  unfold couldBeTzOffset. rewrite !fromEnd_snoc_1, !fromEnd_snoc_2, !length_app.
  simpl.
  replace (length out + 1 + 1 <? 1)%nat with false by (symmetry; apply Nat.ltb_ge; lia).
  replace (length out + 1 + 1 <? 2)%nat with false by (symmetry; apply Nat.ltb_ge; lia).
  reflexivity.
Qed.

(** Tokens behind which the fuser starts afresh: no offset can start
    behind them, nor behind one more token. *)
Definition Fresh (pre : list AnyToken) : Prop :=
  couldBeTzOffset pre = false /\ Quiet pre.

Lemma couldBeTzOffset_fresh pre out :
  Fresh pre -> couldBeTzOffset (pre ++ out) = couldBeTzOffset out.
Proof.
  intros [H0 H1].
  destruct out as [|x out0] using rev_ind; [rewrite app_nil_r; exact H0|].
  clear IHout0.
  destruct out0 as [|y out1] using rev_ind.
  - simpl. rewrite (H1 x). symmetry. exact (Quiet_nil x).
  - clear IHout1. rewrite !app_assoc.
    rewrite (couldBeTzOffset_last_two (pre ++ out1)).
    rewrite (couldBeTzOffset_last_two out1). reflexivity.
Qed.

Lemma step_fresh pre tokens out t :
  Fresh pre -> step tokens 0 (pre ++ out) t = step tokens 0 out t.
Proof. intros H. unfold step. rewrite (couldBeTzOffset_fresh pre out H). reflexivity. Qed.

(** Behind such tokens the fuser works as on its own. *)
Lemma fused_fresh pre : Fresh pre -> forall n rest out,
  length rest <= n -> fused rest (pre ++ out) = pre ++ fused rest out.
Proof.
  intros Hpre. induction n as [|n IH]; intros rest out Hn.
  { destruct rest; [|simpl in Hn; lia]. rewrite !fused_nil. reflexivity. }
  destruct rest as [|t rest]; [rewrite !fused_nil; reflexivity|].
  rewrite !fused_cons, (step_fresh pre _ out t Hpre). simpl in Hn.
  destruct (step (t :: rest) 0 out t) as [[tz k]|] eqn:Es.
  - rewrite <- app_assoc. apply IH.
    rewrite length_drop. apply step_width in Es. simpl. lia.
  - rewrite <- app_assoc. apply IH. lia.
Qed.

(** A token the look-ahead of the fuser stops at: neither a number nor
    a colon. *)
Definition stops (t : AnyToken) : Prop :=
  rawOfType TokType.Number (Some t) = None /\ rawOfType TokType.Colon (Some t) = None.

(** One decision in front of such a token does not depend on the token
    nor on what follows it, and reads nothing behind it. *)
Lemma step_stops t la s1 r1 s2 r2 out :
  stops s1 -> stops s2 ->
  match step (t :: la ++ s1 :: r1) 0 out t with
  | Some (tz, k) =>
      step (t :: la ++ s2 :: r2) 0 out t = Some (tz, k) /\ k <= S (length la)
  | None => step (t :: la ++ s2 :: r2) 0 out t = None
  end.
Proof.
  intros [N1 C1] [N2 C2]. unfold step.
  destruct (signOf t) as [s|]; [|reflexivity].
  destruct (couldBeTzOffset out); [|reflexivity].
  unfold fuse.
  destruct la as [|x [|y [|z la]]]; cbn [app lookup list_lookup Nat.add length].
  - rewrite N1, N2. reflexivity.
  - rewrite C1, C2.
    destruct (rawOfType TokType.Number (Some x)) as [n1|]; [|reflexivity].
    destruct (_ || _); [|reflexivity]. split; [reflexivity|lia].
  - rewrite N1, N2.
    destruct (rawOfType TokType.Number (Some x)) as [n1|]; [|reflexivity].
    destruct (rawOfType TokType.Colon (Some y)) as [c|];
      (destruct (_ || _); [|reflexivity]); (split; [reflexivity|lia]).
  - destruct (rawOfType TokType.Number (Some x)) as [n1|]; [|reflexivity].
    destruct (rawOfType TokType.Colon (Some y)) as [c|].
    + destruct (rawOfType TokType.Number (Some z)) as [n2|].
      * split; [reflexivity|lia].
      * destruct (_ || _); [|reflexivity]. split; [reflexivity|lia].
    + destruct (_ || _); [|reflexivity]. split; [reflexivity|lia].
Qed.

(** The fuser up to such a token. *)
Lemma fused_until : forall n la, length la <= n ->
  forall out s1 r1 s2 r2, stops s1 -> stops s2 ->
  exists mid,
    fused (la ++ s1 :: r1) out = fused (s1 :: r1) (out ++ mid)
    /\ fused (la ++ s2 :: r2) out = fused (s2 :: r2) (out ++ mid).
Proof.
  induction n as [|n IH]; intros la Hn out s1 r1 s2 r2 H1 H2.
  { destruct la; [|simpl in Hn; lia]. exists []. rewrite app_nil_r. auto. }
  destruct la as [|t la]; [exists []; rewrite app_nil_r; auto|].
  simpl in Hn. cbn [app]. rewrite !fused_cons.
  pose proof (step_stops t la s1 r1 s2 r2 out H1 H2) as Hs.
  destruct (step (t :: la ++ s1 :: r1) 0 out t) as [[tz k]|] eqn:Es.
  - destruct Hs as [-> Hk].
    change (t :: la ++ s1 :: r1) with ((t :: la) ++ s1 :: r1).
    change (t :: la ++ s2 :: r2) with ((t :: la) ++ s2 :: r2).
    rewrite !drop_app_le by (simpl; lia).
    destruct (IH (drop k (t :: la)) ltac:(rewrite length_drop; apply step_width in Es;
                                           simpl; lia)
                (out ++ [Combined tz]) s1 r1 s2 r2 H1 H2) as (mid & E1 & E2).
    exists (Combined tz :: mid). rewrite E1, E2, <- !app_assoc. auto.
  - rewrite Hs.
    destruct (IH la ltac:(lia) (out ++ [t]) s1 r1 s2 r2 H1 H2) as (mid & E1 & E2).
    exists (t :: mid). rewrite E1, E2, <- !app_assoc. auto.
Qed.

End FuserSides.

Lemma combineTimezoneOffsets_fused toks : combineTimezoneOffsets toks = fused toks [].
Proof. reflexivity. Qed.

(** The fused tokens of a range are the fused tokens of its sides, around
    the slash. *)
Lemma combineTimezoneOffsets_sides (la lb : list Token) :
  exists fa fb,
    combineTimezoneOffsets (map Raw (la ++ [tk TokType.EOF ""]))
    = fa ++ [Raw (tk TokType.EOF "")]
    /\ combineTimezoneOffsets (map Raw (lb ++ [tk TokType.EOF ""]))
       = fb ++ [Raw (tk TokType.EOF "")]
    /\ combineTimezoneOffsets
         (map Raw (la ++ tk TokType.Slash "/" :: lb ++ [tk TokType.EOF ""]))
       = fa ++ Raw (tk TokType.Slash "/") :: fb ++ [Raw (tk TokType.EOF "")]
    /\ flat_map rawTokens fa = la.
Proof.
  assert (He : stops (Raw (tk TokType.EOF ""))) by (split; reflexivity).
  assert (Hs : stops (Raw (tk TokType.Slash "/"))) by (split; reflexivity).
  destruct (fused_until _ (map Raw la) (Nat.le_refl _) []
              (Raw (tk TokType.EOF "")) [] (Raw (tk TokType.Slash "/"))
              (map Raw (lb ++ [tk TokType.EOF ""])) He Hs) as (fa & A1 & A2).
  destruct (fused_until _ (map Raw lb) (Nat.le_refl _) []
              (Raw (tk TokType.EOF "")) [] (Raw (tk TokType.EOF "")) [] He He)
    as (fb & B1 & _).
  rewrite fused_other, fused_nil in A1, B1 by reflexivity. cbn [app] in A1, B1.
  rewrite fused_other in A2 by reflexivity. cbn [app] in A2.
  exists fa, fb. rewrite !combineTimezoneOffsets_fused.
  rewrite !map_app. cbn [map]. rewrite A1, B1, A2.
  split; [reflexivity|]. split; [reflexivity|]. split.
  - rewrite map_app. cbn [map].
    rewrite <- (app_nil_r (fa ++ [Raw (tk TokType.Slash "/")])).
    rewrite (fused_fresh (fa ++ [Raw (tk TokType.Slash "/")]))
      with (n := length (map Raw lb ++ [Raw (tk TokType.EOF "")])).
    + rewrite B1, <- app_assoc. reflexivity.
    + split.
      * apply couldBeTzOffset_after_other. reflexivity.
      * apply Quiet_snoc; reflexivity.
    + reflexivity.
  - pose proof (proj1 (fused_lossless _ (map Raw la ++ [Raw (tk TokType.EOF "")])
                         (Nat.le_refl _) [])) as HL.
    rewrite A1 in HL. rewrite !flat_map_app, flat_map_Raw in HL.
    cbn [flat_map rawTokens app] in HL.
    apply app_inj_tail in HL as [HL _]. exact HL.
Qed.

(** *** The parser on the tokens of one side of a range *)

Section ParserToken.

Import Parser.

Variable toks : list AnyToken.

Lemma eat_token i t ty :
  toks !! i = Some t ->
  eat toks ty i =
  if AnyTokType_eqb (any_type t) ty then Ok (t, S i)
  else Err (ParseError (ExpectedButGot (AnyTokType_name ty)
                          (AnyTokType_name (any_type t))) i).
Proof.
  intros H. unfold eat, bindM. rewrite (peek_here toks i t H).
  destruct (AnyTokType_eqb (any_type t) ty); reflexivity.
Qed.

Lemma tryEat_token i t ty :
  toks !! i = Some t ->
  tryEat toks ty i =
  if AnyTokType_eqb (any_type t) ty then Ok (Some t, S i) else Ok (None, i).
Proof.
  intros H. unfold tryEat, bindM. rewrite (at_here toks i t ty H).
  destruct (AnyTokType_eqb (any_type t) ty) eqn:E; [|reflexivity].
  rewrite (eat_token i t ty H), E. reflexivity.
Qed.

Lemma bindM_tryEat_token {B} i t ty (k : option AnyToken -> M B) :
  toks !! i = Some t ->
  bindM (tryEat toks ty) k i =
  if AnyTokType_eqb (any_type t) ty then k (Some t) (S i) else k None i.
Proof.
  intros H. unfold bindM. rewrite (tryEat_token i t ty H).
  destruct (AnyTokType_eqb (any_type t) ty); reflexivity.
Qed.

End ParserToken.

(** Two token sequences that share the tokens [w]: in the first they are
    all the tokens before the end marker, in the second they stand behind
    the tokens [pre] and in front of an end marker or a slash. *)
Section ParserWindow.

Import Parser.

Variables (toks1 toks2 pre w r2 : list AnyToken) (e1 e2 : Token).
Hypothesis toks1_eq : toks1 = w ++ [Raw e1].
Hypothesis toks2_eq : toks2 = pre ++ w ++ Raw e2 :: r2.
Hypothesis e1_type : type e1 = TokType.EOF.
Hypothesis e2_type : type e2 = TokType.EOF \/ type e2 = TokType.Slash.

Lemma window_lookup i :
  i < length w ->
  exists t, toks1 !! i = Some t /\ toks2 !! (length pre + i) = Some t.
Proof.
  intros Hi. destruct (lookup_lt_is_Some_2 w i Hi) as [t Ht]. exists t.
  rewrite toks1_eq, toks2_eq. split.
  - rewrite lookup_app_l by lia. exact Ht.
  - rewrite lookup_app_r by lia.
    replace (length pre + i - length pre) with i by lia.
    rewrite lookup_app_l by lia. exact Ht.
Qed.

Lemma window_stop :
  toks1 !! length w = Some (Raw e1)
  /\ toks2 !! (length pre + length w) = Some (Raw e2).
Proof.
  rewrite toks1_eq, toks2_eq. split.
  - apply list_lookup_middle. reflexivity.
  - rewrite lookup_app_r by lia.
    replace (length pre + length w - length pre) with (length w) by lia.
    apply list_lookup_middle. reflexivity.
Qed.

Lemma window_last : last toks1 = Some (Raw e1).
Proof. rewrite toks1_eq. apply last_snoc. Qed.

Lemma window_length : length w < length toks2.
Proof. rewrite toks2_eq, !length_app. simpl. lia. Qed.

(** [sim lo m1 m2]: started within the shared tokens, not before the
    index [lo], a computation that succeeds on the first sequence stays
    within them and succeeds on the second with the same result. *)
Definition sim {A} (lo : nat) (m1 m2 : M A) : Prop :=
  forall i v j, lo <= i -> i <= length w -> m1 i = Ok (v, j) ->
    i <= j /\ j <= length w /\ m2 (length pre + i) = Ok (v, length pre + j).

Lemma sim_ret {A} lo (a : A) : sim lo (ret a) (ret a).
Proof. intros i v j _ Hi [= <- <-]. auto. Qed.

Lemma sim_throwAt {A} lo k (m2 : M A) : sim lo (throwAt k) m2.
Proof. intros i v j _ _ H. discriminate. Qed.

Lemma sim_lift {A} lo (x1 x2 : Result A) :
  (forall a, x1 = Ok a -> x2 = Ok a) -> sim lo (lift x1) (lift x2).
Proof.
  intros Hx i v j _ Hi H. unfold lift in *.
  destruct x1 as [a|e]; [|discriminate]. injection H as <- <-.
  rewrite (Hx a eq_refl). auto.
Qed.

Lemma sim_lift_toInt lo s label p1 p2 :
  sim lo (lift (toInt s label p1)) (lift (toInt s label p2)).
Proof.
  apply sim_lift. unfold toInt. intros a.
  destruct (_ || _); [discriminate|auto].
Qed.

Lemma sim_lift_parseOffset lo s p1 p2 :
  sim lo (lift (parseOffset s p1)) (lift (parseOffset s p2)).
Proof.
  apply sim_lift. intros a H. rewrite (parseOffset_position s p1 p2), H. reflexivity.
Qed.

Lemma sim_bind {A B} lo (m1 m2 : M A) (f1 f2 : A -> M B) :
  sim lo m1 m2 -> (forall a, sim lo (f1 a) (f2 a)) ->
  sim lo (bindM m1 f1) (bindM m2 f2).
Proof.
  intros Hm Hf i v j Hlo Hi H. unfold bindM in *.
  destruct (m1 i) as [[a j1]|e] eqn:E1; [|discriminate].
  destruct (Hm i a j1 Hlo Hi E1) as (L1 & L2 & ->).
  destruct (Hf a j1 v j ltac:(lia) L2 H) as (L3 & L4 & E).
  split; [lia|]. split; [exact L4|exact E].
Qed.

Lemma sim_position {A} lo (k1 k2 : nat -> M A) :
  (forall p1 p2, sim lo (k1 p1) (k2 p2)) ->
  sim lo (bindM position k1) (bindM position k2).
Proof. intros Hk i v j Hlo Hi H. exact (Hk i (length pre + i) i v j Hlo Hi H). Qed.

Lemma sim_from {A} lo lo' (m1 m2 : M A) : lo <= lo' -> sim lo m1 m2 -> sim lo' m1 m2.
Proof. intros Hle H i v j Hlo. apply H. lia. Qed.

(** The token under the cursor: the same within the shared tokens, the
    two markers at their end. *)
Lemma window_token i :
  i <= length w ->
  exists t1 t2,
    toks1 !! i = Some t1 /\ toks2 !! (length pre + i) = Some t2
    /\ (forall ty, ty <> TT TokType.EOF -> ty <> TT TokType.Slash ->
          AnyTokType_eqb (any_type t1) ty = AnyTokType_eqb (any_type t2) ty)
    /\ (i < length w -> t1 = t2)
    /\ (i = length w -> t1 = Raw e1 /\ t2 = Raw e2).
Proof.
  intros Hi. destruct (Nat.eq_dec i (length w)) as [->|Hne].
  - destruct window_stop as [T1 T2]. exists (Raw e1), (Raw e2).
    split; [exact T1|]. split; [exact T2|]. split; [|split; [lia|auto]].
    intros ty N1 N2. cbn [any_type].
    rewrite !AnyTokType_eqb_neq; [reflexivity| |].
    + destruct e2_type as [-> | ->]; congruence.
    + rewrite e1_type. congruence.
  - destruct (window_lookup i ltac:(lia)) as (t & T1 & T2). exists t, t.
    split; [exact T1|]. split; [exact T2|]. split; [reflexivity|]. split; [auto|lia].
Qed.

Lemma sim_at lo ty :
  ty <> TT TokType.EOF -> ty <> TT TokType.Slash ->
  sim lo (at_ toks1 ty) (at_ toks2 ty).
Proof.
  intros N1 N2 i v j _ Hi H.
  destruct (window_token i Hi) as (t1 & t2 & T1 & T2 & E & _).
  rewrite (at_here toks1 i t1 ty T1) in H. injection H as <- <-.
  rewrite (at_here toks2 _ t2 ty T2), (E ty N1 N2). auto.
Qed.

Lemma sim_tryEat lo ty :
  ty <> TT TokType.EOF -> ty <> TT TokType.Slash ->
  sim lo (tryEat toks1 ty) (tryEat toks2 ty).
Proof.
  intros N1 N2 i v j _ Hi H.
  destruct (window_token i Hi) as (t1 & t2 & T1 & T2 & E & Hin & Hend).
  rewrite (tryEat_token toks1 i t1 ty T1) in H.
  rewrite (tryEat_token toks2 _ t2 ty T2), <- (E ty N1 N2).
  destruct (AnyTokType_eqb (any_type t1) ty) eqn:Et.
  - injection H as <- <-.
    destruct (Nat.eq_dec i (length w)) as [->|Hne].
    + destruct (Hend eq_refl) as [-> _]. cbn [any_type] in Et.
      rewrite e1_type in Et. apply AnyTokType_eqb_eq in Et. congruence.
    + rewrite (Hin ltac:(lia)), Nat.add_succ_r. split; [lia|]. split; [lia|reflexivity].
  - injection H as <- <-. auto.
Qed.

Lemma sim_eat lo ty :
  ty <> TT TokType.EOF -> sim lo (eat toks1 ty) (eat toks2 ty).
Proof.
  intros N1 i v j _ Hi H.
  destruct (window_token i Hi) as (t1 & t2 & T1 & T2 & _ & Hin & Hend).
  rewrite (eat_token toks1 i t1 ty T1) in H.
  destruct (AnyTokType_eqb (any_type t1) ty) eqn:Et; [|discriminate].
  injection H as <- <-.
  destruct (Nat.eq_dec i (length w)) as [->|Hne].
  - destruct (Hend eq_refl) as [-> _]. cbn [any_type] in Et.
    rewrite e1_type in Et. apply AnyTokType_eqb_eq in Et. congruence.
  - rewrite (eat_token toks2 _ t2 ty T2), <- (Hin ltac:(lia)), Et, Nat.add_succ_r.
    split; [lia|]. split; [lia|reflexivity].
Qed.

Ltac sim_step :=
  lazymatch goal with
  | |- sim _ (ret _) _ => apply sim_ret
  | |- sim _ (throwAt _) _ => apply sim_throwAt
  | |- sim _ (lift (toInt _ _ _)) _ => apply sim_lift_toInt
  | |- sim _ (lift (parseOffset _ _)) _ => apply sim_lift_parseOffset
  | |- sim _ (eat _ _) _ => apply sim_eat; discriminate
  | |- sim _ (tryEat _ _) _ => apply sim_tryEat; discriminate
  | |- sim _ (at_ _ _) _ => apply sim_at; discriminate
  | |- sim _ (bindM position _) _ => apply sim_position; intros ? ?
  | |- sim _ (bindM _ _) _ => apply sim_bind; [|intros ?]
  | |- sim _ (match ?x with _ => _ end) _ => destruct x
  end.

Lemma sim_parseDate lo : sim lo (parseDate toks1) (parseDate toks2).
Proof. unfold parseDate. repeat sim_step. Qed.

Lemma sim_parseTime lo : sim lo (parseTime toks1) (parseTime toks2).
Proof. unfold parseTime. repeat sim_step. Qed.

Lemma sim_parseOffsetIfPresent lo :
  sim lo (parseOffsetIfPresent toks1) (parseOffsetIfPresent toks2).
Proof. unfold parseOffsetIfPresent. repeat sim_step. Qed.

Lemma sim_addUnit lo inTime unit n fraction dur :
  sim lo (addUnit inTime unit n fraction dur) (addUnit inTime unit n fraction dur).
Proof. unfold addUnit. destruct dur. repeat sim_step. Qed.

(** The loops: the second run has fuel for the tokens that are left. *)
Lemma sim_gatherParts : forall fuel1 fuel2 lo parts,
  length w - lo < fuel2 ->
  sim lo (gatherParts toks1 fuel1 parts) (gatherParts toks2 fuel2 parts).
Proof.
  induction fuel1 as [|fuel1 IH]; intros fuel2 lo parts Hf i v j Hlo Hi H;
    [discriminate|].
  destruct fuel2 as [|fuel2]; [lia|]. cbn [gatherParts] in *. unfold eof in *.
  destruct (window_token i Hi) as (t1 & t2 & T1 & T2 & E & Hin & Hend).
  rewrite (bindM_Ok _ _ _ _ _ (at_here toks1 i t1 _ T1)) in H.
  rewrite (bindM_Ok _ _ _ _ _ (at_here toks2 _ t2 _ T2)).
  rewrite <- (E (TT TokType.RBracket)) by discriminate.
  destruct (AnyTokType_eqb (any_type t1) (TT TokType.RBracket)).
  { injection H as <- <-. auto. }
  rewrite (bindM_Ok _ _ _ _ _ (at_here toks1 i t1 _ T1)) in H.
  destruct (AnyTokType_eqb (any_type t1) (TT TokType.EOF)) eqn:Ee; [discriminate|].
  destruct (Nat.eq_dec i (length w)) as [->|Hne].
  { destruct (Hend eq_refl) as [-> _]. cbn [any_type] in Ee. rewrite e1_type in Ee.
    discriminate. }
  specialize (Hin ltac:(lia)). subst t2.
  rewrite (bindM_Ok _ _ _ _ _ (at_here toks2 _ t1 _ T2)), Ee.
  rewrite (bindM_Ok _ _ _ _ _ (peek_here toks1 i t1 T1)) in H.
  rewrite (bindM_Ok _ _ _ _ _ (peek_here toks2 _ t1 T2)).
  unfold bindM at 1 in H. unfold bindM at 1. unfold advance in *.
  destruct (IH fuel2 (S i) (parts ++ [any_value t1]) ltac:(lia) (S i) v j
              (Nat.le_refl _) ltac:(lia) H) as (L1 & L2 & L3).
  rewrite Nat.add_succ_r in L3. split; [lia|]. split; [lia|exact L3].
Qed.

Lemma sim_parseBracketGroup fuel1 fuel2 lo :
  length w - lo < fuel2 ->
  sim lo (parseBracketGroup toks1 fuel1) (parseBracketGroup toks2 fuel2).
Proof.
  intros Hf. unfold parseBracketGroup.
  apply sim_bind; [apply sim_eat; discriminate|]. intros _.
  apply sim_bind; [apply sim_tryEat; discriminate|]. intros bang.
  apply sim_bind; [apply sim_gatherParts; exact Hf|]. intros parts.
  repeat sim_step.
Qed.

(** A bracket group read on the first sequence moves the cursor. *)
Lemma parseBracketGroup_moves i g j :
  parseBracketGroup toks1 (S (length toks1)) i = Ok (g, j) -> S i <= j.
Proof.
  intros H.
  pose proof (parseBracketGroup_outcome toks1 e1 window_last e1_type i) as Ho.
  rewrite H in Ho. simpl in Ho. lia.
Qed.

Lemma sim_dateTimeBrackets : forall fuel1 fuel2 lo timeZone annotations,
  length w - lo < fuel2 ->
  sim lo (dateTimeBrackets toks1 fuel1 timeZone annotations)
    (dateTimeBrackets toks2 fuel2 timeZone annotations).
Proof.
  induction fuel1 as [|fuel1 IH]; intros fuel2 lo tz anns Hf i v j Hlo Hi H;
    [discriminate|].
  destruct fuel2 as [|fuel2]; [lia|]. cbn [dateTimeBrackets] in *.
  apply bindM_inv in H as (more & i1 & Ha & H).
  destruct (sim_at lo (TT TokType.LBracket) ltac:(discriminate) ltac:(discriminate)
              i more i1 Hlo Hi Ha) as (_ & _ & Ha2).
  pose proof Ha as Ha'. unfold at_, bindM in Ha'.
  destruct (peek toks1 0 i) as [[t0 i0]|] eqn:Ep; [|discriminate].
  assert (i0 = i) by (unfold peek in Ep; destruct (toks1 !! _); congruence).
  subst i0. injection Ha' as <- <-.
  rewrite (bindM_Ok _ _ _ _ _ Ha2).
  destruct (AnyTokType_eqb (any_type t0) (TT TokType.LBracket)).
  2:{ injection H as <- <-. auto. }
  apply bindM_inv in H as (g & j1 & Hg & H).
  pose proof (parseBracketGroup_moves i g j1 Hg) as Hmove.
  destruct (sim_parseBracketGroup (S (length toks1)) (S (length toks2)) lo
              ltac:(pose proof window_length; lia) i g j1 Hlo Hi Hg)
    as (L1 & L2 & Hg2).
  rewrite (bindM_Ok _ _ _ _ _ Hg2).
  assert (Hrec : forall tz' anns',
            dateTimeBrackets toks1 fuel1 tz' anns' j1 = Ok (v, j) ->
            i <= j /\ j <= length w
            /\ dateTimeBrackets toks2 fuel2 tz' anns' (length pre + j1)
               = Ok (v, length pre + j)).
  { intros tz' anns' Hr.
    destruct (IH fuel2 j1 tz' anns' ltac:(lia) j1 v j (Nat.le_refl _) L2 Hr)
      as (M1 & M2 & M3).
    split; [lia|]. split; [lia|exact M3]. }
  destruct tz as [tz|]; [|destruct (isLikelyTzId g)]; apply Hrec; exact H.
Qed.

Lemma sim_durationBrackets : forall fuel1 fuel2 lo annotations,
  length w - lo < fuel2 ->
  sim lo (durationBrackets toks1 fuel1 annotations)
    (durationBrackets toks2 fuel2 annotations).
Proof.
  induction fuel1 as [|fuel1 IH]; intros fuel2 lo anns Hf i v j Hlo Hi H;
    [discriminate|].
  destruct fuel2 as [|fuel2]; [lia|]. cbn [durationBrackets] in *.
  apply bindM_inv in H as (more & i1 & Ha & H).
  destruct (sim_at lo (TT TokType.LBracket) ltac:(discriminate) ltac:(discriminate)
              i more i1 Hlo Hi Ha) as (_ & _ & Ha2).
  pose proof Ha as Ha'. unfold at_, bindM in Ha'.
  destruct (peek toks1 0 i) as [[t0 i0]|] eqn:Ep; [|discriminate].
  assert (i0 = i) by (unfold peek in Ep; destruct (toks1 !! _); congruence).
  subst i0. injection Ha' as <- <-.
  rewrite (bindM_Ok _ _ _ _ _ Ha2).
  destruct (AnyTokType_eqb (any_type t0) (TT TokType.LBracket)).
  2:{ injection H as <- <-. auto. }
  apply bindM_inv in H as (g & j1 & Hg & H).
  pose proof (parseBracketGroup_moves i g j1 Hg) as Hmove.
  destruct (sim_parseBracketGroup (S (length toks1)) (S (length toks2)) lo
              ltac:(pose proof window_length; lia) i g j1 Hlo Hi Hg)
    as (L1 & L2 & Hg2).
  rewrite (bindM_Ok _ _ _ _ _ Hg2).
  destruct (IH fuel2 j1 _ ltac:(lia) j1 v j (Nat.le_refl _) L2 H) as (M1 & M2 & M3).
  split; [lia|]. split; [lia|exact M3].
Qed.

(** The test at the head of the designator loop and of
    [parseValueOrNull]: an end marker and a slash stop both alike. *)
Lemma window_boundary i :
  i <= length w ->
  exists t1 t2,
    toks1 !! i = Some t1 /\ toks2 !! (length pre + i) = Some t2
    /\ (i < length w -> t1 = t2)
    /\ (i = length w ->
        AnyTokType_eqb (any_type t1) (TT TokType.EOF) = true
        /\ (AnyTokType_eqb (any_type t2) (TT TokType.EOF) = true
            \/ AnyTokType_eqb (any_type t2) (TT TokType.EOF) = false
               /\ AnyTokType_eqb (any_type t2) (TT TokType.Slash) = true)).
Proof.
  intros Hi. destruct (window_token i Hi) as (t1 & t2 & T1 & T2 & _ & Hin & Hend).
  exists t1, t2. split; [exact T1|]. split; [exact T2|]. split; [exact Hin|].
  intros ->. destruct (Hend eq_refl) as [-> ->]. cbn [any_type].
  rewrite e1_type. split; [reflexivity|].
  destruct e2_type as [-> | ->]; [left|right]; auto.
Qed.

Lemma sim_durationLoop : forall fuel1 fuel2 lo rawParts inTime dur,
  length w - lo < fuel2 ->
  sim lo (durationLoop toks1 fuel1 rawParts inTime dur)
    (durationLoop toks2 fuel2 rawParts inTime dur).
Proof.
  induction fuel1 as [|fuel1 IH]; intros fuel2 lo rawParts inTime dur Hf i v j Hlo Hi H;
    [discriminate|].
  destruct fuel2 as [|fuel2]; [lia|]. cbn [durationLoop] in *. unfold eof in *.
  destruct (window_boundary i Hi) as (t1 & t2 & T1 & T2 & Hin & Hend).
  rewrite (bindM_Ok _ _ _ _ _ (at_here toks1 i t1 _ T1)) in H.
  rewrite (bindM_Ok _ _ _ _ _ (at_here toks2 _ t2 _ T2)).
  destruct (Nat.eq_dec i (length w)) as [->|Hne].
  { destruct (Hend eq_refl) as [E1 [E2|[E2 E3]]]; rewrite E1 in H; rewrite E2.
    - unfold bindM, ret in *. injection H as <- <-. auto.
    - unfold bindM at 1 in H. unfold ret at 1 in H.
      rewrite (bindM_Ok _ _ _ false (length pre + length w)).
      + injection H as <- <-. auto.
      + rewrite (bindM_Ok _ _ _ _ _ (at_here toks2 _ t2 _ T2)), E3. reflexivity. }
  specialize (Hin ltac:(lia)). subst t2.
  destruct (AnyTokType_eqb (any_type t1) (TT TokType.EOF)).
  { unfold bindM, ret in *. injection H as <- <-. auto. }
  assert (Hc : forall (toks : list AnyToken) k,
            toks !! k = Some t1 ->
            bindM (at_ toks (TT TokType.Slash)) (fun s =>
              if s then ret false
              else bindM (at_ toks (TT TokType.LBracket)) (fun b => ret (negb b))) k
            = Ok (negb (AnyTokType_eqb (any_type t1) (TT TokType.Slash))
                  && negb (AnyTokType_eqb (any_type t1) (TT TokType.LBracket)), k)).
  { intros toks k Hk. rewrite (bindM_Ok _ _ _ _ _ (at_here toks k t1 _ Hk)).
    destruct (AnyTokType_eqb (any_type t1) (TT TokType.Slash)); [reflexivity|].
    rewrite (bindM_Ok _ _ _ _ _ (at_here toks k t1 _ Hk)). reflexivity. }
  rewrite (bindM_Ok _ _ _ _ _ (Hc toks1 i T1)) in H.
  rewrite (bindM_Ok _ _ _ _ _ (Hc toks2 _ T2)).
  destruct (negb _ && negb _).
  2:{ injection H as <- <-. auto. }
  rewrite (bindM_tryEat_token toks1 i t1 _ _ T1) in H.
  rewrite (bindM_tryEat_token toks2 _ t1 _ _ T2).
  assert (Hnext : forall (m1 m2 : M (list string * Dur)),
            sim (S i) m1 m2 -> m1 (S i) = Ok (v, j) ->
            i <= j /\ j <= length w /\ m2 (S (length pre + i)) = Ok (v, length pre + j)).
  { intros m1 m2 Hs Hm.
    destruct (Hs (S i) v j (Nat.le_refl _) ltac:(lia) Hm) as (M1 & M2 & M3).
    rewrite Nat.add_succ_r in M3. split; [lia|]. split; [lia|exact M3]. }
  destruct (AnyTokType_eqb (any_type t1) (TT TokType.T)).
  { cbv beta iota in *. revert H. apply Hnext. apply IH. lia. }
  cbv beta iota in *.
  rewrite (bindM_tryEat_token toks1 i t1 _ _ T1) in H.
  rewrite (bindM_tryEat_token toks2 _ t1 _ _ T2).
  destruct (AnyTokType_eqb (any_type t1) (TT TokType.Number)).
  2:{ injection H as <- <-. auto. }
  cbv beta iota zeta in *. revert H. apply Hnext.
  apply sim_bind; [apply sim_tryEat; discriminate|]. intros dot.
  apply sim_bind; [destruct dot; repeat sim_step|]. intros [rp fr].
  apply sim_bind; [apply sim_eat; discriminate|]. intros unitTok.
  apply sim_position. intros p1 p2.
  apply sim_bind; [apply sim_lift_toInt|]. intros n.
  apply sim_bind; [apply sim_addUnit|]. intros dur1.
  apply IH. lia.
Qed.

Lemma sim_parseDateTime lo : sim lo (parseDateTime toks1) (parseDateTime toks2).
Proof.
  unfold parseDateTime.
  apply sim_bind; [apply sim_parseDate|]. intros d.
  apply sim_bind; [apply sim_tryEat; discriminate|]. intros t.
  apply sim_bind.
  { destruct t; [|apply sim_ret].
    apply sim_bind; [apply sim_parseTime|]. intros tm. apply sim_ret. }
  intros tm.
  apply sim_bind; [apply sim_parseOffsetIfPresent|]. intros o.
  apply sim_bind.
  { intros i v j Hlo Hi. apply (sim_dateTimeBrackets _ _ i); [|lia|exact Hi].
    pose proof window_length. lia. }
  intros [tz anns]. apply sim_ret.
Qed.

Lemma sim_parseDuration lo : sim lo (parseDuration toks1) (parseDuration toks2).
Proof.
  unfold parseDuration.
  apply sim_bind; [apply sim_eat; discriminate|]. intros pTok.
  destruct (negb _); [apply sim_throwAt|].
  apply sim_bind.
  { intros i v j Hlo Hi. apply (sim_durationLoop _ _ i); [|lia|exact Hi].
    pose proof window_length. lia. }
  intros [rawParts dur].
  apply sim_bind.
  { intros i v j Hlo Hi. apply (sim_durationBrackets _ _ i); [|lia|exact Hi].
    pose proof window_length. lia. }
  intros anns. apply sim_ret.
Qed.

Lemma sim_parseValueOrNull lo :
  sim lo (parseValueOrNull toks1) (parseValueOrNull toks2).
Proof.
  intros i v j Hlo Hi H. unfold parseValueOrNull in *.
  destruct (window_boundary i Hi) as (t1 & t2 & T1 & T2 & Hin & Hend).
  rewrite (bindM_Ok _ _ _ _ _ (at_here toks1 i t1 _ T1)) in H.
  rewrite (bindM_Ok _ _ _ _ _ (at_here toks2 _ t2 _ T2)).
  destruct (Nat.eq_dec i (length w)) as [->|Hne].
  { destruct (Hend eq_refl) as [E1 [E2|[E2 E3]]]; rewrite E1 in H; rewrite E2.
    - unfold bindM, ret in *. injection H as <- <-. auto.
    - unfold bindM at 1 in H. unfold ret at 1 in H.
      rewrite (bindM_Ok _ _ _ true (length pre + length w)).
      + injection H as <- <-. auto.
      + rewrite (bindM_Ok _ _ _ _ _ (at_here toks2 _ t2 _ T2)), E3. reflexivity. }
  specialize (Hin ltac:(lia)). subst t2.
  assert (Hc : forall (toks : list AnyToken) k,
            toks !! k = Some t1 ->
            (if AnyTokType_eqb (any_type t1) (TT TokType.EOF) then ret true
             else bindM (at_ toks (TT TokType.Slash)) (fun s =>
                    if s then ret true else at_ toks (TT TokType.RBracket))) k
            = Ok (AnyTokType_eqb (any_type t1) (TT TokType.EOF)
                  || AnyTokType_eqb (any_type t1) (TT TokType.Slash)
                  || AnyTokType_eqb (any_type t1) (TT TokType.RBracket), k)).
  { intros toks k Hk.
    destruct (AnyTokType_eqb (any_type t1) (TT TokType.EOF)); [reflexivity|].
    rewrite (bindM_Ok _ _ _ _ _ (at_here toks k t1 _ Hk)).
    destruct (AnyTokType_eqb (any_type t1) (TT TokType.Slash)); [reflexivity|].
    rewrite (at_here toks k t1 _ Hk). reflexivity. }
  rewrite (bindM_Ok _ _ _ _ _ (Hc toks1 i T1)) in H.
  rewrite (bindM_Ok _ _ _ _ _ (Hc toks2 _ T2)).
  destruct (_ || _ || _).
  { injection H as <- <-. auto. }
  rewrite (bindM_Ok _ _ _ _ _ (at_here toks1 i t1 _ T1)) in H.
  rewrite (bindM_Ok _ _ _ _ _ (at_here toks2 _ t1 _ T2)).
  rewrite (bindM_Ok _ _ _ _ _ (peek_here toks1 i t1 T1)) in H.
  rewrite (bindM_Ok _ _ _ _ _ (peek_here toks2 _ t1 T2)).
  destruct (_ && _).
  - revert H. apply (sim_bind lo); [apply sim_parseDuration| |exact Hlo|exact Hi].
    intros d. apply sim_ret.
  - revert H. apply (sim_bind lo); [apply sim_parseDateTime| |exact Hlo|exact Hi].
    intros d. apply sim_ret.
Qed.

(** Where the first run reads the end marker, the second reads an end
    marker too when the shared tokens are followed by one; and the first
    run reads it behind the shared tokens when they hold none. *)
Lemma eat_end_both i t j :
  i <= length w -> type e2 = TokType.EOF ->
  eat toks1 (TT TokType.EOF) i = Ok (t, j) ->
  exists t', eat toks2 (TT TokType.EOF) (length pre + i)
             = Ok (t', S (length pre + i)).
Proof.
  intros Hi He H.
  destruct (window_token i Hi) as (t1 & t2 & T1 & T2 & _ & Hin & Hend).
  rewrite (eat_token toks1 i t1 _ T1) in H.
  destruct (AnyTokType_eqb (any_type t1) (TT TokType.EOF)) eqn:Et; [|discriminate].
  exists t2. rewrite (eat_token toks2 _ t2 _ T2).
  destruct (Nat.eq_dec i (length w)) as [->|Hne].
  - destruct (Hend eq_refl) as [_ ->]. cbn [any_type]. rewrite He. reflexivity.
  - rewrite <- (Hin ltac:(lia)), Et. reflexivity.
Qed.

Lemma eat_end_index i t j :
  Forall (fun t => any_type t <> TT TokType.EOF) w ->
  i <= length w -> eat toks1 (TT TokType.EOF) i = Ok (t, j) -> i = length w.
Proof.
  intros Hw Hi H.
  destruct (Nat.eq_dec i (length w)) as [->|Hne]; [reflexivity|exfalso].
  destruct (lookup_lt_is_Some_2 w i ltac:(lia)) as [t1 Ht].
  assert (T1 : toks1 !! i = Some t1).
  { rewrite toks1_eq, lookup_app_l by lia. exact Ht. }
  rewrite (eat_token toks1 i t1 _ T1) in H.
  rewrite Forall_lookup in Hw. specialize (Hw i t1 Ht).
  rewrite AnyTokType_eqb_neq in H by exact Hw. discriminate.
Qed.

End ParserWindow.

(** *** The two sides of a range *)

(** One side of a range: a text that is read as a value, or white space
    for an open end. *)
Definition sideOf (s : string) (v : option ValueAst) : Prop :=
  match v with
  | Some v => parseTemporal s = Ok (Value v)
  | None => strAll JS.isWhitespace s = true
  end.

(** The tokens of a side and what the parser makes of them. *)
Definition sideTokens (l : list AnyToken) (v : option ValueAst) : Prop :=
  match v with
  | Some v => Parser.run (l ++ [Raw (tk TokType.EOF "")]) = Ok (Value v)
  | None => l = []
  end.

Lemma tryEat_None toks ty i j : Parser.tryEat toks ty i = Ok (None, j) -> j = i.
Proof.
  unfold Parser.tryEat, Parser.at_, Parser.eat, Parser.bindM, Parser.peek, Parser.ret.
  destruct (toks !! Nat.min (i + 0) (length toks - 1)) as [t|]; [|discriminate].
  destruct (AnyTokType_eqb (any_type t) ty); simpl; [|congruence].
  destruct (toks !! Nat.min (i + 0) (length toks - 1)) as [t1|]; [|discriminate].
  destruct (negb _); discriminate.
Qed.

(** A run of the parser that yields a value: no slash in front of it, the
    value, no slash behind it, and the end marker. *)
Lemma parseTemporal_Value toks v j :
  Parser.parseTemporal toks 0 = Ok (Value v, j) ->
  exists j1 t,
    Parser.tryEat toks (TT TokType.Slash) 0 = Ok (None, 0)
    /\ Parser.parseValueOrNull toks 0 = Ok (Some v, j1)
    /\ Parser.eat toks (TT TokType.EOF) j1 = Ok (t, j).
Proof.
  unfold Parser.parseTemporal. intros H.
  apply bindM_inv in H as (slash & i1 & Hs & H).
  destruct slash as [s|].
  { apply bindM_inv in H as (x & i2 & _ & H).
    apply bindM_inv in H as (y & i3 & _ & H). discriminate. }
  pose proof (tryEat_None _ _ _ _ Hs) as ->.
  apply bindM_inv in H as (first & j1 & Hv & H).
  destruct first as [first|]; [|discriminate].
  apply bindM_inv in H as (slash & j2 & Hs2 & H).
  destruct slash as [s|].
  { apply bindM_inv in H as (x & i2 & _ & H).
    apply bindM_inv in H as (y & i3 & _ & H). discriminate. }
  pose proof (tryEat_None _ _ _ _ Hs2) as ->.
  apply bindM_inv in H as (t & j3 & He & H).
  injection H as <- <-. exists j1, t. auto.
Qed.

(** The second side, behind the tokens [pre]. *)
Lemma run_second_side pre fb vb :
  sideTokens fb vb ->
  exists j t,
    Parser.parseValueOrNull (pre ++ fb ++ [Raw (tk TokType.EOF "")]) (length pre)
    = Ok (vb, j)
    /\ Parser.eat (pre ++ fb ++ [Raw (tk TokType.EOF "")]) (TT TokType.EOF) j
       = Ok (t, S j).
Proof.
  intros Hb. destruct vb as [v|]; cbn [sideTokens] in Hb.
  - unfold Parser.run in Hb.
    destruct (Parser.parseTemporal (fb ++ [Raw (tk TokType.EOF "")]) 0)
      as [[ast j]|e] eqn:E; [|discriminate].
    injection Hb as ->.
    apply parseTemporal_Value in E as (j1 & t & _ & Hv & He).
    destruct (sim_parseValueOrNull _ (pre ++ fb ++ [Raw (tk TokType.EOF "")])
                pre fb [] (tk TokType.EOF "") (tk TokType.EOF "")
                eq_refl eq_refl eq_refl (or_introl eq_refl) 0 0 (Some v) j1
                (Nat.le_refl _) (Nat.le_0_l _) Hv) as (_ & Hj & Hv2).
    rewrite Nat.add_0_r in Hv2.
    destruct (eat_end_both _ (pre ++ fb ++ [Raw (tk TokType.EOF "")])
                pre fb [] (tk TokType.EOF "") (tk TokType.EOF "")
                eq_refl eq_refl eq_refl (or_introl eq_refl) j1 t j Hj eq_refl He)
      as (t' & He2).
    exists (length pre + j1), t'. auto.
  - subst fb. cbn [app]. exists (length pre), (Raw (tk TokType.EOF "")).
    assert (Hd : drop (length pre) (pre ++ [Raw (tk TokType.EOF "")])
                 = [Raw (tk TokType.EOF "")]) by apply drop_app_length.
    split.
    + apply (parseValueOrNull_empty _ _ _ Hd). apply headIs_cons. right. reflexivity.
    + rewrite (eat_token _ (length pre) (Raw (tk TokType.EOF ""))); [reflexivity|].
      apply list_lookup_middle. reflexivity.
Qed.

(** The first side, in front of the slash. *)
Lemma run_first_side fa rest va :
  Forall (fun t => any_type t <> TT TokType.EOF) fa ->
  sideTokens fa va ->
  Parser.parseTemporal (fa ++ Raw (tk TokType.Slash "/") :: rest) 0
  = Parser.bindM (Parser.parseValueOrNull (fa ++ Raw (tk TokType.Slash "/") :: rest))
      (fun second =>
         Parser.bindM (Parser.eat (fa ++ Raw (tk TokType.Slash "/") :: rest)
                         (TT TokType.EOF))
           (fun _ => Parser.ret (Range va second)))
      (S (length fa)).
Proof.
  intros Hfa Ha. set (toks := fa ++ Raw (tk TokType.Slash "/") :: rest).
  assert (Hslash : toks !! length fa = Some (Raw (tk TokType.Slash "/")))
    by (apply list_lookup_middle; reflexivity).
  destruct va as [v|]; cbn [sideTokens] in Ha.
  - unfold Parser.run in Ha.
    destruct (Parser.parseTemporal (fa ++ [Raw (tk TokType.EOF "")]) 0)
      as [[ast j]|e] eqn:E; [|discriminate].
    injection Ha as ->.
    apply parseTemporal_Value in E as (j1 & t & Hs & Hv & He).
    destruct (sim_parseValueOrNull _ toks [] fa rest (tk TokType.EOF "")
                (tk TokType.Slash "/") eq_refl eq_refl eq_refl (or_intror eq_refl)
                0 0 (Some v) j1 (Nat.le_refl _) (Nat.le_0_l _) Hv) as (_ & Hj & Hv2).
    cbn [length Nat.add] in Hv2.
    pose proof (eat_end_index _ fa (tk TokType.EOF "") eq_refl j1 t j Hfa Hj He) as ->.
    destruct fa as [|t0 fa0].
    { cbn [app] in Hv.
      rewrite (parseValueOrNull_empty [Raw (tk TokType.EOF "")] 0
                 [Raw (tk TokType.EOF "")] eq_refl) in Hv; [discriminate|].
      apply headIs_cons. right. reflexivity. }
    assert (Hs2 : Parser.tryEat toks (TT TokType.Slash) 0 = Ok (None, 0)).
    { rewrite (tryEat_token ((t0 :: fa0) ++ [Raw (tk TokType.EOF "")]) 0 t0 _ eq_refl)
        in Hs.
      rewrite (tryEat_token toks 0 t0 _ eq_refl).
      destruct (AnyTokType_eqb (any_type t0) (TT TokType.Slash)); [discriminate|].
      reflexivity. }
    unfold Parser.parseTemporal.
    rewrite (bindM_Ok _ _ _ _ _ Hs2), (bindM_Ok _ _ _ _ _ Hv2).
    rewrite (bindM_tryEat_token toks _ _ _ _ Hslash). reflexivity.
  - subst fa. unfold Parser.parseTemporal.
    rewrite (bindM_tryEat_token toks _ _ _ _ Hslash). reflexivity.
Qed.

(** The parser on the tokens of the two sides around a slash. *)
Lemma run_sides fa fb va vb :
  Forall (fun t => any_type t <> TT TokType.EOF) fa ->
  sideTokens fa va -> sideTokens fb vb ->
  Parser.run (fa ++ Raw (tk TokType.Slash "/") :: fb ++ [Raw (tk TokType.EOF "")])
  = Ok (Range va vb).
Proof.
  intros Hfa Ha Hb. unfold Parser.run.
  rewrite (run_first_side fa _ va Hfa Ha).
  destruct (run_second_side (fa ++ [Raw (tk TokType.Slash "/")]) fb vb Hb)
    as (j & t & Hv & He).
  rewrite <- app_assoc in Hv, He. cbn [app] in Hv, He.
  rewrite length_app in Hv. cbn [length] in Hv. rewrite Nat.add_1_r in Hv.
  rewrite (bindM_Ok _ _ _ _ _ Hv), (bindM_Ok _ _ _ _ _ He). reflexivity.
Qed.

(** The lexer on one side: its tokens, none of them an end marker, and
    what the parser makes of them. *)
Lemma sideOf_tokens s v :
  sideOf s v ->
  exists l,
    Lexes s (l ++ [tk TokType.EOF ""])
    /\ Forall (fun t => type t <> TokType.EOF) l
    /\ match v with
       | Some v =>
           Parser.run (combineTimezoneOffsets (map Raw (l ++ [tk TokType.EOF ""])))
           = Ok (Value v)
       | None => l = []
       end.
Proof.
  destruct v as [v|]; cbn [sideOf]; intros H.
  - pose proof H as Hp. unfold parseTemporal in H.
    destruct (lexTemporal s) as [l|e] eqn:El; [|discriminate].
    destruct (lexTemporal_Lexes s l El) as (l0 & Hn & HL). exists l0.
    split; [exact HL|]. split.
    + pose proof (lex_loop_from _ s (Nat.le_refl _) 0) as HF.
      unfold lexTemporal in El. rewrite El in HF.
      destruct HF as (l1 & -> & _ & Ht & _).
      rewrite map_app in Hn. apply app_inj_tail in Hn as [<- _].
      apply Forall_map. revert Ht. apply List.Forall_impl.
      intros t (_ & _ & _ & _ & Ht). exact Ht.
    + rewrite <- (parseTemporal_Lexes _ _ HL). exact Hp.
  - exists []. split; [|split; [constructor|reflexivity]].
    rewrite <- (append_nil_r s). apply Lexes_spaces; [exact H|exact Lexes_end].
Qed.

(** X18.  A range is read side by side.  When each side is a text that
    [parseTemporal] reads as a value, or white space for an open end, the
    two texts around a slash are read as the range of the two values: what
    stands on one side of the slash does not change what is read on the
    other. *)
Theorem parseTemporal_range a b va vb :
  sideOf a va -> sideOf b vb ->
  parseTemporal (a +:+ "/" +:+ b) = Ok (Range va vb).
Proof.
  intros Ha Hb.
  destruct (sideOf_tokens a va Ha) as (la & La & Na & Pa).
  destruct (sideOf_tokens b vb Hb) as (lb & Lb & _ & Pb).
  assert (HL : Lexes (a +:+ "/" +:+ b)
                 (la ++ tk TokType.Slash "/" :: lb ++ [tk TokType.EOF ""])).
  { apply Lexes_append; [exact La|reflexivity|reflexivity|].
    change ("/" +:+ b) with (String "/" b).
    apply (Lexes_punct "/"%char TokType.Slash); [reflexivity|exact Lb]. }
  rewrite (parseTemporal_Lexes _ _ HL).
  destruct (combineTimezoneOffsets_sides la lb) as (fa & fb & Fa & Fb & -> & Hraw).
  apply run_sides.
  - rewrite List.Forall_forall. intros [r|c] Hin; [|discriminate].
    cbn [any_type]. intros [= E].
    assert (Hr : In r la).
    { rewrite <- Hraw. apply in_flat_map. exists (Raw r).
      split; [exact Hin|left; reflexivity]. }
    rewrite List.Forall_forall in Na. exact (Na r Hr E).
  - destruct va as [v|]; cbn [sideTokens].
    + rewrite <- Fa. exact Pa.
    + subst la. cbn [app map] in Fa.
      destruct fa as [|x fa]; [reflexivity|].
      apply (f_equal (@length _)) in Fa. rewrite length_app in Fa.
      simpl in Fa. lia.
  - destruct vb as [v|]; cbn [sideTokens].
    + rewrite <- Fb. exact Pb.
    + subst lb. cbn [app map] in Fb.
      destruct fb as [|x fb]; [reflexivity|].
      apply (f_equal (@length _)) in Fb. rewrite length_app in Fb.
      simpl in Fb. lia.
Qed.

Lemma parseTemporal_range_witness :
  parseTemporal "2025-01-01T10:00+08:00[Asia/Tokyo]/P1DT12H"
  = Ok (Range
          (Some (DateTime
             (mkDateTime (mkDate 2025 (Some 1%Z) (Some 1%Z))
                (Some (mkTime 10 0 None None))
                (Some (NumericOffset SignPlus 8 0 "+08:00"))
                (Some (mkTimeZone "Asia/Tokyo" false)) [])))
          (Some (Duration
             (mkDuration None None None (Some 1%Z) (Some 12%Z) None None None
                "P1DT12H" []))))
  /\ parseTemporal "2025-01-01/ " = Ok (Range (Some (DateTime
             (mkDateTime (mkDate 2025 (Some 1%Z) (Some 1%Z)) None None None []))) None).
Proof.
  split.
  - apply (parseTemporal_range "2025-01-01T10:00+08:00[Asia/Tokyo]" "P1DT12H"
             (Some _) (Some _)); vm_compute; reflexivity.
  - apply (parseTemporal_range "2025-01-01" " " (Some _) None); vm_compute; reflexivity.
Defined.

(** ** A duration of one unit: designators, fractions and units that are none *)



Definition fractionPart (F : option string) : list Token :=
  match F with
  | Some F => [tk TokType.Dot "."; tk TokType.Number F]
  | None => []
  end.

(** The tokens of [P], the time marker or none, a number, a fraction or
    none, and a word in the place of the unit. *)
Definition unitTokens (inTime : bool) (N : string) (F : option string) (U : string)
  : list Token :=
  tk TokType.Ident "P" :: markerRaw inTime
  ++ tk TokType.Number N :: fractionPart F ++ [tk TokType.Ident U].

Definition unitText (inTime : bool) (N : string) (F : option string) (U : string)
  : string :=
  "P" +:+ (if inTime then "T" else "") +:+ N
  +:+ match F with Some F => "." +:+ F | None => "" end +:+ U.

Lemma unitText_flat inTime N F U :
  unitText inTime N F U = flat (unitTokens inTime N F U).
Proof.
  unfold unitText, unitTokens.
  destruct inTime, F as [F|]; cbn [markerRaw fractionPart app flat value tk];
    rewrite ?append_assoc, ?append_nil_l, ?append_nil_r; reflexivity.
Qed.




Section OneUnit.

Import Parser.




Variable toks : list AnyToken.



End OneUnit.




(** ** The keys and values of an annotation *)

























(** *** The group is no time zone *)






(** *** The critical mark *)



(** *** What is stored under a key *)





(** * Bracket groups and round trips, from the text *)

(** ** The bracket groups of a date-time, from the text *)

(** The shape of a time zone in the words of the specification: the
    content of the group, without its critical mark, has no [=] and has a
    [/] or starts with [Etc/]. *)
Definition timeZoneShaped (X : string) : bool :=
  let content := stripBang X in
  negb (JS.includes "=" content)
  && (JS.includes "/" content || JS.startsWith "Etc/" content).

(** The first group of that shape, and the other groups in their order. *)
Fixpoint firstTimeZone (Xs : list string) : option string * list string :=
  match Xs with
  | [] => (None, [])
  | X :: rest =>
      if timeZoneShaped X then (Some X, rest)
      else (fst (firstTimeZone rest), X :: snd (firstTimeZone rest))
  end.

(** The groups as they are written. *)
Fixpoint groupsText (Xs : list string) : string :=
  match Xs with
  | [] => ""
  | X :: rest => "[" +:+ X +:+ "]" +:+ groupsText rest
  end.

(** A date-time without bracket groups. *)
Definition bare (d : DateAst) (t : option TimeAst) (o : option OffsetAst)
  : DateTimeAst :=
  mkDateTime d t o None [].

Lemma groupsText_flat Xs : groupsText Xs = flat (groupsRaw Xs).
Proof.
  induction Xs as [|X Xs IH]; [reflexivity|].
  rewrite flat_groupsRaw_cons. cbn [groupsText]. rewrite IH. reflexivity.
Qed.

Lemma likelyTzId_words X : tzLike X = timeZoneShaped X.
Proof.
  unfold tzLike, timeZoneShaped, Parser.likelyTzId, JS.includes.
  destruct (JS.indexOf "=" (stripBang X)); reflexivity.
Qed.

(** The classification of the parser on the groups of the contents [Xs]. *)
Lemma classify_firstTimeZone Xs :
  fst (classify (map groupOf Xs))
  = option_map (fun X => mkTimeZone (stripBang X) (bang X)) (fst (firstTimeZone Xs))
  /\ map (fun n => (ann_raw n, ann_critical n)) (snd (classify (map groupOf Xs)))
     = map (fun X => (X, bang X)) (snd (firstTimeZone Xs)).
Proof.
  induction Xs as [|X Xs [IH1 IH2]]; [split; reflexivity|].
  cbn [map firstTimeZone]. rewrite classify_cons.
  change (Parser.isLikelyTzId (groupOf X)) with (tzLike X).
  rewrite likelyTzId_words.
  destruct (timeZoneShaped X); cbn [fst snd option_map map].
  - split; [reflexivity|].
    clear. induction Xs as [|Y Xs IH]; [reflexivity|].
    cbn [map]. rewrite IH. reflexivity.
  - rewrite IH1, IH2. split; reflexivity.
Qed.

Section WrittenPieces.

Import Parser.

Variable toks : list AnyToken.

Lemma parseValueOrNull_written a i rest :
  WrittenDateTime a -> WholeDate (date a) ->
  (forall t, time a = Some t -> WholeTime t) ->
  drop i toks = dateTimeFused a ++ rest -> headIs boundary rest ->
  exists j,
    parseValueOrNull toks i = Ok (Some (DateTime (readDateTime a)), j)
    /\ drop j toks = rest.
Proof.
  intros Hv Wd Wt H Hb. unfold parseValueOrNull.
  pose proof H as H0. destruct (dateTimeFused_head a rest) as (r0 & E).
  rewrite E in H0. clear E.
  p_at_no H0.
  rewrite (bindM_Ok _ _ i false i)
    by (p_at_no H0; apply (at_drop_other toks _ _ _ _ H0); simpl; congruence).
  cbv beta iota.
  p_at_no H0. p_peek H0. cbn [andb]. cbv iota.
  destruct (parseDateTime_exact toks a i rest Hv Wd Wt H Hb) as (j & Hp & Hj).
  rewrite (bindM_Ok _ _ _ _ _ Hp).
  exists j. split; [reflexivity|exact Hj].
Qed.

End WrittenPieces.

(** The pipeline on the text of a date-time, whatever the order of its
    bracket groups. *)
Lemma parseTemporal_written a :
  WrittenDateTime a -> WholeDate (date a) ->
  (forall t, time a = Some t -> WholeTime t) ->
  parseTemporal (stringifyDateTime a) = Ok (Value (DateTime (readDateTime a))).
Proof.
  intros Hv Wd Wt. rewrite (stringifyDateTime_flat a).
  assert (HL : Lexes (flat (dateTimeRaw a)) (dateTimeRaw a ++ [tk TokType.EOF ""])).
  { rewrite <- (append_nil_r (flat (dateTimeRaw a))).
    apply Lexes_dateTime; [exact Hv|reflexivity|exact Lexes_end]. }
  rewrite (parseTemporal_Lexes _ _ HL).
  unfold combineTimezoneOffsets.
  change (Fuser.loop (length ?l) ?l 0 []) with (fused l []).
  rewrite map_app. cbn [map].
  rewrite (fused_dateTime a _ _ Hv Quiet_nil).
  rewrite fused_other by reflexivity.
  rewrite fused_nil. cbn [app].
  unfold Parser.run, Parser.parseTemporal.
  set (toks := dateTimeFused a ++ [Raw (tk TokType.EOF "")]).
  assert (H : drop 0 toks = dateTimeFused a ++ [Raw (tk TokType.EOF "")])
    by reflexivity.
  assert (Hend : headIs boundary [Raw (tk TokType.EOF "")])
    by (apply headIs_cons; right; reflexivity).
  clearbody toks.
  assert (H0 : Parser.tryEat toks (TT TokType.Slash) 0 = Ok (None, 0)).
  { apply (tryEat_head_other toks 0 _ _ H).
    eapply headIs_impl; [|apply (valueFused_head (DateTime a))].
    intros ty [-> | ->]; discriminate. }
  rewrite (bindM_Ok _ _ _ _ _ H0). cbv beta iota.
  destruct (parseValueOrNull_written toks a 0 _ Hv Wd Wt H Hend) as (j & Hp & Hj).
  rewrite (bindM_Ok _ _ _ _ _ Hp). cbv beta iota.
  p_tryEat_no Hj. p_eat Hj. reflexivity.
Qed.

(** The text of a date-time with bracket groups is the text without them
    followed by the groups. *)
Lemma stringifyDateTime_groups d t o Xs :
  stringifyDateTime (mkDateTime d t o None (map (fun X => mkAnnotation X false ∅) Xs))
  = stringifyDateTime (bare d t o) +:+ groupsText Xs.
Proof.
  rewrite !stringifyDateTime_flat, groupsText_flat. unfold dateTimeRaw, bare.
  cbn [date time offset bracketTexts bracketTextsOf timeZone annotations app map].
  rewrite map_map. cbn [ann_raw]. rewrite map_id.
  cbn [groupsRaw flat_map]. rewrite app_nil_r.
  rewrite !flat_app, !append_assoc. reflexivity.
Qed.

(** The date-time read from a text with bracket groups of any contents. *)
Lemma parseTemporal_groups d t o Xs :
  WrittenDateTime (bare d t o) -> WholeDate d ->
  (forall tm, t = Some tm -> WholeTime tm) ->
  Forall (fun X => strAll isBracketChar X = true) Xs ->
  exists a,
    parseTemporal (stringifyDateTime (bare d t o) +:+ groupsText Xs)
    = Ok (Value (DateTime a))
    /\ date a = d /\ time a = t
    /\ timeZone a
       = option_map (fun X => mkTimeZone (stripBang X) (bang X))
           (fst (firstTimeZone Xs))
    /\ map (fun n => (ann_raw n, ann_critical n)) (annotations a)
       = map (fun X => (X, bang X)) (snd (firstTimeZone Xs)).
Proof.
  intros (Hd & Ht & Ho & Hto & _) Wd Wt HXs.
  pose (a := mkDateTime d t o None (map (fun X => mkAnnotation X false ∅) Xs)).
  assert (HX : bracketTexts a = Xs).
  { unfold bracketTexts, a. cbn [timeZone annotations bracketTextsOf app].
    rewrite map_map. cbn [ann_raw]. apply map_id. }
  assert (Hv : WrittenDateTime a).
  { unfold WrittenDateTime. rewrite HX.
    exact (conj Hd (conj Ht (conj Ho (conj Hto HXs)))). }
  rewrite <- (stringifyDateTime_groups d t o Xs). fold a.
  rewrite (parseTemporal_written a Hv Wd Wt).
  eexists. split; [reflexivity|]. unfold readDateTime. rewrite HX.
  cbn [date time timeZone annotations]. split; [reflexivity|]. split; [reflexivity|].
  exact (classify_firstTimeZone Xs).
Qed.

(** ** Digits as they are written *)

(** A number written without leading zeros. *)
Definition plainNumeral (N : string) : bool :=
  isNumeral N
  && match N with
     | String "0" (String _ _) => false
     | _ => true
     end.

(** A run of [w] digits. *)
Definition digitsOfWidth (w : nat) (s : string) : Prop :=
  strAll isDigit s = true /\ String.length s = w.

Section WrittenDigits.

Local Open Scope Z_scope.

Lemma uint_of_digit c d :
  isDigit c = true -> exists d1, uint_of_char c (Some d) = Some d1.
Proof.
  destruct c as [[] [] [] [] [] [] [] []]; vm_compute; intros H; try discriminate;
    eexists; reflexivity.
Qed.

Lemma uint_of_digits s :
  strAll isDigit s = true -> exists d, NilEmpty.uint_of_string s = Some d.
Proof.
  induction s as [|c s IH]; intros H; [exists Decimal.Nil; reflexivity|].
  simpl in H. apply andb_true_iff in H as [Hc Hs].
  destruct (IH Hs) as (d & Hd). cbn [NilEmpty.uint_of_string]. rewrite Hd.
  exact (uint_of_digit c d Hc).
Qed.

Lemma decimal_uint d : decimal (NilEmpty.string_of_uint d) = Z.of_N (Pos.of_uint d).
Proof.
  pose proof (digitsValue_uint d) as H.
  rewrite (digitsValue_decimal _ 0 (strAll_uint d)) in H.
  injection H as H. exact H.
Qed.

Lemma toString_uint d :
  JSNumber.toString (Z.of_N (Pos.of_uint d)) = NilZero.string_of_uint (Decimal.unorm d).
Proof.
  unfold JSNumber.toString.
  assert (E : Z.to_int (Z.of_N (Pos.of_uint d))
              = Decimal.Pos (N.to_uint (Pos.of_uint d))).
  { destruct (Pos.of_uint d); reflexivity. }
  rewrite E, DecimalPos.Unsigned.to_of. reflexivity.
Qed.

(** A number written without leading zeros is printed as it is written. *)
Lemma toString_plain N : plainNumeral N = true -> JSNumber.toString (decimal N) = N.
Proof.
  unfold plainNumeral. intros H. apply andb_true_iff in H as [HN Hz].
  destruct (uint_of_digits N (isNumeral_digits N HN)) as (d & Hd).
  pose proof (NilEmpty.sus N d Hd) as Hs.
  rewrite <- Hs at 1. rewrite decimal_uint, toString_uint.
  destruct N as [|c N1]; [discriminate|].
  cbn [NilEmpty.uint_of_string] in Hd.
  destruct (NilEmpty.uint_of_string N1) as [d1|] eqn:E1; [|discriminate].
  apply uint_of_char_spec in Hd.
  destruct Hd as [[-> ->]|Hd].
  { destruct N1 as [|c1 N2]; [|discriminate].
    injection E1 as <-. reflexivity. }
  rewrite <- Hs.
  repeat (destruct Hd as [[-> ->]|Hd]; [reflexivity|]).
  destruct Hd as [-> ->]. reflexivity.
Qed.

Lemma padStart_length n s :
  (String.length s <= n)%nat ->
  JS.padStart (S n) "0" s = String "0" (JS.padStart n "0" s).
Proof.
  intros H. unfold JS.padStart.
  replace (S n - String.length s)%nat with (S (n - String.length s)) by lia.
  reflexivity.
Qed.

Lemma padStart_full s : JS.padStart (String.length s) "0" s = s.
Proof. unfold JS.padStart. rewrite Nat.sub_diag. reflexivity. Qed.

Lemma length_repeat_char c k : String.length (JS.repeat_char c k) = k.
Proof. induction k as [|k IH]; simpl; congruence. Qed.

(** A run of digits is the printed form of its value, padded with zeros to
    its width. *)
Lemma padStart_digits s :
  strAll isDigit s = true -> s <> "" ->
  JS.padStart (String.length s) "0" (JSNumber.toString (decimal s)) = s.
Proof.
  induction s as [|c s IH]; intros H Hne; [congruence|].
  destruct (plainNumeral (String c s)) eqn:Ep.
  { rewrite (toString_plain _ Ep). apply padStart_full. }
  unfold plainNumeral, isNumeral in Ep. cbn [JSNumber.nonEmpty andb] in Ep.
  rewrite H in Ep. cbn [andb] in Ep.
  destruct c as [[] [] [] [] [] [] [] []]; try discriminate.
  destruct s as [|c1 s1]; [discriminate|].
  simpl in H.
  specialize (IH H ltac:(discriminate)).
  change (decimal (String "0" (String c1 s1))) with (decimal (String c1 s1)).
  assert (Hlen : (String.length (JSNumber.toString (decimal (String c1 s1)))
                  <= String.length (String c1 s1))%nat).
  { apply (f_equal String.length) in IH. unfold JS.padStart in IH.
    rewrite length_append, length_repeat_char in IH. lia. }
  change (String.length (String "0" (String c1 s1)))
    with (S (String.length (String c1 s1))).
  rewrite (padStart_length _ _ Hlen), IH. reflexivity.
Qed.

Lemma pad_digits w s : digitsOfWidth w s -> (0 < w)%nat -> pad w (decimal s) = s.
Proof.
  intros [Hs <-] Hw. unfold pad. apply padStart_digits; [exact Hs|].
  intros ->. simpl in Hw. lia.
Qed.

Lemma digits_safe w s : digitsOfWidth w s -> (w <= 15)%nat -> safe (decimal s).
Proof.
  intros [Hs Hl] Hw. pose proof (decimal_bounds s Hs) as Hb. split; [lia|].
  assert (10 ^ Z.of_nat (String.length s) <= 10 ^ 15)
    by (apply Z.pow_le_mono_r; lia).
  assert (10 ^ 15 < 2 ^ 53) by (vm_compute; reflexivity). lia.
Qed.

Lemma digits_numeral w s : digitsOfWidth w s -> (0 < w)%nat -> isNumeral s = true.
Proof.
  intros [Hs Hl] Hw. unfold isNumeral. rewrite Hs.
  destruct s; [simpl in Hl; lia|reflexivity].
Qed.

End WrittenDigits.

(** ** Canonical text, as it is written

    The canonical form of the specification, described on the text alone:
    the digits of every field as they stand in the string.  Nothing here
    refers to the serializer. *)

Inductive WrittenDate :=
| WrittenYear (YYYY : string)
| WrittenYearMonth (YYYY MM : string)
| WrittenYearMonthDay (YYYY MM DD : string).

Inductive WrittenTime :=
| WrittenMinute (HH MM : string)
| WrittenSecond (HH MM SS : string)
| WrittenFraction (HH MM SS F : string).

Inductive WrittenOffset :=
| WrittenZ
| WrittenNumeric (sign : Sign) (HH MM : string).

Record WrittenDateTimeText := mkWrittenDateTime {
  w_date : WrittenDate;
  w_time : option WrittenTime;
  w_offset : option WrittenOffset;
  w_groups : list string
}.

(** The numbers of a duration, each with its designator, and the seconds
    with their fraction. *)
Record WrittenDuration := mkWrittenDuration {
  w_years : option string;
  w_months : option string;
  w_weeks : option string;
  w_days : option string;
  w_hours : option string;
  w_minutes : option string;
  w_seconds : option (string * option string);
  w_annotations : list string
}.

Inductive WrittenValue :=
| WrittenDateTimeValue (a : WrittenDateTimeText)
| WrittenDurationValue (u : WrittenDuration).

Inductive Written :=
| WrittenOne (v : WrittenValue)
| WrittenRange (start_ end_ : option WrittenValue).

(** *** The text *)

Definition writeDate (d : WrittenDate) : string :=
  match d with
  | WrittenYear Y => Y
  | WrittenYearMonth Y MM => Y +:+ "-" +:+ MM
  | WrittenYearMonthDay Y MM DD => Y +:+ "-" +:+ MM +:+ "-" +:+ DD
  end.

Definition writeTime (t : WrittenTime) : string :=
  match t with
  | WrittenMinute HH MM => HH +:+ ":" +:+ MM
  | WrittenSecond HH MM SS => HH +:+ ":" +:+ MM +:+ ":" +:+ SS
  | WrittenFraction HH MM SS F => HH +:+ ":" +:+ MM +:+ ":" +:+ SS +:+ "." +:+ F
  end.

Definition writeOffset (o : WrittenOffset) : string :=
  match o with
  | WrittenZ => "Z"
  | WrittenNumeric sign HH MM => Sign_text sign +:+ HH +:+ ":" +:+ MM
  end.

Definition writeDateTime (a : WrittenDateTimeText) : string :=
  writeDate (w_date a)
  +:+ match w_time a with Some t => "T" +:+ writeTime t | None => "" end
  +:+ match w_offset a with Some o => writeOffset o | None => "" end
  +:+ groupsText (w_groups a).

Definition writeUnit (x : option string) (unit : string) : string :=
  match x with
  | Some N => N +:+ unit
  | None => ""
  end.

Definition writeSeconds (x : option (string * option string)) : string :=
  match x with
  | Some (N, Some F) => N +:+ "." +:+ F +:+ "S"
  | Some (N, None) => N +:+ "S"
  | None => ""
  end.

(** The time marker stands in front of the hours, minutes and seconds, when
    there are any. *)
Definition writtenTimePart (u : WrittenDuration) : bool :=
  isDefined (w_hours u) || isDefined (w_minutes u) || isDefined (w_seconds u).

Definition writeDuration (u : WrittenDuration) : string :=
  "P" +:+ writeUnit (w_years u) "Y" +:+ writeUnit (w_months u) "M"
  +:+ writeUnit (w_weeks u) "W" +:+ writeUnit (w_days u) "D"
  +:+ (if writtenTimePart u then "T" else "")
  +:+ writeUnit (w_hours u) "H" +:+ writeUnit (w_minutes u) "M"
  +:+ writeSeconds (w_seconds u)
  +:+ groupsText (w_annotations u).

Definition writeValue (v : WrittenValue) : string :=
  match v with
  | WrittenDateTimeValue a => writeDateTime a
  | WrittenDurationValue u => writeDuration u
  end.

Definition writeOption (v : option WrittenValue) : string :=
  match v with
  | Some v => writeValue v
  | None => ""
  end.

Definition write (w : Written) : string :=
  match w with
  | WrittenOne v => writeValue v
  | WrittenRange s e => writeOption s +:+ "/" +:+ writeOption e
  end.

(** *** The canonical form *)

(** A year of four digits, a month and a day of two. *)
Definition canonicalDate (d : WrittenDate) : Prop :=
  match d with
  | WrittenYear Y => digitsOfWidth 4 Y
  | WrittenYearMonth Y MM => digitsOfWidth 4 Y /\ digitsOfWidth 2 MM
  | WrittenYearMonthDay Y MM DD =>
      digitsOfWidth 4 Y /\ digitsOfWidth 2 MM /\ digitsOfWidth 2 DD
  end.

(** Hours, minutes and seconds of two digits, and a fraction of one digit
    or more behind a dot. *)
Definition canonicalTime (t : WrittenTime) : Prop :=
  match t with
  | WrittenMinute HH MM => digitsOfWidth 2 HH /\ digitsOfWidth 2 MM
  | WrittenSecond HH MM SS =>
      digitsOfWidth 2 HH /\ digitsOfWidth 2 MM /\ digitsOfWidth 2 SS
  | WrittenFraction HH MM SS F =>
      digitsOfWidth 2 HH /\ digitsOfWidth 2 MM /\ digitsOfWidth 2 SS
      /\ isNumeral F = true
  end.

(** [Z], or a sign, two digits of hours up to 14, a colon and two digits
    of minutes up to 59. *)
Definition canonicalOffset (o : WrittenOffset) : Prop :=
  match o with
  | WrittenZ => True
  | WrittenNumeric _ HH MM =>
      digitsOfWidth 2 HH /\ digitsOfWidth 2 MM
      /\ (decimal HH <= 14)%Z /\ (decimal MM <= 59)%Z
  end.

Definition numericOffset (o : option WrittenOffset) : bool :=
  match o with
  | Some (WrittenNumeric _ _ _) => true
  | _ => false
  end.

(** The group that has the shape of a time zone, if there is one, is the
    first. *)
Definition zoneFirst (Xs : list string) : Prop :=
  match Xs with
  | [] => True
  | X :: rest =>
      timeZoneShaped X = true
      \/ Forall (fun Y => timeZoneShaped Y = false) (X :: rest)
  end.

Definition canonicalGroups (Xs : list string) : Prop :=
  Forall (fun X => strAll isBracketChar X = true) Xs.

(** A numeric offset stands behind a time. *)
Definition canonicalDateTime (a : WrittenDateTimeText) : Prop :=
  canonicalDate (w_date a)
  /\ (forall t, w_time a = Some t -> canonicalTime t)
  /\ (forall o, w_offset a = Some o -> canonicalOffset o)
  /\ (numericOffset (w_offset a) = true -> w_time a <> None)
  /\ canonicalGroups (w_groups a) /\ zoneFirst (w_groups a).

(** A number of a duration: no leading zeros, below 2^53. *)
Definition canonicalNumber (N : string) : Prop :=
  plainNumeral N = true /\ (decimal N < 2 ^ 53)%Z.

Definition canonicalUnit (x : option string) : Prop :=
  forall N, x = Some N -> canonicalNumber N.

Definition canonicalSeconds (x : option (string * option string)) : Prop :=
  forall N F, x = Some (N, F) ->
    canonicalNumber N /\ forall F1, F = Some F1 -> isNumeral F1 = true.

(** Every designator at most once, in the order of the record. *)
Definition canonicalDuration (u : WrittenDuration) : Prop :=
  canonicalUnit (w_years u) /\ canonicalUnit (w_months u)
  /\ canonicalUnit (w_weeks u) /\ canonicalUnit (w_days u)
  /\ canonicalUnit (w_hours u) /\ canonicalUnit (w_minutes u)
  /\ canonicalSeconds (w_seconds u) /\ canonicalGroups (w_annotations u).

Definition canonicalValue (v : WrittenValue) : Prop :=
  match v with
  | WrittenDateTimeValue a => canonicalDateTime a
  | WrittenDurationValue u => canonicalDuration u
  end.

Definition canonicalOption (v : option WrittenValue) : Prop :=
  match v with Some v => canonicalValue v | None => True end.

Definition canonicalForm (w : Written) : Prop :=
  match w with
  | WrittenOne v => canonicalValue v
  | WrittenRange s e => canonicalOption s /\ canonicalOption e
  end.

(** *** The syntax tree of a canonical text *)

Definition dateOfText (d : WrittenDate) : DateAst :=
  match d with
  | WrittenYear Y => mkDate (decimal Y) None None
  | WrittenYearMonth Y MM => mkDate (decimal Y) (Some (decimal MM)) None
  | WrittenYearMonthDay Y MM DD =>
      mkDate (decimal Y) (Some (decimal MM)) (Some (decimal DD))
  end.

Definition timeOfText (t : WrittenTime) : TimeAst :=
  match t with
  | WrittenMinute HH MM => mkTime (decimal HH) (decimal MM) None None
  | WrittenSecond HH MM SS => mkTime (decimal HH) (decimal MM) (Some (decimal SS)) None
  | WrittenFraction HH MM SS F =>
      mkTime (decimal HH) (decimal MM) (Some (decimal SS)) (Some F)
  end.

Definition offsetOfText (o : WrittenOffset) : OffsetAst :=
  match o with
  | WrittenZ => UtcOffset
  | WrittenNumeric sign HH MM =>
      NumericOffset sign (decimal HH) (decimal MM) (writeOffset o)
  end.

Definition plainAnnotation (X : string) : AnnotationAst := mkAnnotation X false ∅.

Definition zoneOfGroups (Xs : list string) : option TimeZoneAst :=
  match Xs with
  | X :: _ =>
      if timeZoneShaped X then Some (mkTimeZone (stripBang X) (bang X)) else None
  | [] => None
  end.

Definition annotationsOfGroups (Xs : list string) : list AnnotationAst :=
  match Xs with
  | X :: rest =>
      if timeZoneShaped X then map plainAnnotation rest
      else map plainAnnotation (X :: rest)
  | [] => []
  end.

Definition dateTimeOfText (a : WrittenDateTimeText) : DateTimeAst :=
  mkDateTime (dateOfText (w_date a)) (option_map timeOfText (w_time a))
    (option_map offsetOfText (w_offset a))
    (zoneOfGroups (w_groups a)) (annotationsOfGroups (w_groups a)).

Definition durationOfText (u : WrittenDuration) : DurationAst :=
  mkDuration (option_map decimal (w_years u)) (option_map decimal (w_months u))
    (option_map decimal (w_weeks u)) (option_map decimal (w_days u))
    (option_map decimal (w_hours u)) (option_map decimal (w_minutes u))
    (option_map (fun x => decimal (fst x)) (w_seconds u))
    (match w_seconds u with Some (_, F) => F | None => None end)
    "" (map plainAnnotation (w_annotations u)).

Definition valueOfText (v : WrittenValue) : ValueAst :=
  match v with
  | WrittenDateTimeValue a => DateTime (dateTimeOfText a)
  | WrittenDurationValue u => Duration (durationOfText u)
  end.

Definition treeOfText (w : Written) : TemporalAst :=
  match w with
  | WrittenOne v => Value (valueOfText v)
  | WrittenRange s e => Range (option_map valueOfText s) (option_map valueOfText e)
  end.

(** *** The serializer prints the tree of a canonical text as the text *)

Lemma stringifyDate_written d :
  canonicalDate d -> stringifyDate (dateOfText d) = writeDate d.
Proof.
  destruct d as [Y|Y MM|Y MM DD]; cbn [canonicalDate]; intros H;
    unfold stringifyDate, dateOfText; cbn [year month day app JS.join writeDate];
    repeat match goal with
           | |- context [JS.padStart ?k "0" (JSNumber.toString ?n)] =>
               change (JS.padStart k "0" (JSNumber.toString n)) with (pad k n)
           end.
  - rewrite (pad_digits 4 Y H) by lia. reflexivity.
  - destruct H as [H1 H2].
    rewrite (pad_digits 4 Y H1), (pad_digits 2 MM H2) by lia. reflexivity.
  - destruct H as (H1 & H2 & H3).
    rewrite (pad_digits 4 Y H1), (pad_digits 2 MM H2), (pad_digits 2 DD H3) by lia.
    reflexivity.
Qed.

Lemma stringifyTime_written t :
  canonicalTime t -> stringifyTime (timeOfText t) = writeTime t.
Proof.
  destruct t as [HH MM|HH MM SS|HH MM SS F]; cbn [canonicalTime]; intros H;
    unfold stringifyTime, timeOfText;
    cbn [hour minute second fraction app JS.join writeTime];
    repeat match goal with
           | |- context [JS.padStart ?k "0" (JSNumber.toString ?n)] =>
               change (JS.padStart k "0" (JSNumber.toString n)) with (pad k n)
           end.
  - destruct H as [H1 H2].
    rewrite (pad_digits 2 HH H1), (pad_digits 2 MM H2) by lia. reflexivity.
  - destruct H as (H1 & H2 & H3).
    rewrite (pad_digits 2 HH H1), (pad_digits 2 MM H2), (pad_digits 2 SS H3) by lia.
    reflexivity.
  - destruct H as (H1 & H2 & H3 & _).
    rewrite (pad_digits 2 HH H1), (pad_digits 2 MM H2), (pad_digits 2 SS H3) by lia.
    rewrite ?append_assoc. reflexivity.
Qed.

Lemma stringifyOffset_written o :
  canonicalOffset o -> stringifyOffset (offsetOfText o) = writeOffset o.
Proof.
  destruct o as [|sg HH MM]; cbn [canonicalOffset]; intros H; [reflexivity|].
  destruct H as (H1 & H2 & _).
  unfold offsetOfText, stringifyOffset.
  change (JS.padStart 2 "0" (JSNumber.toString (decimal HH))) with (pad 2 (decimal HH)).
  change (JS.padStart 2 "0" (JSNumber.toString (decimal MM))) with (pad 2 (decimal MM)).
  rewrite (pad_digits 2 HH H1), (pad_digits 2 MM H2) by lia. reflexivity.
Qed.

Lemma bang_stripBang X : (if bang X then "!" +:+ stripBang X else stripBang X) = X.
Proof.
  unfold stripBang. destruct (bang X) eqn:E; [|reflexivity].
  destruct X as [|c X1]; [discriminate|]. cbn [bang] in E.
  apply Ascii.eqb_eq in E. subst c. reflexivity.
Qed.

Lemma bracketTexts_written a :
  bracketTexts (dateTimeOfText a) = w_groups a.
Proof.
  unfold bracketTexts, dateTimeOfText, bracketTextsOf.
  cbn [timeZone annotations]. unfold zoneOfGroups, annotationsOfGroups.
  assert (M : forall Xs, map ann_raw (map plainAnnotation Xs) = Xs).
  { intros Xs. rewrite map_map. cbn [plainAnnotation ann_raw]. apply map_id. }
  destruct (w_groups a) as [|X rest]; [reflexivity|].
  destruct (timeZoneShaped X).
  - unfold tzText. cbn [tz_critical tz_id app]. rewrite bang_stripBang, M. reflexivity.
  - cbn [app]. apply M.
Qed.

Lemma stringifyDateTime_written a :
  canonicalDateTime a -> stringifyDateTime (dateTimeOfText a) = writeDateTime a.
Proof.
  intros (Hd & Ht & Ho & _ & _ & _).
  rewrite stringifyDateTime_parts, bracketTexts_written, <- groupsText_flat.
  unfold writeDateTime, dateTimeOfText. cbn [date time offset].
  rewrite (stringifyDate_written _ Hd).
  destruct (w_time a) as [t|]; destruct (w_offset a) as [o|];
    cbn [option_map timePartRaw offsetPartRaw flat value tk];
    rewrite <- ?stringifyTime_flat, <- ?stringifyOffset_flat,
      ?(stringifyTime_written _ (Ht _ eq_refl)),
      ?(stringifyOffset_written _ (Ho _ eq_refl)), ?append_assoc, ?append_nil_l;
    reflexivity.
Qed.

Lemma flat_unitRaw_written x unit :
  canonicalUnit x -> flat (unitRaw (option_map decimal x) unit) = writeUnit x unit.
Proof.
  intros H. destruct x as [N|]; [|reflexivity].
  cbn [option_map unitRaw flat value tk writeUnit].
  rewrite (toString_plain N (proj1 (H N eq_refl))), append_nil_r. reflexivity.
Qed.

Lemma stringifyDuration_written u :
  canonicalDuration u -> stringifyDuration (durationOfText u) = writeDuration u.
Proof.
  intros (Hy & Hmo & Hw & Hd & Hh & Hmi & Hs & _).
  rewrite stringifyDuration_flat. unfold durationRaw, durationMainRaw, durationOfText.
  cbn [years months weeks days hours minutes seconds secondsFraction dur_annotations].
  rewrite map_map. cbn [plainAnnotation ann_raw]. rewrite map_id.
  change (tk TokType.Ident "P" :: ?l) with ([tk TokType.Ident "P"] ++ l).
  rewrite !flat_app.
  rewrite (flat_unitRaw_written _ "Y" Hy), (flat_unitRaw_written _ "M" Hmo),
    (flat_unitRaw_written _ "W" Hw), (flat_unitRaw_written _ "D" Hd),
    (flat_unitRaw_written _ "H" Hh), (flat_unitRaw_written _ "M" Hmi).
  rewrite <- groupsText_flat. unfold writeDuration.
  assert (Hm : flat (markerRaw
                 (hasTimePart
                    (mkDuration (option_map decimal (w_years u))
                       (option_map decimal (w_months u))
                       (option_map decimal (w_weeks u))
                       (option_map decimal (w_days u))
                       (option_map decimal (w_hours u))
                       (option_map decimal (w_minutes u))
                       (option_map (fun x => decimal (fst x)) (w_seconds u))
                       (match w_seconds u with Some (_, F) => F | None => None end)
                       "" (map plainAnnotation (w_annotations u)))))
               = (if writtenTimePart u then "T" else "")).
  { unfold hasTimePart, writtenTimePart.
    cbn [hours minutes seconds].
    destruct (w_hours u), (w_minutes u), (w_seconds u); reflexivity. }
  rewrite Hm.
  assert (Hsec : flat (secondsRaw
                   (option_map (fun x => decimal (fst x)) (w_seconds u))
                   (match w_seconds u with Some (_, F) => F | None => None end))
                 = writeSeconds (w_seconds u)).
  { destruct (w_seconds u) as [[N F]|]; [|reflexivity].
    destruct (Hs N F eq_refl) as [HN HF].
    cbn [option_map fst secondsRaw writeSeconds]. unfold fractionRaw.
    destruct F as [F1|].
    - specialize (HF F1 eq_refl). unfold isNumeral in HF.
      apply andb_true_iff in HF as [HF _].
      destruct F1 as [|c F2]; [discriminate|].
      cbn [String.length Nat.ltb Nat.leb]. cbn [app flat value tk].
      rewrite (toString_plain N (proj1 HN)), append_nil_r. reflexivity.
    - cbn [app flat value tk].
      rewrite (toString_plain N (proj1 HN)), append_nil_r. reflexivity. }
  rewrite Hsec. cbn [flat value tk]. rewrite !append_assoc, ?append_nil_l.
  reflexivity.
Qed.

Lemma stringifyValue_written v :
  canonicalValue v -> stringifyValue (valueOfText v) = writeValue v.
Proof.
  destruct v as [a|u]; cbn [canonicalValue valueOfText stringifyValue writeValue].
  - apply stringifyDateTime_written.
  - apply stringifyDuration_written.
Qed.

Lemma stringifyTemporal_written w :
  canonicalForm w -> stringifyTemporal (treeOfText w) = write w.
Proof.
  destruct w as [v|s e]; cbn [canonicalForm treeOfText write].
  - intros H. rewrite <- (stringifyValue_written v H). destruct v; reflexivity.
  - intros [Hs He]. cbn [stringifyTemporal]. unfold stringifyRange.
    destruct s as [s|], e as [e|]; cbn [option_map writeOption canonicalOption] in *;
      rewrite ?(stringifyValue_written _ Hs), ?(stringifyValue_written _ He);
      reflexivity.
Qed.

(** *** The tree of a canonical text is canonical *)

Lemma canonicalDate_tree d : canonicalDate d -> CanonicalDate (dateOfText d).
Proof.
  destruct d as [Y|Y MM|Y MM DD]; cbn [canonicalDate]; intros H;
    unfold CanonicalDate, dateOfText; cbn [year month day].
  - split; [exact (digits_safe 4 Y H ltac:(lia))|]. split; intros n [=].
  - destruct H as [H1 H2]. split; [exact (digits_safe 4 Y H1 ltac:(lia))|].
    split; intros n [= <-]. exact (digits_safe 2 MM H2 ltac:(lia)).
  - destruct H as (H1 & H2 & H3). split; [exact (digits_safe 4 Y H1 ltac:(lia))|].
    split; intros n [= <-];
      [exact (digits_safe 2 MM H2 ltac:(lia))|exact (digits_safe 2 DD H3 ltac:(lia))].
Qed.

Lemma canonicalTime_tree t : canonicalTime t -> CanonicalTime (timeOfText t).
Proof.
  destruct t as [HH MM|HH MM SS|HH MM SS F]; cbn [canonicalTime]; intros H;
    unfold CanonicalTime, timeOfText; cbn [hour minute second fraction].
  - destruct H as [H1 H2].
    split; [exact (digits_safe 2 HH H1 ltac:(lia))|].
    split; [exact (digits_safe 2 MM H2 ltac:(lia))|].
    split; [intros n [=]|intros f [=]].
  - destruct H as (H1 & H2 & H3).
    split; [exact (digits_safe 2 HH H1 ltac:(lia))|].
    split; [exact (digits_safe 2 MM H2 ltac:(lia))|].
    split; [intros n [= <-]; exact (digits_safe 2 SS H3 ltac:(lia))|intros f [=]].
  - destruct H as (H1 & H2 & H3 & H4).
    split; [exact (digits_safe 2 HH H1 ltac:(lia))|].
    split; [exact (digits_safe 2 MM H2 ltac:(lia))|].
    split; [intros n [= <-]; exact (digits_safe 2 SS H3 ltac:(lia))|].
    intros f [= <-]. exact H4.
Qed.

Lemma canonicalOffset_tree o : canonicalOffset o -> CanonicalOffset (offsetOfText o).
Proof.
  destruct o as [|sg HH MM]; cbn [canonicalOffset]; intros H; [exact I|].
  destruct H as (H1 & H2 & H3 & H4). cbn [offsetOfText CanonicalOffset].
  pose proof (digits_safe 2 HH H1 ltac:(lia)) as [G1 _].
  pose proof (digits_safe 2 MM H2 ltac:(lia)) as [G2 _].
  split; split; assumption.
Qed.

Lemma zoneFirst_wins Xs : zoneFirst Xs -> firstWins Xs.
Proof.
  destruct Xs as [|X rest]; [exact id|]. cbn [zoneFirst firstWins].
  intros [H|H]; [left; rewrite likelyTzId_words; exact H|right].
  revert H. apply List.Forall_impl. intros Y HY. rewrite likelyTzId_words. exact HY.
Qed.

Lemma canonicalDateTime_tree a :
  canonicalDateTime a -> CanonicalDateTime (dateTimeOfText a).
Proof.
  intros (Hd & Ht & Ho & Hn & Hg & Hz). unfold CanonicalDateTime.
  rewrite bracketTexts_written. unfold dateTimeOfText. cbn [date time offset].
  split; [exact (canonicalDate_tree _ Hd)|].
  split.
  { intros t E. destruct (w_time a) as [t0|]; [|discriminate].
    injection E as <-. exact (canonicalTime_tree _ (Ht _ eq_refl)). }
  split.
  { intros o E. destruct (w_offset a) as [o0|]; [|discriminate].
    injection E as <-. exact (canonicalOffset_tree _ (Ho _ eq_refl)). }
  split.
  { intros s h m raw E. destruct (w_offset a) as [[|sg HH MM]|]; try discriminate.
    specialize (Hn eq_refl). destruct (w_time a); [discriminate|congruence]. }
  split; [exact Hg|exact (zoneFirst_wins _ Hz)].
Qed.

Lemma canonicalUnit_safe x : canonicalUnit x -> safeOpt (option_map decimal x).
Proof.
  intros H n E. destruct x as [N|]; [|discriminate]. injection E as <-.
  destruct (H N eq_refl) as [HN Hlt]. split; [|exact Hlt].
  unfold plainNumeral in HN. apply andb_true_iff in HN as [HN _].
  apply (decimal_bounds N (isNumeral_digits N HN)).
Qed.

Lemma canonicalDuration_tree u :
  canonicalDuration u -> CanonicalDuration (durationOfText u).
Proof.
  intros (Hy & Hmo & Hw & Hd & Hh & Hmi & Hs & Hg).
  unfold CanonicalDuration, durationOfText.
  cbn [years months weeks days hours minutes seconds secondsFraction dur_annotations].
  repeat (split; [apply canonicalUnit_safe; assumption|]).
  split.
  { intros n E. destruct (w_seconds u) as [[N F]|]; [|discriminate].
    injection E as <-. destruct (Hs N F eq_refl) as [[HN Hlt] _].
    split; [|exact Hlt].
    unfold plainNumeral in HN. apply andb_true_iff in HN as [HN _].
    apply (decimal_bounds N (isNumeral_digits N HN)). }
  split.
  { intros f E. destruct (w_seconds u) as [[N F]|]; [|discriminate].
    subst F. destruct (Hs N (Some f) eq_refl) as [_ HF].
    exact (isNumeral_digits f (HF f eq_refl)). }
  rewrite map_map. cbn [plainAnnotation ann_raw]. rewrite map_id. exact Hg.
Qed.

Lemma canonicalForm_tree w : canonicalForm w -> Canonical (treeOfText w).
Proof.
  assert (V : forall v, canonicalValue v -> CanonicalValue (valueOfText v)).
  { intros [a|u]; cbn [canonicalValue valueOfText CanonicalValue];
      [apply canonicalDateTime_tree|apply canonicalDuration_tree]. }
  destruct w as [v|s e]; cbn [canonicalForm treeOfText Canonical]; [apply V|].
  intros [Hs He].
  split; [destruct s as [s|]|destruct e as [e|]];
    cbn [option_map CanonicalOption canonicalOption] in *; auto.
Qed.

(** ** The time zone among the bracket groups *)

Lemma wholeDate_written d : WholeDate (dateOfText d).
Proof. destruct d; intros H; cbn in *; congruence. Qed.

Lemma wholeTime_written t : WholeTime (timeOfText t).
Proof. destruct t; intros H; cbn in *; congruence. Qed.

(** C6.  The first time-zone-shaped bracket group is the time zone, the
    others are annotations.  For the text of a date, with or without a time
    and an offset, followed by bracket groups of any contents [Xs],
    [parseTemporal] yields the date-time whose [timeZone] is the first group
    whose content, without the critical mark, has no [=] and has a [/] or
    starts with [Etc/]: its id is that content and its critical flag tells
    whether the group starts with [!].  Every other group, time-zone shaped
    or not, is an annotation, in source order, with the text between the
    brackets as [raw] and its own critical flag.  The example of the
    specification is evaluated. *)
Theorem first_timezone_bracket_wins :
  parseTemporal "2025-01-07T10:00:00[Asia/Singapore][America/New_York]"
    = Ok (Value (DateTime
            (mkDateTime (mkDate 2025 (Some 1%Z) (Some 7%Z))
               (Some (mkTime 10 0 (Some 0%Z) None)) None
               (Some (mkTimeZone "Asia/Singapore" false))
               [mkAnnotation "America/New_York" false
                  {[ "America/New_York" := PairTrue ]}])))
  /\ (forall d t o Xs,
        canonicalDate d ->
        (forall tm, t = Some tm -> canonicalTime tm) ->
        (forall off, o = Some off -> canonicalOffset off) ->
        (numericOffset o = true -> t <> None) ->
        canonicalGroups Xs ->
        exists a,
          parseTemporal (writeDateTime (mkWrittenDateTime d t o Xs))
          = Ok (Value (DateTime a))
          /\ date a = dateOfText d /\ time a = option_map timeOfText t
          /\ timeZone a
             = option_map (fun X => mkTimeZone (stripBang X) (bang X))
                 (fst (firstTimeZone Xs))
          /\ map (fun n => (ann_raw n, ann_critical n)) (annotations a)
             = map (fun X => (X, bang X)) (snd (firstTimeZone Xs))).
Proof.
  split; [vm_compute; reflexivity|].
  intros d t o Xs Hd Ht Ho Hn HXs.
  assert (Hc : canonicalDateTime (mkWrittenDateTime d t o [])).
  { unfold canonicalDateTime. cbn [w_date w_time w_offset w_groups].
    repeat (split; [assumption|]). split; [apply List.Forall_nil|exact I]. }
  pose proof (stringifyDateTime_written _ Hc) as Hs.
  pose proof (CanonicalDateTime_written _ (canonicalDateTime_tree _ Hc)) as Hw.
  change (dateTimeOfText (mkWrittenDateTime d t o []))
    with (bare (dateOfText d) (option_map timeOfText t) (option_map offsetOfText o))
    in Hs, Hw.
  assert (Ht2 : forall tm, option_map timeOfText t = Some tm -> WholeTime tm).
  { intros tm E. destruct t as [t0|]; [|discriminate]. injection E as <-.
    apply wholeTime_written. }
  destruct (parseTemporal_groups _ _ _ Xs Hw (wholeDate_written d) Ht2 HXs)
    as (a & Hp & Ha).
  exists a. split; [|exact Ha]. rewrite <- Hp, Hs.
  unfold writeDateTime. cbn [w_date w_time w_offset w_groups groupsText].
  rewrite !append_assoc. reflexivity.
Qed.

Lemma first_timezone_bracket_wins_witness :
  exists a,
    parseTemporal "2025-01-07T10:00:00+08:00[u-ca=gregory][!Asia/Tokyo][Europe/Rome]"
    = Ok (Value (DateTime a))
    /\ date a = mkDate 2025 (Some 1%Z) (Some 7%Z)
    /\ time a = Some (mkTime 10 0 (Some 0%Z) None)
    /\ timeZone a = Some (mkTimeZone "Asia/Tokyo" true)
    /\ map (fun n => (ann_raw n, ann_critical n)) (annotations a)
       = [("u-ca=gregory", false); ("Europe/Rome", false)].
Proof.
  refine (proj2 first_timezone_bracket_wins
            (WrittenYearMonthDay "2025" "01" "07")
            (Some (WrittenSecond "10" "00" "00"))
            (Some (WrittenNumeric SignPlus "08" "00"))
            ["u-ca=gregory"; "!Asia/Tokyo"; "Europe/Rome"] _ _ _ _ _).
  - repeat split; reflexivity.
  - intros tm [= <-]. repeat split; reflexivity.
  - intros off [= <-]. repeat split; first [reflexivity | discriminate].
  - intros _. discriminate.
  - repeat (apply List.Forall_cons; [reflexivity|]). apply List.Forall_nil.
Defined.

(** C2.  Canonical text is printed back as it was read.  The canonical
    form is described on the text: a date is a year of four digits, alone or
    followed by [-MM] and [-DD] of two digits; a time is [HH:MM], [HH:MM:SS]
    or [HH:MM:SS.f] with fields of two digits and a fraction of one digit or
    more behind a dot; an offset is [Z], or a sign and [HH:MM] of two digits
    each with hours up to 14 and minutes up to 59, and a numeric offset
    stands behind a time; the bracket groups hold characters of bracket
    mode, and the one that has the shape of a time zone, if any, is the
    first; a duration is [P] with each designator at most once, in the
    order [Y M W D], then [T] and [H M S] when there is a time part, every
    number written without leading zeros and below 2^53, and a fraction
    with the seconds only; a range is two such values, or nothing, around a
    slash.  For every text [s] of that form, [parseTemporal s] succeeds and
    [stringifyTemporal] of its result is [s]. *)
Theorem roundtrip_canonical w :
  canonicalForm w ->
  exists ast, parseTemporal (write w) = Ok ast /\ stringifyTemporal ast = write w.
Proof.
  intros H.
  pose proof (reprint_canonical (treeOfText w) (canonicalForm_tree w H)) as R.
  rewrite (stringifyTemporal_written w H) in R. unfold reprint in R.
  destruct (parseTemporal (write w)) as [ast|e]; [|discriminate].
  cbn [bind] in R. injection R as R. exists ast. split; [reflexivity|exact R].
Qed.

(** Discharges [canonicalForm] on a closed text. *)
Ltac canonical_text :=
  cbv [canonicalForm canonicalOption canonicalValue canonicalDateTime
       canonicalDuration canonicalDate canonicalTime canonicalOffset
       canonicalGroups canonicalUnit canonicalSeconds canonicalNumber
       digitsOfWidth zoneFirst numericOffset
       w_date w_time w_offset w_groups w_years w_months w_weeks w_days w_hours
       w_minutes w_seconds w_annotations];
  repeat match goal with
         | |- _ /\ _ => split
         | |- True => exact I
         | |- forall _, _ => intro
         | H : Some (_, _) = Some (_, _) |- _ => injection H as <- <-
         | H : Some _ = Some _ |- _ => injection H as <-
         | H : None = Some _ |- _ => discriminate H
         | |- (_ <= _)%Z => discriminate
         | |- (_ < _)%Z => reflexivity
         | |- _ <> None => discriminate
         | |- Forall _ [] => apply List.Forall_nil
         | |- Forall _ (_ :: _) => apply List.Forall_cons
         | |- _ \/ _ => left; reflexivity
         | |- _ = _ => reflexivity
         end.

(** The five canonical inputs of the specification. *)
Lemma roundtrip_canonical_witness :
  Forall (fun s => exists ast, parseTemporal s = Ok ast /\ stringifyTemporal ast = s)
    ["2025-01-12T10:00:00+08:00[Asia/Singapore]";
     "P1Y2M3DT4H5M6S";
     "2025-01-01/2025-12-31";
     "/2025-12-31";
     "2025-01-01/"].
Proof.
  pose (day1 := WrittenDateTimeValue
                  (mkWrittenDateTime (WrittenYearMonthDay "2025" "01" "01") None None [])).
  pose (day2 := WrittenDateTimeValue
                  (mkWrittenDateTime (WrittenYearMonthDay "2025" "12" "31") None None [])).
  repeat lazymatch goal with
         | |- Forall _ (_ :: _) => apply List.Forall_cons
         | |- Forall _ [] => apply List.Forall_nil
         end.
  - apply (roundtrip_canonical
             (WrittenOne (WrittenDateTimeValue
                (mkWrittenDateTime (WrittenYearMonthDay "2025" "01" "12")
                   (Some (WrittenSecond "10" "00" "00"))
                   (Some (WrittenNumeric SignPlus "08" "00"))
                   ["Asia/Singapore"])))).
    canonical_text.
  - apply (roundtrip_canonical
             (WrittenOne (WrittenDurationValue
                (mkWrittenDuration (Some "1") (Some "2") None (Some "3")
                   (Some "4") (Some "5") (Some ("6", None)) [])))).
    canonical_text.
  - apply (roundtrip_canonical (WrittenRange (Some day1) (Some day2))).
    unfold day1, day2. canonical_text.
  - apply (roundtrip_canonical (WrittenRange None (Some day2))).
    unfold day2. canonical_text.
  - apply (roundtrip_canonical (WrittenRange (Some day1) None)).
    unfold day1. canonical_text.
Defined.

(** Texts with a four-digit year, offsets [+HH:MM] and a dot before the
    fraction that are not printed back as they were read: the time zone is
    printed before the annotations, a fraction is kept with the seconds
    only, and a designator written twice is printed once. *)
Lemma canonical_criteria_not_enough :
  reprint "2025-01-12T10:00:00+08:00[u-ca=gregory][Asia/Singapore]"
    = Ok "2025-01-12T10:00:00+08:00[Asia/Singapore][u-ca=gregory]"
  /\ reprint "2025-01-12T10:00:00+08:00[u-ca=gregory][Asia/Singapore]"
     <> Ok "2025-01-12T10:00:00+08:00[u-ca=gregory][Asia/Singapore]"
  /\ reprint "PT1.5H" = Ok "PT1H"
  /\ reprint "P1Y2Y" = Ok "P3Y".
Proof.
  split; [vm_compute; reflexivity|].
  split; [vm_compute; discriminate|].
  split; vm_compute; reflexivity.
Qed.
